(* ===== verification/_CoqProject ===== *)
-Q . S2P
Prelude.v
FixedPoint.v
CharConv.v
Double.v
DoubleFacts.v
Format.v
MessageTypes.v
MarketState.v
JsonLexer.v
JsonParser.v
JsonFacts.v
KalshiMessages.v
JsonRoundTrip.v
KalshiDecoder.v
DecoderEquiv.v
Stream.v
Sockets.v
Tls.v
Frame.v
World.v
WebSocket.v
HttpResponse.v
KalshiAuth.v
HttpClient.v
HttpReplies.v
Trackers.v
Latency.v
Strategy.v
TradingBot.v
BotFacts.v
BotRun.v
SessionStream.v
OrdersOnWire.v
Exposure.v
OrderFlow.v
Signals.v
Main.v
ProgramStream.v
Requests.v
Bench.v
Fuzz.v
TestFramework.v
UnitTests.v
