(* ===== verification/Prelude.v ===== *)
(** * A verification of kalshi-client

    kalshi-client is a trading bot for the Kalshi exchange, written in C++.  Market
    data arrives over a WebSocket (src/network, src/protocol/frame_*.cpp) as JSON
    text (src/encoding); each message is decoded in one pass
    (src/protocol/kalshi_decoder.cpp), checked for sequence gaps and applied to an
    order book (src/trading/market_state.cpp); a mean-reversion strategy
    (src/trading/strategy.cpp) looks at the book and the bot's exposure and may
    signal an order, which is sent over a kept-alive HTTPS connection
    (src/protocol/http_client.cpp, http_response.cpp); fills come back in the
    order's response and on the WebSocket and are reconciled
    (src/trading/trading_bot.cpp).  The bot reconnects with exponential backoff until
    it is stopped; main.cpp starts it with credentials from the environment, or moves
    funds between exchange shards.  This development models the program from the
    command line and the bytes it receives to the orders it sends, the descriptors it
    opens and the lines it prints, as executable definitions with the names of the
    source, and proves the properties that make each part correct.

    ** Files

    - Prelude: bytes, machine integers, [std::expected], and generic lemmas.
    - FixedPoint: [parse_fixed<Scale>] (include/fixed_point.hpp).
    - CharConv: [std::from_chars] and integer formatting, as the sources use them.
    - Double: IEEE binary64 (the Standard Library's SpecFloat); DoubleFacts: how far
      rounding moves a product; Format: the floating-point and padded formats.
    - MessageTypes: the message structs of include/kalshi_messages.hpp.
    - MarketState: the order book, an abstract book over finite maps, and the
      refinement between them (market_state.hpp, market_state.cpp).
    - JsonLexer, JsonParser: json_lexer.cpp and json_parser.cpp; JsonFacts and
      JsonRoundTrip hold their theorems.
    - KalshiMessages: the decoding of messages from a JSON tree and the order
      messages (kalshi_messages.cpp).
    - KalshiDecoder: the one-pass decoder (kalshi_decoder.cpp); DecoderEquiv proves
      it equivalent to the tree path.
    - Stream: the interface between incremental parsers and the loops that read for
      them: the classes [StreamParser] and [FinalErrors] and a reader proved against
      them, with a reader of the whole stream that it implements; Frame and
      HttpResponse give the instances the clients use.
    - Sockets: tcp_socket.cpp and tls_socket.cpp over system calls and OpenSSL calls
      whose results are arguments, and which descriptors they leave open; Tls: the
      objects a TLS socket owns, their deleters and an account of what is held.
    - Frame: frame_parser.cpp and frame_builder.cpp.
    - World: the network, the clock and the console as an environment, and the monad
      of computations over a component's state and that environment.
    - WebSocket: web_socket.cpp over a scripted TLS socket.
    - HttpResponse: http_response.cpp.
    - KalshiAuth: kalshi_auth.cpp over OpenSSL as a parameter, with the class
      [OpenSslLaws] of what it documents.
    - HttpClient: http_client.cpp; HttpReplies: what the server sends, as a sequence of
      replies cut into reads.
    - Trackers: order_tracker.hpp, position_tracker.hpp and the ring buffer of
      latency_stats.hpp; Latency: its summary.
    - Strategy: strategy.cpp.
    - TradingBot: trading_bot.cpp; BotFacts holds its lemmas, among them the class
      [RunRelation] of relations that a whole run respects, with its instances for
      the trading state and the descriptors; BotRun holds its properties with a
      complete sample run and the lines it prints.
    - SessionStream: sessions as functions of the byte stream after the handshake, and
      the books of sessions and runs; OrdersOnWire: the requests a run posts and the
      signals that caused them.
    - Exposure: when the 64-bit sums of [exposure()] and of the strategy are defined;
      OrderFlow: the path of a signal to a delivered order, when nothing fails.
    - Signals: the signal handlers of main.cpp and what a stop does to the loops.
    - Main: main.cpp; ProgramStream: that the whole program does not see how the bytes
      of its connections are cut into reads, and when; Requests: the messages written
      with format strings, read back.
    - Bench: bench/benchmarks.cpp.
    - Fuzz: the fuzz targets of fuzz/, proved never to abort.
    - TestFramework: the test runner; UnitTests: the tests of tests/, evaluated on the
      model.

    ** How the code is modelled

    A [std::string], a span or a vector of bytes is a list of bytes.  A struct is a
    record, an enum or variant an inductive type.  [std::expected<T, E>] is
    [expected E T].  A fixed-width integer is a [Z] with its range in the invariant;
    where unsigned arithmetic wraps the reduction is written ([u32], [u64]); where
    signed arithmetic can overflow, which is undefined in C++, the operation returns
    [None] ([i64_add], [i64_sub]), as in the strategy's comparison with the position
    limit ([make_signal]) and in [exposure()] ([current_exposure]), which adds in the
    order in which the environment iterates the map; [exposure] is the exact sum that
    the theorems speak of, and [current_exposure_inv] shows that the code's sum is this
    number when it is defined.  A pointer or [std::optional] is an
    [option].  A [std::map] is a sorted association list, an [std::unordered_map] a
    finite map.  Mutable objects are explicit states: a method takes the state and
    returns it changed.

    Loops are structural where the source walks a list.  The recursive parsers take
    fuel that the callers compute from the input: twice its length plus three for the
    JSON parser and the decoder, which the theorems [parse_json_total] and
    [decoder_equivalent_to_tree] show to be enough; the length of the data for the
    loops of the HTTP parser, each of which advances; the session loop takes any
    fuel, and [session_fuel_enough] shows that more than the number of bytes to
    receive changes nothing.  A computation that waits for data which never comes, or
    whose signed arithmetic overflows, returns [None]; so a theorem about a run that
    returns is about the runs without overflow, which [run_book_no_overflow] and
    [exposure_never_overflows] bound, and [delta_overflow_reachable] and
    [server_fill_overflows_limit_check] show that a server can leave them.

    System calls, the clock, random numbers, OpenSSL and [std::exp] are outside the
    program.  They are arguments: what is received comes from a script of chunks and
    errors, the results of the calls of the n-th connection or write and the n-th
    clock reading are functions of n, and [OpenSsl] holds what OpenSSL returns.
    Connection attempts and writes, system calls on descriptors, sleeps, and printed
    lines are recorded in order in the world; a sleep counts as a clock reading.  A signal arrives after a number of clock
    readings; what it does is decided by the handlers that are installed.  The
    theorems hold for every such environment unless they state a hypothesis.

    ** What is proved

    - Input: the fixed-point parser accepts exactly the numerals in range; the lexer
      returns exactly the tokens of the JSON grammar; the JSON parser is total,
      returns bounded well-formed values and inverts the printer; the one-pass
      decoder accepts the same payloads as the tree path with the same messages.
    - Book: the array book with incremental best prices implements the reference book
      over maps for every sequence of events; its invariant is preserved; each error
      has exactly its documented effect; bounded quantities cannot overflow.
    - Network: the frame parser accepts exactly the legal encodings, inverts the
      builder; pings are echoed; how the network cuts into reads the WebSocket stream
      after the handshake response and HTTP replies no prefix of which is rejected does
      not change an execution of the program; responses
      are parsed stably within their limits and invert their encodings; a request is
      delivered at most once and signed for its time, method and path; a TLS socket
      releases every object and descriptor once.
    - Trading: a signal satisfies every documented condition; orders carry it
      exactly through the JSON body; every run of the bot is a sequence of trade
      steps, and each POST it tries to send is the order of a justified signal among
      them; on a network that works a signal is delivered as exactly one order,
      whose fill is accounted for; with an honest exchange the exposure never passes
      the position limit and its sum does not overflow in any order; confirming a
      fill moves it to the position and counts it once; the book of a session is made
      of the messages in its byte stream, in order, and the book of a run of those of
      one session, on which it agrees with the reference book; sequence gaps and bad
      book messages end the session without an order; signals keep the cooldown;
      reconnection does not give up and sleeps between attempts as it says.
    - Program: it exits with status 0 or 1 and every descriptor closed; without
      credentials it stops before it touches the network; a signal stops it promptly;
      funds are moved at most once; the messages it formats are the JSON it means; the
      latency summary reads inside its samples; no fuzz target aborts.

    Lemmas that show a weakness of the code are stated beside the properties:
    [delta_overflow_reachable], [server_fill_overflows_limit_check],
    [header_limit_depends_on_chunking],
    [chunk_line_limit_depends_on_chunking], [handshake_drops_trailing_bytes],
    [stale_bytes_answer_next_request], [gap_masked_by_other_channel],
    [rejected_transfer_exits_zero], [transfer_amount_overflows],
    [subscription_not_escaped], [bench_book_drains] and [second_connect_leaks].

    ** What is not modelled

    What the system, OpenSSL and its error queue (openssl_util.hpp) do inside a call;
    making and writing the temporary key of the benchmarks; [malloc] failures and the
    exceptions they raise; when a read that blocks returns after a signal.  An
    execution is a function of the replies only for servers that send nothing but
    complete responses after requests and failures: a response of which a prefix is
    rejected, or bytes after a response, are read as far as the reads happen to go,
    which [header_limit_depends_on_chunking] and [stale_bytes_answer_next_request]
    show; and the first read of a session is taken as the whole handshake response
    ([handshake_drops_trailing_bytes]).  What the definitions leave out of the
    sources are includes, declarations and comments. *)

From Stdlib Require Export ZArith Lia Bool Strings.Byte Strings.String.
From stdpp Require Export base numbers option list.
From stdpp Require Import countable.

#[global] Open Scope Z_scope.
#[global] Open Scope list_scope.

(** ** Bytes

    A C++ [char] or [std::byte] is a [Byte.byte]; a [std::string], a
    [std::string_view], a [std::span<const std::byte>] and a
    [std::vector<std::byte>] are lists of bytes. *)

Abbreviation bytes := (list byte).

(** The value of a byte as [static_cast<unsigned char>] reads it. *)
Definition bz (b : byte) : Z := Z.of_N (Byte.to_N b).

(** [static_cast<char>(z)] and [std::byte{z}]: reduction modulo 256. *)
Definition zb (z : Z) : byte :=
  match Byte.of_N (Z.to_N (z mod 256)) with
  | Some b => b
  | None => x00
  end.

(** A C++ string literal without embedded quotes. *)
Definition lit (s : string) : bytes := list_byte_of_string s.
Arguments lit s%_string_scope.

Lemma bz_range b : 0 <= bz b < 256.
Proof.
  unfold bz. pose proof (Byte.to_N_bounded b). lia.
Qed.

Lemma zb_bz b : zb (bz b) = b.
Proof.
  unfold zb. rewrite Z.mod_small by apply bz_range.
  unfold bz. by rewrite N2Z.id, Byte.of_to_N.
Qed.

Lemma bz_zb z : bz (zb z) = z mod 256.
Proof.
  unfold zb. pose proof (Z.mod_pos_bound z 256 ltac:(lia)) as Hm.
  destruct (Byte.of_N (Z.to_N (z mod 256))) as [b|] eqn:Hb.
  - apply Byte.to_of_N in Hb. unfold bz. rewrite Hb. lia.
  - apply Byte.of_N_None_iff in Hb. lia.
Qed.

Lemma bz_inj a b : bz a = bz b -> a = b.
Proof. intros H. by rewrite <- (zb_bz a), <- (zb_bz b), H. Qed.

Lemma bz_zb_small z : 0 <= z < 256 -> bz (zb z) = z.
Proof. intros H. by rewrite bz_zb, Z.mod_small. Qed.

(** A boolean property of bytes that holds of all 256 of them. *)
Lemma byte_cases (P : byte -> bool) :
  forallb (fun n => P (zb (Z.of_nat n))) (List.seq 0 256) = true -> forall b, P b = true.
Proof.
  intros H b. rewrite forallb_forall in H. pose proof (bz_range b).
  rewrite <- (zb_bz b), <- (Z2Nat.id (bz b)) by lia. apply H, in_seq. lia.
Qed.

#[export] Instance byte_eq_dec : EqDecision byte := Byte.byte_eq_dec.
#[export] Instance byte_countable : Countable byte := inj_countable Byte.to_N Byte.of_N Byte.of_to_N.

Lemma byte_eqb_spec a b : reflect (a = b) (Byte.eqb a b).
Proof.
  destruct (Byte.eqb a b) eqn:E; constructor.
  - by apply Byte.byte_dec_bl.
  - by apply Byte.eqb_false.
Qed.

Lemma byte_eqb_refl a : Byte.eqb a a = true.
Proof. by apply Byte.byte_dec_lb. Qed.

(** Equality of two byte strings, [operator==] of [std::string] and
    [std::string_view]. *)
Fixpoint bytes_eqb (s t : bytes) : bool :=
  match s, t with
  | [], [] => true
  | a :: s', b :: t' => Byte.eqb a b && bytes_eqb s' t'
  | _, _ => false
  end.

Lemma bytes_eqb_spec s t : reflect (s = t) (bytes_eqb s t).
Proof.
  revert t; induction s as [|a s IH]; intros [|b t]; cbn; try (constructor; congruence).
  destruct (byte_eqb_spec a b) as [->|Hne]; cbn.
  - destruct (IH t); constructor; congruence.
  - constructor; congruence.
Qed.

Lemma bytes_eqb_refl s : bytes_eqb s s = true.
Proof. by destruct (bytes_eqb_spec s s). Qed.

(** ** Machine integers *)

Definition INT64_MAX : Z := 9223372036854775807.
Definition INT64_MIN : Z := -9223372036854775808.
Definition UINT64_MAX : Z := 18446744073709551615.

Definition in_i64 (z : Z) : Prop := INT64_MIN <= z <= INT64_MAX.
Definition in_u64 (z : Z) : Prop := 0 <= z <= UINT64_MAX.

(** [static_cast<uint32_t>] of an unsigned value. *)
Definition u32 (z : Z) : Z := z mod 4294967296.
Definition u64 (z : Z) : Z := z mod 18446744073709551616.

(** Signed 64-bit addition: overflow is undefined behaviour, so the sum exists
    only when it is representable. *)
Definition i64_add (a b : Z) : option Z :=
  if (INT64_MIN <=? a + b) && (a + b <=? INT64_MAX) then Some (a + b) else None.

(** Signed 64-bit subtraction. *)
Definition i64_sub (a b : Z) : option Z :=
  if (INT64_MIN <=? a - b) && (a - b <=? INT64_MAX) then Some (a - b) else None.

Lemma i64_add_iff a b c : i64_add a b = Some c <-> c = a + b /\ in_i64 c.
Proof.
  unfold i64_add, in_i64. destruct (Z.leb_spec INT64_MIN (a + b)), (Z.leb_spec (a + b) INT64_MAX); cbn [andb].
  all: split; [by intros [= <-]|intros [-> ?]; by try lia].
Qed.

Lemma i64_sub_iff a b c : i64_sub a b = Some c <-> c = a - b /\ in_i64 c.
Proof.
  unfold i64_sub, in_i64. destruct (Z.leb_spec INT64_MIN (a - b)), (Z.leb_spec (a - b) INT64_MAX); cbn [andb].
  all: split; [by intros [= <-]|intros [-> ?]; by try lia].
Qed.

(** ** std::expected *)

Inductive expected (E A : Type) : Type :=
| Ok (a : A)
| Unexpected (e : E).
Arguments Ok {E A} a.
Arguments Unexpected {E A} e.

Definition has_value {E A} (x : expected E A) : bool :=
  match x with Ok _ => true | Unexpected _ => false end.

(** [if (!m) return std::unexpected(m.error());] followed by the rest. *)
Notation "'let?' x ':=' m 'in' k" :=
  (match m with Ok x => k | Unexpected e => Unexpected e end)
  (at level 10, x pattern, m at level 200, k at level 200).

(** ** Tactics *)

(** Case analysis on the innermost scrutinee of a match in the goal or in a
    hypothesis, remembering the equation. *)
Ltac case_goal :=
  match goal with
  | |- context [match ?x with _ => _ end] =>
      lazymatch x with
      | context [match _ with _ => _ end] => fail
      | _ => let E := fresh "E" in destruct x eqn:E
      end
  end.

Ltac case_hyp H :=
  match type of H with
  | context [match ?x with _ => _ end] =>
      lazymatch x with
      | context [match _ with _ => _ end] => fail
      | _ => let E := fresh "E" in destruct x eqn:E
      end
  end.

(** Boolean connectives and comparisons, as propositions. *)
Ltac bool_hyps :=
  repeat match goal with
  | H : _ && _ = true |- _ => apply andb_true_iff in H; destruct H
  | H : _ || _ = false |- _ => apply orb_false_iff in H; destruct H
  | H : negb _ = true |- _ => apply negb_true_iff in H
  | H : negb _ = false |- _ => apply negb_false_iff in H
  | H : (_ <? _) = true |- _ => apply Z.ltb_lt in H
  | H : (_ <? _) = false |- _ => apply Z.ltb_ge in H
  | H : (_ <=? _) = true |- _ => apply Z.leb_le in H
  | H : (_ <=? _) = false |- _ => apply Z.leb_gt in H
  | H : (_ =? _) = true |- _ => apply Z.eqb_eq in H
  | H : (_ =? _) = false |- _ => apply Z.eqb_neq in H
  | H : (_ >? _) = true |- _ => rewrite Z.gtb_ltb in H
  | H : (_ >? _) = false |- _ => rewrite Z.gtb_ltb in H
  end.

Create HintDb kalshi.
#[export] Hint Resolve bz_range : kalshi.
Create Rewrite HintDb kalshi_rw.
#[export] Hint Rewrite bz_zb_small zb_bz : kalshi_rw.

(** ** Lists *)

Lemma drop_cons_lookup {A} (l : list A) i x r :
  drop i l = x :: r -> l !! i = Some x /\ drop (S i) l = r /\ (i < length l)%nat.
Proof.
  intros H. assert (Hi : l !! i = Some x).
  { replace i with (i + 0)%nat by lia. by rewrite <- lookup_drop, H. }
  split; [done|]. split; [|by eapply lookup_lt_Some].
  apply drop_S in Hi. congruence.
Qed.
