(* ===== verification/FixedPoint.v ===== *)
(** * FixedPoint: exact decimal parsing (include/fixed_point.hpp)

    [parse_fixed Scale s] is the template [parse_fixed<Scale>]: the loop over
    the characters with its four local variables, the overflow guards of the
    source, and the final scaling loop.  The main theorem characterises it
    completely: it returns [v] exactly when [s] is a plain decimal numeral whose
    value is [v / 10^Scale] and [v] fits the symmetric 64-bit range. *)

From S2P Require Import Prelude.

(** ** The program *)

(** The [for (const char c: s)] loop.  [digits] and [frac_digits] are C++ [int]s
    counting characters, so they stay far below their limit. *)
Fixpoint parse_fixed_loop (Scale : nat) (s : bytes)
    (value : Z) (digits frac_digits : nat) (seen_point : bool) : option (Z * nat * nat) :=
  match s with
  | [] => Some (value, digits, frac_digits)
  | c :: s' =>
    if Byte.eqb c "."%byte then
      if seen_point then None
      else parse_fixed_loop Scale s' value digits frac_digits true
    else if (bz c <? 48) || (57 <? bz c) then None
    else
      let digits := S digits in
      if seen_point && (frac_digits =? Scale)%nat then
        if negb (Byte.eqb c "0"%byte) then None
        else parse_fixed_loop Scale s' value digits frac_digits seen_point
      else
        let digit := bz c - 48 in
        if value >? Z.quot (INT64_MAX - digit) 10 then None
        else parse_fixed_loop Scale s' (value * 10 + digit) digits
               (if seen_point then S frac_digits else frac_digits) seen_point
  end.

(** [for (; frac_digits < Scale; ++frac_digits)]: [n] is the number of rounds left. *)
Fixpoint scale_up (n : nat) (value : Z) : option Z :=
  match n with
  | O => Some value
  | S n' => if value >? Z.quot INT64_MAX 10 then None else scale_up n' (value * 10)
  end.

Definition parse_fixed (Scale : nat) (s : bytes) : option Z :=
  match s with
  | [] => None
  | c :: s' =>
    let negative := Byte.eqb c "-"%byte in
    let s := if negative then s' else s in
    match parse_fixed_loop Scale s 0 0 0 false with
    | None => None
    | Some (value, digits, frac_digits) =>
      if (digits =? 0)%nat then None
      else match scale_up (Scale - frac_digits) value with
           | None => None
           | Some value => Some (if negative then - value else value)
           end
    end
  end.

(** ** The reference: decimal numerals *)

Definition digit_char (c : byte) : Prop := 48 <= bz c <= 57.

(** The number a digit string continues, starting from [v]. *)
Definition dec_from (v : Z) (s : bytes) : Z := fold_left (fun a c => a * 10 + (bz c - 48)) s v.

Definition pow10 (n : nat) : Z := 10 ^ Z.of_nat n.

(** [numeral s neg ip fp]: [s] is an optional minus sign, integer digits [ip] and
    optionally a point followed by fraction digits [fp], with at least one digit. *)
Definition numeral (s : bytes) (neg : bool) (ip fp : bytes) : Prop :=
  exists body,
    s = (if neg then "-"%byte :: body else body) /\
    (body = ip ++ "."%byte :: fp \/ (body = ip /\ fp = [])) /\
    Forall digit_char ip /\ Forall digit_char fp /\ ip ++ fp <> [].

(** ** Lemmas on digit strings *)

Lemma digit_char_not_point c : digit_char c -> Byte.eqb c "."%byte = false.
Proof.
  intros H. destruct (byte_eqb_spec c "."%byte) as [->|]; [|done].
  unfold digit_char in H. cbn in H. lia.
Qed.

Lemma not_digit_point : ~ digit_char "."%byte.
Proof. unfold digit_char. cbn. lia. Qed.

Lemma digit_char_iff c : (bz c <? 48) || (57 <? bz c) = false <-> digit_char c.
Proof. unfold digit_char. rewrite orb_false_iff, !Z.ltb_ge. lia. Qed.

Lemma dec_from_ge v s : 0 <= v -> Forall digit_char s -> v <= dec_from v s.
Proof.
  intros Hv Hs. revert v Hv. induction Hs as [|c s Hc Hs IH]; intros v Hv; cbn; [lia|].
  unfold digit_char in Hc. specialize (IH (v * 10 + (bz c - 48)) ltac:(lia)).
  unfold dec_from in *. lia.
Qed.

Lemma dec_from_app v s t : dec_from v (s ++ t) = dec_from (dec_from v s) t.
Proof. apply fold_left_app. Qed.

Lemma dec_from_lin v s : dec_from v s = v * pow10 (length s) + dec_from 0 s.
Proof.
  revert v. induction s as [|c s IH]; intros v; cbn [length].
  - unfold dec_from, pow10. cbn. lia.
  - change (dec_from v (c :: s)) with (dec_from (v * 10 + (bz c - 48)) s).
    change (dec_from 0 (c :: s)) with (dec_from (0 * 10 + (bz c - 48)) s).
    rewrite IH, (IH (0 * 10 + _)). unfold pow10.
    rewrite Nat2Z.inj_succ, Z.pow_succ_r by lia. ring.
Qed.

Lemma pow10_pos n : 0 < pow10 n.
Proof. unfold pow10. apply Z.pow_pos_nonneg; lia. Qed.

Lemma pow10_add n m : pow10 (n + m) = pow10 n * pow10 m.
Proof. unfold pow10. rewrite Nat2Z.inj_add, Z.pow_add_r by lia. done. Qed.

Lemma pow10_S n : pow10 (S n) = 10 * pow10 n.
Proof. unfold pow10. rewrite Nat2Z.inj_succ, Z.pow_succ_r by lia. done. Qed.

Lemma dec_from_bound s : Forall digit_char s -> 0 <= dec_from 0 s < pow10 (length s).
Proof.
  intros Hs. split; [by apply (dec_from_ge 0)|].
  induction Hs as [|c s Hc Hs IH]; cbn [length]; [done|].
  change (dec_from 0 (c :: s)) with (dec_from (0 * 10 + (bz c - 48)) s).
  rewrite dec_from_lin, pow10_S. unfold digit_char in Hc. pose proof (pow10_pos (length s)). nia.
Qed.

Lemma dec_from_zeros s : Forall digit_char s -> dec_from 0 s = 0 <-> Forall (eq "0"%byte) s.
Proof.
  induction 1 as [|c s Hc Hs IH]; [by split|].
  change (dec_from 0 (c :: s)) with (dec_from (0 * 10 + (bz c - 48)) s).
  rewrite dec_from_lin. pose proof (pow10_pos (length s)). pose proof (dec_from_bound s Hs).
  unfold digit_char in Hc. rewrite Forall_cons. split.
  - intros Hz. assert (bz c = 48) by nia. split.
    + symmetry. by apply bz_inj.
    + apply IH. nia.
  - intros [<- Hz]. apply IH in Hz. rewrite Hz. change (bz "0"%byte) with 48. lia.
Qed.

(** ** The loop against the reference *)

Lemma quot_guard value digit :
  0 <= digit <= 9 -> 0 <= value ->
  (value >? Z.quot (INT64_MAX - digit) 10) = false <-> value * 10 + digit <= INT64_MAX.
Proof.
  intros Hd Hv. rewrite Z.gtb_ltb, Z.ltb_ge.
  rewrite Z.quot_div_nonneg by (unfold INT64_MAX; lia).
  unfold INT64_MAX. split; intros H; [|apply Z.div_le_lower_bound; lia].
  pose proof (Z.mul_div_le (9223372036854775807 - digit) 10 ltac:(lia)). lia.
Qed.

(** After the point: the first [Scale - frac] digits are read, the others must be zeros. *)
Lemma loop_fraction Scale s value digits frac r :
  (frac <= Scale)%nat -> 0 <= value <= INT64_MAX ->
  parse_fixed_loop Scale s value digits frac true = Some r <->
  Forall digit_char s /\
  Forall (eq "0"%byte) (drop (Scale - frac) s) /\
  dec_from value (take (Scale - frac) s) <= INT64_MAX /\
  r = (dec_from value (take (Scale - frac) s), (digits + length s)%nat,
       (frac + length (take (Scale - frac) s))%nat).
Proof.
  revert value digits frac. induction s as [|c s IH]; intros value digits frac Hf Hv.
  - cbn. rewrite take_nil, drop_nil. cbn. rewrite !Nat.add_0_r. split.
    + intros [= <-]. repeat split; auto; lia.
    + by intros (_ & _ & _ & ->).
  - cbn [parse_fixed_loop].
    destruct (byte_eqb_spec c "."%byte) as [->|Hp].
    { rewrite Forall_cons. split; [done|]. by intros [[Hs%not_digit_point _] _]. }
    destruct ((bz c <? 48) || (57 <? bz c)) eqn:Hd.
    { rewrite Forall_cons, <- digit_char_iff, Hd. intuition congruence. }
    apply digit_char_iff in Hd. cbn [andb].
    destruct (Nat.eqb_spec frac Scale) as [->|Hne].
    + destruct (byte_eqb_spec c "0"%byte) as [->|H0]; cbn [negb].
      * rewrite IH by lia. rewrite !Nat.sub_diag. cbn [drop take].
        rewrite !Forall_cons. cbn [length]. rewrite Nat.add_succ_r. rewrite drop_0.
        intuition (auto; congruence).
      * rewrite Nat.sub_diag, drop_0, !Forall_cons. intuition congruence.
    + replace (Scale - frac)%nat with (S (Scale - S frac)) by lia. cbn [take drop].
      unfold digit_char in Hd.
      destruct (value >? Z.quot (INT64_MAX - (bz c - 48)) 10) eqn:Hg.
      * split; [done|]. intros (Hs & _ & Hle & _). exfalso.
        apply Forall_cons in Hs as [_ Hs].
        pose proof (dec_from_ge (value * 10 + (bz c - 48)) (take (Scale - S frac) s)
                      ltac:(lia) ltac:(by apply Forall_take)).
        enough (value * 10 + (bz c - 48) <= INT64_MAX) as Hq.
        { apply quot_guard in Hq; [|lia..]. congruence. }
        cbn in Hle. unfold dec_from in *. lia.
      * apply quot_guard in Hg; [|lia..]. rewrite IH by lia.
        rewrite Forall_cons. cbn [length]. rewrite !Nat.add_succ_r.
        change (dec_from value (c :: take (Scale - S frac) s)) with
          (dec_from (value * 10 + (bz c - 48)) (take (Scale - S frac) s)).
        cbn [Nat.add]. split; [intros (?&?&?&->)|intros ([_ ?]&?&?&->)]; done.
Qed.

(** Before the point. *)
Lemma loop_integer Scale s value digits r :
  0 <= value <= INT64_MAX ->
  parse_fixed_loop Scale s value digits 0 false = Some r <->
  (Forall digit_char s /\ dec_from value s <= INT64_MAX /\
   r = (dec_from value s, (digits + length s)%nat, 0%nat)) \/
  (exists ip fp, s = ip ++ "."%byte :: fp /\ Forall digit_char ip /\ dec_from value ip <= INT64_MAX /\
   parse_fixed_loop Scale fp (dec_from value ip) (digits + length ip) 0 true = Some r).
Proof.
  revert value digits. induction s as [|c s IH]; intros value digits Hv.
  - cbn. rewrite Nat.add_0_r. split.
    + intros [= <-]. left. repeat split; auto; lia.
    + intros [(_ & _ & ->)|(ip & fp & H & _)]; [done|]. by destruct ip.
  - cbn [parse_fixed_loop].
    destruct (byte_eqb_spec c "."%byte) as [->|Hp].
    { split.
      - intros H. right. exists [], s. cbn. rewrite Nat.add_0_r. repeat split; auto; lia.
      - intros [(Hs & _)|(ip & fp & Heq & Hip & _ & H)].
        + by apply Forall_cons in Hs as [Hs%not_digit_point _].
        + destruct ip as [|d ip]; cbn in *; simplify_eq.
          * by rewrite Nat.add_0_r in H.
          * by apply Forall_cons in Hip as [Hs%not_digit_point _]. }
    destruct ((bz c <? 48) || (57 <? bz c)) eqn:Hd.
    { split; [done|].
      assert (~ digit_char c) by (rewrite <- digit_char_iff, Hd; done).
      intros [(Hs & _)|(ip & fp & Heq & Hip & _ & H0)].
      - apply Forall_cons in Hs as [Hs _]. done.
      - destruct ip as [|d ip]; cbn in *; simplify_eq. apply Forall_cons in Hip as [Hs _]. done. }
    apply digit_char_iff in Hd. cbn [andb]. pose proof Hd as Hd'. unfold digit_char in Hd'.
    destruct (value >? Z.quot (INT64_MAX - (bz c - 48)) 10) eqn:Hg.
    + assert (~ (value * 10 + (bz c - 48) <= INT64_MAX)) as Hbig.
      { intros Hq. apply quot_guard in Hq; [congruence|lia..]. }
      split; [done|].
      assert (forall t, Forall digit_char t -> ~ (dec_from value (c :: t) <= INT64_MAX)) as Hno.
      { intros t Ht Hle. pose proof (dec_from_ge (value * 10 + (bz c - 48)) t ltac:(lia) Ht).
        cbn in Hle. unfold dec_from in *. lia. }
      intros [(Hs & Hle & _)|(ip & fp & Heq & Hip & Hle & H0)].
      * apply Forall_cons in Hs as [_ Hs]. destruct (Hno s Hs Hle).
      * destruct ip as [|d ip]; cbn in Heq; simplify_eq.
        apply Forall_cons in Hip as [_ Hs]. destruct (Hno ip Hs Hle).
    + apply quot_guard in Hg; [|lia..]. rewrite IH by lia. rewrite Forall_cons.
      cbn [length]. rewrite Nat.add_succ_r.
      change (dec_from value (c :: s)) with (dec_from (value * 10 + (bz c - 48)) s).
      split.
      * intros [H|(ip & fp & -> & Hip & Hle & H)]; [left; intuition auto|right].
        exists (c :: ip), fp. cbn [length]. rewrite Nat.add_succ_r. rewrite Forall_cons. done.
      * intros [H|(ip & fp & Heq & Hip & Hle & H)]; [left; intuition auto|right].
        destruct ip as [|d ip]; cbn in Heq; simplify_eq.
        exists ip, fp. cbn [length] in H. rewrite Nat.add_succ_r in H.
        apply Forall_cons in Hip as [_ Hip]. done.
Qed.

Lemma scale_up_spec n value v :
  0 <= value <= INT64_MAX ->
  scale_up n value = Some v <-> v = value * pow10 n /\ v <= INT64_MAX.
Proof.
  revert value. induction n as [|n IH]; intros value Hv; cbn [scale_up].
  - change (pow10 0) with 1. split; [intros [= <-]; lia|intros [-> ?]; f_equal; lia].
  - rewrite pow10_S. pose proof (pow10_pos n).
    pose proof (quot_guard value 0 ltac:(lia) ltac:(lia)) as Hq.
    rewrite Z.sub_0_r, Z.add_0_r in Hq.
    destruct (value >? Z.quot INT64_MAX 10).
    + split; [done|]. intros [-> Hle]. exfalso.
      assert (value * 10 <= INT64_MAX -> False) by (intros Hx; by apply Hq in Hx).
      nia.
    + destruct Hq as [Hq _]. rewrite IH by (specialize (Hq eq_refl); lia).
      split; intros [-> Hle]; split; lia.
Qed.

(** The scaled integer of a numeral exists exactly when the digits beyond [Scale]
    are zeros, and is then the integer the two loops compute. *)
Lemma numeral_value_split Scale ip fp m :
  Forall digit_char fp ->
  m * pow10 (length fp) = dec_from 0 (ip ++ fp) * pow10 Scale <->
  Forall (eq "0"%byte) (drop Scale fp) /\
  m = dec_from (dec_from 0 ip) (take Scale fp) * pow10 (Scale - length (take Scale fp)).
Proof.
  intros Hfp. set (t := take Scale fp). set (d := drop Scale fp).
  assert (fp = t ++ d) as Heq by (symmetry; apply take_drop).
  assert (Forall digit_char d) as Hd by (apply Forall_drop; done).
  rewrite <- (dec_from_zeros d Hd).
  pose proof (dec_from_bound d Hd) as Hb. rewrite Heq at 1 2.
  rewrite app_assoc, !dec_from_app, length_app, pow10_add, (dec_from_lin _ d).
  set (V := dec_from (dec_from 0 ip) t) in *. set (D := dec_from 0 d) in *.
  pose proof (pow10_pos (length d)) as Hpd. pose proof (pow10_pos (length t)) as Hpt.
  destruct (le_lt_dec (length fp) Scale) as [Hle|Hlt].
  - assert (d = []) as Hdn by (apply drop_ge; done).
    assert (t = fp) as -> by (apply take_ge; done).
    assert (pow10 Scale = pow10 (length fp) * pow10 (Scale - length fp)) as ->.
    { rewrite <- pow10_add. f_equal. lia. }
    assert (D = 0) as -> by (subst D; rewrite Hdn; done).
    rewrite Hdn. change (pow10 (length (@nil byte))) with 1.
    split; [intros H; split; nia | intros [_ ->]; ring].
  - assert (length t = Scale) as Hlen by (subst t; rewrite length_take; lia).
    rewrite Hlen, Nat.sub_diag. change (pow10 0) with 1.
    pose proof (pow10_pos Scale) as Hps. split.
    + intros Hx. assert (m * pow10 (length d) = V * pow10 (length d) + D) by nia.
      assert (m = V) by (destruct (Z.lt_trichotomy m V) as [?|[?|?]]; [nia|done|nia]).
      split; nia.
    + intros [-> ->]. ring.
Qed.

Lemma parse_body_spec Scale body m :
  (exists value digits frac,
      parse_fixed_loop Scale body 0 0 0 false = Some (value, digits, frac) /\
      digits <> 0%nat /\ scale_up (Scale - frac) value = Some m) <->
  (exists ip fp,
      (body = ip ++ "."%byte :: fp \/ (body = ip /\ fp = [])) /\
      Forall digit_char ip /\ Forall digit_char fp /\ ip ++ fp <> [] /\
      m * pow10 (length fp) = dec_from 0 (ip ++ fp) * pow10 Scale /\ m <= INT64_MAX).
Proof.
  assert (0 <= 0 <= INT64_MAX) as H0 by (unfold INT64_MAX; lia).
  split.
  - intros (value & digits & frac & Hl & Hd & Hs).
    apply loop_integer in Hl as [(Hip & Hle & [= -> -> ->])|(ip & fp & -> & Hip & Hle & Hl)]; [| |done].
    + pose proof (dec_from_ge 0 body ltac:(lia) Hip).
      apply scale_up_spec in Hs as [-> Hm]; [|lia].
      exists body, []. rewrite app_nil_r, Nat.sub_0_r in *. change (pow10 (length [])) with 1.
      repeat split; auto; [|lia]. by intros ->.
    + pose proof (dec_from_ge 0 ip ltac:(lia) Hip).
      apply loop_fraction in Hl as (Hfp & Hz & Hle2 & [= -> -> ->]); [|lia..].
      rewrite !Nat.sub_0_r in *. cbn [Nat.add] in *.
      pose proof (dec_from_ge (dec_from 0 ip) (take Scale fp) ltac:(lia) ltac:(by apply Forall_take)).
      apply scale_up_spec in Hs as [-> Hm]; [|lia].
      exists ip, fp. split; [by left|]. do 2 (split; [done|]). split.
      { intros Hn. apply app_eq_nil in Hn as [-> ->]. done. }
      split; [|done]. by apply numeral_value_split.
  - intros (ip & fp & Hbody & Hip & Hfp & Hne & Hval & Hm).
    pose proof Hval as Hval'. apply numeral_value_split in Hval' as [Hz ->]; [|done].
    pose proof (dec_from_ge 0 ip ltac:(lia) Hip) as Hi.
    pose proof (dec_from_ge (dec_from 0 ip) (take Scale fp) ltac:(lia) ltac:(by apply Forall_take)) as Hf.
    pose proof (pow10_pos (Scale - length (take Scale fp))) as Hp.
    assert (dec_from (dec_from 0 ip) (take Scale fp) <= INT64_MAX) by nia.
    assert ((0 < length ip + length fp)%nat) as Hlen.
    { destruct ip, fp; cbn; try lia. done. }
    destruct Hbody as [->|[-> ->]].
    + do 3 eexists. split; [apply loop_integer; [done|right]|].
      * exists ip, fp. do 2 (split; [done|]). split; [lia|].
        apply loop_fraction; [lia..|]. rewrite Nat.sub_0_r. done.
      * cbn. split; [lia|]. apply scale_up_spec; [lia|]. done.
    + rewrite take_nil in *. cbn [length] in *. rewrite Nat.sub_0_r in *.
      do 3 eexists. split; [apply loop_integer; [done|left; repeat split; auto]|].
      cbn in *. split; [lia|]. rewrite Nat.sub_0_r. apply scale_up_spec; [lia|]. done.
Qed.

Lemma body_no_minus body ip fp :
  (body = ip ++ "."%byte :: fp \/ (body = ip /\ fp = [])) -> Forall digit_char ip ->
  forall t, body <> "-"%byte :: t.
Proof.
  intros Hb Hip t ->. destruct ip as [|c ip].
  - destruct Hb as [Hb|[Hb _]]; cbn in Hb; discriminate.
  - assert (c = "-"%byte) as -> by (destruct Hb as [Hb|[Hb _]]; cbn in Hb; congruence).
    apply Forall_cons in Hip as [Hc _]. unfold digit_char in Hc. cbn in Hc. lia.
Qed.

(** [parse_fixed] after the sign has been removed. *)
Lemma parse_fixed_unfold Scale s v :
  parse_fixed Scale s = Some v <->
  exists (neg : bool) (body : bytes) (m : Z), s = (if neg then "-"%byte :: body else body) /\
    (neg = false -> forall t, body <> "-"%byte :: t) /\ s <> [] /\
    (exists (value : Z) (digits frac : nat),
      parse_fixed_loop Scale body 0 0 0 false = Some (value, digits, frac) /\
      digits <> 0%nat /\ scale_up (Scale - frac) value = Some m) /\
    v = (if neg then - m else m).
Proof.
  unfold parse_fixed. destruct s as [|c s].
  { split; [done|]. intros (neg & body & m & _ & _ & Hs & _). done. }
  split.
  - intros H. exists (Byte.eqb c "-"%byte), (if Byte.eqb c "-"%byte then s else c :: s).
    destruct (parse_fixed_loop _ _ _ _ _ _) as [[[value digits] frac]|] eqn:El; [|done].
    destruct (Nat.eqb_spec digits 0); [done|].
    destruct (scale_up _ _) as [m|] eqn:Es; [|done]. simplify_eq.
    exists m. repeat split; eauto 10.
    + by destruct (byte_eqb_spec c "-"%byte) as [->|].
    + destruct (byte_eqb_spec c "-"%byte) as [->|]; [done|]. congruence.
  - intros (neg & body & m & Hs & Hno & _ & (value & digits & frac & El & Hd & Es) & ->).
    assert (Byte.eqb c "-"%byte = neg /\ (if neg then s else c :: s) = body) as [-> ->].
    { destruct neg; [by simplify_eq|]. subst body. split; [|done].
      destruct (byte_eqb_spec c "-"%byte) as [->|]; [|done]. by destruct (Hno eq_refl s). }
    rewrite El. apply Nat.eqb_neq in Hd. by rewrite Hd, Es.
Qed.

Lemma parse_fixed_iff Scale s v :
  parse_fixed Scale s = Some v <->
  exists (neg : bool) (ip fp : bytes) (m : Z),
    numeral s neg ip fp /\
    m * pow10 (length fp) = dec_from 0 (ip ++ fp) * pow10 Scale /\
    m <= INT64_MAX /\ v = (if neg then - m else m).
Proof.
  rewrite parse_fixed_unfold. unfold numeral. split.
  - intros (neg & body & m & Hs & _ & _ & Hb & Hv).
    apply parse_body_spec in Hb as (ip & fp & ? & ? & ? & ? & ? & ?).
    exists neg, ip, fp, m. eauto 10.
  - intros (neg & ip & fp & m & (body & Hs & Hb & Hip & Hfp & Hne) & Hval & Hm & Hv).
    exists neg, body, m. split; [done|]. split; [by intros _; eapply body_no_minus|].
    split; [|split; [apply parse_body_spec; eauto 10|done]].
    rewrite Hs. destruct neg; [done|]. intros ->.
    destruct Hb as [Hb|[<- ->]]; [by destruct ip|done].
Qed.

(** C20. [parse_fixed<Scale>] is exact: it returns [v] if and only if the string is
    a decimal numeral (optional minus sign, digits, at most one point, at least one
    digit) whose rational value is exactly [v / 10^Scale], and the magnitude of [v]
    is representable in an [int64_t].  Rounding, truncation, overflow and malformed
    input all yield [nullopt]. *)
Theorem parse_fixed_exact Scale s v :
  parse_fixed Scale s = Some v <->
  exists (neg : bool) (ip fp : bytes) (m : Z),
    numeral s neg ip fp /\
    m * pow10 (length fp) = dec_from 0 (ip ++ fp) * pow10 Scale /\
    m <= INT64_MAX /\ v = (if neg then - m else m).
Proof. apply parse_fixed_iff. Qed.

(** The compile-time checks of the header, evaluated. *)
(** The assertions the compiler checks. *)
Definition static_asserts : Prop :=
  parse_fixed 2 (lit "0.29") = Some 29 /\ parse_fixed 2 (lit "0.2900") = Some 29 /\
  parse_fixed 2 (lit "12.00") = Some 1200 /\ parse_fixed 2 (lit "-5.00") = Some (-500) /\
  parse_fixed 2 (lit "7") = Some 700 /\ parse_fixed 0 (lit "3.00") = Some 3 /\
  parse_fixed 2 (lit "0.295") = None /\ parse_fixed 2 (lit "1.2.3") = None /\
  parse_fixed 2 (lit "-") = None /\ parse_fixed 2 (lit "abc") = None /\
  parse_fixed 0 (lit "9223372036854775807") = Some INT64_MAX /\
  parse_fixed 0 (lit "9223372036854775808") = None.

Example parse_fixed_static_asserts : static_asserts.
Proof. by vm_compute. Qed.
