(* ===== verification/CharConv.v ===== *)
(** * CharConv: the integer/text conversions of the C++ library the program uses

    [std::from_chars] for unsigned 64-bit values (bases 10 and 16) and for [int],
    and [std::format] of integers with the format specifications that occur in
    src/ ([{}], [{:03}], [{:04x}]).  The results are those the C++ standard
    prescribes; [from_chars] returns the value together with the number of
    characters consumed, which stands for the returned pointer. *)

From S2P Require Import Prelude FixedPoint.

(** ** std::from_chars *)

Inductive from_chars_result : Type :=
| FcInvalidArgument
| FcOutOfRange (consumed : nat)
| FcOk (value : Z) (consumed : nat).

(** The value of a digit in [base]. *)
Definition digit_value (base : Z) (c : byte) : option Z :=
  let v :=
    if (48 <=? bz c) && (bz c <=? 57) then bz c - 48
    else if (97 <=? bz c) && (bz c <=? 122) then bz c - 87
    else if (65 <=? bz c) && (bz c <=? 90) then bz c - 55
    else base in
  if v <? base then Some v else None.

(** The longest prefix of digits: its value and its length. *)
Fixpoint scan_digits (base : Z) (s : bytes) (acc : Z) (n : nat) : Z * nat :=
  match s with
  | [] => (acc, n)
  | c :: s' =>
    match digit_value base c with
    | Some d => scan_digits base s' (acc * base + d) (S n)
    | None => (acc, n)
    end
  end.

Definition from_chars_u64 (base : Z) (s : bytes) : from_chars_result :=
  let '(v, n) := scan_digits base s 0 0 in
  if (n =? 0)%nat then FcInvalidArgument
  else if UINT64_MAX <? v then FcOutOfRange n else FcOk v n.

(** A leading minus sign is accepted for the signed type only. *)
Definition from_chars_int (s : bytes) : from_chars_result :=
  let neg := match s with c :: _ => Byte.eqb c "-"%byte | [] => false end in
  let '(v, n) := scan_digits 10 (if neg then drop 1 s else s) 0 0 in
  let v := if neg then - v else v in
  let consumed := if neg then S n else n in
  if (n =? 0)%nat then FcInvalidArgument
  else if (v <? -2147483648) || (2147483647 <? v) then FcOutOfRange consumed
  else FcOk v consumed.

(** The idiom [ec == errc{} && ptr == end]: the whole string is a number. *)
Definition from_chars_all (base : Z) (s : bytes) : option Z :=
  match from_chars_u64 base s with
  | FcOk v n => if (n =? length s)%nat then Some v else None
  | _ => None
  end.

(** ** std::format of integers *)

Definition dec_digit (d : Z) : byte := zb (48 + d).

Definition hex_digit (d : Z) : byte := zb (if d <? 10 then 48 + d else 87 + d).

Fixpoint fmt_digits (fuel : nat) (n : Z) (acc : bytes) : bytes :=
  match fuel with
  | O => acc
  | S f =>
    if n <? 10 then dec_digit n :: acc
    else fmt_digits f (n / 10) (dec_digit (n mod 10) :: acc)
  end.

(** [{}] of a non-negative integer; [log2 n + 1] rounds are enough. *)
Definition fmt_uint (n : Z) : bytes := fmt_digits (S (Z.to_nat (Z.log2 n))) n [].

(** [{}] *)
Definition fmt_int (z : Z) : bytes :=
  if z <? 0 then "-"%byte :: fmt_uint (- z) else fmt_uint z.

(** [{:0w}]: zeros are inserted between the sign and the digits. *)
Definition fmt_int_pad0 (w : nat) (z : Z) : bytes :=
  let sign := if z <? 0 then ["-"%byte] else [] in
  let ds := fmt_uint (Z.abs z) in
  sign ++ repeat "0"%byte (w - length sign - length ds) ++ ds.

(** [{:04x}] of an [unsigned char]. *)
Definition fmt_hex4 (z : Z) : bytes :=
  ["0"%byte; "0"%byte; hex_digit (z / 16); hex_digit (z mod 16)].

(** ** Lemmas *)

Lemma dec_digit_digit_char d : 0 <= d < 10 -> digit_char (dec_digit d) /\ bz (dec_digit d) - 48 = d.
Proof.
  intros Hd. unfold dec_digit, digit_char. rewrite bz_zb_small by lia. lia.
Qed.

Lemma digit_value_10 c : digit_value 10 c = if (bz c <? 48) || (57 <? bz c) then None else Some (bz c - 48).
Proof.
  unfold digit_value.
  destruct ((48 <=? bz c) && (bz c <=? 57)) eqn:E1.
  - bool_hyps. destruct (Z.ltb_spec (bz c) 48), (Z.ltb_spec 57 (bz c)); try lia. cbn.
    destruct (Z.ltb_spec (bz c - 48) 10); [done|lia].
  - apply andb_false_iff in E1.
    assert ((bz c <? 48) || (57 <? bz c) = true) as ->.
    { destruct E1; bool_hyps; apply orb_true_iff; rewrite !Z.ltb_lt; lia. }
    destruct ((97 <=? bz c) && (bz c <=? 122)) eqn:E2; bool_hyps.
    { destruct (Z.ltb_spec (bz c - 87) 10); [lia|done]. }
    destruct ((65 <=? bz c) && (bz c <=? 90)) eqn:E3; bool_hyps.
    { destruct (Z.ltb_spec (bz c - 55) 10); [lia|done]. }
    done.
Qed.

Lemma scan_digits_all s acc n :
  Forall digit_char s -> scan_digits 10 s acc n = (dec_from acc s, (n + length s)%nat).
Proof.
  intros Hs. revert acc n. induction Hs as [|c s Hc Hs IH]; intros acc n; cbn.
  - by rewrite Nat.add_0_r.
  - rewrite digit_value_10. apply digit_char_iff in Hc. rewrite Hc, IH.
    cbn. f_equal. lia.
Qed.

Lemma scan_digits_count base s acc n v m :
  scan_digits base s acc n = (v, m) -> (n <= m <= n + length s)%nat.
Proof.
  revert acc n. induction s as [|c s IH]; intros acc n; cbn; [intros [= <- <-]; lia|].
  destruct (digit_value base c); [|intros [= <- <-]; lia].
  intros H. apply IH in H. lia.
Qed.

Lemma scan_digits_full s acc n v :
  scan_digits 10 s acc n = (v, (n + length s)%nat) -> Forall digit_char s.
Proof.
  revert acc n. induction s as [|c s IH]; intros acc n; cbn; [done|].
  rewrite digit_value_10. destruct ((bz c <? 48) || (57 <? bz c)) eqn:E.
  - intros [= <- Hn]. lia.
  - intros H. constructor; [by apply digit_char_iff|].
    eapply (IH _ (S n)). rewrite H. f_equal. lia.
Qed.

(** The whole-string idiom accepts exactly the digit strings in range. *)
Lemma from_chars_all_10 s v :
  from_chars_all 10 s = Some v <->
  Forall digit_char s /\ s <> [] /\ v = dec_from 0 s /\ v <= UINT64_MAX.
Proof.
  unfold from_chars_all, from_chars_u64. split.
  - destruct (scan_digits 10 s 0 0) as [w n] eqn:E.
    destruct (Nat.eqb_spec n 0); [done|]. destruct (Z.ltb_spec UINT64_MAX w); [done|].
    destruct (Nat.eqb_spec n (length s)) as [->|]; [|done]. intros [= <-].
    pose proof (scan_digits_full s 0 0 w E) as Hs. rewrite scan_digits_all in E by done.
    simplify_eq. repeat split; [done| |lia]. by intros ->.
  - intros (Hs & Hne & -> & Hle). rewrite scan_digits_all by done. cbn.
    destruct (Nat.eqb_spec (length s) 0) as [H0|_]; [by destruct s|].
    destruct (Z.ltb_spec UINT64_MAX (dec_from 0 s)); [lia|]. by rewrite Nat.eqb_refl.
Qed.

Lemma fmt_digits_spec fuel n acc :
  0 <= n < pow10 fuel -> (0 < fuel)%nat ->
  exists ds, fmt_digits fuel n acc = ds ++ acc /\ Forall digit_char ds /\ ds <> [] /\ dec_from 0 ds = n.
Proof.
  revert n acc. induction fuel as [|f IH]; intros n acc Hn Hf; [lia|]. cbn [fmt_digits].
  destruct (Z.ltb_spec n 10).
  - destruct (dec_digit_digit_char n ltac:(lia)) as [Hd Hv].
    exists [dec_digit n]. repeat split; [by apply Forall_singleton|done|]. cbn. lia.
  - rewrite pow10_S in Hn. pose proof (Z.mod_pos_bound n 10 ltac:(lia)) as Hm.
    assert (0 <= n / 10 < pow10 f) as Hq.
    { split; [apply Z.div_pos; lia|apply Z.div_lt_upper_bound; lia]. }
    destruct f as [|f'].
    { change (pow10 0) with 1 in Hq. pose proof (Z.div_le_lower_bound n 10 1). lia. }
    destruct (IH (n / 10) (dec_digit (n mod 10) :: acc) Hq ltac:(lia)) as (ds & -> & Hds & Hne & Hval).
    destruct (dec_digit_digit_char (n mod 10) Hm) as [Hd Hv].
    exists (ds ++ [dec_digit (n mod 10)]). rewrite <- app_assoc. repeat split.
    + apply Forall_app. split; [done|by apply Forall_singleton].
    + by destruct ds.
    + rewrite dec_from_app, Hval. cbn. rewrite Hv. pose proof (Z.div_mod n 10). lia.
Qed.

Lemma fmt_uint_spec n :
  0 <= n -> Forall digit_char (fmt_uint n) /\ fmt_uint n <> [] /\ dec_from 0 (fmt_uint n) = n.
Proof.
  intros Hn. unfold fmt_uint.
  destruct (fmt_digits_spec (S (Z.to_nat (Z.log2 n))) n []) as (ds & -> & Hds & Hne & Hval); [|lia|].
  - split; [done|]. unfold pow10. rewrite Nat2Z.inj_succ, Z2Nat.id by apply Z.log2_nonneg.
    destruct (Z.eq_dec n 0) as [->|Hnz]; [done|].
    pose proof (Z.log2_spec n ltac:(lia)) as [_ Hl].
    pose proof (Z.pow_le_mono_l 2 10 (Z.succ (Z.log2 n)) ltac:(lia)). lia.
  - by rewrite app_nil_r.
Qed.

(** Printing and reading back an unsigned 64-bit value. *)
Lemma from_chars_fmt_uint n : in_u64 n -> from_chars_all 10 (fmt_uint n) = Some n.
Proof.
  intros [Hn Hm]. destruct (fmt_uint_spec n Hn) as (Hd & Hne & Hv).
  apply from_chars_all_10. auto.
Qed.

Lemma digit_value_nonneg base c d : digit_value base c = Some d -> 0 <= base -> 0 <= d.
Proof.
  unfold digit_value. pose proof (bz_range c).
  repeat match goal with |- context [if ?x then _ else _] => destruct x eqn:? end;
    intros [= <-] Hb; bool_hyps; lia.
Qed.

Lemma scan_digits_nonneg base s acc n v m :
  scan_digits base s acc n = (v, m) -> 0 <= base -> 0 <= acc -> 0 <= v.
Proof.
  revert acc n. induction s as [|c s IH]; intros acc n; cbn; [by intros [= <- _]|].
  destruct (digit_value base c) as [d|] eqn:E; [|by intros [= <- _]].
  intros H Hb Ha. pose proof (digit_value_nonneg _ _ _ E Hb). eapply IH; [exact H|done|nia].
Qed.

Lemma from_chars_all_u64 base s v : 0 <= base -> from_chars_all base s = Some v -> in_u64 v.
Proof.
  intros Hb. unfold from_chars_all, from_chars_u64.
  destruct (scan_digits base s 0 0) as [w m] eqn:E. destruct (m =? 0)%nat; [done|].
  destruct (Z.ltb_spec UINT64_MAX w); [done|]. destruct (m =? length s)%nat; [|done].
  intros [= <-]. apply scan_digits_nonneg in E; [|done..]. by split.
Qed.
