(* ===== verification/Double.v ===== *)
(** * Double: the floating-point operations of the program

    [double] is IEEE binary64 as specified by the Standard Library's SpecFloat,
    rounding to nearest, ties to even. *)

From Stdlib Require Export Floats.SpecFloat.
From S2P Require Import Prelude.

Abbreviation double := spec_float.

Definition dadd (x y : double) : double := SFadd 53 1024 x y.
Definition dsub (x y : double) : double := SFsub 53 1024 x y.
Definition dmul (x y : double) : double := SFmul 53 1024 x y.
Definition ddiv (x y : double) : double := SFdiv 53 1024 x y.
Definition dneg (x : double) : double := SFopp x.

(** [static_cast<double>] of an integer. *)
Definition of_int (z : Z) : double := binary_normalize 53 1024 z 0 false.

(** [x <= y] and [x >= y]; comparisons with NaN are false. *)
Definition dle (x y : double) : bool := match SFcompare x y with Some Lt | Some Eq => true | _ => false end.
Definition dge (x y : double) : bool := dle y x.

(** [static_cast<size_t>] of a double, where its value truncated toward zero is
    representable; other conversions are undefined. *)
Definition to_size (x : double) : option Z :=
  match x with
  | S754_zero _ => Some 0
  | S754_finite s m e =>
    let v := if 0 <=? e then Z.pos m * 2 ^ e else Z.pos m / 2 ^ (- e) in
    if s then (if v =? 0 then Some 0 else None) else if v <=? UINT64_MAX then Some v else None
  | _ => None
  end.
