(* ===== verification/DoubleFacts.v ===== *)
(** * DoubleFacts: rounding of products

    The rounding of SpecFloat is within half a unit in the last place of the exact
    value, and integers below 2^53 are represented exactly. *)

From S2P Require Import Prelude Double.

(** ** Shifting out bits *)

(** [l] says where [n] lies between [m * P] and [(m + 1) * P]. *)
Definition located (n m P : Z) (l : location) : Prop :=
  match l with
  | loc_Exact => n = m * P
  | loc_Inexact Lt => m * P < n /\ 2 * n < 2 * (m * P) + P
  | loc_Inexact Eq => 2 * n = 2 * (m * P) + P
  | loc_Inexact Gt => 2 * (m * P) + P < 2 * n < 2 * (m * P) + 2 * P
  end.

Definition shifted (n P : Z) (rec : shr_record) : Prop :=
  0 <= shr_m rec /\ located n (shr_m rec) P (loc_of_shr_record rec).

Lemma shr_1_half m r s :
  0 <= m -> let rec := shr_1 {| shr_m := m; shr_r := r; shr_s := s |} in
  0 <= shr_m rec /\ m = 2 * shr_m rec + (if shr_r rec then 1 else 0) /\ shr_s rec = r || s.
Proof. intros Hm. destruct m as [|[p|p|]|p]; cbn; lia || done. Qed.

Lemma shr_1_shifted n P rec : 0 < P -> shifted n P rec -> shifted n (2 * P) (shr_1 rec).
Proof.
  intros HP [Hm Hl]. destruct rec as [m r s]. cbn [shr_m] in Hm.
  destruct (shr_1_half m r s Hm) as (Hm' & He & Hs). set (rec := shr_1 _) in *.
  destruct rec as [m' r' s']. cbn [shr_m shr_r shr_s] in *. split; [done|]. subst s'.
  assert (m * P = 2 * (m' * P) + (if r' then P else 0)) as Hmul by (rewrite He; destruct r'; lia).
  unfold located in *. cbn [loc_of_shr_record shr_m] in *. rewrite Z.mul_assoc, (Z.mul_comm m' 2), <- Z.mul_assoc.
  destruct r, s, r'; cbn in *; lia.
Qed.

Lemma iter_pos_nat {A} (f : A -> A) p x : iter_pos f p x = Nat.iter (Pos.to_nat p) f x.
Proof.
  revert x. induction p as [p IH|p IH|]; intros x; cbn [iter_pos]; [..|done].
  - rewrite !IH, Pos2Nat.inj_xI, <- Nat.iter_add. replace (S (2 * Pos.to_nat p)) with (Pos.to_nat p + Pos.to_nat p + 1)%nat by lia.
    by rewrite (Nat.iter_add (Pos.to_nat p + Pos.to_nat p) 1).
  - rewrite !IH, Pos2Nat.inj_xO, <- Nat.iter_add. f_equal. lia.
Qed.

Lemma iter_shifted n k : 0 <= n -> shifted n (2 ^ Z.of_nat k) (Nat.iter k shr_1 {| shr_m := n; shr_r := false; shr_s := false |}).
Proof.
  intros Hn. induction k as [|k IH]; [split; cbn; lia|]. cbn [Nat.iter].
  replace (2 ^ Z.of_nat (S k)) with (2 * 2 ^ Z.of_nat k) by (rewrite Nat2Z.inj_succ, Z.pow_succ_r; lia).
  apply shr_1_shifted; [apply Z.pow_pos_nonneg; lia|exact IH].
Qed.

Lemma shr_shifted n e k :
  0 <= n -> 0 <= k -> let '(rec, e') := shr {| shr_m := n; shr_r := false; shr_s := false |} e k in
  e' = e + k /\ shifted n (2 ^ k) rec.
Proof.
  intros Hn Hk. destruct k as [|p|p]; cbn [shr]; [|split; [done|]|lia].
  - split; [lia|]. split; cbn; lia.
  - rewrite iter_pos_nat. replace (Z.pos p) with (Z.of_nat (Pos.to_nat p)) at 1 by lia. by apply iter_shifted.
Qed.

(** ** Rounding *)

Lemma round_nearest_spec n m P l :
  located n m P l -> 0 < P -> let r := round_nearest_even m l in
  m <= r <= m + 1 /\ 2 * n - P <= 2 * (r * P) <= 2 * n + P.
Proof.
  unfold located, round_nearest_even. intros Hl HP. cbv zeta.
  destruct l as [|[| |]]; [| | |]; try (destruct (Z.even m)); rewrite ?Z.mul_add_distr_r, ?Z.mul_1_l; lia.
Qed.

Lemma digits2_pos_bounds p : 2 ^ (Z.pos (digits2_pos p) - 1) <= Z.pos p < 2 ^ Z.pos (digits2_pos p).
Proof.
  induction p as [p IH|p IH|]; cbn [digits2_pos]; [..|cbn; lia];
    rewrite Pos2Z.inj_succ; unfold Z.succ; rewrite Z.add_simpl_r;
    assert (2 ^ (Z.pos (digits2_pos p) + 1) = 2 * 2 ^ Z.pos (digits2_pos p)) as -> by (by rewrite Z.pow_add_r, Z.mul_comm);
    assert (2 ^ Z.pos (digits2_pos p) = 2 * 2 ^ (Z.pos (digits2_pos p) - 1)) by
      (rewrite <- Z.pow_succ_r by lia; f_equal; lia); lia.
Qed.

Lemma digits_unique p d : 0 < d -> 2 ^ (d - 1) <= Z.pos p < 2 ^ d -> Z.pos (digits2_pos p) = d.
Proof.
  intros Hd [H1 H2]. pose proof (digits2_pos_bounds p) as [H3 H4].
  destruct (Z.lt_trichotomy (Z.pos (digits2_pos p)) d) as [H|[H|H]]; [|done|].
  - assert (2 ^ Z.pos (digits2_pos p) <= 2 ^ (d - 1)) by (apply Z.pow_le_mono_r; lia). lia.
  - assert (2 ^ d <= 2 ^ (Z.pos (digits2_pos p) - 1)) by (apply Z.pow_le_mono_r; lia). lia.
Qed.

Definition exact (n : Z) : shr_record := {| shr_m := n; shr_r := false; shr_s := false |}.

(** Rounding a mantissa [M] of at least 53 bits, away from the ends of the exponent
    range: the result is within a relative error of 2^-53. *)
Lemma round_aux_spec M e :
  let D := Z.pos (digits2_pos M) in
  53 <= D -> -1074 <= D + e - 53 -> D + e - 52 <= 971 ->
  exists m K, binary_round_aux 53 1024 false (Z.pos M) e loc_Exact = S754_finite false m (e + K) /\
    0 <= K /\ 2 ^ 53 * Z.abs (Z.pos m * 2 ^ K - Z.pos M) <= Z.pos M.
Proof.
  intros D HD Hlo Hhi. pose proof (digits2_pos_bounds M) as [HM1 HM2]. fold D in HM1, HM2.
  unfold binary_round_aux, shr_fexp at 1. cbn [shr_record_of_loc Zdigits2].
  assert (fexp 53 1024 (Z.pos (digits2_pos M) + e) - e = D - 53) as -> by (unfold fexp, emin; fold D; lia).
  pose proof (shr_shifted (Z.pos M) e (D - 53) ltac:(lia) ltac:(lia)) as Hs. fold (exact (Z.pos M)) in *.
  destruct (shr (exact (Z.pos M)) e (D - 53)) as [rec e']. destruct Hs as (-> & Hm & Hl).
  set (P := 2 ^ (D - 53)) in *. assert (0 < P) as HP by (apply Z.pow_pos_nonneg; lia).
  pose proof (round_nearest_spec _ _ _ _ Hl HP) as [Hr1 Hr2]. set (r := round_nearest_even _ _) in *.
  assert (2 ^ D = 2 ^ 53 * P /\ 2 ^ (D - 1) = 2 ^ 52 * P) as [E1 E2].
  { subst P. rewrite <- !Z.pow_add_r by lia. split; f_equal; lia. }
  rewrite E1 in HM2. rewrite E2 in HM1.
  assert (2 ^ 52 <= r <= 2 ^ 53) as Hr by nia.
  destruct (decide (r = 2 ^ 53)) as [Hmax|Hmax].
  - rewrite Hmax in *. unfold shr_fexp. change (Zdigits2 (2 ^ 53)) with 54.
    assert (fexp 53 1024 (54 + (e + (D - 53))) - (e + (D - 53)) = 1) as -> by (unfold fexp, emin; lia).
    change (shr (shr_record_of_loc (2 ^ 53) loc_Exact) (e + (D - 53)) 1) with (exact (2 ^ 52), e + (D - 53) + 1).
    cbn [shr_m exact]. change (2 ^ 52) with (Z.pos (2 ^ 52)) at 1.
    destruct (Z.leb_spec (e + (D - 53) + 1) (1024 - 53)); [|lia].
    exists (2 ^ 52)%positive, (D - 53 + 1). split; [f_equal; lia|]. split; [lia|].
    rewrite Z.pow_add_r by lia. fold P. change (2 ^ 1) with 2. change (Z.pos (2 ^ 52)) with (2 ^ 52). lia.
  - destruct r as [|q|q] eqn:Eq; [lia| |lia]. unfold shr_fexp. cbn [Zdigits2].
    rewrite (digits_unique q 53) by lia.
    assert (fexp 53 1024 (53 + (e + (D - 53))) - (e + (D - 53)) = 0) as -> by (unfold fexp, emin; lia).
    cbn [shr shr_record_of_loc shr_m]. destruct (Z.leb_spec (e + (D - 53)) (1024 - 53)); [|lia].
    exists q, (D - 53). split; [done|]. split; [lia|]. fold P. lia.
Qed.

(** ** Integers and products *)

Lemma iter_xO p d : Z.pos (Pos.iter xO p d) = Z.pos p * 2 ^ Z.pos d.
Proof.
  induction d as [|d IH] using Pos.peano_ind; [cbn; lia|].
  rewrite Pos.iter_succ, Pos2Z.inj_xO, IH, Pos2Z.inj_succ, Z.pow_succ_r; lia.
Qed.

(** [of_int n] is exact: its mantissa and exponent give [n]. *)
Lemma of_int_exact n :
  0 < n < 2 ^ 53 ->
  exists m e, of_int n = S754_finite false m e /\ -53 < e <= 53 /\ Z.pos m * 2 ^ (e + 53) = n * 2 ^ 53.
Proof.
  intros [Hn1 Hn2]. destruct n as [|p|p]; [lia| |lia]. unfold of_int, binary_normalize, binary_round.
  pose proof (digits2_pos_bounds p) as [H1 H2]. set (D := Z.pos (digits2_pos p)) in *.
  assert (1 <= D <= 53) as HD.
  { split; [lia|]. destruct (Z.le_gt_cases D 53); [done|]. assert (2 ^ 53 <= 2 ^ (D - 1)) by (apply Z.pow_le_mono_r; lia). lia. }
  assert (fexp 53 1024 (D + 0) = - (53 - D)) as -> by (unfold fexp, emin; lia). unfold shl_align. rewrite Z.sub_0_r.
  assert (exists M, Z.pos M = Z.pos p * 2 ^ (53 - D) /\
    (match - (53 - D) with Z.neg d => (Pos.iter xO p d, - (53 - D)) | _ => (p, 0) end) = (M, - (53 - D))) as (M & HM & ->).
  { destruct (53 - D) as [|d|d] eqn:Ed; cbn [Z.opp]; [exists p; rewrite Z.pow_0_r; split; [lia|done]| |lia].
    eexists. split; [|reflexivity]. apply iter_xO. }
  assert (2 ^ D * 2 ^ (53 - D) = 2 ^ 53 /\ 2 ^ (D - 1) * 2 ^ (53 - D) = 2 ^ 52) as [E1 E2].
  { rewrite <- !Z.pow_add_r by lia. split; f_equal; lia. }
  assert (0 < 2 ^ (53 - D)) as HQ by (apply Z.pow_pos_nonneg; lia).
  assert (2 ^ 52 <= Z.pos M < 2 ^ 53) as HMr by (rewrite HM; nia).
  assert (Z.pos (digits2_pos M) = 53) as HDM by (apply digits_unique; lia).
  destruct (round_aux_spec M (- (53 - D))) as (m & K & -> & HK & Herr); [rewrite HDM; lia..|].
  assert (Z.pos m * 2 ^ K = Z.pos M) as Hval by lia.
  exists m, (- (53 - D) + K). split; [done|].
  assert (K <= 53) as HK53.
  { destruct (Z.le_gt_cases K 53); [done|]. assert (2 ^ 53 <= 2 ^ K) by (apply Z.pow_le_mono_r; lia). nia. }
  split; [lia|]. replace (- (53 - D) + K + 53) with (K + D) by lia.
  rewrite Z.pow_add_r, Z.mul_assoc, Hval, HM, <- Z.mul_assoc by lia. f_equal. rewrite <- Z.pow_add_r by lia. f_equal. lia.
Qed.

(** A product with an integer, for a factor [p * 2^-53] of full precision below one:
    the result is [X * 2^-J] with [X] within a relative error of 2^-53. *)
Lemma dmul_of_int p n :
  2 ^ 52 <= Z.pos p < 2 ^ 53 -> 0 < n < 2 ^ 53 ->
  exists m K J X, dmul (S754_finite false p (-53)) (of_int n) = S754_finite false m (K - J) /\
    0 <= K /\ 0 <= J /\ X = Z.pos m * 2 ^ K /\
    2 ^ 106 * X <= Z.pos p * n * 2 ^ J * (2 ^ 53 + 1) /\ Z.pos p * n * 2 ^ J * (2 ^ 53 - 1) <= 2 ^ 106 * X.
Proof.
  intros Hp Hn. destruct (of_int_exact n Hn) as (m & e & -> & He & Hv). unfold dmul, SFmul. cbn [xorb].
  set (M := (p * m)%positive). assert (Z.pos M = Z.pos p * Z.pos m) as HM by reflexivity.
  set (D := Z.pos (digits2_pos M)). pose proof (digits2_pos_bounds M) as [H1 H2]. fold D in H1, H2.
  assert (0 < 2 ^ (e + 53)) as HE by (apply Z.pow_pos_nonneg; lia).
  assert (53 <= D) as HD.
  { destruct (Z.le_gt_cases 53 D); [done|]. assert (2 ^ D <= 2 ^ 52) by (apply Z.pow_le_mono_r; lia).
    assert (Z.pos p <= Z.pos M) by (rewrite HM; nia). lia. }
  assert (D <= 200) as HD2.
  { destruct (Z.le_gt_cases D 200); [done|]. assert (2 ^ 200 <= 2 ^ (D - 1)) by (apply Z.pow_le_mono_r; lia).
    assert (Z.pos m <= n * 2 ^ 53) by nia.
    assert (Z.pos M <= 2 ^ 53 * (n * 2 ^ 53)) by (rewrite HM; apply Z.mul_le_mono_nonneg; lia). lia. }
  destruct (round_aux_spec M (-53 + e)) as (q & K & -> & HK & Herr); fold D; [lia..|].
  exists q, K, (53 - e), (Z.pos q * 2 ^ K). split; [f_equal; lia|]. split; [done|]. split; [lia|]. split; [done|].
  assert (2 ^ 53 * Z.pos M = Z.pos p * n * 2 ^ (53 - e)) as Hval.
  { apply (Z.mul_reg_r _ _ (2 ^ (e + 53))); [lia|]. rewrite HM.
    replace (2 ^ 53 * (Z.pos p * Z.pos m) * 2 ^ (e + 53)) with (2 ^ 53 * Z.pos p * (Z.pos m * 2 ^ (e + 53))) by lia.
    rewrite Hv, <- (Z.mul_assoc (Z.pos p * n)), <- Z.pow_add_r by lia. replace (53 - e + (e + 53)) with 106 by lia. lia. }
  rewrite <- Hval. lia.
Qed.
