(* ===== verification/Format.v ===== *)
(** * Format: the parts of std::format the program's output uses

    [{:.1f}] prints a double rounded to one decimal: the decimal nearest to its exact
    value, ties to the even digit.  [{:<w}] pads with spaces on the right. *)

From S2P Require Import Prelude Double FixedPoint CharConv.

(** The integer nearest to [a / b], ties to even, for [0 <= a] and [0 < b]. *)
Definition div_nearest_even (a b : Z) : Z :=
  let q := a / b in
  match 2 * (a mod b) ?= b with
  | Lt => q
  | Gt => q + 1
  | Eq => if Z.even q then q else q + 1
  end.

Definition fmt_tenths (t : Z) : bytes := fmt_uint (t / 10) ++ lit "." ++ fmt_uint (t mod 10).

(** [{:.1f}] *)
Definition fmt_fixed1 (x : double) : bytes :=
  let sign (s : bool) := if s then lit "-" else [] in
  match x with
  | S754_zero s => sign s ++ lit "0.0"
  | S754_infinity s => sign s ++ lit "inf"
  | S754_nan => lit "nan"
  | S754_finite s m e =>
    sign s ++ fmt_tenths (if 0 <=? e then Z.pos m * 2 ^ e * 10 else div_nearest_even (Z.pos m * 10) (2 ^ (- e)))
  end.

(** [{:<w}] *)
Definition pad (w : nat) (s : bytes) : bytes := s ++ repeat " "%byte (w - length s).

Example fmt_fixed1_samples :
  fmt_fixed1 (ddiv (of_int 12345) (of_int 1000)) = lit "12.3" /\
  fmt_fixed1 (ddiv (of_int 1) (of_int 4)) = lit "0.2" /\ fmt_fixed1 (ddiv (of_int (-3)) (of_int 4)) = lit "-0.8" /\
  fmt_fixed1 (ddiv (of_int 19) (of_int 20)) = lit "0.9" /\ fmt_fixed1 (of_int 100) = lit "100.0".
Proof. by vm_compute. Qed.

Lemma div_nearest_even_spec a b : 0 < b -> let r := div_nearest_even a b in 2 * Z.abs (r * b - a) <= b.
Proof.
  intros Hb. unfold div_nearest_even. pose proof (Z.div_mod a b ltac:(lia)) as Hd.
  pose proof (Z.mod_pos_bound a b Hb) as Hm. set (q := a / b) in *. set (m := a mod b) in *.
  replace (b * q) with (q * b) in Hd by lia.
  destruct (Z.compare_spec (2 * m) b); [destruct (Z.even q)|..]; nia.
Qed.
