(* ===== verification/MessageTypes.v ===== *)
(** * MessageTypes: the data of include/kalshi_messages.hpp and the exchange price type

    The structs and enumerations of the Kalshi protocol, with the field names of
    the header, and the price helpers of include/market_state.hpp (ticks of
    $0.001) that the message builders use. *)

From S2P Require Import Prelude CharConv.

Definition PriceLevel : Type := bytes * bytes.

Record OrderBookSnapshot : Type := {
  snap_market_ticker : bytes;
  snap_market_id : bytes;
  yes_dollars_fp : list PriceLevel;
  no_dollars_fp : list PriceLevel;
}.

Record OrderBookDelta : Type := {
  delta_market_ticker : bytes;
  delta_market_id : bytes;
  price_dollars : bytes;
  delta_fp : bytes;
  side : bytes;
  ts : bytes;
  delta_ts_ms : Z;
}.

Inductive FillAction : Type := Buy | Sell.

Record Fill : Type := {
  fill_order_id : bytes;
  fill_market_ticker : bytes;
  count_fp : bytes;
  action : FillAction;
}.

(** [std::variant<std::monostate, OrderBookSnapshot, OrderBookDelta, Fill>] *)
Inductive Payload : Type :=
| PNone
| PSnapshot (s : OrderBookSnapshot)
| PDelta (d : OrderBookDelta)
| PFill (f : Fill).

Record Message : Type := {
  msg_type : bytes;
  sid : Z;
  seq : Z;
  msg : Payload;
}.

Inductive OrderSide : Type := Bid | Ask.
Inductive TimeInForce : Type := FillOrKill | GoodTillCanceled | ImmediateOrCancel.
Inductive SelfTradePrevention : Type := TakerAtCross | Maker.

Record OrderRequest : Type := {
  ticker : bytes;
  order_side : OrderSide;
  count : bytes;
  price : bytes;
  time_in_force : TimeInForce;
  self_trade_prevention : SelfTradePrevention;
  client_order_id : bytes;
  post_only : bool;
}.

Record OrderResponse : Type := {
  resp_order_id : bytes;
  fill_count : bytes;
  remaining_count : bytes;
  resp_ts_ms : Z;
  resp_client_order_id : bytes;
}.

(** ** Prices: ticks of $0.001 *)

Definition kPriceDecimals : nat := 3.
Definition kTicksPerCent : Z := 10.
Definition kMaxPrice : Z := 1000.

Definition cents (c : Z) : Z := c * kTicksPerCent.

Definition format_price (p : Z) : bytes :=
  if Z.rem p kTicksPerCent =? 0 then fmt_int (Z.quot p kTicksPerCent) ++ lit "c"
  else fmt_int (Z.quot p kTicksPerCent) ++ lit "." ++ fmt_int (Z.rem p kTicksPerCent) ++ lit "c".

Definition price_to_dollars (p : Z) : bytes :=
  fmt_int (Z.quot p kMaxPrice) ++ lit "." ++ fmt_int_pad0 3 (Z.rem p kMaxPrice) ++ lit "0".

Example price_formatting :
  format_price (cents 59) = lit "59c" /\ format_price 595 = lit "59.5c" /\
  format_price 1 = lit "0.1c" /\ price_to_dollars (cents 7) = lit "0.0700" /\
  price_to_dollars 595 = lit "0.5950" /\ price_to_dollars 1 = lit "0.0010".
Proof. by vm_compute. Qed.
