(* ===== verification/MarketState.v ===== *)
(** * MarketState: the order book (include/market_state.hpp, src/trading/market_state.cpp)

    Each side is the flat array [std::array<Quantity, 1001>] indexed by price, a
    list of 1001 integers here, with the best bid maintained incrementally.  The
    only arithmetic that can leave [int64_t] is [level += *qty]; signed overflow
    is undefined behaviour, so [apply_delta] returns [None] exactly there.

    The reference book keeps a finite map from price to quantity per side and
    recomputes the best price from scratch; the simulation theorems show that the
    array book implements it for every sequence of messages. *)

From stdpp Require Import gmap.
From S2P Require Import Prelude FixedPoint CharConv MessageTypes.

(** ** The program *)

Inductive BookErrorKind : Type := Malformed | OutOfSync.

Record BookError : Type := { kind : BookErrorKind; message : bytes }.

(** [std::array<Quantity, kMaxPrice + 1>], zero-initialised. *)
Abbreviation Levels := (list Z).
Definition empty_levels : Levels := replicate (Z.to_nat kMaxPrice + 1) 0.

Record MarketState : Type := {
  _market_ticker : bytes;
  _yes : Levels;
  _no : Levels;
  _best_yes : Z;
  _best_no : Z;
}.

Definition new_market_state : MarketState :=
  {| _market_ticker := []; _yes := empty_levels; _no := empty_levels;
     _best_yes := 0; _best_no := 0 |}.

Definition malformed {A} (m : bytes) : expected BookError A :=
  Unexpected {| kind := Malformed; message := m |}.

Definition parse_price (s : bytes) : expected BookError Z :=
  match parse_fixed kPriceDecimals s with
  | Some price =>
    if (price <? 1) || (kMaxPrice <=? price)
    then malformed (lit "unsupported price '" ++ s ++ lit "' (book resolution is $0.001)")
    else Ok price
  | None => malformed (lit "unsupported price '" ++ s ++ lit "' (book resolution is $0.001)")
  end.

Definition parse_quantity (s : bytes) : expected BookError Z :=
  match parse_fixed 2 s with
  | Some qty => Ok qty
  | None => malformed (lit "invalid quantity '" ++ s ++ lit "'")
  end.

(** [levels[p]] *)
Definition level_at (levels : Levels) (p : Z) : Z := default 0 (levels !! Z.to_nat p).
(** [levels[p] = q] *)
Definition set_level (levels : Levels) (p q : Z) : Levels := <[Z.to_nat p := q]> levels.

(** [for (Price p = from; p > 0; --p) if (levels[p] > 0) return p; return 0;] *)
Fixpoint scan_best_from (levels : Levels) (from : nat) : Z :=
  match from with
  | O => 0
  | S n => if 0 <? level_at levels (Z.of_nat from) then Z.of_nat from else scan_best_from levels n
  end.

Definition scan_best (levels : Levels) (from : Z) : Z := scan_best_from levels (Z.to_nat from).

(** The inner loop of [apply_snapshot], filling one scratch array. *)
Fixpoint load_side (side : list PriceLevel) (levels : Levels) : expected BookError Levels :=
  match side with
  | [] => Ok levels
  | (price_str, qty_str) :: rest =>
    let? price := parse_price price_str in
    let? qty := parse_quantity qty_str in
    load_side rest (set_level levels price qty)
  end.

Definition apply_snapshot (st : MarketState) (snapshot : OrderBookSnapshot)
    : expected BookError unit * MarketState :=
  match load_side (yes_dollars_fp snapshot) empty_levels with
  | Unexpected e => (Unexpected e, st)
  | Ok yes =>
    match load_side (no_dollars_fp snapshot) empty_levels with
    | Unexpected e => (Unexpected e, st)
    | Ok no =>
      (Ok tt, {| _market_ticker := snap_market_ticker snapshot;
                 _yes := yes; _no := no;
                 _best_yes := scan_best yes (kMaxPrice - 1);
                 _best_no := scan_best no (kMaxPrice - 1) |})
    end
  end.

(** The incremental maintenance of the best price after [levels[price]] became [level]. *)
Definition refresh_best (levels : Levels) (best price level : Z) : Z :=
  if (0 <? level) && (best <? price) then price
  else if (level =? 0) && (price =? best) then scan_best levels (price - 1)
  else best.

(** The update of one side in [apply_delta]: the new array, the new best price and
    whether the level went negative; [None] when [level += *qty] overflows. *)
Definition update_side (levels : Levels) (best price qty : Z) : option (Levels * Z * bool) :=
  match i64_add (level_at levels price) qty with
  | None => None
  | Some sum =>
    let negative := sum <? 0 in
    let level := if negative then 0 else sum in
    let levels := set_level levels price level in
    Some (levels, refresh_best levels best price level, negative)
  end.

Definition out_of_sync (side : bytes) (price : Z) : BookError :=
  {| kind := OutOfSync;
     message := lit "book out of sync: " ++ side ++ lit " level " ++ format_price price
                ++ lit " went negative" |}.

Definition apply_delta (st : MarketState) (delta : OrderBookDelta)
    : option (expected BookError unit * MarketState) :=
  let is_yes := bytes_eqb (side delta) (lit "yes") in
  if negb is_yes && negb (bytes_eqb (side delta) (lit "no"))
  then Some (malformed (lit "invalid side '" ++ side delta ++ lit "'"), st)
  else
    match parse_price (price_dollars delta) with
    | Unexpected e => Some (Unexpected e, st)
    | Ok price =>
      match parse_quantity (delta_fp delta) with
      | Unexpected e => Some (Unexpected e, st)
      | Ok qty =>
        match (if is_yes then update_side (_yes st) (_best_yes st) price qty
               else update_side (_no st) (_best_no st) price qty) with
        | None => None
        | Some (levels, best, negative) =>
          let result := if negative : bool then Unexpected (out_of_sync (side delta) price) else Ok tt in
          Some (result,
            if is_yes
            then {| _market_ticker := _market_ticker st; _yes := levels; _no := _no st;
                    _best_yes := best; _best_no := _best_no st |}
            else {| _market_ticker := _market_ticker st; _yes := _yes st; _no := levels;
                    _best_yes := _best_yes st; _best_no := best |})
        end
      end
    end.

Definition best_yes_bid (st : MarketState) : option Z :=
  if _best_yes st =? 0 then None else Some (_best_yes st).

Definition best_yes_ask (st : MarketState) : option Z :=
  if _best_no st =? 0 then None else Some (kMaxPrice - _best_no st).

(** ** Array lemmas *)

Definition valid_price (p : Z) : Prop := 1 <= p < kMaxPrice.

Definition array_ok (levels : Levels) : Prop :=
  length levels = (Z.to_nat kMaxPrice + 1)%nat /\ Forall in_i64 levels.

Lemma level_at_set levels p q p' :
  array_ok levels -> valid_price p -> 0 <= p' ->
  level_at (set_level levels p q) p' = if p' =? p then q else level_at levels p'.
Proof.
  intros [Hlen _] [Hp1 Hp2] Hp'. unfold level_at, set_level, kMaxPrice in *.
  destruct (Z.eqb_spec p' p) as [->|Hne].
  - rewrite list_lookup_insert_eq by lia. done.
  - rewrite list_lookup_insert_ne by lia. done.
Qed.

Lemma set_level_ok levels p q : array_ok levels -> in_i64 q -> array_ok (set_level levels p q).
Proof.
  intros [Hlen Hall] Hq. unfold set_level. split.
  - by rewrite length_insert.
  - by apply Forall_insert.
Qed.

Lemma empty_levels_ok : array_ok empty_levels.
Proof.
  split; [by unfold empty_levels; rewrite length_replicate|].
  apply Forall_replicate. unfold in_i64, INT64_MIN, INT64_MAX. lia.
Qed.

Lemma level_at_empty p : level_at empty_levels p = 0.
Proof.
  unfold level_at, empty_levels.
  destruct (_ !! _) eqn:E; [|done]. by apply lookup_replicate in E as [-> _].
Qed.

Lemma level_at_i64 levels p : array_ok levels -> valid_price p -> in_i64 (level_at levels p).
Proof.
  intros [Hlen Hall] [Hp1 Hp2]. unfold level_at, kMaxPrice in *.
  destruct (lookup_lt_is_Some_2 levels (Z.to_nat p)) as [x Hx]; [lia|].
  rewrite Hx. by eapply Forall_lookup_1.
Qed.

(** ** Numbers from the wire *)

Lemma parse_fixed_i64 Scale s v : parse_fixed Scale s = Some v -> in_i64 v.
Proof.
  intros H. apply parse_fixed_iff in H as (neg & ip & fp & m & Hn & Hval & Hm & ->).
  destruct Hn as (body & _ & _ & Hip & Hfp & _).
  assert (0 <= dec_from 0 (ip ++ fp)) as Hd.
  { apply dec_from_bound, Forall_app. done. }
  pose proof (pow10_pos (length fp)). pose proof (pow10_pos Scale).
  assert (0 <= m) by nia. unfold in_i64, INT64_MIN, INT64_MAX in *. destruct neg; lia.
Qed.

Lemma parse_price_Ok s p : parse_price s = Ok p <-> parse_fixed 3 s = Some p /\ valid_price p.
Proof.
  unfold parse_price, kPriceDecimals, valid_price.
  destruct (parse_fixed 3 s) as [q|]; [|split; [done|by intros [? _]]].
  destruct ((q <? 1) || (kMaxPrice <=? q)) eqn:E.
  - split; [done|]. intros [[= ->] Hp]. apply orb_true_iff in E. destruct E; bool_hyps; lia.
  - bool_hyps. split; [intros [= ->]; auto|intros [[= ->] _]; done].
Qed.

Lemma parse_price_error s e : parse_price s = Unexpected e -> kind e = Malformed.
Proof.
  unfold parse_price. destruct (parse_fixed _ s) as [q|]; [destruct (_ || _)|]; intros [= <-]; done.
Qed.

Lemma parse_quantity_error s e : parse_quantity s = Unexpected e -> kind e = Malformed.
Proof. unfold parse_quantity. destruct (parse_fixed 2 s); intros [= <-]; done. Qed.

Lemma parse_quantity_i64 s q : parse_quantity s = Ok q -> in_i64 q.
Proof.
  unfold parse_quantity. destruct (parse_fixed 2 s) eqn:E; [|done]. intros [= <-].
  by eapply parse_fixed_i64.
Qed.

(** ** The best price *)

(** [best] is the highest populated price of the side, or 0 when there is none. *)
Definition top_of_book (levels : Levels) (best : Z) : Prop :=
  (best = 0 \/ (valid_price best /\ 0 < level_at levels best)) /\
  forall p, valid_price p -> best < p -> level_at levels p <= 0.

Lemma scan_best_from_spec levels n :
  let b := scan_best_from levels n in
  0 <= b <= Z.of_nat n /\ (b = 0 \/ 0 < level_at levels b) /\
  forall p, b < p <= Z.of_nat n -> level_at levels p <= 0.
Proof.
  induction n as [|n IH]; cbn [scan_best_from].
  - repeat split; [lia..|by left|]. intros p Hp. lia.
  - destruct (Z.ltb_spec 0 (level_at levels (Z.of_nat (S n)))) as [Hpos|Hneg].
    + repeat split; [lia..|by right|]. intros p Hp. lia.
    + destruct IH as (H1 & H2 & H3). cbn zeta in *. repeat split; [lia..|done|].
      intros p Hp. destruct (Z.eq_dec p (Z.of_nat (S n))) as [->|Hne]; [done|].
      apply H3. lia.
Qed.

Lemma scan_best_spec levels from :
  0 <= from < kMaxPrice ->
  let b := scan_best levels from in
  0 <= b <= from /\ (b = 0 \/ (valid_price b /\ 0 < level_at levels b)) /\
  forall p, b < p <= from -> level_at levels p <= 0.
Proof.
  intros Hf. pose proof (scan_best_from_spec levels (Z.to_nat from)) as H.
  unfold scan_best. rewrite Z2Nat.id in H by lia. cbn zeta in *.
  destruct H as (H1 & H2 & H3). repeat split; [lia..| |done].
  destruct (Z.eq_dec (scan_best_from levels (Z.to_nat from)) 0); [by left|right].
  destruct H2 as [|H2]; [done|]. unfold valid_price. split; [lia|done].
Qed.

Lemma scan_best_top levels : top_of_book levels (scan_best levels (kMaxPrice - 1)).
Proof.
  destruct (scan_best_spec levels (kMaxPrice - 1)) as (H1 & H2 & H3); [unfold kMaxPrice; lia|].
  split; [done|]. intros p [Hp1 Hp2] Hlt. apply H3. lia.
Qed.

(** The best price is determined by the levels. *)
Lemma top_of_book_unique levels a b : top_of_book levels a -> top_of_book levels b -> a = b.
Proof.
  intros [Ha1 Ha2] [Hb1 Hb2].
  destruct (Z.lt_trichotomy a b) as [Hlt|[|Hlt]]; [|done|].
  - destruct Hb1 as [->|[Hv Hpos]].
    + destruct Ha1 as [->|[[? ?] _]]; lia.
    + specialize (Ha2 b Hv Hlt). lia.
  - destruct Ha1 as [->|[Hv Hpos]].
    + destruct Hb1 as [->|[[? ?] _]]; lia.
    + specialize (Hb2 a Hv Hlt). lia.
Qed.

(** ** The invariant and its preservation *)

Definition side_ok (levels : Levels) (best : Z) : Prop :=
  array_ok levels /\ top_of_book levels best.

Definition book_ok (st : MarketState) : Prop :=
  side_ok (_yes st) (_best_yes st) /\ side_ok (_no st) (_best_no st).

(** What one delta does to a side, as a function of the level. *)
Definition clamp (z : Z) : Z := Z.max 0 z.

Lemma refresh_best_top levels best price v :
  side_ok levels best -> valid_price price -> 0 <= v ->
  top_of_book (set_level levels price v) (refresh_best (set_level levels price v) best price v).
Proof.
  intros [Harr [Ht1 Ht2]] Hp Hv0. unfold refresh_best.
  set (levels' := set_level levels price v).
  assert (forall p, 0 <= p -> level_at levels' p = if p =? price then v else level_at levels p) as Hat.
  { intros p Hp0. by apply level_at_set. }
  pose proof Hp as [Hp1 Hp2].
  assert (forall p, valid_price p -> best < p -> p <> price -> level_at levels' p <= 0) as Habove.
  { intros p Hv Hlt Hne. rewrite Hat by (destruct Hv; lia).
    destruct (Z.eqb_spec p price); [done|]. by apply Ht2. }
  destruct ((0 <? v) && (best <? price)) eqn:E1; bool_hyps.
  { split.
    - right. rewrite Hat, Z.eqb_refl by lia. done.
    - intros p Hv Hlt. apply Habove; [done|lia..]. }
  destruct ((v =? 0) && (price =? best)) eqn:E2; bool_hyps.
  - subst best. destruct (scan_best_spec levels' (price - 1)) as (H1' & H2' & H3'); [lia|].
    split; [done|]. intros p Hv Hlt. destruct (Z.lt_trichotomy p price) as [?|[->|?]].
    + apply H3'. lia.
    + rewrite Hat, Z.eqb_refl by lia. lia.
    + apply Habove; [done|lia..].
  - apply andb_false_iff in E1. apply andb_false_iff in E2. split.
    + destruct Ht1 as [->|[Hv Hpos]]; [by left|right]. split; [done|].
      rewrite Hat by (destruct Hv; lia). destruct (Z.eqb_spec best price) as [->|]; [|done].
      destruct E2; bool_hyps; lia.
    + intros p Hv Hlt. destruct (Z.eq_dec p price) as [->|]; [|by apply Habove].
      rewrite Hat, Z.eqb_refl by lia. destruct E1; bool_hyps; lia.
Qed.

Lemma update_side_spec levels best price qty levels' best' negative :
  side_ok levels best -> valid_price price ->
  update_side levels best price qty = Some (levels', best', negative) ->
  side_ok levels' best' /\
  levels' = set_level levels price (clamp (level_at levels price + qty)) /\
  negative = (level_at levels price + qty <? 0).
Proof.
  intros Hok Hp. unfold update_side, i64_add.
  set (sum := level_at levels price + qty).
  destruct ((INT64_MIN <=? sum) && (sum <=? INT64_MAX)) eqn:Hr; [|done]. bool_hyps.
  intros Hu. injection Hu as Hl Hb Hn.
  assert ((if sum <? 0 then 0 else sum) = clamp sum) as Hc.
  { unfold clamp. destruct (Z.ltb_spec sum 0); lia. }
  rewrite Hc in *. subst levels' best'. split; [|done]. split.
  - apply set_level_ok; [apply Hok|]. unfold clamp, in_i64, INT64_MIN, INT64_MAX in *; lia.
  - apply refresh_best_top; [done..|]. unfold clamp. lia.
Qed.

Lemma update_side_defined levels best price qty :
  in_i64 (level_at levels price + qty) -> is_Some (update_side levels best price qty).
Proof.
  intros [Hlo Hhi]. unfold update_side, i64_add.
  apply Z.leb_le in Hlo, Hhi. rewrite Hlo, Hhi. by eexists.
Qed.

(** A snapshot side: the array holds, for each price, the last quantity given for it. *)
Fixpoint last_quantity (side : list PriceLevel) (p : Z) (dflt : Z) : Z :=
  match side with
  | [] => dflt
  | (price_str, qty_str) :: rest =>
    match parse_price price_str, parse_quantity qty_str with
    | Ok price, Ok qty => last_quantity rest p (if p =? price then qty else dflt)
    | _, _ => dflt
    end
  end.

Lemma load_side_Ok side levels levels' :
  array_ok levels -> load_side side levels = Ok levels' ->
  array_ok levels' /\
  forall p, 0 <= p -> level_at levels' p = last_quantity side p (level_at levels p).
Proof.
  revert levels. induction side as [|[ps qs] rest IH]; intros levels Harr; cbn [load_side last_quantity].
  { intros [= <-]. done. }
  destruct (parse_price ps) as [price|] eqn:Ep; [|done].
  destruct (parse_quantity qs) as [qty|] eqn:Eq; [|done].
  intros Hl. apply parse_price_Ok in Ep as [_ Hp]. apply parse_quantity_i64 in Eq.
  apply IH in Hl as [Hok Hat]; [|by apply set_level_ok].
  split; [done|]. intros p Hp0. by rewrite Hat, level_at_set.
Qed.

Lemma load_side_error side levels e : load_side side levels = Unexpected e -> kind e = Malformed.
Proof.
  revert levels. induction side as [|[ps qs] rest IH]; intros levels; cbn [load_side]; [done|].
  destruct (parse_price ps) as [price|e'] eqn:Ep; [|intros [= <-]; by eapply parse_price_error].
  destruct (parse_quantity qs) as [qty|e'] eqn:Eq; [|intros [= <-]; by eapply parse_quantity_error].
  apply IH.
Qed.

(** ** The two sides, uniformly *)

(** The array and the best price a delta's side string selects. *)
Definition side_levels (st : MarketState) (s : bytes) : Levels :=
  if bytes_eqb s (lit "yes") then _yes st else _no st.
Definition side_best (st : MarketState) (s : bytes) : Z :=
  if bytes_eqb s (lit "yes") then _best_yes st else _best_no st.
Definition set_side (st : MarketState) (s : bytes) (levels : Levels) (best : Z) : MarketState :=
  if bytes_eqb s (lit "yes")
  then {| _market_ticker := _market_ticker st; _yes := levels; _no := _no st;
          _best_yes := best; _best_no := _best_no st |}
  else {| _market_ticker := _market_ticker st; _yes := _yes st; _no := levels;
          _best_yes := _best_yes st; _best_no := best |}.

Lemma side_levels_ok st s : book_ok st -> side_ok (side_levels st s) (side_best st s).
Proof. intros [Hy Hn]. unfold side_levels, side_best. by destruct (bytes_eqb _ _). Qed.

Lemma side_levels_set st s levels best : side_levels (set_side st s levels best) s = levels.
Proof. unfold side_levels, set_side. by destruct (bytes_eqb _ _). Qed.

Lemma side_levels_set_other st s s' levels best :
  s = lit "yes" \/ s = lit "no" -> s' = lit "yes" \/ s' = lit "no" -> s' <> s ->
  side_levels (set_side st s levels best) s' = side_levels st s'.
Proof. intros [->| ->] [->| ->] Hne; done. Qed.

Lemma set_side_ok st s levels best :
  book_ok st -> side_ok levels best -> book_ok (set_side st s levels best).
Proof. intros [Hy Hn] Hs. unfold set_side. by destruct (bytes_eqb _ _). Qed.

(** The branches of [apply_delta]: a malformed delta, or an update of one side. *)
Lemma apply_delta_cases st d r st' :
  apply_delta st d = Some (r, st') ->
  (exists e, r = Unexpected e /\ kind e = Malformed /\ st' = st) \/
  (exists p q levels best (neg : bool),
     (side d = lit "yes" \/ side d = lit "no") /\
     parse_price (price_dollars d) = Ok p /\ parse_quantity (delta_fp d) = Ok q /\
     update_side (side_levels st (side d)) (side_best st (side d)) p q = Some (levels, best, neg) /\
     r = (if neg then Unexpected (out_of_sync (side d) p) else Ok tt) /\
     st' = set_side st (side d) levels best).
Proof.
  unfold apply_delta, side_levels, side_best, set_side.
  destruct (bytes_eqb_spec (side d) (lit "yes")) as [Hy|Hy];
    [|destruct (bytes_eqb_spec (side d) (lit "no")) as [Hn|Hn]]; cbn [negb andb].
  3: { intros [= <- <-]. left. eexists. done. }
  all: destruct (parse_price (price_dollars d)) as [p|e] eqn:Ep;
    [|intros [= <- <-]; left; eauto using parse_price_error].
  all: destruct (parse_quantity (delta_fp d)) as [q|e] eqn:Eq;
    [|intros [= <- <-]; left; eauto using parse_quantity_error].
  all: destruct (update_side _ _ p q) as [[[levels best] neg]|] eqn:Eu; [|done].
  all: intros [= <- <-]; right; eauto 12.
Qed.

Lemma delta_ok st d r st' : book_ok st -> apply_delta st d = Some (r, st') -> book_ok st'.
Proof.
  intros Hok [(e & _ & _ & ->)|(p & q & levels & best & neg & _ & Hp & _ & Hu & _ & ->)]%apply_delta_cases; [done|].
  apply parse_price_Ok in Hp as [_ Hp].
  apply update_side_spec in Hu as (Hs & _ & _); [|by apply side_levels_ok|done].
  by apply set_side_ok.
Qed.

Lemma snapshot_ok st s r st' : book_ok st -> apply_snapshot st s = (r, st') -> book_ok st'.
Proof.
  intros Hok. unfold apply_snapshot.
  destruct (load_side (yes_dollars_fp s) _) as [y|e] eqn:Ey; [|intros [= <- <-]; done].
  destruct (load_side (no_dollars_fp s) _) as [n|e] eqn:En; [|intros [= <- <-]; done].
  apply load_side_Ok in Ey as [Hy _]; [|apply empty_levels_ok].
  apply load_side_Ok in En as [Hn _]; [|apply empty_levels_ok].
  intros [= <- <-]. split; split; auto using scan_best_top.
Qed.

(** ** The reference book

    Prices map to quantities; the best price is recomputed from the whole map. *)

Record RefBook : Type := {
  ref_ticker : bytes;
  ref_yes : gmap Z Z;
  ref_no : gmap Z Z;
}.

Definition ref_empty : RefBook := {| ref_ticker := []; ref_yes := ∅; ref_no := ∅ |}.

Fixpoint ref_load (side : list PriceLevel) (m : gmap Z Z) : expected BookError (gmap Z Z) :=
  match side with
  | [] => Ok m
  | (ps, qs) :: rest =>
    let? p := parse_price ps in
    let? q := parse_quantity qs in
    ref_load rest (<[p := q]> m)
  end.

Definition ref_quantity (m : gmap Z Z) (p : Z) : Z := default 0 (m !! p).

Definition ref_best (m : gmap Z Z) : Z :=
  map_fold (fun p q b => if 0 <? q then Z.max p b else b) 0 m.

Inductive BookEvent : Type :=
| EvSnapshot (s : OrderBookSnapshot)
| EvDelta (d : OrderBookDelta).

Definition ref_snapshot (rb : RefBook) (s : OrderBookSnapshot) : expected BookError unit * RefBook :=
  match ref_load (yes_dollars_fp s) ∅, ref_load (no_dollars_fp s) ∅ with
  | Ok y, Ok n => (Ok tt, {| ref_ticker := snap_market_ticker s; ref_yes := y; ref_no := n |})
  | Unexpected e, _ => (Unexpected e, rb)
  | Ok _, Unexpected e => (Unexpected e, rb)
  end.

(** A delta adds to the level of its side; a level that would go negative is set to
    zero and reported. *)
Definition ref_delta (rb : RefBook) (d : OrderBookDelta) : expected BookError unit * RefBook :=
  let is_yes := bytes_eqb (side d) (lit "yes") in
  if negb is_yes && negb (bytes_eqb (side d) (lit "no"))
  then (malformed (lit "invalid side '" ++ side d ++ lit "'"), rb)
  else
    match parse_price (price_dollars d), parse_quantity (delta_fp d) with
    | Ok p, Ok q =>
      let m := if is_yes then ref_yes rb else ref_no rb in
      let sum := ref_quantity m p + q in
      let m' := <[p := clamp sum]> m in
      (if sum <? 0 then Unexpected (out_of_sync (side d) p) else Ok tt,
       if is_yes
       then {| ref_ticker := ref_ticker rb; ref_yes := m'; ref_no := ref_no rb |}
       else {| ref_ticker := ref_ticker rb; ref_yes := ref_yes rb; ref_no := m' |})
    | Unexpected e, _ => (Unexpected e, rb)
    | Ok _, Unexpected e => (Unexpected e, rb)
    end.

Definition ref_event (rb : RefBook) (ev : BookEvent) : expected BookError unit * RefBook :=
  match ev with EvSnapshot s => ref_snapshot rb s | EvDelta d => ref_delta rb d end.

Definition book_event (st : MarketState) (ev : BookEvent) : option (expected BookError unit * MarketState) :=
  match ev with EvSnapshot s => Some (apply_snapshot st s) | EvDelta d => apply_delta st d end.

(** A run of the book over a sequence of messages, with the result of each. *)
Fixpoint run_book (st : MarketState) (evs : list BookEvent)
    : option (list (expected BookError unit) * MarketState) :=
  match evs with
  | [] => Some ([], st)
  | ev :: evs' =>
    match book_event st ev with
    | None => None
    | Some (r, st') =>
      match run_book st' evs' with
      | None => None
      | Some (rs, st'') => Some (r :: rs, st'')
      end
    end
  end.

Fixpoint ref_run (rb : RefBook) (evs : list BookEvent) : list (expected BookError unit) * RefBook :=
  match evs with
  | [] => ([], rb)
  | ev :: evs' =>
    let '(r, rb') := ref_event rb ev in
    let '(rs, rb'') := ref_run rb' evs' in (r :: rs, rb'')
  end.

(** ** Simulation *)

Definition side_refines (levels : Levels) (m : gmap Z Z) : Prop :=
  (forall p, 0 <= p -> level_at levels p = ref_quantity m p) /\
  (forall p q, m !! p = Some q -> valid_price p).

Definition book_refines (st : MarketState) (rb : RefBook) : Prop :=
  _market_ticker st = ref_ticker rb /\
  side_refines (_yes st) (ref_yes rb) /\ side_refines (_no st) (ref_no rb).

Lemma ref_quantity_insert m p q p' :
  ref_quantity (<[p := q]> m) p' = if p' =? p then q else ref_quantity m p'.
Proof.
  unfold ref_quantity. destruct (Z.eqb_spec p' p) as [->|Hne].
  - by rewrite lookup_insert_eq.
  - by rewrite lookup_insert_ne.
Qed.

Lemma side_refines_set levels m p q :
  array_ok levels -> valid_price p -> side_refines levels m ->
  side_refines (set_level levels p q) (<[p := q]> m).
Proof.
  intros Harr Hp [Hat Hdom]. split.
  - intros p' Hp'. by rewrite level_at_set, ref_quantity_insert, Hat.
  - intros p' q'. destruct (decide (p = p')) as [<-|Hne]; [done|].
    rewrite lookup_insert_ne by done. apply Hdom.
Qed.

Lemma side_refines_empty : side_refines empty_levels ∅.
Proof.
  split; [|by intros p q; rewrite lookup_empty].
  intros p _. rewrite level_at_empty. unfold ref_quantity. by rewrite lookup_empty.
Qed.

(** The best price of the reference map is the top of any array that refines it. *)
Lemma ref_best_spec m :
  (ref_best m = 0 \/ exists q, m !! ref_best m = Some q /\ 0 < q) /\
  0 <= ref_best m /\ forall p q, m !! p = Some q -> 0 < q -> p <= ref_best m.
Proof.
  unfold ref_best. apply (map_fold_weak_ind (fun b m =>
    (b = 0 \/ exists q, m !! b = Some q /\ 0 < q) /\
    0 <= b /\ forall p q, m !! p = Some q -> 0 < q -> p <= b)).
  - repeat split; [by left|lia|]. intros p q. by rewrite lookup_empty.
  - intros i x m' b Hi (H1 & H2 & H3). destruct (Z.ltb_spec 0 x) as [Hx|Hx].
    + repeat split; [|lia|].
      * destruct (Z.max_spec i b) as [[? ->]|[? ->]].
        -- destruct H1 as [->|[q [Hq Hpos]]]; [by left|right].
           exists q. split; [|done]. rewrite lookup_insert_ne; [done|]. congruence.
        -- right. exists x. by rewrite lookup_insert_eq.
      * intros p q. destruct (decide (i = p)) as [<-|Hne]; [lia|].
        rewrite lookup_insert_ne by done. intros Hq Hpos. specialize (H3 p q Hq Hpos). lia.
    + repeat split; [|done|].
      * destruct H1 as [->|[q [Hq Hpos]]]; [by left|right].
        exists q. split; [|done]. rewrite lookup_insert_ne; [done|]. congruence.
      * intros p q. destruct (decide (i = p)) as [<-|Hne].
        { rewrite lookup_insert_eq. intros [= <-]. lia. }
        rewrite lookup_insert_ne by done. apply H3.
Qed.

Lemma ref_best_top levels m : side_refines levels m -> top_of_book levels (ref_best m).
Proof.
  intros [Hat Hdom]. destruct (ref_best_spec m) as (H1 & H2 & H3). split.
  - destruct H1 as [?|[q [Hq Hpos]]]; [by left|right]. split; [by eapply Hdom|].
    rewrite Hat by done. unfold ref_quantity. by rewrite Hq.
  - intros p [Hp1 Hp2] Hlt. rewrite Hat by lia. unfold ref_quantity.
    destruct (m !! p) as [q|] eqn:E; cbn; [|lia].
    destruct (Z.le_gt_cases q 0); [done|]. specialize (H3 p q E). lia.
Qed.

Lemma ref_load_refines side levels m :
  array_ok levels -> side_refines levels m ->
  match load_side side levels, ref_load side m with
  | Ok levels', Ok m' => array_ok levels' /\ side_refines levels' m'
  | Unexpected e, Unexpected e' => e = e'
  | _, _ => False
  end.
Proof.
  revert levels m. induction side as [|[ps qs] rest IH]; intros levels m Harr Hr; cbn; [done|].
  destruct (parse_price ps) as [p|] eqn:Ep; [|done].
  destruct (parse_quantity qs) as [q|] eqn:Eq; [|done].
  apply parse_price_Ok in Ep as [_ Hp]. apply parse_quantity_i64 in Eq.
  apply IH; [by apply set_level_ok|by apply side_refines_set].
Qed.

Lemma snapshot_refines st rb s r st' :
  book_ok st -> book_refines st rb -> apply_snapshot st s = (r, st') ->
  exists rb', ref_snapshot rb s = (r, rb') /\ book_ok st' /\ book_refines st' rb'.
Proof.
  intros Hok Hr. unfold apply_snapshot, ref_snapshot.
  pose proof (ref_load_refines (yes_dollars_fp s) _ _ empty_levels_ok side_refines_empty) as Hy.
  pose proof (ref_load_refines (no_dollars_fp s) _ _ empty_levels_ok side_refines_empty) as Hn.
  destruct (load_side (yes_dollars_fp s) _) as [y|e], (ref_load (yes_dollars_fp s) _) as [y'|e']; try done.
  - destruct (load_side (no_dollars_fp s) _) as [n|e], (ref_load (no_dollars_fp s) _) as [n'|e']; try done.
    + intros [= <- <-]. eexists. split; [done|]. destruct Hy, Hn.
      split; [|done]. split; cbn; split; auto using scan_best_top.
    + subst e'. intros [= <- <-]. eauto.
  - subst e'. intros [= <- <-]. eauto.
Qed.

Lemma delta_refines st rb d r st' :
  book_ok st -> book_refines st rb -> apply_delta st d = Some (r, st') ->
  exists rb', ref_delta rb d = (r, rb') /\ book_ok st' /\ book_refines st' rb'.
Proof.
  intros Hok Hr. unfold apply_delta, ref_delta.
  destruct (negb _ && negb _). { intros [= <- <-]. eauto. }
  destruct (parse_price (price_dollars d)) as [p|e] eqn:Ep; [|intros [= <- <-]; eauto].
  destruct (parse_quantity (delta_fp d)) as [q|e] eqn:Eq; [|intros [= <- <-]; eauto].
  apply parse_price_Ok in Ep as [_ Hp]. pose proof Hp as [Hp1 _].
  destruct Hok as [Hy Hn], Hr as (Ht & Hry & Hrn).
  destruct (bytes_eqb (side d) (lit "yes")).
  - destruct (update_side (_yes st) _ p q) as [[[levels best] neg]|] eqn:Eu; [|done].
    apply update_side_spec in Eu as (Hok' & -> & ->); [|done..].
    intros [= <- <-]. pose proof Hry as [Hat _]. rewrite Hat in * by lia.
    eexists. split; [done|]. split; [by split|]. split; [done|]. split; [|done].
    apply side_refines_set; [apply Hy|done|done].
  - destruct (update_side (_no st) _ p q) as [[[levels best] neg]|] eqn:Eu; [|done].
    apply update_side_spec in Eu as (Hok' & -> & ->); [|done..].
    intros [= <- <-]. pose proof Hrn as [Hat _]. rewrite Hat in * by lia.
    eexists. split; [done|]. split; [by split|]. split; [done|]. split; [done|].
    apply side_refines_set; [apply Hn|done|done].
Qed.

Lemma book_event_ok st ev r st' : book_ok st -> book_event st ev = Some (r, st') -> book_ok st'.
Proof.
  intros Hok. destruct ev; cbn; [intros [= H]; by eapply snapshot_ok|by apply delta_ok].
Qed.

Lemma run_book_refines evs st rb rs st' :
  book_ok st -> book_refines st rb -> run_book st evs = Some (rs, st') ->
  exists rb', ref_run rb evs = (rs, rb') /\ book_ok st' /\ book_refines st' rb'.
Proof.
  revert st rb rs. induction evs as [|ev evs IH]; intros st rb rs Hok Hr; cbn [run_book ref_run].
  { intros [= <- <-]. eauto. }
  destruct (book_event st ev) as [[r st1]|] eqn:Ee; [|done].
  destruct (run_book st1 evs) as [[rs' st2]|] eqn:Erun; [|done]. intros [= <- <-].
  assert (exists rb1, ref_event rb ev = (r, rb1) /\ book_ok st1 /\ book_refines st1 rb1)
    as (rb1 & -> & Hok1 & Hr1).
  { destruct ev; cbn in *; [simplify_eq; by eapply snapshot_refines|by eapply delta_refines]. }
  destruct (IH st1 rb1 rs' Hok1 Hr1 Erun) as (rb2 & -> & Hok2 & Hr2). eauto.
Qed.

Lemma new_market_state_ok : book_ok new_market_state.
Proof.
  assert (top_of_book empty_levels 0) as Htop.
  { split; [by left|]. intros p _ _. by rewrite level_at_empty. }
  split; split; auto using empty_levels_ok.
Qed.

Lemma new_market_state_refines : book_refines new_market_state ref_empty.
Proof. split; [done|]. split; apply side_refines_empty. Qed.

(** The best prices the array book reports are those of the map it refines. *)
Lemma refines_best st rb :
  book_ok st -> book_refines st rb ->
  _best_yes st = ref_best (ref_yes rb) /\ _best_no st = ref_best (ref_no rb).
Proof.
  intros [[_ Hy] [_ Hn]] (_ & Hry & Hrn).
  split; eapply top_of_book_unique; eauto using ref_best_top.
Qed.

(** ** Properties *)

(** C2. The array book with incrementally maintained best prices implements the
    reference book: for every sequence of snapshots and deltas, starting from the
    empty book, each message gives the same result as on the reference maps, the
    levels agree at every price, the best bid on each side is the one recomputed from
    all populated levels, and the bid and the ask that the book reports are that bid on
    the yes side and a dollar less that bid on the no side, if there are such bids. *)
Theorem run_book_implements_reference evs rs st :
  run_book new_market_state evs = Some (rs, st) ->
  exists rb, ref_run ref_empty evs = (rs, rb) /\
    _market_ticker st = ref_ticker rb /\
    (forall p, valid_price p -> level_at (_yes st) p = ref_quantity (ref_yes rb) p /\
                                level_at (_no st) p = ref_quantity (ref_no rb) p) /\
    _best_yes st = ref_best (ref_yes rb) /\ _best_no st = ref_best (ref_no rb) /\
    best_yes_bid st = (if ref_best (ref_yes rb) =? 0 then None else Some (ref_best (ref_yes rb))) /\
    best_yes_ask st = (if ref_best (ref_no rb) =? 0 then None else Some (1000 - ref_best (ref_no rb))).
Proof.
  intros Hrun.
  destruct (run_book_refines _ _ _ _ _ new_market_state_ok new_market_state_refines Hrun)
    as (rb & Href & Hok & Hr).
  exists rb. split; [done|]. pose proof Hr as (Ht & [Hy _] & [Hn _]). split; [done|].
  split; [intros p [Hp _]; rewrite Hy, Hn by lia; done|]. destruct (refines_best _ _ Hok Hr) as [H1 H2].
  unfold best_yes_bid, best_yes_ask. by rewrite H1, H2.
Qed.

Definition sample_snapshot : OrderBookSnapshot :=
  {| snap_market_ticker := lit "T"; snap_market_id := lit "id";
     yes_dollars_fp := [(lit "0.4000", lit "10.00"); (lit "0.4500", lit "3.00")];
     no_dollars_fp := [(lit "0.5000", lit "7.00"); (lit "0.5200", lit "1.00")] |}.

Definition sample_delta (s p q : string) : OrderBookDelta :=
  {| delta_market_ticker := lit "T"; delta_market_id := lit "id"; price_dollars := lit p;
     delta_fp := lit q; side := lit s; ts := []; delta_ts_ms := 0 |}.

Definition sample_events : list BookEvent :=
  [EvSnapshot sample_snapshot; EvDelta (sample_delta "yes" "0.4700" "2.00");
   EvDelta (sample_delta "yes" "0.47" "-2"); EvDelta (sample_delta "no" "0.5200" "-5.00")].

Lemma run_book_implements_reference_witness :
  exists rs st, run_book new_market_state sample_events = Some (rs, st) /\
    exists rb, ref_run ref_empty sample_events = (rs, rb) /\
      _best_yes st = ref_best (ref_yes rb) /\ _best_no st = ref_best (ref_no rb) /\
      best_yes_bid st = Some 450 /\ best_yes_ask st = Some 500.
Proof.
  destruct (run_book new_market_state sample_events) as [[rs st]|] eqn:E;
    [|vm_compute in E; discriminate E].
  exists rs, st. split; [done|].
  destruct (run_book_implements_reference sample_events rs st E) as (rb & H1 & _ & _ & H2 & H3 & H4 & H5).
  exists rb. split; [exact H1|]. split; [exact H2|]. split; [exact H3|].
  assert (ref_run ref_empty sample_events = (rs, rb) -> ref_best (ref_yes rb) = 450 /\ ref_best (ref_no rb) = 500) as Hr.
  { intros Hr. apply (f_equal snd) in Hr. cbn [snd] in Hr. rewrite <- Hr. split; vm_compute; reflexivity. }
  destruct (Hr H1) as [Hy Hn]. rewrite H4, H5, Hy, Hn. split; reflexivity.
Defined.

Example run_book_sample :
  (fun '(rs, st) => (rs, _best_yes st, _best_no st)) <$> run_book new_market_state sample_events =
  Some ([Ok tt; Ok tt; Ok tt; Unexpected (out_of_sync (lit "no") 520)], 450, 500).
Proof. vm_compute. reflexivity. Qed.

(** C3. The book invariant is inductive: on a well-formed book (both arrays have
    their 1001 entries within [int64_t], and each best price is the highest populated
    level of its side) every snapshot and every delta, accepted or rejected, leaves a
    well-formed book.  In particular every array access is in bounds. *)
Theorem book_invariant_preserved st ev r st' :
  book_ok st -> book_event st ev = Some (r, st') -> book_ok st'.
Proof. apply book_event_ok. Qed.

Lemma book_invariant_preserved_witness :
  exists r st', book_event new_market_state (EvSnapshot sample_snapshot) = Some (r, st') /\ book_ok st'.
Proof.
  destruct (book_event new_market_state (EvSnapshot sample_snapshot)) as [[r st']|] eqn:E;
    [|vm_compute in E; discriminate E].
  exists r, st'. split; [done|].
  exact (book_invariant_preserved _ _ _ _ new_market_state_ok E).
Defined.

(** C18. Error effects: an operation that fails with [Malformed] leaves the book
    exactly as it was; the only other failure is [OutOfSync], which a delta reports
    when its level would go negative, and then that level is zero, every other level
    of the side and the whole other side keep their value. *)
Theorem book_error_effects st ev e st' :
  book_ok st -> book_event st ev = Some (Unexpected e, st') ->
  (kind e = Malformed /\ st' = st) \/
  (kind e = OutOfSync /\ exists d p q,
     ev = EvDelta d /\ parse_price (price_dollars d) = Ok p /\ parse_quantity (delta_fp d) = Ok q /\
     (side d = lit "yes" \/ side d = lit "no") /\
     level_at (side_levels st (side d)) p + q < 0 /\
     (forall p', valid_price p' -> level_at (side_levels st' (side d)) p' =
        if p' =? p then 0 else level_at (side_levels st (side d)) p') /\
     (forall s, s <> side d -> s = lit "yes" \/ s = lit "no" -> side_levels st' s = side_levels st s)).
Proof.
  intros Hok. destruct ev as [s|d]; cbn [book_event].
  - intros [= Ha]. left. unfold apply_snapshot in Ha.
    destruct (load_side (yes_dollars_fp s) _) as [y|e1] eqn:Ey.
    + destruct (load_side (no_dollars_fp s) _) as [n|e1] eqn:En; simplify_eq.
      split; [|done]. by eapply load_side_error.
    + simplify_eq. split; [|done]. by eapply load_side_error.
  - intros Ha. apply apply_delta_cases in Ha as [[e' [Hr [Hk ->]]]|(p & q & levels & best & neg & Hs & Hp & Hq & Hu & Hr & ->)].
    { simplify_eq. by left. }
    destruct neg; [|done]. simplify_eq. right. split; [done|].
    exists d, p, q. pose proof Hp as [_ Hv]%parse_price_Ok. pose proof (side_levels_ok st (side d) Hok) as Hside.
    apply update_side_spec in Hu as (Hok' & -> & Hneg); [|done..].
    symmetry in Hneg. apply Z.ltb_lt in Hneg.
    do 5 (split; [done|]). rewrite side_levels_set. split.
    + intros p' [Hp' _]. rewrite level_at_set by (done || apply Hside || lia).
      destruct (p' =? p); [|done]. unfold clamp. lia.
    + intros s Hne Hs'. by apply side_levels_set_other.
Qed.

Lemma book_error_effects_witness :
  exists e st', book_event new_market_state (EvDelta (sample_delta "yes" "0.4500" "-5.00"))
                = Some (Unexpected e, st') /\ (kind e = Malformed /\ st' = new_market_state \/ kind e = OutOfSync).
Proof.
  destruct (book_event new_market_state (EvDelta (sample_delta "yes" "0.4500" "-5.00")))
    as [[[[]|e] st']|] eqn:E; try (vm_compute in E; discriminate E).
  exists e, st'. split; [done|].
  destruct (book_error_effects _ _ _ _ new_market_state_ok E) as [Hm|[Hk _]]; [by left|by right].
Defined.

(** ** Arithmetic stays in range *)

Definition levels_within (M : Z) (levels : Levels) : Prop := Forall (fun q => Z.abs q <= M) levels.

Definition book_within (M : Z) (st : MarketState) : Prop :=
  levels_within M (_yes st) /\ levels_within M (_no st).

Definition quantity_within (B : Z) (s : bytes) : Prop :=
  forall q, parse_quantity s = Ok q -> Z.abs q <= B.

(** Every quantity of the message is at most [B] in magnitude. *)
Definition event_within (B : Z) (ev : BookEvent) : Prop :=
  match ev with
  | EvSnapshot s => Forall (fun l => quantity_within B l.2) (yes_dollars_fp s ++ no_dollars_fp s)
  | EvDelta d => quantity_within B (delta_fp d)
  end.

Lemma levels_within_at M levels p : 0 <= M -> levels_within M levels -> Z.abs (level_at levels p) <= M.
Proof.
  intros HM Hl. unfold level_at. destruct (levels !! Z.to_nat p) eqn:E; cbn; [|lia].
  by eapply (Forall_lookup_1 _ _ _ _ Hl).
Qed.

Lemma levels_within_mono M M' levels : M <= M' -> levels_within M levels -> levels_within M' levels.
Proof. intros HM Hl. eapply Forall_impl; [exact Hl|]. cbn. lia. Qed.

Lemma load_side_within B side levels levels' :
  Forall (fun l => quantity_within B l.2) side -> levels_within B levels ->
  load_side side levels = Ok levels' -> levels_within B levels'.
Proof.
  intros Hs. revert levels. induction Hs as [|[ps qs] rest Hq Hs IH]; intros levels Hl; cbn [load_side].
  { intros [= <-]. done. }
  destruct (parse_price ps) as [p|]; [|done].
  destruct (parse_quantity qs) as [q|] eqn:Eq; [|done].
  apply IH. apply Forall_insert; [done|]. by apply Hq.
Qed.

Lemma empty_levels_within B : 0 <= B -> levels_within B empty_levels.
Proof. intros HB. apply Forall_replicate. cbn. lia. Qed.

Lemma snapshot_within B M st s r st' :
  0 <= B <= M -> event_within B (EvSnapshot s) -> book_within M st ->
  apply_snapshot st s = (r, st') -> book_within M st'.
Proof.
  intros HB Hev Hst. cbn in Hev. apply Forall_app in Hev as [Hy Hn]. unfold apply_snapshot.
  destruct (load_side (yes_dollars_fp s) _) as [y|e] eqn:Ey; [|intros [= <- <-]; done].
  destruct (load_side (no_dollars_fp s) _) as [n|e] eqn:En; [|intros [= <- <-]; done].
  intros [= <- <-]. split; cbn; (apply (levels_within_mono B); [lia|]).
  - eapply load_side_within; [exact Hy| |exact Ey]. apply empty_levels_within. lia.
  - eapply load_side_within; [exact Hn| |exact En]. apply empty_levels_within. lia.
Qed.

Lemma side_levels_within M st s : book_within M st -> levels_within M (side_levels st s).
Proof. intros [? ?]. unfold side_levels. by destruct (bytes_eqb _ _). Qed.

Lemma delta_within B M st d :
  0 <= B -> 0 <= M -> M + B <= INT64_MAX -> event_within B (EvDelta d) ->
  book_ok st -> book_within M st ->
  exists r st', apply_delta st d = Some (r, st') /\ book_within (M + B) st'.
Proof.
  intros HB HM Hsum Hev Hok Hst.
  assert (book_within (M + B) st) as Hst'.
  { destruct Hst. split; (eapply levels_within_mono; [|done]); lia. }
  destruct (apply_delta st d) as [[r st']|] eqn:Ed.
  - exists r, st'. split; [done|].
    apply apply_delta_cases in Ed as [(e & _ & _ & ->)|(p & q & levels & best & neg & _ & Hp & Hq & Hu & _ & ->)]; [done|].
    apply parse_price_Ok in Hp as [_ Hp].
    apply update_side_spec in Hu as (_ & -> & _); [|by apply side_levels_ok|done].
    pose proof (levels_within_at M (side_levels st (side d)) p HM (side_levels_within _ _ _ Hst)) as Hat.
    specialize (Hev q Hq).
    assert (levels_within (M + B) (set_level (side_levels st (side d)) p
              (clamp (level_at (side_levels st (side d)) p + q)))) as Hset.
    { apply Forall_insert; [by apply side_levels_within|]. unfold clamp. lia. }
    destruct Hst' as [Hy Hn]. unfold set_side. by destruct (bytes_eqb _ _).
  - exfalso. unfold apply_delta in Ed. fold (side_levels st (side d)) in Ed.
    destruct (negb _ && negb _); [done|].
    destruct (parse_price (price_dollars d)) as [p|] eqn:Ep; [|done].
    destruct (parse_quantity (delta_fp d)) as [q|] eqn:Eq; [|done].
    specialize (Hev q Eq). destruct Hst as [Hy Hn].
    assert (forall levels best, levels_within M levels -> update_side levels best p q <> None) as Hdef.
    { intros levels best Hl. pose proof (levels_within_at M levels p HM Hl).
      destruct (update_side_defined levels best p q) as [x ->]; [|done].
      unfold in_i64, INT64_MIN, INT64_MAX in *. lia. }
    destruct (bytes_eqb (side d) (lit "yes")).
    + destruct (update_side (_yes st) _ p q) as [[[? ?] ?]|] eqn:Eu; [done|]. by apply (Hdef _ _ Hy) in Eu.
    + destruct (update_side (_no st) _ p q) as [[[? ?] ?]|] eqn:Eu; [done|]. by apply (Hdef _ _ Hn) in Eu.
Qed.

Lemma run_book_within B M evs st :
  0 <= B <= M -> M + B * Z.of_nat (length evs) <= INT64_MAX ->
  Forall (event_within B) evs -> book_ok st -> book_within M st -> is_Some (run_book st evs).
Proof.
  intros HB. revert M st HB. induction evs as [|ev evs IH]; intros M st HB HM Hevs Hok Hst.
  { by eexists. }
  apply Forall_cons in Hevs as [Hev Hevs]. cbn [length] in HM. cbn [run_book].
  assert (exists r st', book_event st ev = Some (r, st') /\ book_within (M + B) st') as (r & st' & He & Hst').
  { destruct ev as [s|d]; cbn [book_event].
    - destruct (apply_snapshot st s) as [r st'] eqn:E. exists r, st'. split; [done|].
      pose proof (snapshot_within B M st s r st' HB Hev Hst E) as [? ?].
      split; (eapply levels_within_mono; [|done]); lia.
    - apply delta_within; auto; lia. }
  rewrite He. pose proof (book_event_ok _ _ _ _ Hok He) as Hok'.
  destruct (IH (M + B) st' ltac:(lia) ltac:(lia) Hevs Hok' Hst') as [[rs st''] ->]. by eexists.
Qed.

(** C19. No arithmetic leaves [int64_t] while the traffic is bounded: if every
    quantity in a message sequence is at most [B] hundredths of a contract and
    [(n + 1) * B] fits for its [n] messages, the book processes the whole sequence
    without signed overflow. *)
Theorem run_book_no_overflow B evs :
  0 <= B -> B * (Z.of_nat (length evs) + 1) <= INT64_MAX ->
  Forall (event_within B) evs -> is_Some (run_book new_market_state evs).
Proof.
  intros HB Hle Hevs. apply (run_book_within B B); auto; [lia|lia|apply new_market_state_ok|].
  split; by apply empty_levels_within.
Qed.

Lemma run_book_no_overflow_witness : is_Some (run_book new_market_state sample_events).
Proof.
  apply (run_book_no_overflow 1000 sample_events).
  - lia.
  - vm_compute. discriminate.
  - repeat constructor; intros q Hq; vm_compute in Hq; injection Hq as <-; vm_compute; discriminate.
Defined.

(** Without such a bound overflow is reachable: quantities are accepted up to
    [INT64_MAX] hundredths, and adding to such a level overflows [level += *qty]. *)
Lemma delta_overflow_reachable :
  run_book new_market_state
    [EvDelta (sample_delta "yes" "0.4500" "92233720368547758.07");
     EvDelta (sample_delta "yes" "0.4500" "0.01")] = None.
Proof. vm_compute. reflexivity. Qed.

Lemma all_prices_round_trip :
  forallb (fun n => match parse_price (price_to_dollars (Z.of_nat n)) with
                    | Ok q => q =? Z.of_nat n
                    | Unexpected _ => false
                    end) (List.seq 1 999) = true.
Proof. vm_compute. reflexivity. Qed.

Lemma price_wire p :
  valid_price p -> parse_price (price_to_dollars p) = Ok p.
Proof.
  intros [Hp1 Hp2]. unfold kMaxPrice in Hp2.
  pose proof (proj1 (forallb_forall _ _) all_prices_round_trip (Z.to_nat p)) as H.
  cbv beta in H.
  rewrite Z2Nat.id in H by lia.
  destruct (parse_price (price_to_dollars p)) as [q|e].
  - f_equal. apply Z.eqb_eq, H, in_seq. lia.
  - discriminate H. apply in_seq. lia.
Qed.
