(* ===== verification/JsonLexer.v ===== *)
(** * JsonLexer: the pull lexer (include/json_lexer.hpp, src/encoding/json_lexer.cpp)

    The lexer state is the input and a position; [next] skips white space and
    returns one token.  A loop [while (_pos < _input.size())] is a recursion on the
    part of the input that is left, with the position counted alongside, so every
    function here is total without fuel.  Offsets are [size_t]s bounded by the
    input size and are kept as natural numbers. *)

From S2P Require Import Prelude CharConv.

(** ** Data *)

Inductive TokenType : Type :=
| LeftBrace | RightBrace | LeftBracket | RightBracket | Colon | Comma
| TString | TNumber | TTrue | TFalse | TNull | TEnd.

#[export] Instance TokenType_eq_dec : EqDecision TokenType.
Proof. solve_decision. Defined.

Record JsonError : Type := { what : bytes; offset : nat }.

(** [JsonError::message] *)
Definition JsonError_message (e : JsonError) : bytes :=
  what e ++ lit " at offset " ++ fmt_int (Z.of_nat (offset e)).

Record Token : Type := { type : TokenType; text : bytes; has_escapes : bool }.

Record JsonLexer : Type := { _input : bytes; _pos : nat }.

Definition new_lexer (input : bytes) : JsonLexer := {| _input := input; _pos := 0 |}.

(** The characters not yet consumed. *)
Definition rest_of (L : JsonLexer) : bytes := drop (_pos L) (_input L).

Definition at_pos (L : JsonLexer) (p : nat) : JsonLexer := {| _input := _input L; _pos := p |}.

(** [_input.substr(start, len)] *)
Definition substr (s : bytes) (start len : nat) : bytes := take len (drop start s).

Definition dquote : byte := x22.
Definition backslash : byte := x5c.

(** ** Operations *)

(** JSON text with single quotes for double quotes. *)
Definition json_text (s : string) : bytes := map (fun c => if Byte.eqb c x27 then dquote else c) (lit s).

Definition is_digit (c : byte) : bool := (48 <=? bz c) && (bz c <=? 57).

Definition is_hex (c : byte) : bool :=
  is_digit c || ((97 <=? bz c) && (bz c <=? 102)) || ((65 <=? bz c) && (bz c <=? 70)).

Definition is_space (c : byte) : bool :=
  Byte.eqb c " "%byte || Byte.eqb c x0a || Byte.eqb c x0d || Byte.eqb c x09.

(** The escape letters other than [u]. *)
Definition is_simple_escape (c : byte) : bool :=
  Byte.eqb c dquote || Byte.eqb c backslash || Byte.eqb c "/"%byte || Byte.eqb c "b"%byte ||
  Byte.eqb c "f"%byte || Byte.eqb c "n"%byte || Byte.eqb c "r"%byte || Byte.eqb c "t"%byte.

Fixpoint skip_space (rest : bytes) (pos : nat) : nat :=
  match rest with
  | [] => pos
  | c :: r => if is_space c then skip_space r (S pos) else pos
  end.

(** The loop of [lex_string].  [hex_left] counts the rounds left of the inner
    [for (int i = 0; i < 4; ++i)] that checks a [\u] escape.  On success the result is
    the position of the closing quote and [has_escapes]. *)
Fixpoint lex_string_loop (rest : bytes) (pos start : nat) (esc : bool) (hex_left : nat)
    : expected JsonError (nat * bool) :=
  match hex_left with
  | S k =>
    match rest with
    | c :: r =>
      if is_hex c then lex_string_loop r (S pos) start esc k
      else Unexpected {| what := lit "Invalid \u escape in string"; offset := pos |}
    | [] => Unexpected {| what := lit "Invalid \u escape in string"; offset := pos |}
    end
  | O =>
    match rest with
    | [] => Unexpected {| what := lit "Unterminated string"; offset := start - 1 |}
    | c :: r =>
      if Byte.eqb c dquote then Ok (pos, esc)
      else if bz c <? 32 then
        Unexpected {| what := lit "Unescaped control character in string"; offset := pos |}
      else if Byte.eqb c backslash then
        match r with
        | [] => Unexpected {| what := lit "Unterminated string"; offset := start - 1 |}
        | e :: r' =>
          if is_simple_escape e then lex_string_loop r' (S (S pos)) start true 0
          else if Byte.eqb e "u"%byte then lex_string_loop r' (S (S pos)) start true 4
          else Unexpected {| what := lit "Invalid escape in string"; offset := S pos |}
        end
      else lex_string_loop r (S pos) start esc 0
    end
  end.

(** Called with the position on the opening quote. *)
Definition lex_string (L : JsonLexer) : expected JsonError Token * JsonLexer :=
  let start := S (_pos L) in
  match lex_string_loop (drop start (_input L)) start start false 0 with
  | Ok (close, esc) =>
    (Ok {| type := TString; text := substr (_input L) start (close - start); has_escapes := esc |},
     at_pos L (S close))
  | Unexpected e => (Unexpected e, at_pos L (offset e))
  end.

Definition peek (rest : bytes) : byte := match rest with c :: _ => c | [] => x00 end.

(** [while (is_digit(peek())) ++_pos;] *)
Fixpoint skip_digits (rest : bytes) (pos : nat) : bytes * nat :=
  match rest with
  | [] => (rest, pos)
  | c :: r => if is_digit c then skip_digits r (S pos) else (rest, pos)
  end.

(** [digits()]: skips the digits and requires at least one. *)
Definition digits (rest : bytes) (pos : nat) : option (bytes * nat) :=
  let '(r, p) := skip_digits rest pos in
  if (pos <? p)%nat then Some (r, p) else None.

(** The integer part: an optional minus sign, then a single zero or a run of digits. *)
Definition lex_int (rest : bytes) (pos : nat) : option (bytes * nat) :=
  let '(r, p) := if Byte.eqb (peek rest) "-"%byte then (tail rest, S pos) else (rest, pos) in
  if Byte.eqb (peek r) "0"%byte then Some (tail r, S p) else digits r p.

(** The optional fraction: a point and at least one digit. *)
Definition lex_frac (rest : bytes) (pos : nat) : option (bytes * nat) :=
  if Byte.eqb (peek rest) "."%byte then digits (tail rest) (S pos) else Some (rest, pos).

(** The optional exponent: [e] or [E], an optional sign, at least one digit. *)
Definition lex_exp (rest : bytes) (pos : nat) : option (bytes * nat) :=
  if Byte.eqb (peek rest) "e"%byte || Byte.eqb (peek rest) "E"%byte then
    let '(r, p) := (tail rest, S pos) in
    let '(r, p) := if Byte.eqb (peek r) "+"%byte || Byte.eqb (peek r) "-"%byte
                   then (tail r, S p) else (r, p) in
    digits r p
  else Some (rest, pos).

Definition lex_number (L : JsonLexer) : expected JsonError Token * JsonLexer :=
  let start := _pos L in
  let err m := (Unexpected {| what := lit m; offset := start |}, L) in
  match lex_int (rest_of L) start with
  | None => err "Invalid number"%string
  | Some (r1, p1) =>
    match lex_frac r1 p1 with
    | None => err "Invalid number: no digits after '.'"%string
    | Some (r2, p2) =>
      match lex_exp r2 p2 with
      | None => err "Invalid number: bad exponent"%string
      | Some (_, p3) =>
        (Ok {| type := TNumber; text := substr (_input L) start (p3 - start); has_escapes := false |},
         at_pos L p3)
      end
    end
  end.

Fixpoint starts_with (s word : bytes) : bool :=
  match word, s with
  | [], _ => true
  | w :: word', c :: s' => Byte.eqb c w && starts_with s' word'
  | _ :: _, [] => false
  end.

(** The token of a one-character terminal. *)
Definition single_type (c : byte) : option TokenType :=
  if Byte.eqb c "{"%byte then Some LeftBrace
  else if Byte.eqb c "}"%byte then Some RightBrace
  else if Byte.eqb c "["%byte then Some LeftBracket
  else if Byte.eqb c "]"%byte then Some RightBracket
  else if Byte.eqb c ":"%byte then Some Colon
  else if Byte.eqb c ","%byte then Some Comma
  else None.

Definition word_token (L : JsonLexer) (t : TokenType) (word : bytes) : expected JsonError Token * JsonLexer :=
  (Ok {| type := t; text := word; has_escapes := false |}, at_pos L (_pos L + length word)).

(** [JsonLexer::next] after the white space. *)
Definition lex_token (L : JsonLexer) : expected JsonError Token * JsonLexer :=
  match rest_of L with
  | [] => (Ok {| type := TEnd; text := []; has_escapes := false |}, L)
  | c :: _ =>
    match single_type c with
    | Some t => (Ok {| type := t; text := [c]; has_escapes := false |}, at_pos L (S (_pos L)))
    | None =>
      if Byte.eqb c dquote then lex_string L
      else if starts_with (rest_of L) (lit "true") then word_token L TTrue (lit "true")
      else if starts_with (rest_of L) (lit "false") then word_token L TFalse (lit "false")
      else if starts_with (rest_of L) (lit "null") then word_token L TNull (lit "null")
      else if Byte.eqb c "-"%byte || is_digit c then lex_number L
      else (Unexpected {| what := lit "Unexpected character"; offset := _pos L |}, L)
    end
  end.

Definition next (L : JsonLexer) : expected JsonError Token * JsonLexer :=
  lex_token (at_pos L (skip_space (rest_of L) (_pos L))).

(** ** The token grammar *)

(** The raw contents of a string token: plain characters, two-character escapes and
    [\uXXXX] escapes. *)
Inductive raw_string : bytes -> Prop :=
| raw_nil : raw_string []
| raw_plain c s :
    Byte.eqb c dquote = false -> Byte.eqb c backslash = false -> 32 <= bz c ->
    raw_string s -> raw_string (c :: s)
| raw_simple e s :
    is_simple_escape e = true -> raw_string s -> raw_string (backslash :: e :: s)
| raw_unicode h1 h2 h3 h4 s :
    is_hex h1 = true -> is_hex h2 = true -> is_hex h3 = true -> is_hex h4 = true ->
    raw_string s -> raw_string (backslash :: "u"%byte :: h1 :: h2 :: h3 :: h4 :: s).

Definition has_backslash (s : bytes) : bool := existsb (fun c => Byte.eqb c backslash) s.

Definition digit_string (s : bytes) : Prop := s <> [] /\ Forall (fun c => is_digit c = true) s.

(** The number grammar of RFC 8259, without its leading-zero rule on the first
    digit of a longer run: that rule is what makes the lexer stop after a zero. *)
Definition json_int (s : bytes) : Prop :=
  exists neg ds, s = (if neg : bool then "-"%byte :: ds else ds) /\
    (ds = ["0"%byte] \/ (digit_string ds /\ peek ds <> "0"%byte)).
Definition json_frac (s : bytes) : Prop :=
  s = [] \/ exists ds, s = "."%byte :: ds /\ digit_string ds.
Definition json_exp (s : bytes) : Prop :=
  s = [] \/ exists e sign ds, (e = "e"%byte \/ e = "E"%byte) /\
    (sign = [] \/ sign = ["+"%byte] \/ sign = ["-"%byte]) /\
    digit_string ds /\ s = e :: sign ++ ds.
Definition json_number (s : bytes) : Prop :=
  exists i f x, s = i ++ f ++ x /\ json_int i /\ json_frac f /\ json_exp x.

(** ** Strings *)

Lemma lex_string_loop_sound n rest pos start esc k close esc' :
  (length rest <= n)%nat ->
  lex_string_loop rest pos start esc k = Ok (close, esc') ->
  exists hs body r, rest = hs ++ body ++ dquote :: r /\ length hs = k /\
    Forall (fun c => is_hex c = true) hs /\ raw_string body /\
    close = (pos + k + length body)%nat /\ esc' = esc || has_backslash body.
Proof.
  revert rest pos esc k. induction n as [|n IH]; intros rest pos esc k Hlen.
  { destruct rest; [|cbn in Hlen; lia]. by destruct k. }
  destruct k as [|k], rest as [|c r]; cbn [lex_string_loop]; try done; cbn in Hlen.
  2: { destruct (is_hex c) eqn:Hc; [|done]. intros H.
       apply IH in H as (hs & body & r' & -> & <- & Hhs & Hb & -> & ->); [|lia].
       exists (c :: hs), body, r'. repeat split; auto; cbn; lia. }
  destruct (Byte.eqb c dquote) eqn:Eq.
  { intros [= <- <-]. exists [], [], r.
    destruct (byte_eqb_spec c dquote) as [->|]; [|done].
    repeat split; auto using raw_nil; cbn; rewrite ?orb_false_r; auto; lia. }
  destruct (Z.ltb_spec (bz c) 32); [done|].
  destruct (byte_eqb_spec c backslash) as [->|Hne].
  - destruct r as [|e r']; [done|]. cbn in Hlen.
    destruct (is_simple_escape e) eqn:Es.
    + intros H'. apply IH in H' as (hs & body & r'' & -> & Hk & Hhs & Hb & -> & ->); [|lia].
      destruct hs; [|done]. exists [], (backslash :: e :: body), r''.
      repeat split; auto using raw_simple; cbn; rewrite ?orb_true_r; auto; lia.
    + destruct (byte_eqb_spec e "u"%byte) as [->|]; [|done].
      intros H'. apply IH in H' as (hs & body & r'' & -> & Hk & Hhs & Hb & -> & ->); [|lia].
      destruct hs as [|h1 [|h2 [|h3 [|h4 [|]]]]]; try done.
      exists [], (backslash :: "u"%byte :: h1 :: h2 :: h3 :: h4 :: body), r''.
      rewrite !Forall_cons in Hhs. destruct Hhs as (? & ? & ? & ? & _).
      repeat split; auto using raw_unicode; cbn; rewrite ?orb_true_r; auto; lia.
  - intros H'. apply IH in H' as (hs & body & r'' & -> & Hk & Hhs & Hb & -> & ->); [|lia].
    destruct hs; [|done]. exists [], (c :: body), r''.
    assert (Byte.eqb c backslash = false) as Ebs by by destruct (byte_eqb_spec c backslash).
    repeat split; auto using raw_plain; cbn; rewrite ?Ebs; auto; lia.
Qed.

Lemma lex_string_loop_complete body r pos start esc :
  raw_string body ->
  lex_string_loop (body ++ dquote :: r) pos start esc 0 =
  Ok ((pos + length body)%nat, esc || has_backslash body).
Proof.
  intros Hb. revert pos esc. induction Hb as [|c s Hq Hbs Hc Hb IH|e s He Hb IH|h1 h2 h3 h4 s H1 H2 H3 H4 Hb IH];
    intros pos esc; cbn [app lex_string_loop length].
  - rewrite byte_eqb_refl. cbn. by rewrite orb_false_r, Nat.add_0_r.
  - rewrite Hq, Hbs. destruct (Z.ltb_spec (bz c) 32); [lia|]. rewrite IH.
    cbn. rewrite Hbs. do 2 f_equal. lia.
  - cbn. rewrite He, IH. cbn. rewrite orb_true_r. do 2 f_equal. lia.
  - cbn. rewrite H1, H2, H3, H4, IH. cbn. rewrite orb_true_r. do 2 f_equal. lia.
Qed.

(** ** Positions *)

Lemma drop_add_app {A} (l x r : list A) p : drop p l = x ++ r -> drop (p + length x) l = r.
Proof. intros H. rewrite <- drop_drop, H. apply drop_app_length. Qed.

Lemma rest_of_at_pos L x r : rest_of L = x ++ r -> rest_of (at_pos L (_pos L + length x)) = r.
Proof. apply drop_add_app. Qed.

Lemma substr_app s p x r : drop p s = x ++ r -> substr s p (length x) = x.
Proof. intros H. unfold substr. rewrite H. apply take_app_length. Qed.

Lemma drop_app_bound {A} (l x r : list A) p : drop p l = x ++ r -> x <> [] -> (p + length x <= length l)%nat.
Proof.
  intros H Hx. assert (length (drop p l) = length (x ++ r)) as Hl by by rewrite H.
  rewrite length_drop, length_app in Hl. destruct x; [done|]. cbn in *. lia.
Qed.

(** A string token at the current position. *)
Lemma lex_string_complete L body r :
  rest_of L = dquote :: body ++ dquote :: r -> raw_string body ->
  lex_string L = (Ok {| type := TString; text := body; has_escapes := has_backslash body |},
                  at_pos L (_pos L + length body + 2)).
Proof.
  intros HL Hb. unfold lex_string.
  assert (drop (S (_pos L)) (_input L) = body ++ dquote :: r) as Hd.
  { by apply drop_cons_lookup in HL as (_ & -> & _). }
  rewrite Hd, lex_string_loop_complete by done. cbn [orb].
  replace (S (_pos L) + length body - S (_pos L))%nat with (length body) by lia.
  rewrite (substr_app _ _ _ _ Hd). do 2 f_equal. lia.
Qed.

Lemma lex_string_sound L c r t L' :
  rest_of L = c :: r -> lex_string L = (Ok t, L') ->
  exists body r', r = body ++ dquote :: r' /\ raw_string body /\
    t = {| type := TString; text := body; has_escapes := has_backslash body |} /\
    L' = at_pos L (_pos L + length body + 2).
Proof.
  intros HL. unfold lex_string.
  assert (drop (S (_pos L)) (_input L) = r) as Hd.
  { by apply drop_cons_lookup in HL as (_ & -> & _). }
  rewrite Hd. destruct (lex_string_loop _ _ _ _ _) as [[close esc]|] eqn:E; [|done].
  apply (lex_string_loop_sound (length r)) in E as (hs & body & r' & Hr & Hk & _ & Hb & -> & ->); [|lia].
  destruct hs; [|done]. cbn in Hr. intros [= <- <-]. exists body, r'.
  rewrite Hr in Hd. split; [done|]. split; [done|].
  replace (_pos L + 0 + length body - _pos L)%nat with (length body) by lia.
  rewrite (substr_app _ _ _ _ Hd). split; [done|]. f_equal. lia.
Qed.

(** ** Numbers *)

Lemma skip_digits_spec rest pos r p :
  skip_digits rest pos = (r, p) ->
  exists ds, rest = ds ++ r /\ Forall (fun c => is_digit c = true) ds /\
    p = (pos + length ds)%nat /\ is_digit (peek r) = false.
Proof.
  revert pos. induction rest as [|c rest IH]; intros pos; cbn [skip_digits].
  { intros [= <- <-]. exists []. cbn. repeat split; auto; lia. }
  destruct (is_digit c) eqn:Ec.
  - intros H. apply IH in H as (ds & -> & Hds & -> & Hp). exists (c :: ds).
    repeat split; auto; cbn; lia.
  - intros [= <- <-]. exists []. cbn. repeat split; auto; lia.
Qed.

Lemma skip_digits_complete ds r pos :
  Forall (fun c => is_digit c = true) ds -> is_digit (peek r) = false ->
  skip_digits (ds ++ r) pos = (r, (pos + length ds)%nat).
Proof.
  intros Hds Hr. revert pos. induction Hds as [|c ds Hc Hds IH]; intros pos; cbn [app skip_digits length].
  - rewrite Nat.add_0_r. destruct r as [|c r]; [done|]. cbn in *. by rewrite Hr.
  - rewrite Hc, IH. f_equal. lia.
Qed.

(** What every step of the number lexer does: it consumes a prefix [x]. *)
Definition consumes (P : bytes -> Prop) (rest : bytes) (pos : nat) (o : option (bytes * nat)) : Prop :=
  match o with
  | Some (r, p) => exists x, rest = x ++ r /\ P x /\ p = (pos + length x)%nat
  | None => True
  end.

Lemma digits_sound rest pos : consumes digit_string rest pos (digits rest pos).
Proof.
  unfold digits. destruct (skip_digits rest pos) as [r p] eqn:E.
  apply skip_digits_spec in E as (ds & -> & Hds & -> & _).
  destruct (Nat.ltb_spec pos (pos + length ds)); [|done].
  exists ds. split; [done|]. split; [split|]; auto. intros ->. cbn in *. lia.
Qed.

Lemma digits_complete ds r pos :
  digit_string ds -> is_digit (peek r) = false ->
  digits (ds ++ r) pos = Some (r, (pos + length ds)%nat).
Proof.
  intros [Hne Hds] Hr. unfold digits. rewrite skip_digits_complete by done.
  destruct (Nat.ltb_spec pos (pos + length ds)); [done|]. destruct ds; [done|]. cbn in *. lia.
Qed.

Lemma peek_app s r : s <> [] -> peek (s ++ r) = peek s.
Proof. by destruct s. Qed.

Lemma peek_eq rest c : Byte.eqb (peek rest) c = true -> c <> x00 -> rest = c :: tail rest.
Proof.
  destruct rest as [|d rest]; cbn [peek tail]; intros H Hc.
  - destruct (byte_eqb_spec x00 c); congruence.
  - destruct (byte_eqb_spec d c); congruence.
Qed.

Lemma lex_int_sound rest pos : consumes json_int rest pos (lex_int rest pos).
Proof.
  unfold lex_int.
  assert (forall (neg : bool) r p,
    consumes (fun ds => ds = ["0"%byte] \/ (digit_string ds /\ peek ds <> "0"%byte)) r p
      (if Byte.eqb (peek r) "0"%byte then Some (tail r, S p) else digits r p)) as Hbody.
  { intros neg r p. destruct (Byte.eqb (peek r) "0"%byte) eqn:E0.
    - apply peek_eq in E0; [|done]. exists ["0"%byte]. rewrite E0 at 1. cbn. repeat split; auto; lia.
    - pose proof (digits_sound r p) as H. destruct (digits r p) as [[r' p']|]; [|done].
      destruct H as (x & -> & Hx & ->). exists x. split; [done|]. split; [|done]. right.
      split; [done|]. destruct Hx as [Hne _]. rewrite peek_app in E0 by done.
      intros Hp. rewrite Hp in E0. done. }
  destruct (Byte.eqb (peek rest) "-"%byte) eqn:Em.
  - apply peek_eq in Em; [|done]. pose proof (Hbody true (tail rest) (S pos)) as H. unfold consumes in *.
    destruct (if Byte.eqb _ _ then _ else _) as [[r p]|]; [|done].
    destruct H as (x & Hr & Hx & ->). exists ("-"%byte :: x). rewrite Em, Hr. repeat split; [|cbn; lia].
    by exists true, x.
  - pose proof (Hbody false rest pos) as H. unfold consumes in *.
    destruct (if Byte.eqb _ _ then _ else _) as [[r p]|]; [|done].
    destruct H as (x & Hr & Hx & ->). exists x. repeat split; auto. by exists false, x.
Qed.

Lemma lex_frac_sound rest pos : consumes json_frac rest pos (lex_frac rest pos).
Proof.
  unfold lex_frac. destruct (Byte.eqb (peek rest) "."%byte) eqn:E.
  - apply peek_eq in E; [|done]. pose proof (digits_sound (tail rest) (S pos)) as H. unfold consumes in *.
    destruct (digits _ _) as [[r p]|]; [|done]. destruct H as (x & Hr & Hx & ->).
    exists ("."%byte :: x). rewrite E, Hr. repeat split; [|cbn; lia]. right. eauto.
  - exists []. repeat split; [by left|cbn; lia].
Qed.

Lemma lex_exp_sound rest pos : consumes json_exp rest pos (lex_exp rest pos).
Proof.
  unfold lex_exp. destruct (Byte.eqb (peek rest) "e"%byte || Byte.eqb (peek rest) "E"%byte) eqn:E.
  2: { exists []. repeat split; [by left|cbn; lia]. }
  assert (exists e, rest = e :: tail rest /\ (e = "e"%byte \/ e = "E"%byte)) as (e & He & Hor).
  { apply orb_true_iff in E as [E|E]; apply peek_eq in E; eauto; done. }
  set (r1 := tail rest) in *.
  assert (exists sign r2, r1 = sign ++ r2 /\ (sign = [] \/ sign = ["+"%byte] \/ sign = ["-"%byte]) /\
    (if Byte.eqb (peek r1) "+"%byte || Byte.eqb (peek r1) "-"%byte then (tail r1, S (S pos)) else (r1, S pos))
    = (r2, (S pos + length sign)%nat)) as (sign & r2 & Hr1 & Hsign & ->).
  { destruct (Byte.eqb (peek r1) "+"%byte || Byte.eqb (peek r1) "-"%byte) eqn:Es.
    - apply orb_true_iff in Es as [Es|Es]; apply peek_eq in Es; try done;
        [exists ["+"%byte]|exists ["-"%byte]]; exists (tail r1); (split; [done|]);
        (split; [by auto|]); f_equal; cbn; lia.
    - exists [], r1. cbn. rewrite Nat.add_0_r. auto. }
  pose proof (digits_sound r2 (S pos + length sign)) as H. unfold consumes in *.
  destruct (digits _ _) as [[r p]|]; [|done]. destruct H as (x & -> & Hx & ->).
  exists (e :: sign ++ x). rewrite He, Hr1. split; [by cbn; rewrite <- app_assoc|]. split.
  - right. exists e, sign, x. auto.
  - cbn. rewrite length_app. lia.
Qed.

Lemma lex_number_sound L t L' :
  lex_number L = (Ok t, L') ->
  exists n r, rest_of L = n ++ r /\ json_number n /\
    t = {| type := TNumber; text := n; has_escapes := false |} /\ L' = at_pos L (_pos L + length n).
Proof.
  unfold lex_number. pose proof (lex_int_sound (rest_of L) (_pos L)) as Hi.
  destruct (lex_int _ _) as [[r1 p1]|]; [|done]. destruct Hi as (i & Hr & Hi & ->).
  pose proof (lex_frac_sound r1 (_pos L + length i)) as Hf.
  destruct (lex_frac _ _) as [[r2 p2]|]; [|done]. destruct Hf as (f & -> & Hf & ->).
  pose proof (lex_exp_sound r2 (_pos L + length i + length f)) as Hx.
  destruct (lex_exp _ _) as [[r3 p3]|]; [|done]. destruct Hx as (x & -> & Hx & ->).
  intros [= <- <-]. exists (i ++ f ++ x), r3. rewrite <- !app_assoc. split; [done|].
  split; [by exists i, f, x|].
  replace (_pos L + length i + length f + length x - _pos L)%nat with (length (i ++ f ++ x))
    by (rewrite !length_app; lia).
  rewrite (substr_app _ _ (i ++ f ++ x) r3) by (rewrite <- !app_assoc; exact Hr).
  split; [done|]. f_equal. rewrite !length_app. lia.
Qed.

(** A character that cannot continue a number. *)
Definition number_stops (r : bytes) : Prop :=
  is_digit (peek r) = false /\ peek r <> "."%byte /\ peek r <> "e"%byte /\ peek r <> "E"%byte.

Lemma eqb_neq_false a b : a <> b -> Byte.eqb a b = false.
Proof. by destruct (byte_eqb_spec a b). Qed.

Lemma lex_int_complete i r pos :
  json_int i -> is_digit (peek r) = false -> lex_int (i ++ r) pos = Some (r, (pos + length i)%nat).
Proof.
  intros (neg & ds & -> & Hds) Hr. unfold lex_int.
  assert (forall p, (if Byte.eqb (peek (ds ++ r)) "0"%byte then Some (tail (ds ++ r), S p) else digits (ds ++ r) p)
                    = Some (r, (p + length ds)%nat)) as Hbody.
  { intros p. destruct Hds as [->|[Hds Hz]]; [cbn; do 2 f_equal; lia|].
    rewrite peek_app by apply Hds. rewrite eqb_neq_false by done. by apply digits_complete. }
  destruct neg.
  - cbn [app peek tail]. rewrite byte_eqb_refl, Hbody. cbn. do 2 f_equal. lia.
  - assert (Byte.eqb (peek (ds ++ r)) "-"%byte = false) as ->; [|by rewrite Hbody].
    apply eqb_neq_false. destruct Hds as [->|[[Hne Hds] _]]; [done|].
    rewrite peek_app by done. intros Hm. destruct ds as [|c ds]; [done|].
    apply Forall_cons in Hds as [Hc _]. cbn in Hm. by subst c.
Qed.

Lemma lex_frac_complete f r pos :
  json_frac f -> is_digit (peek r) = false -> peek r <> "."%byte ->
  lex_frac (f ++ r) pos = Some (r, (pos + length f)%nat).
Proof.
  intros [->|(ds & -> & Hds)] Hr Hp; unfold lex_frac.
  - cbn. rewrite eqb_neq_false by done. by rewrite Nat.add_0_r.
  - cbn [app peek tail]. rewrite byte_eqb_refl, digits_complete by done. cbn. do 2 f_equal. lia.
Qed.

Lemma lex_exp_complete x r pos :
  json_exp x -> number_stops r -> lex_exp (x ++ r) pos = Some (r, (pos + length x)%nat).
Proof.
  intros [->|(e & sign & ds & He & Hsign & Hds & ->)] (Hr & Hp & He1 & He2); unfold lex_exp.
  - cbn. rewrite !eqb_neq_false by done. cbn. by rewrite Nat.add_0_r.
  - cbn [app peek tail].
    assert (Byte.eqb e "e"%byte || Byte.eqb e "E"%byte = true) as -> by by destruct He as [->| ->].
    rewrite <- app_assoc.
    assert ((if Byte.eqb (peek (sign ++ ds ++ r)) "+"%byte || Byte.eqb (peek (sign ++ ds ++ r)) "-"%byte
             then (tail (sign ++ ds ++ r), S (S pos)) else (sign ++ ds ++ r, S pos))
            = (ds ++ r, (S pos + length sign)%nat)) as ->.
    { destruct Hsign as [->|[->| ->]]; cbn [app peek tail length].
      - destruct Hds as [Hne Hds]. rewrite peek_app by done. destruct ds as [|c ds]; [done|].
        apply Forall_cons in Hds as [Hc _]. cbn [peek].
        rewrite !eqb_neq_false by (intros ->; done). cbn. f_equal. lia.
      - rewrite byte_eqb_refl. cbn. f_equal. lia.
      - cbn. f_equal. lia. }
    rewrite digits_complete by done. cbn. rewrite length_app. do 2 f_equal. lia.
Qed.

Lemma json_tail_not_digit f x r :
  json_frac f -> json_exp x -> number_stops r -> is_digit (peek (f ++ x ++ r)) = false.
Proof.
  intros [->|(? & -> & _)] Hx (Hr & _); [|done].
  destruct Hx as [->|(e & ? & ? & [->| ->] & _ & _ & ->)]; done.
Qed.

Lemma lex_number_complete L n r :
  rest_of L = n ++ r -> json_number n -> number_stops r ->
  lex_number L = (Ok {| type := TNumber; text := n; has_escapes := false |}, at_pos L (_pos L + length n)).
Proof.
  intros HL (i & f & x & -> & Hi & Hf & Hx) Hr. unfold lex_number.
  rewrite HL, <- !app_assoc.
  rewrite lex_int_complete by (auto using json_tail_not_digit).
  rewrite lex_frac_complete; [|done|by apply (json_tail_not_digit []); [left|..]|].
  2: { destruct Hx as [->|(e & ? & ? & [->| ->] & _ & _ & ->)]; [apply Hr|done..]. }
  rewrite lex_exp_complete by done.
  replace (_pos L + length i + length f + length x - _pos L)%nat with (length (i ++ f ++ x))
    by (rewrite !length_app; lia).
  rewrite (substr_app _ _ (i ++ f ++ x) r) by exact HL.
  do 2 f_equal. rewrite !length_app. lia.
Qed.

(** ** Tokens *)

(** [token_at rest t rest']: the characters [rest] start with the token [t] and
    continue with [rest']. *)
Inductive token_at : bytes -> Token -> bytes -> Prop :=
| tok_end : token_at [] {| type := TEnd; text := []; has_escapes := false |} []
| tok_single c t r :
    single_type c = Some t -> token_at (c :: r) {| type := t; text := [c]; has_escapes := false |} r
| tok_string body r :
    raw_string body ->
    token_at (dquote :: body ++ dquote :: r)
      {| type := TString; text := body; has_escapes := has_backslash body |} r
| tok_word w t r :
    In (w, t) [(lit "true", TTrue); (lit "false", TFalse); (lit "null", TNull)] ->
    token_at (w ++ r) {| type := t; text := w; has_escapes := false |} r
| tok_number n r :
    json_number n -> token_at (n ++ r) {| type := TNumber; text := n; has_escapes := false |} r.

Lemma starts_with_true s w : starts_with s w = true -> exists r, s = w ++ r.
Proof.
  revert s. induction w as [|c w IH]; intros s; cbn [starts_with]; [by exists s|].
  destruct s as [|d s]; [done|]. intros H. apply andb_true_iff in H as [Hc H].
  destruct (byte_eqb_spec d c) as [->|]; [|done]. apply IH in H as [r ->]. by exists r.
Qed.

Lemma starts_with_app w r : starts_with (w ++ r) w = true.
Proof. induction w as [|c w IH]; cbn [app starts_with]; [by destruct r|]. by rewrite byte_eqb_refl. Qed.

Lemma lex_token_sound L t L' :
  lex_token L = (Ok t, L') ->
  _input L' = _input L /\ token_at (rest_of L) t (rest_of L').
Proof.
  unfold lex_token. destruct (rest_of L) as [|c r] eqn:Er.
  { intros [= <- <-]. rewrite Er. auto using tok_end. }
  assert (rest_of (at_pos L (_pos L + 1)) = r) as Hr1.
  { apply (rest_of_at_pos L [c] r Er). }
  destruct (single_type c) as [st|] eqn:Es.
  { intros [= <- <-]. split; [done|]. rewrite <- Nat.add_1_r, Hr1. by apply tok_single. }
  destruct (byte_eqb_spec c dquote) as [->|Hq].
  { intros Hl. apply (lex_string_sound _ _ _ _ _ Er) in Hl as (body & r' & -> & Hb & -> & ->).
    split; [done|].
    replace (_pos L + length body + 2)%nat with (_pos L + length (dquote :: body ++ [dquote]))%nat
      by (cbn; rewrite length_app; cbn; lia).
    rewrite (rest_of_at_pos L (dquote :: body ++ [dquote]) r') by (rewrite Er; cbn; by rewrite <- app_assoc).
    by apply tok_string. }
  assert (forall w t0, In (w, t0) [(lit "true", TTrue); (lit "false", TFalse); (lit "null", TNull)] ->
    starts_with (c :: r) w = true -> word_token L t0 w = (Ok t, L') ->
    _input L' = _input L /\ token_at (c :: r) t (rest_of L')) as Hword.
  { intros w t0 Hin Hw [= <- <-]. apply starts_with_true in Hw as [r' Hw]. split; [done|].
    rewrite (rest_of_at_pos L w r') by congruence. rewrite Hw. by apply tok_word. }
  destruct (starts_with (c :: r) (lit "true")) eqn:E1; [apply Hword; [cbn; auto|done]|].
  destruct (starts_with (c :: r) (lit "false")) eqn:E2; [apply Hword; [cbn; auto|done]|].
  destruct (starts_with (c :: r) (lit "null")) eqn:E3; [apply Hword; [cbn; auto|done]|].
  destruct (Byte.eqb c "-"%byte || is_digit c); [|done].
  intros Hn. apply lex_number_sound in Hn as (n & r' & Hr & Hn & -> & ->). split; [done|].
  rewrite (rest_of_at_pos L n r' Hr). rewrite <- Er, Hr. by apply tok_number.
Qed.

Lemma skip_space_spec rest pos :
  exists ws r, rest = ws ++ r /\ Forall (fun c => is_space c = true) ws /\
    skip_space rest pos = (pos + length ws)%nat /\ is_space (peek r) = false.
Proof.
  revert pos. induction rest as [|c rest IH]; intros pos; cbn [skip_space].
  { exists [], []. cbn. repeat split; auto; lia. }
  destruct (is_space c) eqn:E.
  - destruct (IH (S pos)) as (ws & r & -> & Hws & -> & Hr). exists (c :: ws), r.
    repeat split; auto; cbn; lia.
  - exists [], (c :: rest). cbn. repeat split; auto; lia.
Qed.

Lemma next_sound L t L' :
  next L = (Ok t, L') ->
  _input L' = _input L /\
  exists ws r, rest_of L = ws ++ r /\ Forall (fun c => is_space c = true) ws /\
    token_at r t (rest_of L').
Proof.
  unfold next. destruct (skip_space_spec (rest_of L) (_pos L)) as (ws & r & Hr & Hws & -> & _).
  intros H. apply lex_token_sound in H as [Hi Ht]. split; [done|].
  rewrite (rest_of_at_pos L ws r Hr) in Ht. eauto 10.
Qed.

Lemma token_at_shorter r t r' :
  token_at r t r' -> type t <> TEnd -> (length r' < length r)%nat.
Proof.
  destruct 1 as [|c t r Hs|body r Hb|w t r Hw|n r Hn]; cbn; intros Hne; try done; try lia.
  - rewrite length_app. cbn. lia.
  - rewrite length_app. repeat (destruct Hw as [[= <- <-]|Hw]; [cbn; lia|]). done.
  - rewrite length_app. destruct Hn as (i & f & x & -> & (neg & ds & -> & Hds) & _).
    assert (0 < length ds)%nat by (destruct Hds as [->|[[Hd _] _]]; [cbn; lia|destruct ds; [done|cbn; lia]]).
    rewrite !length_app. destruct neg; cbn; lia.
Qed.

Lemma single_type_not_end c t : single_type c = Some t -> t <> TEnd.
Proof.
  unfold single_type. repeat (destruct (Byte.eqb c _); [by intros [= <-]|]). done.
Qed.

Lemma token_at_end r t r' : token_at r t r' -> type t = TEnd -> r = [] /\ r' = [].
Proof.
  destruct 1 as [|c t r Hs|body r Hb|w t r Hw|n r Hn]; cbn; intros He; try done.
  - by apply single_type_not_end in Hs.
  - subst t. repeat (destruct Hw as [[= _ ]|Hw]; try done).
Qed.

(** Every token but the last makes the rest shorter: the lexer always progresses. *)
Lemma next_progress L t L' :
  next L = (Ok t, L') -> type t <> TEnd -> (length (rest_of L') < length (rest_of L))%nat.
Proof.
  intros H Hne. apply next_sound in H as (_ & ws & r & -> & _ & Ht).
  apply token_at_shorter in Ht; [|done]. rewrite length_app. lia.
Qed.

Lemma next_shorter L t L' :
  next L = (Ok t, L') -> (length (rest_of L') <= length (rest_of L))%nat.
Proof.
  intros H. destruct (decide (type t = TEnd)) as [He|He].
  - apply next_sound in H as (_ & ws & r & -> & _ & Ht).
    apply token_at_end in Ht as [-> ->]; [cbn; lia|done].
  - apply next_progress in H; [lia|done].
Qed.

(** What [next] returns is the next token of the input: after skipping white
    space, the remaining characters start with the token, by the JSON token grammar
    (strings with validated escapes, numbers of RFC 8259, the three literals, the six
    punctuation marks, or the end of input), and the lexer is positioned right after
    it in the unchanged input. *)
Theorem next_returns_token L t L' :
  next L = (Ok t, L') ->
  _input L' = _input L /\
  exists ws r, rest_of L = ws ++ r /\ Forall (fun c => is_space c = true) ws /\
    token_at r t (rest_of L').
Proof. apply next_sound. Qed.

Lemma next_returns_token_witness :
  exists t L', next (new_lexer (lit " -12.5e3,")) = (Ok t, L') /\ type t = TNumber /\
    exists ws r, rest_of (new_lexer (lit " -12.5e3,")) = ws ++ r /\ token_at r t (rest_of L').
Proof.
  do 2 eexists. split; [vm_compute; reflexivity|]. split; [reflexivity|].
  edestruct (next_returns_token (new_lexer (lit " -12.5e3,"))) as (_ & ws & r & H1 & _ & H2);
    [vm_compute; reflexivity|]. exists ws, r. split; [exact H1|exact H2].
Defined.

(** Numbers are lexed exactly: where the input continues with an RFC 8259 number
    followed by a character that cannot continue it, [lex_number] returns the token
    whose text is that whole number and stops right after it. *)
Theorem lex_number_exact L n r :
  rest_of L = n ++ r -> json_number n -> number_stops r ->
  lex_number L = (Ok {| type := TNumber; text := n; has_escapes := false |}, at_pos L (_pos L + length n)) /\
  rest_of (at_pos L (_pos L + length n)) = r.
Proof. intros HL Hn Hr. split; [by apply (lex_number_complete L n r)|by apply rest_of_at_pos]. Qed.

Lemma lex_number_exact_witness :
  exists tok L', lex_number (new_lexer (lit "-0.5]")) = (Ok tok, L') /\ text tok = lit "-0.5".
Proof.
  exists {| type := TNumber; text := lit "-0.5"; has_escapes := false |}.
  eexists. split; [|reflexivity].
  refine (proj1 (lex_number_exact (new_lexer (lit "-0.5]")) (lit "-0.5") (lit "]") eq_refl _ _)).
  - exists (lit "-0"), (lit ".5"), []. split; [reflexivity|]. split.
    + exists true, (lit "0"). split; [reflexivity|]. left. reflexivity.
    + split; [right; exists (lit "5"); split; [reflexivity|split; [discriminate|repeat constructor]]|left; reflexivity].
  - repeat split; discriminate.
Defined.
