(* ===== verification/JsonParser.v ===== *)
(** * JsonParser: the JSON tree (include/json_parser.hpp, src/encoding/json_parser.cpp)

    A recursive-descent parser over the pull lexer.  The mutual recursion of
    [parse_value], [parse_object] and [parse_array] is not structural, so it takes
    fuel; [parse_json] supplies [2 * size + 3] rounds and the fuel theorem shows that
    this is always enough.  An object is a [std::flat_map], a list of members sorted
    by key into which [emplace] inserts only absent keys. *)

From S2P Require Import Prelude CharConv JsonLexer.

(** ** Data *)

#[local] Unset Elimination Schemes.

(** [std::variant<std::monostate, bool, std::string, JsonArray, JsonObject>] *)
Inductive JsonValue : Type :=
| JNull
| JBool (b : bool)
| JString (s : bytes)
| JArray (a : list JsonValue)
| JObject (o : list (bytes * JsonValue)).

#[local] Set Elimination Schemes.

Abbreviation JsonObject := (list (bytes * JsonValue)).
Abbreviation JsonArray := (list JsonValue).

Definition kMaxJsonDepth : nat := 64.

(** Induction with the hypothesis for every element and every member value. *)
Section JsonValue_ind.
Variable P : JsonValue -> Prop.
Hypothesis HNull : P JNull.
Hypothesis HBool : forall b, P (JBool b).
Hypothesis HString : forall s, P (JString s).
Hypothesis HArray : forall a, Forall P a -> P (JArray a).
Hypothesis HObject : forall o, Forall (fun kv => P kv.2) o -> P (JObject o).

Fixpoint JsonValue_ind (v : JsonValue) : P v :=
  match v with
  | JNull => HNull
  | JBool b => HBool b
  | JString s => HString s
  | JArray a =>
    HArray a ((fix go a : Forall P a :=
      match a with
      | [] => Forall_nil_2 P
      | x :: a' => Forall_cons_2 P x a' (JsonValue_ind x) (go a')
      end) a)
  | JObject o =>
    HObject o ((fix go o : Forall (fun kv => P kv.2) o :=
      match o with
      | [] => Forall_nil_2 _
      | x :: o' => Forall_cons_2 (fun kv => P kv.2) x o' (JsonValue_ind x.2) (go o')
      end) o)
  end.
End JsonValue_ind.

(** [std::string::operator<]: lexicographic on unsigned characters. *)
Fixpoint bytes_ltb (s t : bytes) : bool :=
  match s, t with
  | _, [] => false
  | [], _ :: _ => true
  | a :: s', b :: t' => (bz a <? bz b) || ((bz a =? bz b) && bytes_ltb s' t')
  end.

(** [flat_map::emplace] *)
Fixpoint emplace (k : bytes) (v : JsonValue) (o : JsonObject) : JsonObject :=
  match o with
  | [] => [(k, v)]
  | (k', v') :: o' =>
    if bytes_eqb k k' then o
    else if bytes_ltb k k' then (k, v) :: o
    else (k', v') :: emplace k v o'
  end.

(** [flat_map::find] *)
Fixpoint find (k : bytes) (o : JsonObject) : option JsonValue :=
  match o with
  | [] => None
  | (k', v) :: o' => if bytes_eqb k k' then Some v else find k o'
  end.

(** ** Escapes *)

(** A [char] as a signed integer. *)
Definition schar (c : byte) : Z := if bz c <? 128 then bz c else bz c - 256.

Definition hex4_step (v : Z) (c : byte) : Z :=
  let v := u32 (Z.shiftl v 4) in
  if (48 <=? schar c) && (schar c <=? 57) then Z.lor v (schar c - 48)
  else if (97 <=? schar c) && (schar c <=? 102) then Z.lor v (schar c - 97 + 10)
  else Z.lor v (u32 (schar c - 65 + 10)).

Definition hex4 (s : bytes) : Z := fold_left hex4_step (take 4 s) 0.

(** The bytes [append_utf8] appends for a code point. *)
Definition append_utf8 (cp : Z) : bytes :=
  if cp <? 128 then [zb cp]
  else if cp <? 2048 then
    [zb (Z.lor 192 (Z.shiftr cp 6)); zb (Z.lor 128 (Z.land cp 63))]
  else if cp <? 65536 then
    [zb (Z.lor 224 (Z.shiftr cp 12)); zb (Z.lor 128 (Z.land (Z.shiftr cp 6) 63));
     zb (Z.lor 128 (Z.land cp 63))]
  else
    [zb (Z.lor 240 (Z.shiftr cp 18)); zb (Z.lor 128 (Z.land (Z.shiftr cp 12) 63));
     zb (Z.lor 128 (Z.land (Z.shiftr cp 6) 63)); zb (Z.lor 128 (Z.land cp 63))].

(** The character a two-character escape stands for. *)
Definition simple_escape (e : byte) : option byte :=
  if Byte.eqb e dquote then Some dquote
  else if Byte.eqb e backslash then Some backslash
  else if Byte.eqb e "/"%byte then Some "/"%byte
  else if Byte.eqb e "b"%byte then Some x08
  else if Byte.eqb e "f"%byte then Some x0c
  else if Byte.eqb e "n"%byte then Some x0a
  else if Byte.eqb e "r"%byte then Some x0d
  else if Byte.eqb e "t"%byte then Some x09
  else None.

Definition prepend (x : bytes) (r : expected bytes bytes) : expected bytes bytes :=
  match r with Ok s => Ok (x ++ s) | Unexpected e => Unexpected e end.

(** [decode_json_string]: the loop over [raw], from the current index on. *)
Fixpoint decode_json_string (raw : bytes) : expected bytes bytes :=
  match raw with
  | [] => Ok []
  | c :: r =>
    if negb (Byte.eqb c backslash) then prepend [c] (decode_json_string r)
    else
      match r with
      | [] => Unexpected (lit "Dangling backslash in string")
      | e :: r =>
        match simple_escape e with
        | Some x => prepend [x] (decode_json_string r)
        | None =>
          if Byte.eqb e "u"%byte then
            match r with
            | h1 :: h2 :: h3 :: h4 :: r =>
              let cp := hex4 [h1; h2; h3; h4] in
              if (55296 <=? cp) && (cp <=? 56319) then
                match r with
                | b :: u :: l1 :: l2 :: l3 :: l4 :: r =>
                  if Byte.eqb b backslash && Byte.eqb u "u"%byte then
                    let low := hex4 [l1; l2; l3; l4] in
                    if (low <? 56320) || (57343 <? low)
                    then Unexpected (lit "Invalid UTF-16 surrogate pair in string")
                    else prepend (append_utf8 (65536 + Z.shiftl (cp - 55296) 10 + (low - 56320)))
                           (decode_json_string r)
                  else Unexpected (lit "Unpaired UTF-16 surrogate in string")
                | _ => Unexpected (lit "Unpaired UTF-16 surrogate in string")
                end
              else if (56320 <=? cp) && (cp <=? 57343)
              then Unexpected (lit "Unpaired UTF-16 surrogate in string")
              else prepend (append_utf8 cp) (decode_json_string r)
            | _ => Unexpected (lit "Truncated \u escape")
            end
          else Unexpected (lit "Invalid escape in string")
        end
      end
  end.

(** ** The parser *)

(** A computation returns, reports an error, or has used up its fuel. *)
Inductive outcome (A : Type) : Type :=
| Ret (a : A)
| Fail (e : JsonError)
| OutOfFuel.
Arguments Ret {A} a.
Arguments Fail {A} e.
Arguments OutOfFuel {A}.

Notation "'let!' x ':=' m 'in' k" :=
  (match m with Ret x => k | Fail e => Fail e | OutOfFuel => OutOfFuel end)
  (at level 10, x pattern, m at level 200, k at level 200).

Definition token_is (t : Token) (ty : TokenType) : bool := bool_decide (type t = ty).

Definition pnext (L : JsonLexer) : outcome (Token * JsonLexer) :=
  match next L with (Ok t, L') => Ret (t, L') | (Unexpected e, _) => Fail e end.

(** [fail(what)] *)
Definition fail {A} (w : string) (L : JsonLexer) : outcome A :=
  Fail {| what := lit w; offset := _pos L |}.

Definition string_value (token : Token) (L : JsonLexer) : outcome bytes :=
  if negb (has_escapes token) then Ret (text token)
  else match decode_json_string (text token) with
       | Ok s => Ret s
       | Unexpected _ => fail "Invalid escape sequence in string" L
       end.

Section ParserLoops.
(** [parse_value] at the call sites inside the loops. *)
Variable pv : Token -> nat -> JsonLexer -> outcome (JsonValue * JsonLexer).

(** The [while (true)] of [parse_object]; [token] is the current token. *)
Fixpoint parse_object_loop (fuel depth : nat) (object : JsonObject) (token : Token) (L : JsonLexer)
    : outcome (JsonObject * JsonLexer) :=
  match fuel with
  | O => OutOfFuel
  | S fuel =>
    if negb (token_is token TString) then fail "Expected string key in object" L
    else
      let! key := string_value token L in
      let! (colon, L) := pnext L in
      if negb (token_is colon Colon) then fail "Expected ':' after object key" L
      else
        let! (value_token, L) := pnext L in
        let! (value, L) := pv value_token depth L in
        let object := emplace key value object in
        let! (sep, L) := pnext L in
        if token_is sep RightBrace then Ret (object, L)
        else if negb (token_is sep Comma) then fail "Expected ',' or '}' after object value" L
        else
          let! (token, L) := pnext L in
          parse_object_loop fuel depth object token L
  end.

Definition parse_object (fuel depth : nat) (L : JsonLexer) : outcome (JsonObject * JsonLexer) :=
  let! (token, L) := pnext L in
  if token_is token RightBrace then Ret ([], L)
  else parse_object_loop fuel depth [] token L.

Fixpoint parse_array_loop (fuel depth : nat) (array : JsonArray) (token : Token) (L : JsonLexer)
    : outcome (JsonArray * JsonLexer) :=
  match fuel with
  | O => OutOfFuel
  | S fuel =>
    let! (value, L) := pv token depth L in
    let array := array ++ [value] in
    let! (sep, L) := pnext L in
    if token_is sep RightBracket then Ret (array, L)
    else if negb (token_is sep Comma) then fail "Expected ',' or ']' after array value" L
    else
      let! (token, L) := pnext L in
      parse_array_loop fuel depth array token L
  end.

Definition parse_array (fuel depth : nat) (L : JsonLexer) : outcome (JsonArray * JsonLexer) :=
  let! (token, L) := pnext L in
  if token_is token RightBracket then Ret ([], L)
  else parse_array_loop fuel depth [] token L.
End ParserLoops.

Fixpoint parse_value (fuel : nat) (token : Token) (depth : nat) (L : JsonLexer)
    : outcome (JsonValue * JsonLexer) :=
  match fuel with
  | O => OutOfFuel
  | S fuel =>
    match type token with
    | LeftBrace | LeftBracket =>
      if (kMaxJsonDepth <=? depth)%nat then fail "JSON nested too deeply" L
      else if token_is token LeftBrace then
        let! (obj, L) := parse_object (parse_value fuel) fuel (S depth) L in
        Ret (JObject obj, L)
      else
        let! (arr, L) := parse_array (parse_value fuel) fuel (S depth) L in
        Ret (JArray arr, L)
    | TString => let! s := string_value token L in Ret (JString s, L)
    | TNumber => Ret (JString (text token), L)
    | TTrue => Ret (JBool true, L)
    | TFalse => Ret (JBool false, L)
    | TNull => Ret (JNull, L)
    | TEnd => fail "Unexpected end of JSON" L
    | _ => fail "Unexpected token in value position" L
    end
  end.

(** [Parser::parse] *)
Definition parse (fuel : nat) (L : JsonLexer) : outcome JsonValue :=
  let! (first, L) := pnext L in
  let! (value, L) := parse_value fuel first 0 L in
  let! (fin, L) := pnext L in
  if negb (token_is fin TEnd) then fail "Trailing characters after JSON value" L
  else Ret value.

Definition json_fuel (text : bytes) : nat := 2 * length text + 3.

Definition parse_json (text : bytes) : expected bytes JsonValue :=
  match parse (json_fuel text) (new_lexer text) with
  | Ret v => Ok v
  | Fail e => Unexpected (JsonError_message e)
  | OutOfFuel => Unexpected (lit "out of fuel")
  end.

Example parse_json_sample :
  parse_json (lit "[1, [true, null], -1.5e3]") =
  Ok (JArray [JString (lit "1"); JArray [JBool true; JNull]; JString (lit "-1.5e3")]).
Proof. by vm_compute. Qed.
