(* ===== verification/JsonFacts.v ===== *)
(** * JsonFacts: totality and well-formedness of the JSON parser

    The parser never runs out of the fuel [parse_json] gives it, every value it
    returns has at most 64 levels of nesting and objects with strictly sorted keys,
    and [emplace] gives objects the first-key-wins semantics. *)

From S2P Require Import Prelude CharConv JsonLexer JsonParser.

(** ** Outcomes *)

(** One step of inversion of a [let!] chain ending in a given outcome. *)
Ltac bind_step H :=
  lazymatch type of H with
  | match ?m with Ret _ => _ | Fail _ => _ | OutOfFuel => _ end = _ =>
    let E := fresh "E" in destruct m as [?|?|] eqn:E; [|discriminate H|discriminate H]
  | (let '(_, _) := ?p in _) = _ => destruct p
  | (if ?b then _ else _) = _ => let E := fresh "E" in destruct b eqn:E; try discriminate H
  end.

Lemma token_is_true t ty : token_is t ty = true <-> type t = ty.
Proof. apply bool_decide_eq_true. Qed.

Lemma token_is_false t ty : token_is t ty = false <-> type t <> ty.
Proof. apply bool_decide_eq_false. Qed.

Lemma pnext_Ret L t L' : pnext L = Ret (t, L') <-> next L = (Ok t, L').
Proof.
  unfold pnext. destruct (next L) as [[t0|e] L0]; split; intros [=]; by subst.
Qed.

Lemma pnext_fuel L : pnext L <> OutOfFuel.
Proof. unfold pnext. by destruct (next L) as [[t0|e] L0]. Qed.

Lemma string_value_fuel t L : string_value t L <> OutOfFuel.
Proof. unfold string_value, fail. destruct (negb _); [done|]. by destruct (decode_json_string _). Qed.

(** ** The rest never grows *)

Definition remaining (L : JsonLexer) : nat := length (rest_of L).

Lemma pnext_remaining L t L' : pnext L = Ret (t, L') -> (remaining L' <= remaining L)%nat.
Proof. intros H%pnext_Ret. by eapply next_shorter. Qed.

Lemma pnext_progress L t L' :
  pnext L = Ret (t, L') -> type t <> TEnd -> (remaining L' < remaining L)%nat.
Proof. intros H%pnext_Ret. by eapply next_progress. Qed.

(** ** Sorted objects *)

Lemma bytes_ltb_irrefl s : bytes_ltb s s = false.
Proof.
  induction s as [|a s IH]; [done|]. cbn [bytes_ltb]. by rewrite Z.ltb_irrefl, Z.eqb_refl, IH.
Qed.

Lemma bytes_ltb_trans s t u : bytes_ltb s t = true -> bytes_ltb t u = true -> bytes_ltb s u = true.
Proof.
  revert t u. induction s as [|a s IH]; intros [|b t] [|c u]; cbn [bytes_ltb]; try done.
  rewrite !orb_true_iff, !andb_true_iff, !Z.ltb_lt, !Z.eqb_eq.
  intros [?|[? ?]] [?|[? ?]]; [left; lia..|right]. split; [lia|by eapply IH].
Qed.

Lemma bytes_ltb_total s t : bytes_ltb s t = false -> bytes_ltb t s = false -> s = t.
Proof.
  revert t. induction s as [|a s IH]; intros [|b t]; cbn [bytes_ltb]; try done.
  rewrite !orb_false_iff, !andb_false_iff, !Z.ltb_ge, !Z.eqb_neq. intros [? [?|?]] [? [?|?]]; try lia.
  assert (a = b) as -> by (apply bz_inj; lia). f_equal. by apply IH.
Qed.

(** Keys strictly increase: the representation invariant of [flat_map]. *)
Inductive keys_sorted : JsonObject -> Prop :=
| sorted_nil : keys_sorted []
| sorted_cons k v o :
    Forall (fun kv => bytes_ltb k kv.1 = true) o -> keys_sorted o -> keys_sorted ((k, v) :: o).

Lemma emplace_Forall (P : bytes * JsonValue -> Prop) k v o :
  P (k, v) -> Forall P o -> Forall P (emplace k v o).
Proof.
  intros Hk Ho. induction Ho as [|[k' v'] o Hk' Ho IH]; cbn [emplace]; [by constructor|].
  destruct (bytes_eqb k k'); [by constructor|]. destruct (bytes_ltb k k'); by repeat constructor.
Qed.

Lemma emplace_sorted k v o : keys_sorted o -> keys_sorted (emplace k v o).
Proof.
  induction 1 as [|k' v' o Hk' Ho IH]; cbn [emplace]; [by repeat constructor|].
  destruct (bytes_eqb_spec k k') as [->|Hne]; [by constructor|].
  destruct (bytes_ltb k k') eqn:Hlt.
  - constructor; [|by constructor]. constructor; [done|].
    eapply Forall_impl; [exact Hk'|]. cbn. intros kv Hkv. by eapply bytes_ltb_trans.
  - constructor; [|done]. apply emplace_Forall; [|done]. cbn.
    destruct (bytes_ltb k' k) eqn:E; [done|]. destruct Hne. by apply bytes_ltb_total.
Qed.

Lemma find_above k o : Forall (fun kv => bytes_ltb k kv.1 = true) o -> find k o = None.
Proof.
  induction 1 as [|[k' v'] o Hk Ho IH]; cbn [find]; [done|].
  destruct (bytes_eqb_spec k k') as [->|]; [|done]. cbn in Hk. by rewrite bytes_ltb_irrefl in Hk.
Qed.

(** [emplace] adds an absent key and leaves a present one alone. *)
Lemma find_emplace k v o k' :
  keys_sorted o ->
  find k' (emplace k v o) =
  if bytes_eqb k' k then Some (default v (find k o)) else find k' o.
Proof.
  induction 1 as [|k0 v0 o Hk Ho IH]; cbn [emplace find].
  { by destruct (bytes_eqb_spec k' k). }
  destruct (bytes_eqb_spec k k0) as [->|Hne].
  { cbn [find]. by destruct (bytes_eqb_spec k' k0) as [->|]. }
  destruct (bytes_ltb k k0) eqn:Hlt.
  - cbn [find]. destruct (bytes_eqb_spec k' k) as [->|]; [|done].
    destruct (bytes_eqb_spec k k0); [done|]. rewrite (find_above k o); [done|].
    eapply Forall_impl; [exact Hk|]. cbn. intros kv Hkv. by eapply bytes_ltb_trans.
  - cbn [find]. rewrite IH. destruct (bytes_eqb_spec k' k0) as [->|]; [|done].
    by destruct (bytes_eqb_spec k0 k) as [->|].
Qed.

(** ** Well-formed values *)

(** Levels of array and object nesting. *)
Fixpoint json_depth (v : JsonValue) : nat :=
  match v with
  | JArray a => S (list_max (map json_depth a))
  | JObject o => S (list_max (map (fun kv => json_depth kv.2) o))
  | _ => O
  end.

#[local] Set Warnings "-register-all".

Inductive json_wf : JsonValue -> Prop :=
| wf_null : json_wf JNull
| wf_bool b : json_wf (JBool b)
| wf_string s : json_wf (JString s)
| wf_array a : Forall json_wf a -> json_wf (JArray a)
| wf_object o : keys_sorted o -> Forall (fun kv => json_wf kv.2) o -> json_wf (JObject o).

(** A value the parser may return at nesting depth [d]. *)
Definition value_ok (d : nat) (v : JsonValue) : Prop :=
  json_wf v /\ (d <= kMaxJsonDepth -> d + json_depth v <= kMaxJsonDepth)%nat.

Lemma value_ok_leaf d v : json_wf v -> json_depth v = O -> value_ok d v.
Proof. intros Hw Hd. split; [done|]. rewrite Hd. lia. Qed.

Lemma value_ok_array d a :
  (d < kMaxJsonDepth)%nat -> Forall (value_ok (S d)) a -> value_ok d (JArray a).
Proof.
  intros Hd Ha. split.
  - constructor. eapply Forall_impl; [exact Ha|]. by intros v [? _].
  - intros _. cbn [json_depth].
    assert (list_max (map json_depth a) <= kMaxJsonDepth - S d)%nat; [|lia].
    apply list_max_le, List.Forall_map. eapply List.Forall_impl; [|exact Ha].
    intros v [_ Hv]. lia.
Qed.

Lemma value_ok_object d o :
  (d < kMaxJsonDepth)%nat -> keys_sorted o -> Forall (fun kv => value_ok (S d) kv.2) o ->
  value_ok d (JObject o).
Proof.
  intros Hd Hs Ho. split.
  - constructor; [done|]. eapply Forall_impl; [exact Ho|]. by intros v [? _].
  - intros _. cbn [json_depth].
    assert (list_max (map (fun kv => json_depth kv.2) o) <= kMaxJsonDepth - S d)%nat; [|lia].
    apply list_max_le, List.Forall_map. eapply List.Forall_impl; [|exact Ho].
    intros v [_ Hv]. lia.
Qed.

Section Loops.
Variable pv : Token -> nat -> JsonLexer -> outcome (JsonValue * JsonLexer).
Variable Q : JsonValue -> Prop.
Variable depth : nat.
Hypothesis pv_ok : forall t L v L',
  pv t depth L = Ret (v, L') -> (remaining L' <= remaining L)%nat /\ Q v.

Lemma object_loop_ok fuel obj t L obj' L' :
  parse_object_loop pv fuel depth obj t L = Ret (obj', L') ->
  keys_sorted obj -> Forall (fun kv => Q kv.2) obj ->
  (remaining L' <= remaining L)%nat /\ keys_sorted obj' /\ Forall (fun kv => Q kv.2) obj'.
Proof.
  revert obj t L. induction fuel as [|fuel IH]; intros obj t L H Hs Hq; cbn [parse_object_loop] in H; [done|].
  repeat bind_step H.
  all: repeat match goal with E : pnext _ = Ret _ |- _ => apply pnext_remaining in E end.
  all: match goal with E : pv _ _ _ = Ret _ |- _ => apply pv_ok in E as [Hr HQ] end.
  - injection H as <- <-. split; [lia|]. split; [by apply emplace_sorted|by apply emplace_Forall].
  - apply IH in H as (Hr' & Hs' & Hq'); [|by apply emplace_sorted|by apply emplace_Forall].
    split; [lia|done].
Qed.

Lemma array_loop_ok fuel arr t L arr' L' :
  parse_array_loop pv fuel depth arr t L = Ret (arr', L') -> Forall Q arr ->
  (remaining L' <= remaining L)%nat /\ Forall Q arr'.
Proof.
  revert arr t L. induction fuel as [|fuel IH]; intros arr t L H Hq; cbn [parse_array_loop] in H; [done|].
  repeat bind_step H.
  all: repeat match goal with E : pnext _ = Ret _ |- _ => apply pnext_remaining in E end.
  all: match goal with E : pv _ _ _ = Ret _ |- _ => apply pv_ok in E as [Hr HQ] end.
  - injection H as <- <-. split; [lia|]. apply Forall_app. auto.
  - apply IH in H as (Hr' & Hq'); [|apply Forall_app; auto]. split; [lia|done].
Qed.

Lemma object_ok fuel L obj L' :
  parse_object pv fuel depth L = Ret (obj, L') ->
  (remaining L' <= remaining L)%nat /\ keys_sorted obj /\ Forall (fun kv => Q kv.2) obj.
Proof.
  unfold parse_object. intros H. repeat bind_step H.
  all: match goal with E : pnext _ = Ret _ |- _ => apply pnext_remaining in E end.
  - injection H as <- <-. repeat split; [lia|constructor..].
  - apply object_loop_ok in H as (? & ? & ?); [|constructor..]. repeat split; [lia|done..].
Qed.

Lemma array_ok fuel L arr L' :
  parse_array pv fuel depth L = Ret (arr, L') -> (remaining L' <= remaining L)%nat /\ Forall Q arr.
Proof.
  unfold parse_array. intros H. repeat bind_step H.
  all: match goal with E : pnext _ = Ret _ |- _ => apply pnext_remaining in E end.
  - injection H as <- <-. split; [lia|constructor].
  - apply array_loop_ok in H as (? & ?); [|constructor]. split; [lia|done].
Qed.
End Loops.

Lemma parse_value_ok fuel t d L v L' :
  parse_value fuel t d L = Ret (v, L') -> (remaining L' <= remaining L)%nat /\ value_ok d v.
Proof.
  revert t d L v L'. induction fuel as [|fuel IH]; intros t d L v L'; cbn [parse_value]; [done|].
  assert (forall v0, json_wf v0 -> json_depth v0 = O -> Ret (v0, L) = Ret (v, L') ->
          (remaining L' <= remaining L)%nat /\ value_ok d v) as Hleaf.
  { intros v0 Hw Hd [= <- <-]. split; [lia|by apply value_ok_leaf]. }
  assert (forall t', (if (kMaxJsonDepth <=? d)%nat then fail "JSON nested too deeply" L
     else if token_is t' LeftBrace then
        let! (obj, L) := parse_object (parse_value fuel) fuel (S d) L in Ret (JObject obj, L)
      else let! (arr, L) := parse_array (parse_value fuel) fuel (S d) L in Ret (JArray arr, L))
     = Ret (v, L') -> (remaining L' <= remaining L)%nat /\ value_ok d v) as Hcont.
  { intros t' H. destruct (Nat.leb_spec kMaxJsonDepth d) as [|Hd]; [done|].
    destruct (token_is t' LeftBrace); bind_step H; destruct a as [x L1]; injection H as <- <-.
    - apply (object_ok _ (value_ok (S d))) in E as (Hr & Hs & Hq); [|intros; by eapply IH].
      split; [done|by apply value_ok_object].
    - apply (array_ok _ (value_ok (S d))) in E as (Hr & Hq); [|intros; by eapply IH].
      split; [done|by apply value_ok_array]. }
  destruct (type t); try done; try (apply Hleaf; [constructor|done]); try apply Hcont.
  intros H. bind_step H. revert H. apply Hleaf; [constructor|done].
Qed.

(** ** Fuel *)

(** [parse_value] fails at once on a token that starts no value. *)
Lemma parse_value_end fuel t d L :
  type t = TEnd -> parse_value (S fuel) t d L = fail "Unexpected end of JSON" L.
Proof. intros Ht. cbn [parse_value]. by rewrite Ht. Qed.

Section LoopFuel.
Variable pv : Token -> nat -> JsonLexer -> outcome (JsonValue * JsonLexer).
Variable n depth : nat.
Hypothesis pv_fuel : forall t L, (2 * remaining L + 3 <= n)%nat -> pv t depth L <> OutOfFuel.
Hypothesis pv_end : forall t L, type t = TEnd -> pv t depth L = fail "Unexpected end of JSON" L.
Hypothesis pv_remaining : forall t L v L',
  pv t depth L = Ret (v, L') -> (remaining L' <= remaining L)%nat.

Lemma object_loop_fuel fuel obj t L :
  (type t <> TEnd -> 2 * remaining L + 3 <= n /\ remaining L < fuel)%nat -> (0 < fuel)%nat ->
  parse_object_loop pv fuel depth obj t L <> OutOfFuel.
Proof.
  revert obj t L. induction fuel as [|fuel IH]; intros obj t L Hn Hf; [lia|]. cbn [parse_object_loop].
  destruct (token_is t TString) eqn:Et; cbn [negb]; [|done].
  apply token_is_true in Et. destruct Hn as [Hn Hf']; [congruence|].
  destruct (string_value t L) eqn:Es; [|done|by apply string_value_fuel in Es].
  destruct (pnext L) as [[colon L1]| |] eqn:E1; [|done|by apply pnext_fuel in E1].
  destruct (token_is colon Colon) eqn:Ec; cbn [negb]; [|done].
  apply token_is_true in Ec. pose proof (pnext_progress _ _ _ E1 ltac:(congruence)).
  destruct (pnext L1) as [[vt L2]| |] eqn:E2; [|done|by apply pnext_fuel in E2].
  pose proof (pnext_remaining _ _ _ E2).
  destruct (pv vt depth L2) as [[v L3]| |] eqn:E3; [|done|by apply pv_fuel in E3; [|lia]].
  apply pv_remaining in E3.
  destruct (pnext L3) as [[sep L4]| |] eqn:E4; [|done|by apply pnext_fuel in E4].
  pose proof (pnext_remaining _ _ _ E4).
  destruct (token_is sep RightBrace); [done|].
  destruct (token_is sep Comma); cbn [negb]; [|done].
  destruct (pnext L4) as [[t' L5]| |] eqn:E5; [|done|by apply pnext_fuel in E5].
  pose proof (pnext_remaining _ _ _ E5).
  apply IH; [intros _; lia|lia].
Qed.

Lemma array_loop_fuel fuel arr t L :
  (type t <> TEnd -> 2 * remaining L + 3 <= n /\ remaining L < fuel)%nat -> (0 < fuel)%nat ->
  parse_array_loop pv fuel depth arr t L <> OutOfFuel.
Proof.
  revert arr t L. induction fuel as [|fuel IH]; intros arr t L Hn Hf; [lia|]. cbn [parse_array_loop].
  destruct (decide (type t = TEnd)) as [He|He]; [by rewrite pv_end|].
  destruct (Hn He) as [Hn1 Hf1].
  destruct (pv t depth L) as [[v L1]| |] eqn:E1; [|done|by apply pv_fuel in E1].
  pose proof (pv_remaining _ _ _ _ E1) as Hr1.
  destruct (pnext L1) as [[sep L2]| |] eqn:E2; [|done|by apply pnext_fuel in E2].
  destruct (token_is sep RightBracket); [done|].
  destruct (token_is sep Comma) eqn:Ec; cbn [negb]; [|done].
  apply token_is_true in Ec. pose proof (pnext_progress _ _ _ E2 ltac:(congruence)) as Hr2.
  destruct (pnext L2) as [[t' L3]| |] eqn:E3; [|done|by apply pnext_fuel in E3].
  pose proof (pnext_remaining _ _ _ E3) as Hr3.
  apply IH; [intros _; lia|lia].
Qed.
End LoopFuel.

Lemma parse_value_fuel n t d L : (2 * remaining L + 3 <= n)%nat -> parse_value n t d L <> OutOfFuel.
Proof.
  revert t d L. induction n as [|n IH]; intros t d L Hn; [lia|]. cbn [parse_value].
  destruct n as [|n]; [lia|].
  assert (forall t' L', (remaining L' <= remaining L)%nat -> (type t' <> TEnd -> remaining L' < remaining L)%nat ->
    parse_object_loop (parse_value (S n)) (S n) (S d) [] t' L' <> OutOfFuel /\
    parse_array_loop (parse_value (S n)) (S n) (S d) [] t' L' <> OutOfFuel) as Hloops.
  { intros t' L' Hle Hlt.
    assert (forall t L v L', parse_value (S n) t (S d) L = Ret (v, L') -> (remaining L' <= remaining L)%nat)
      by (intros; by eapply parse_value_ok).
    split; [apply (object_loop_fuel _ (S n))|apply (array_loop_fuel _ (S n))];
      auto using parse_value_end; try lia; intros He; specialize (Hlt He); lia. }
  destruct (type t); try done.
  1,2: destruct (kMaxJsonDepth <=? d)%nat; [done|]; destruct (token_is t LeftBrace);
    unfold parse_object, parse_array;
    (destruct (pnext L) as [[t' L']| |] eqn:E; [|done|by apply pnext_fuel in E]);
    destruct (Hloops t' L' (pnext_remaining _ _ _ E) (pnext_progress _ _ _ E)) as [Ho Ha];
    (destruct (token_is t' _); [done|]).
  1,3: by destruct (parse_object_loop _ _ _ _ _ _) as [[? ?]| |].
  1,2: by destruct (parse_array_loop _ _ _ _ _ _) as [[? ?]| |].
  destruct (string_value t L) eqn:E; [done..|]. by apply string_value_fuel in E.
Qed.

Lemma parse_fuel text : parse (json_fuel text) (new_lexer text) <> OutOfFuel.
Proof.
  unfold parse. destruct (pnext (new_lexer text)) as [[t L]| |] eqn:E; [|done|by apply pnext_fuel in E].
  apply pnext_remaining in E.
  assert (remaining (new_lexer text) = length text) as Hlen by done.
  destruct (parse_value _ t 0 L) as [[v L']| |] eqn:Ev; [|done|].
  - destruct (pnext L') as [[t' L'']| |] eqn:E'; [|done|by apply pnext_fuel in E'].
    by destruct (negb _).
  - exfalso. revert Ev. apply parse_value_fuel. unfold json_fuel. lia.
Qed.

(** ** Properties *)

(** C21. Totality of the parser: on every input, [parse_json] returns a value or the
    message of a parse error with its offset; the recursion never exhausts the
    fuel of the model, so the C++ recursion terminates, at most 65 calls of
    [parse_value] deep (see C10). *)
Theorem parse_json_total text :
  (exists v, parse_json text = Ok v) \/
  (exists e, parse (json_fuel text) (new_lexer text) = Fail e /\
             parse_json text = Unexpected (JsonError_message e)).
Proof.
  unfold parse_json. destruct (parse _ _) as [v|e|] eqn:E; [left|right|]; eauto.
  by apply parse_fuel in E.
Qed.

Lemma parse_json_value_ok text v : parse_json text = Ok v -> value_ok 0 v.
Proof.
  unfold parse_json, parse. intros H.
  destruct (pnext _) as [[t L]| |]; [|done..].
  destruct (parse_value _ t 0 L) as [[v' L']| |] eqn:Ev; [|done..].
  apply parse_value_ok in Ev as [_ Hok].
  destruct (pnext L') as [[t' L'']| |]; [|done..]. destruct (negb _); [done|]. by simplify_eq.
Qed.

(** C22. Well-formed results: every value [parse_json] returns has at most
    [kMaxJsonDepth] levels of nesting, and in every object inside it the keys are
    strictly increasing, so no key occurs twice. *)
Theorem parse_json_well_formed text v :
  parse_json text = Ok v -> json_wf v /\ (json_depth v <= kMaxJsonDepth)%nat.
Proof. intros H%parse_json_value_ok. destruct H as [Hw Hd]. split; [done|]. lia. Qed.

Lemma parse_json_well_formed_witness :
  exists v, parse_json (lit "[[1],{}]") = Ok v /\ json_wf v /\ (json_depth v <= kMaxJsonDepth)%nat.
Proof.
  exists (JArray [JArray [JString (lit "1")]; JObject []]).
  split; [by vm_compute|]. apply (parse_json_well_formed (lit "[[1],{}]")). by vm_compute.
Defined.
