(* ===== verification/KalshiMessages.v ===== *)
(** * KalshiMessages: messages from and to JSON (src/protocol/kalshi_messages.cpp)

    The tree-based decoder [parse_kalshi_message], the order serializer, the order
    response parser and the JSON printer, over the JSON tree of JsonParser. *)

From S2P Require Import Prelude CharConv JsonLexer JsonParser MessageTypes.

(** ** Field access *)

(** [std::get_if<std::string>] *)
Definition as_string (v : JsonValue) : option bytes := match v with JString s => Some s | _ => None end.
Definition as_object (v : JsonValue) : option JsonObject := match v with JObject o => Some o | _ => None end.
Definition as_array (v : JsonValue) : option JsonArray := match v with JArray a => Some a | _ => None end.

Definition get_string (obj : JsonObject) (key : bytes) : option bytes :=
  match find key obj with Some v => as_string v | None => None end.
Definition get_object (obj : JsonObject) (key : bytes) : option JsonObject :=
  match find key obj with Some v => as_object v | None => None end.
Definition get_array (obj : JsonObject) (key : bytes) : option JsonArray :=
  match find key obj with Some v => as_array v | None => None end.
Definition get_uint64 (obj : JsonObject) (key : bytes) : option Z :=
  match find key obj with
  | Some v => match as_string v with Some s => from_chars_all 10 s | None => None end
  | None => None
  end.

(** ** The three payloads *)

Definition parse_delta (m : JsonObject) : expected bytes OrderBookDelta :=
  match get_string m (lit "market_ticker"), get_string m (lit "market_id"),
        get_string m (lit "price_dollars"), get_string m (lit "delta_fp"),
        get_string m (lit "side"), get_string m (lit "ts"), get_uint64 m (lit "ts_ms") with
  | Some ticker, Some market_id, Some price_dollars, Some delta_fp, Some side, Some ts, Some ts_ms =>
    Ok {| delta_market_ticker := ticker; delta_market_id := market_id; price_dollars := price_dollars;
          delta_fp := delta_fp; side := side; ts := ts; delta_ts_ms := ts_ms |}
  | _, _, _, _, _, _, _ => Unexpected (lit "Invalid Key")
  end.

Definition parse_price_level (item : JsonValue) : expected bytes PriceLevel :=
  match as_array item with
  | Some [val1; val2] =>
    match as_string val1, as_string val2 with
    | Some str1, Some str2 => Ok (str1, str2)
    | _, _ => Unexpected (lit "Price levels contain non-string data")
    end
  | _ => Unexpected (lit "Price level is not a 2-element array")
  end.

Fixpoint parse_price_levels (a : JsonArray) : expected bytes (list PriceLevel) :=
  match a with
  | [] => Ok []
  | item :: a' =>
    let? level := parse_price_level item in
    let? levels := parse_price_levels a' in
    Ok (level :: levels)
  end.

(** The blocks guarded by [if (yes_arr)] and [if (no_arr)]: an absent array gives no levels. *)
Definition optional_levels (a : option JsonArray) : expected bytes (list PriceLevel) :=
  match a with Some a => parse_price_levels a | None => Ok [] end.

Definition parse_snapshot (m : JsonObject) : expected bytes OrderBookSnapshot :=
  match get_string m (lit "market_ticker"), get_string m (lit "market_id") with
  | Some ticker, Some market_id =>
    let? yes_levels := optional_levels (get_array m (lit "yes_dollars_fp")) in
    let? no_levels := optional_levels (get_array m (lit "no_dollars_fp")) in
    Ok {| snap_market_ticker := ticker; snap_market_id := market_id;
          yes_dollars_fp := yes_levels; no_dollars_fp := no_levels |}
  | _, _ => Unexpected (lit "Missing required fields in snapshot")
  end.

Definition parse_action (s : bytes) : expected bytes FillAction :=
  if bytes_eqb s (lit "buy") then Ok Buy
  else if bytes_eqb s (lit "sell") then Ok Sell
  else Unexpected (lit "Unknown action: " ++ s).

Definition parse_fill (m : JsonObject) : expected bytes Fill :=
  match get_string m (lit "action") with
  | None => Unexpected (lit "Missing action field")
  | Some action_str =>
    let? action := parse_action action_str in
    match get_string m (lit "order_id"), get_string m (lit "market_ticker"),
          get_string m (lit "count_fp") with
    | Some order_id, Some market_ticker, Some count_fp =>
      Ok {| fill_order_id := order_id; fill_market_ticker := market_ticker;
            count_fp := count_fp; action := action |}
    | _, _, _ => Unexpected (lit "Missing fields in order response")
    end
  end.

Definition parse_kalshi_message (json : JsonValue) : expected bytes Message :=
  match as_object json with
  | None => Unexpected (lit "Root JSON is not an object")
  | Some root_obj =>
    match get_string root_obj (lit "type") with
    | None => Unexpected (lit "Missing or invalid 'type' field")
    | Some ty =>
      let sid := u32 (default 0 (get_uint64 root_obj (lit "sid"))) in
      let seq := u32 (default 0 (get_uint64 root_obj (lit "seq"))) in
      let make p := {| msg_type := ty; sid := sid; seq := seq; msg := p |} in
      if bytes_eqb ty (lit "subscribed") then Ok (make PNone)
      else
        match get_object root_obj (lit "msg") with
        | None => Unexpected (lit "Missing 'msg' object in '" ++ ty ++ lit "' message")
        | Some msg_obj =>
          if bytes_eqb ty (lit "orderbook_delta") then
            let? d := parse_delta msg_obj in Ok (make (PDelta d))
          else if bytes_eqb ty (lit "orderbook_snapshot") then
            let? s := parse_snapshot msg_obj in Ok (make (PSnapshot s))
          else if bytes_eqb ty (lit "fill") then
            let? f := parse_fill msg_obj in Ok (make (PFill f))
          else Unexpected (lit "Unknown message type: " ++ ty)
        end
    end
  end.

(** ** Printing *)

Definition quote_char (c : byte) : bytes :=
  if Byte.eqb c dquote then [backslash; dquote]
  else if Byte.eqb c backslash then [backslash; backslash]
  else if Byte.eqb c x0a then [backslash; "n"%byte]
  else if Byte.eqb c x0d then [backslash; "r"%byte]
  else if Byte.eqb c x09 then [backslash; "t"%byte]
  else if bz c <? 32 then [backslash; "u"%byte] ++ fmt_hex4 (bz c)
  else [c].

Definition escape (s : bytes) : bytes := flat_map quote_char s.

Definition json_quote (s : bytes) : bytes := dquote :: escape s ++ [dquote].

(** Elements separated by commas. *)
Definition join (l : list bytes) : bytes :=
  match l with
  | [] => []
  | x :: r => x ++ flat_map (fun y => ","%byte :: y) r
  end.

Fixpoint to_json_string (v : JsonValue) : bytes :=
  match v with
  | JNull => lit "null"
  | JBool b => if b then lit "true" else lit "false"
  | JString s => json_quote s
  | JArray a => "["%byte :: join (map to_json_string a) ++ ["]"%byte]
  | JObject o =>
    "{"%byte :: join (map (fun kv => json_quote kv.1 ++ ":"%byte :: to_json_string kv.2) o) ++ ["}"%byte]
  end.

(** ** Orders *)

Definition OrderSide_to_string (s : OrderSide) : bytes :=
  match s with Bid => lit "bid" | Ask => lit "ask" end.
Definition TimeInForce_to_string (t : TimeInForce) : bytes :=
  match t with
  | FillOrKill => lit "fill_or_kill"
  | GoodTillCanceled => lit "good_till_canceled"
  | ImmediateOrCancel => lit "immediate_or_cancel"
  end.
Definition SelfTradePrevention_to_string (s : SelfTradePrevention) : bytes :=
  match s with Maker => lit "maker" | TakerAtCross => lit "taker_at_cross" end.

(** A member of the order body whose value is put between quotes as it is. *)
Definition raw_member (name : string) (value : bytes) : bytes :=
  dquote :: lit name ++ [dquote; ":"%byte; dquote] ++ value ++ [dquote].

Definition serialize_order_request (order : OrderRequest) : bytes :=
  "{"%byte :: raw_member "ticker" (ticker order) ++ lit "," ++
  raw_member "side" (OrderSide_to_string (order_side order)) ++ lit "," ++
  raw_member "count" (count order) ++ lit "," ++
  raw_member "price" (price order) ++ lit "," ++
  raw_member "time_in_force" (TimeInForce_to_string (time_in_force order)) ++ lit "," ++
  raw_member "self_trade_prevention_type"
    (SelfTradePrevention_to_string (self_trade_prevention order)) ++ lit "," ++
  dquote :: lit "post_only" ++ [dquote; ":"%byte] ++
  (if post_only order then lit "true" else lit "false") ++ lit "," ++
  raw_member "client_order_id" (client_order_id order) ++ lit "}".

Definition parse_order_response (json : JsonValue) : expected bytes OrderResponse :=
  match as_object json with
  | None => Unexpected (lit "Root JSON is not an object")
  | Some root_obj =>
    match get_string root_obj (lit "order_id"), get_string root_obj (lit "fill_count"),
          get_string root_obj (lit "remaining_count"), get_uint64 root_obj (lit "ts_ms") with
    | Some order_id, Some fill_count, Some remaining_count, Some ts_ms =>
      Ok {| resp_order_id := order_id; fill_count := fill_count; remaining_count := remaining_count;
            resp_ts_ms := ts_ms;
            resp_client_order_id := default [] (get_string root_obj (lit "client_order_id")) |}
    | _, _, _, _ =>
      let body := to_json_string json in
      let body := if (1000 <? length body)%nat then take 1000 body ++ lit "..." else body in
      Unexpected (lit "Unexpected order response: " ++ body)
    end
  end.
