(* ===== verification/JsonRoundTrip.v ===== *)
(** * JsonRoundTrip: printing a JSON tree and parsing it back

    [to_json_string] followed by [parse_json] is the identity on every well-formed
    value of admissible depth; in particular on everything [parse_json] returns,
    which is the property fuzz/fuzz_json.cpp samples. *)

From S2P Require Import Prelude CharConv JsonLexer JsonParser JsonFacts MessageTypes KalshiMessages.

(** ** Strings *)

Lemma raw_string_app s t : raw_string s -> raw_string t -> raw_string (s ++ t).
Proof. induction 1; cbn; auto using raw_string. Qed.

Lemma quote_char_raw c : raw_string (quote_char c).
Proof.
  assert (forall x, negb (Byte.eqb x dquote) && negb (Byte.eqb x backslash) && (32 <=? bz x) = true ->
          raw_string [x]) as Hplain.
  { intros x H. bool_hyps. apply raw_plain; auto using raw_nil. }
  destruct c; first [ apply Hplain; reflexivity
                    | apply raw_simple; [reflexivity|constructor]
                    | apply raw_unicode; try reflexivity; constructor ].
Qed.

Lemma escape_raw s : raw_string (escape s).
Proof. induction s as [|c s IH]; cbn; [constructor|]. apply raw_string_app; auto using quote_char_raw. Qed.

Lemma decode_quote_char c r :
  decode_json_string (quote_char c ++ r) = prepend [c] (decode_json_string r).
Proof. destruct c; reflexivity. Qed.

Lemma decode_escape s : decode_json_string (escape s) = Ok s.
Proof.
  induction s as [|c s IH]; [done|]. cbn [escape flat_map]. rewrite decode_quote_char.
  change (flat_map quote_char s) with (escape s). by rewrite IH.
Qed.

Lemma has_backslash_app s t : has_backslash (s ++ t) = has_backslash s || has_backslash t.
Proof. apply existsb_app. Qed.

Lemma quote_char_plain c : has_backslash (quote_char c) = false -> quote_char c = [c].
Proof. destruct c; vm_compute; intros; congruence. Qed.

Lemma escape_plain s : has_backslash (escape s) = false -> escape s = s.
Proof.
  induction s as [|c s IH]; cbn [escape flat_map]; [done|].
  rewrite has_backslash_app, orb_false_iff. intros [Hc Hs].
  rewrite (quote_char_plain c Hc). cbn. f_equal. by apply IH.
Qed.

Lemma string_value_escape s ty L :
  string_value {| type := ty; text := escape s; has_escapes := has_backslash (escape s) |} L = Ret s.
Proof.
  unfold string_value. cbn. destruct (has_backslash (escape s)) eqn:E; cbn.
  - by rewrite decode_escape.
  - by rewrite escape_plain.
Qed.

(** ** Lexing printed text *)

Lemma next_no_space L c r : rest_of L = c :: r -> is_space c = false -> next L = lex_token L.
Proof.
  intros HL Hc. unfold next. rewrite HL. cbn. rewrite Hc. by destruct L.
Qed.

Lemma pnext_single L c t r :
  rest_of L = c :: r -> single_type c = Some t ->
  exists L', pnext L = Ret ({| type := t; text := [c]; has_escapes := false |}, L') /\ rest_of L' = r.
Proof.
  intros HL Ht. exists (at_pos L (S (_pos L))). split.
  - apply pnext_Ret. rewrite (next_no_space _ _ _ HL).
    + unfold lex_token. by rewrite HL, Ht.
    + destruct c; done.
  - rewrite <- Nat.add_1_r. by apply (rest_of_at_pos L [c] r).
Qed.

Lemma pnext_quote L s r :
  rest_of L = json_quote s ++ r ->
  exists L', pnext L = Ret ({| type := TString; text := escape s; has_escapes := has_backslash (escape s) |}, L')
    /\ rest_of L' = r.
Proof.
  intros HL. unfold json_quote in HL. cbn in HL. rewrite <- app_assoc in HL. cbn in HL.
  exists (at_pos L (_pos L + length (escape s) + 2)). split.
  - apply pnext_Ret. rewrite (next_no_space _ _ _ HL) by done. unfold lex_token. rewrite HL.
    cbn [single_type Byte.eqb]. change (single_type dquote) with (@None TokenType).
    rewrite byte_eqb_refl. apply (lex_string_complete L _ r); auto using escape_raw.
  - replace (_pos L + length (escape s) + 2)%nat with (_pos L + length (dquote :: escape s ++ [dquote]))%nat
      by (cbn; rewrite length_app; cbn; lia).
    apply rest_of_at_pos. rewrite HL. cbn. by rewrite <- app_assoc.
Qed.

Lemma pnext_word L w t r :
  In (w, t) [(lit "true", TTrue); (lit "false", TFalse); (lit "null", TNull)] ->
  rest_of L = w ++ r ->
  exists L', pnext L = Ret ({| type := t; text := w; has_escapes := false |}, L') /\ rest_of L' = r.
Proof.
  intros Hin HL. exists (at_pos L (_pos L + length w)). split; [|by apply rest_of_at_pos].
  apply pnext_Ret.
  repeat (destruct Hin as [[= <- <-]|Hin];
    [cbn in HL; rewrite (next_no_space _ _ _ HL) by done; unfold lex_token; rewrite HL; by destruct r|]).
  done.
Qed.

(** The key of a member, read from its token. *)
Lemma string_key_step {A} s ty L (k : bytes -> outcome A) (e : outcome A) :
  ty = TString ->
  let t := {| type := ty; text := escape s; has_escapes := has_backslash (escape s) |} in
  (if negb (token_is t TString) then e
   else match string_value t L with Ret x => k x | Fail e => Fail e | OutOfFuel => OutOfFuel end) = k s.
Proof. intros -> t. subst t. by rewrite string_value_escape. Qed.

(** ** Parsing printed text *)

Lemma emplace_last k v o :
  Forall (fun kv => bytes_ltb kv.1 k = true) o -> emplace k v o = o ++ [(k, v)].
Proof.
  induction 1 as [|[k' v'] o Hk Ho IH]; cbn [emplace app]; [done|]. cbn in Hk.
  destruct (bytes_eqb_spec k k') as [->|]; [by rewrite bytes_ltb_irrefl in Hk|].
  destruct (bytes_ltb k k') eqn:E; [|by rewrite IH].
  pose proof (bytes_ltb_irrefl k).
  pose proof (bytes_ltb_trans k k' k E Hk). congruence.
Qed.

(** The object the parser builds from members in the order of the text. *)
Definition build (acc o : JsonObject) : JsonObject := fold_left (fun a kv => emplace kv.1 kv.2 a) o acc.

(** Members in increasing order are kept as they are. *)
Lemma build_sorted o : forall acc,
  keys_sorted o -> Forall (fun kv => Forall (fun kv' => bytes_ltb kv.1 kv'.1 = true) o) acc -> build acc o = acc ++ o.
Proof.
  unfold build. induction o as [|[k x] o IH]; intros acc Hs Hacc; cbn [fold_left]; [by rewrite app_nil_r|].
  rewrite emplace_last.
  - inversion Hs as [|? ? ? Hk Hs']; subst. rewrite IH, <- app_assoc; [done|done|].
    apply Forall_app. split; [|by apply Forall_singleton].
    eapply Forall_impl; [exact Hacc|]. cbn. intros kv Hkv. by apply Forall_cons in Hkv as [_ ?].
  - eapply Forall_impl; [exact Hacc|]. cbn. intros kv Hkv. by apply Forall_cons in Hkv as [? _].
Qed.

(** What the induction shows of a value printed at the current position, before
    something that cannot continue a number. *)
Definition parses_to (m d : nat) (text : bytes) (v : JsonValue) : Prop :=
  forall L r, rest_of L = text ++ r -> number_stops r -> (2 * remaining L + 1 <= m)%nat ->
  exists t L1 L', pnext L = Ret (t, L1) /\ type t <> RightBracket /\
    parse_value m t d L1 = Ret (v, L') /\ rest_of L' = r.

Abbreviation parses_back m d v := (parses_to m d (to_json_string v) v).

(** A member as it is written: its key, the text of its value, and the value. *)
Abbreviation member_text := (bytes * bytes * JsonValue)%type.

Definition write_member (kv : member_text) : bytes := json_quote kv.1.1 ++ ":"%byte :: kv.1.2.
Definition member_value (kv : member_text) : bytes * JsonValue := (kv.1.1, kv.2).

Section Containers.
Variable m d : nat.

Lemma array_loop_back x xs f acc L r :
  Forall (fun v => parses_back m d v) (x :: xs) ->
  rest_of L = to_json_string x ++ flat_map (fun y => ","%byte :: y) (map to_json_string xs) ++ "]"%byte :: r ->
  (2 * remaining L + 1 <= m)%nat -> (remaining L <= f)%nat ->
  exists t L1 L', pnext L = Ret (t, L1) /\ type t <> RightBracket /\
    parse_array_loop (parse_value m) f d acc t L1 = Ret (acc ++ x :: xs, L') /\ rest_of L' = r.
Proof.
  revert x f acc L. induction xs as [|y xs IH]; intros x f acc L Hall HL Hm Hf;
    apply Forall_cons in Hall as [Hx Hxs];
    destruct (Hx L _ HL ltac:(by repeat split) Hm) as (t & L1 & L2 & Ht & Hty & Hv & HL2);
    (destruct f as [|f]; [unfold remaining in Hf; rewrite HL, length_app in Hf;
       destruct (to_json_string x) eqn:Ex; [by destruct x as [|[]| | |]|cbn in Hf; lia]|]);
    exists t, L1; cbn [parse_array_loop]; rewrite Hv.
  - destruct (pnext_single L2 "]"%byte RightBracket r HL2 eq_refl) as (L3 & Hs & HL3).
    exists L3. rewrite Hs. done.
  - cbn [map flat_map] in HL2. rewrite <- app_assoc in HL2. cbn [app] in HL2.
    destruct (pnext_single L2 ","%byte Comma _ HL2 eq_refl) as (L3 & Hs & HL3).
    assert (remaining L3 < remaining L)%nat as Hlt.
    { apply pnext_remaining in Ht. apply parse_value_ok in Hv as [Hv _].
      apply pnext_progress in Hs; [|done]. lia. }
    destruct (IH y f (acc ++ [x]) L3 Hxs) as (t' & L4 & L' & Ht' & _ & Hloop & HL');
      [done|lia..|].
    exists L'. rewrite Hs. cbn. rewrite Ht', Hloop. rewrite <- app_assoc. done.
Qed.

Lemma object_loop_back kv o f acc L r :
  Forall (fun kv : member_text => parses_to m d kv.1.2 kv.2) (kv :: o) ->
  rest_of L = write_member kv ++ flat_map (fun y => ","%byte :: y) (map write_member o) ++ "}"%byte :: r ->
  (2 * remaining L + 1 <= m)%nat -> (remaining L <= f)%nat ->
  exists t L1 L', pnext L = Ret (t, L1) /\ type t = TString /\
    parse_object_loop (parse_value m) f d acc t L1 = Ret (build acc (map member_value (kv :: o)), L') /\ rest_of L' = r.
Proof.
  revert kv f acc L. induction o as [|kv' o IH]; intros [[k tx] x] f acc L Hall HL Hm Hf;
    apply Forall_cons in Hall as [Hx Hxs]; cbn [fst snd] in Hx; unfold write_member at 1 in HL; cbn [fst snd] in HL;
    rewrite <- app_assoc in HL; cbn [app] in HL;
    destruct (pnext_quote L k _ HL) as (L1 & Ht & HL1);
    destruct (pnext_single L1 ":"%byte Colon _ HL1 eq_refl) as (L2 & Hc & HL2);
    pose proof (pnext_progress _ _ _ Ht ltac:(done)) as Hr1;
    pose proof (pnext_progress _ _ _ Hc ltac:(done)) as Hr2;
    destruct (Hx L2 _ HL2 ltac:(by repeat split) ltac:(lia)) as (vt & L3 & L4 & Hvt & _ & Hv & HL4);
    pose proof (pnext_remaining _ _ _ Hvt) as Hr3;
    pose proof (proj1 (parse_value_ok _ _ _ _ _ _ Hv)) as Hr4;
    (destruct f as [|f]; [lia|]);
    (eexists; exists L1); cbn [parse_object_loop].
  - destruct (pnext_single L4 "}"%byte RightBrace r HL4 eq_refl) as (L5 & Hb & HL5).
    exists L5. split; [exact Ht|]. split; [done|]. split; [|done].
    rewrite string_key_step, Hc by done. cbn. by rewrite Hvt, Hv, Hb.
  - cbn [map flat_map] in HL4. rewrite <- !app_assoc in HL4. cbn [app] in HL4.
    destruct (pnext_single L4 ","%byte Comma _ HL4 eq_refl) as (L5 & Hb & HL5).
    pose proof (pnext_progress _ _ _ Hb ltac:(done)) as Hr5.
    destruct (IH kv' f (emplace k x acc) L5 Hxs HL5 ltac:(lia) ltac:(lia)) as (t' & L6 & L' & Ht' & _ & Hloop & HL').
    exists L'. split; [exact Ht|]. split; [done|]. split; [|done].
    rewrite string_key_step, Hc by done. cbn [token_is negb type]. cbn. by rewrite Hvt, Hv, Hb, Ht', Hloop.
Qed.
End Containers.

Lemma depth_elements d (A : Type) (f : A -> nat) l :
  (d + S (list_max (map f l)) <= kMaxJsonDepth)%nat ->
  (d < kMaxJsonDepth)%nat /\ Forall (fun x => S d + f x <= kMaxJsonDepth)%nat l.
Proof.
  intros H. split; [lia|].
  assert (list_max (map f l) <= kMaxJsonDepth - S d)%nat as Hm by lia.
  apply list_max_le, List.Forall_map in Hm. eapply List.Forall_impl; [|exact Hm].
  cbv beta. intros x Hx. lia.
Qed.

Lemma array_back a m d :
  Forall (fun v => forall m d, (d + json_depth v <= kMaxJsonDepth)%nat -> parses_back m d v) a ->
  (d + json_depth (JArray a) <= kMaxJsonDepth)%nat -> parses_back m d (JArray a).
Proof.
  intros IH Hd L r HL _ Hm. cbn [json_depth] in Hd. apply depth_elements in Hd as [Hlt Hds].
  cbn [to_json_string app] in HL. rewrite <- app_assoc in HL. cbn [app] in HL.
  destruct (pnext_single L "["%byte LeftBracket _ HL eq_refl) as (L1 & Ht & HL1).
  pose proof (pnext_progress _ _ _ Ht ltac:(done)) as Hr1. destruct m as [|m]; [lia|].
  assert (Forall (fun v => parses_back m (S d) v) a) as Hall.
  { apply Forall_forall. intros v Hv. rewrite Forall_forall in IH, Hds. auto. }
  eexists. exists L1. cbn [parse_value]. cbn [type].
  destruct (Nat.leb_spec kMaxJsonDepth d); [lia|]. unfold parse_array.
  destruct a as [|x xs]; cbn [map join] in HL1.
  - destruct (pnext_single L1 "]"%byte RightBracket r HL1 eq_refl) as (L2 & Hs & HL2).
    exists L2. rewrite Hs. done.
  - rewrite <- app_assoc in HL1.
    destruct (array_loop_back m (S d) x xs m [] L1 r Hall HL1 ltac:(lia) ltac:(lia))
      as (t & L2 & L' & Ht' & Hne & Hloop & HL').
    exists L'. split; [exact Ht|]. split; [done|]. rewrite Ht'. apply token_is_false in Hne.
    cbn [token_is]. rewrite Hne, Hloop. done.
Qed.

(** An object of members whose values are written in any way the parser reads back. *)
Lemma object_back (o : list member_text) m d :
  (d < kMaxJsonDepth)%nat -> (forall m, Forall (fun kv : member_text => parses_to m (S d) kv.1.2 kv.2) o) ->
  parses_to m d ("{"%byte :: join (map write_member o) ++ ["}"%byte]) (JObject (build [] (map member_value o))).
Proof.
  intros Hlt Hall L r HL _ Hm. cbn [app] in HL. rewrite <- app_assoc in HL. cbn [app] in HL.
  destruct (pnext_single L "{"%byte LeftBrace _ HL eq_refl) as (L1 & Ht & HL1).
  pose proof (pnext_progress _ _ _ Ht ltac:(done)) as Hr1. destruct m as [|m]; [lia|].
  eexists. exists L1. cbn [parse_value]. cbn [type].
  destruct (Nat.leb_spec kMaxJsonDepth d); [lia|]. unfold parse_object.
  destruct o as [|kv o]; cbn [map join] in HL1.
  - destruct (pnext_single L1 "}"%byte RightBrace r HL1 eq_refl) as (L2 & Hb & HL2).
    exists L2. rewrite Hb. done.
  - rewrite <- !app_assoc in HL1.
    destruct (object_loop_back m (S d) kv o m [] L1 r (Hall m) HL1 ltac:(lia) ltac:(lia))
      as (t & L2 & L' & Ht' & Hty & Hloop & HL').
    exists L'. split; [exact Ht|]. split; [done|]. rewrite Ht'. cbn [token_is].
    assert (token_is t RightBrace = false) as -> by (apply token_is_false; congruence).
    rewrite Hloop. done.
Qed.

Definition printed_member (kv : bytes * JsonValue) : member_text := (kv.1, to_json_string kv.2, kv.2).

Lemma printed_members o : map member_value (map printed_member o) = o.
Proof. induction o as [|[k v] o IH]; cbn; [done|]. by rewrite IH. Qed.

Lemma members_back o m d :
  Forall (fun kv => forall m d, (d + json_depth kv.2 <= kMaxJsonDepth)%nat -> parses_back m d kv.2) o ->
  (d + json_depth (JObject o) <= kMaxJsonDepth)%nat -> parses_to m d (to_json_string (JObject o)) (JObject (build [] o)).
Proof.
  intros IH Hd. cbn [json_depth] in Hd. apply depth_elements in Hd as [Hlt Hds].
  pose proof (object_back (map printed_member o) m d Hlt) as H. rewrite printed_members, map_map in H. apply H.
  intros m'. apply List.Forall_map, Forall_forall. intros kv Hkv. rewrite Forall_forall in IH, Hds. cbn. auto.
Qed.

Lemma value_back v m d :
  json_wf v -> (d + json_depth v <= kMaxJsonDepth)%nat -> parses_back m d v.
Proof.
  intros Hw. revert m d. induction v as [|b|s|a IH|o IH] using JsonValue_ind; intros m d Hd.
  1,2: intros L r HL _ Hm; (destruct m as [|m]; [lia|]).
  - destruct (pnext_word L (lit "null") TNull r ltac:(cbn; auto) HL) as (L1 & Ht & HL1). eauto 10.
  - destruct b.
    + destruct (pnext_word L (lit "true") TTrue r ltac:(cbn; auto) HL) as (L1 & Ht & HL1). eauto 10.
    + destruct (pnext_word L (lit "false") TFalse r ltac:(cbn; auto) HL) as (L1 & Ht & HL1). eauto 10.
  - intros L r HL _ Hm. destruct m as [|m]; [lia|].
    destruct (pnext_quote L s r HL) as (L1 & Ht & HL1).
    eexists _, L1, L1. split; [exact Ht|]. split; [done|]. split; [|done].
    cbn [parse_value type]. by rewrite string_value_escape.
  - inversion Hw as [| | |? Ha|]; subst. apply array_back; [|done].
    rewrite Forall_forall in *. intros v Hv m' d'. apply IH; auto.
  - inversion Hw as [| | | |? Hs Ho]; subst.
    assert (build [] o = o) as Hb by (apply (build_sorted o []); [done|constructor]). rewrite <- Hb at 2.
    apply members_back; [|done]. rewrite Forall_forall in *. intros kv Hv m' d'. apply IH; auto.
Qed.

Lemma parse_json_of text v :
  parses_to (json_fuel text) 0 text v -> parse_json text = Ok v.
Proof.
  intros Hv. unfold parse_json, parse.
  destruct (Hv (new_lexer text) []) as (t & L1 & L' & -> & _ & -> & HL').
  - by rewrite app_nil_r.
  - by repeat split.
  - change (remaining (new_lexer text)) with (length text). unfold json_fuel. lia.
  - assert (exists L'', pnext L' = Ret ({| type := TEnd; text := []; has_escapes := false |}, L'')) as [L'' ->].
    { eexists. apply pnext_Ret. unfold next. rewrite HL'. cbn [skip_space].
      unfold lex_token, at_pos, rest_of in *. cbn [_pos _input]. by rewrite HL'. }
    done.
Qed.

Lemma parse_print v :
  json_wf v -> (json_depth v <= kMaxJsonDepth)%nat -> parse_json (to_json_string v) = Ok v.
Proof. intros Hw Hd. apply parse_json_of. by apply value_back. Qed.

(** Members in any order. *)
Lemma parse_print_members o :
  Forall (fun kv => json_wf kv.2) o -> (json_depth (JObject o) <= kMaxJsonDepth)%nat ->
  parse_json (to_json_string (JObject o)) = Ok (JObject (build [] o)).
Proof.
  intros Hw Hd. apply parse_json_of, members_back; [|done].
  rewrite Forall_forall in *. intros kv Hkv m d. by apply value_back, Hw.
Qed.

(** C23. Print/parse round trip: [parse_json (to_json_string v)] returns [v] itself,
    for every value with sorted objects and at most 64 levels of nesting, whatever
    bytes its strings contain. *)
Theorem print_parse_round_trip v :
  json_wf v -> (json_depth v <= kMaxJsonDepth)%nat -> parse_json (to_json_string v) = Ok v.
Proof. apply parse_print. Qed.

Definition sample_value : JsonValue :=
  JObject [(lit "a", JString [dquote; x0a; x01; xff]); (lit "b", JArray [JBool true; JNull; JObject []])].

Lemma print_parse_round_trip_witness : parse_json (to_json_string sample_value) = Ok sample_value.
Proof.
  apply (print_parse_round_trip sample_value).
  - unfold sample_value. repeat constructor.
  - vm_compute. repeat constructor.
Defined.

(** The fuzzed property holds on every input: whatever [parse_json] accepts
    survives print and parse unchanged, so printing it again gives the same text. *)
Theorem accepted_json_round_trips text v :
  parse_json text = Ok v ->
  parse_json (to_json_string v) = Ok v.
Proof.
  intros H%parse_json_value_ok. destruct H as [Hw Hd]. apply parse_print; [done|]. lia.
Qed.

Lemma accepted_json_round_trips_witness :
  exists v, parse_json (lit "[1, [true, null], {}]") = Ok v /\ parse_json (to_json_string v) = Ok v.
Proof.
  exists (JArray [JString (lit "1"); JArray [JBool true; JNull]; JObject []]).
  split; [vm_compute; reflexivity|].
  apply (accepted_json_round_trips (lit "[1, [true, null], {}]")). vm_compute. reflexivity.
Defined.

(** ** Order requests *)

(** Text that needs no escape in a JSON string. *)
Definition plain (s : bytes) : Prop := Forall (fun c => c <> dquote /\ c <> backslash /\ 32 <= bz c) s.

Lemma plain_quote_char c : c <> dquote -> c <> backslash -> 32 <= bz c -> quote_char c = [c].
Proof.
  intros H1 H2 H3. assert (((bz c <? 32) || Byte.eqb c dquote || Byte.eqb c backslash) || bytes_eqb (quote_char c) [c] = true) as H.
  { by destruct c. }
  destruct (Z.ltb_spec (bz c) 32); [lia|]. destruct (byte_eqb_spec c dquote), (byte_eqb_spec c backslash); try done. cbn [orb] in H.
  by destruct (bytes_eqb_spec (quote_char c) [c]).
Qed.

Lemma escape_of_plain s : plain s -> escape s = s.
Proof.
  induction 1 as [|c s (H1 & H2 & H3) _ IH]; [done|]. cbn [escape flat_map]. rewrite plain_quote_char by done.
  cbn. f_equal. exact IH.
Qed.

(** The members of an order request in the order of the text. *)
Definition order_members (o : OrderRequest) : JsonObject :=
  [(lit "ticker", JString (ticker o)); (lit "side", JString (OrderSide_to_string (order_side o)));
   (lit "count", JString (count o)); (lit "price", JString (price o));
   (lit "time_in_force", JString (TimeInForce_to_string (time_in_force o)));
   (lit "self_trade_prevention_type", JString (SelfTradePrevention_to_string (self_trade_prevention o)));
   (lit "post_only", JBool (post_only o)); (lit "client_order_id", JString (client_order_id o))].

Definition plain_order (o : OrderRequest) : Prop :=
  plain (ticker o) /\ plain (count o) /\ plain (price o) /\ plain (client_order_id o).

Lemma serialize_members o :
  plain_order o -> serialize_order_request o = to_json_string (JObject (order_members o)).
Proof.
  intros (H1 & H2 & H3 & H4). unfold order_members, serialize_order_request, raw_member.
  cbn [to_json_string map join flat_map fst snd]. unfold json_quote.
  rewrite (escape_of_plain _ H1), (escape_of_plain _ H2), (escape_of_plain _ H3), (escape_of_plain _ H4).
  destruct (order_side o), (time_in_force o), (self_trade_prevention o), (post_only o); cbn;
    repeat (rewrite <- app_assoc; cbn); done.
Qed.

Lemma order_parsed o :
  plain_order o ->
  exists obj, parse_json (serialize_order_request o) = Ok (JObject obj) /\ length obj = 8%nat /\
    Forall (fun kv => find kv.1 obj = Some kv.2) (order_members o).
Proof.
  intros H. rewrite (serialize_members o H). eexists. split; [|split].
  - apply parse_print_members; [|apply Nat.leb_le; reflexivity]. repeat constructor.
  - reflexivity.
  - repeat constructor.
Qed.

(** Order requests are well-formed JSON: when its free text needs no escaping,
    the body [serialize_order_request] writes is parsed to an object with exactly the
    eight members of an order, and each member is the field of the request. *)
Theorem order_request_round_trip o :
  plain_order o ->
  exists obj, parse_json (serialize_order_request o) = Ok (JObject obj) /\ length obj = 8%nat /\
    Forall (fun kv => find kv.1 obj = Some kv.2) (order_members o).
Proof. apply order_parsed. Qed.

Lemma order_request_round_trip_witness :
  let o := {| ticker := lit "KX-28"; order_side := Bid; count := lit "1.00"; price := lit "0.260";
              time_in_force := ImmediateOrCancel; self_trade_prevention := TakerAtCross; client_order_id := lit "bot-1";
              post_only := false |} in
  exists obj, parse_json (serialize_order_request o) = Ok (JObject obj) /\ get_string obj (lit "price") = Some (lit "0.260").
Proof.
  intros o. destruct (order_request_round_trip o) as (obj & H & _ & Hm).
  - repeat split; repeat constructor; try discriminate; vm_compute; discriminate.
  - exists obj. split; [exact H|]. do 3 (apply Forall_cons in Hm as [_ Hm]). apply Forall_cons in Hm as [Hp _]. unfold get_string. cbn [fst snd] in Hp.
    rewrite Hp. reflexivity.
Defined.
