(* ===== verification/KalshiDecoder.v ===== *)
(** * KalshiDecoder: tree-free decoding of WebSocket messages (src/protocol/kalshi_decoder.cpp)

    The decoder walks the token stream once and records the fields Kalshi messages
    use.  The C++ callbacks mutate structs captured by reference; here the captured
    state is a parameter threaded through [for_each_member] and [for_each_element].
    A failure carries the value of [needs_fallback] at that moment: it is set only
    by [next], which then fails, and every caller returns the error at once. *)

From S2P Require Import Prelude CharConv JsonLexer JsonParser MessageTypes KalshiMessages.

(** ** Data *)

Record Scalar : Type := { seen : bool; value : option bytes }.

Record LevelsField : Type := {
  lf_seen : bool;
  present : bool;
  valid : bool;
  levels : list (bytes * bytes);
}.

Definition new_scalar : Scalar := {| seen := false; value := None |}.
Definition new_levels : LevelsField := {| lf_seen := false; present := false; valid := true; levels := [] |}.

(** The members of [Fields] that [msg_member] fills. *)
Record MsgFields : Type := {
  f_market_ticker : Scalar;
  f_market_id : Scalar;
  f_price_dollars : Scalar;
  f_delta_fp : Scalar;
  f_side : Scalar;
  f_ts : Scalar;
  f_ts_ms : Scalar;
  f_order_id : Scalar;
  f_count_fp : Scalar;
  f_action : Scalar;
  f_yes : LevelsField;
  f_no : LevelsField;
}.

Definition new_msg_fields : MsgFields :=
  {| f_market_ticker := new_scalar; f_market_id := new_scalar; f_price_dollars := new_scalar;
     f_delta_fp := new_scalar; f_side := new_scalar; f_ts := new_scalar;
     f_ts_ms := new_scalar; f_order_id := new_scalar; f_count_fp := new_scalar; f_action := new_scalar;
     f_yes := new_levels; f_no := new_levels |}.

Record Fields : Type := {
  f_type : Scalar;
  f_sid : Scalar;
  f_seq : Scalar;
  msg_seen : bool;
  msg_is_object : bool;
  f_msg : MsgFields;
}.

Definition new_fields : Fields :=
  {| f_type := new_scalar; f_sid := new_scalar; f_seq := new_scalar;
     msg_seen := false; msg_is_object := false; f_msg := new_msg_fields |}.

Definition set_f_market_ticker (f : MsgFields) (x : Scalar) : MsgFields :=
  {| f_market_ticker := x; f_market_id := f_market_id f;
     f_price_dollars := f_price_dollars f; f_delta_fp := f_delta_fp f; f_side := f_side f;
     f_ts := f_ts f; f_ts_ms := f_ts_ms f; f_order_id := f_order_id f;
     f_count_fp := f_count_fp f; f_action := f_action f; f_yes := f_yes f; f_no := f_no f |}.
Definition set_f_market_id (f : MsgFields) (x : Scalar) : MsgFields :=
  {| f_market_ticker := f_market_ticker f; f_market_id := x;
     f_price_dollars := f_price_dollars f; f_delta_fp := f_delta_fp f; f_side := f_side f;
     f_ts := f_ts f; f_ts_ms := f_ts_ms f; f_order_id := f_order_id f;
     f_count_fp := f_count_fp f; f_action := f_action f; f_yes := f_yes f; f_no := f_no f |}.
Definition set_f_price_dollars (f : MsgFields) (x : Scalar) : MsgFields :=
  {| f_market_ticker := f_market_ticker f; f_market_id := f_market_id f;
     f_price_dollars := x; f_delta_fp := f_delta_fp f; f_side := f_side f; f_ts := f_ts f;
     f_ts_ms := f_ts_ms f; f_order_id := f_order_id f; f_count_fp := f_count_fp f;
     f_action := f_action f; f_yes := f_yes f; f_no := f_no f |}.
Definition set_f_delta_fp (f : MsgFields) (x : Scalar) : MsgFields :=
  {| f_market_ticker := f_market_ticker f; f_market_id := f_market_id f;
     f_price_dollars := f_price_dollars f; f_delta_fp := x; f_side := f_side f;
     f_ts := f_ts f; f_ts_ms := f_ts_ms f; f_order_id := f_order_id f;
     f_count_fp := f_count_fp f; f_action := f_action f; f_yes := f_yes f; f_no := f_no f |}.
Definition set_f_side (f : MsgFields) (x : Scalar) : MsgFields :=
  {| f_market_ticker := f_market_ticker f; f_market_id := f_market_id f;
     f_price_dollars := f_price_dollars f; f_delta_fp := f_delta_fp f; f_side := x;
     f_ts := f_ts f; f_ts_ms := f_ts_ms f; f_order_id := f_order_id f;
     f_count_fp := f_count_fp f; f_action := f_action f; f_yes := f_yes f; f_no := f_no f |}.
Definition set_f_ts (f : MsgFields) (x : Scalar) : MsgFields :=
  {| f_market_ticker := f_market_ticker f; f_market_id := f_market_id f;
     f_price_dollars := f_price_dollars f; f_delta_fp := f_delta_fp f; f_side := f_side f;
     f_ts := x; f_ts_ms := f_ts_ms f; f_order_id := f_order_id f;
     f_count_fp := f_count_fp f; f_action := f_action f; f_yes := f_yes f; f_no := f_no f |}.
Definition set_f_ts_ms (f : MsgFields) (x : Scalar) : MsgFields :=
  {| f_market_ticker := f_market_ticker f; f_market_id := f_market_id f;
     f_price_dollars := f_price_dollars f; f_delta_fp := f_delta_fp f; f_side := f_side f;
     f_ts := f_ts f; f_ts_ms := x; f_order_id := f_order_id f; f_count_fp := f_count_fp f;
     f_action := f_action f; f_yes := f_yes f; f_no := f_no f |}.
Definition set_f_order_id (f : MsgFields) (x : Scalar) : MsgFields :=
  {| f_market_ticker := f_market_ticker f; f_market_id := f_market_id f;
     f_price_dollars := f_price_dollars f; f_delta_fp := f_delta_fp f; f_side := f_side f;
     f_ts := f_ts f; f_ts_ms := f_ts_ms f; f_order_id := x; f_count_fp := f_count_fp f;
     f_action := f_action f; f_yes := f_yes f; f_no := f_no f |}.
Definition set_f_count_fp (f : MsgFields) (x : Scalar) : MsgFields :=
  {| f_market_ticker := f_market_ticker f; f_market_id := f_market_id f;
     f_price_dollars := f_price_dollars f; f_delta_fp := f_delta_fp f; f_side := f_side f;
     f_ts := f_ts f; f_ts_ms := f_ts_ms f; f_order_id := f_order_id f; f_count_fp := x;
     f_action := f_action f; f_yes := f_yes f; f_no := f_no f |}.
Definition set_f_action (f : MsgFields) (x : Scalar) : MsgFields :=
  {| f_market_ticker := f_market_ticker f; f_market_id := f_market_id f;
     f_price_dollars := f_price_dollars f; f_delta_fp := f_delta_fp f; f_side := f_side f;
     f_ts := f_ts f; f_ts_ms := f_ts_ms f; f_order_id := f_order_id f;
     f_count_fp := f_count_fp f; f_action := x; f_yes := f_yes f; f_no := f_no f |}.
Definition set_f_yes (f : MsgFields) (x : LevelsField) : MsgFields :=
  {| f_market_ticker := f_market_ticker f; f_market_id := f_market_id f;
     f_price_dollars := f_price_dollars f; f_delta_fp := f_delta_fp f; f_side := f_side f;
     f_ts := f_ts f; f_ts_ms := f_ts_ms f; f_order_id := f_order_id f;
     f_count_fp := f_count_fp f; f_action := f_action f; f_yes := x; f_no := f_no f |}.
Definition set_f_no (f : MsgFields) (x : LevelsField) : MsgFields :=
  {| f_market_ticker := f_market_ticker f; f_market_id := f_market_id f;
     f_price_dollars := f_price_dollars f; f_delta_fp := f_delta_fp f; f_side := f_side f;
     f_ts := f_ts f; f_ts_ms := f_ts_ms f; f_order_id := f_order_id f;
     f_count_fp := f_count_fp f; f_action := f_action f; f_yes := f_yes f; f_no := x |}.

(** ** Statuses *)

Inductive status (A : Type) : Type :=
| SRet (a : A)
| SFail (e : JsonError) (needs_fallback : bool)
| SOutOfFuel.
Arguments SRet {A} a.
Arguments SFail {A} e needs_fallback.
Arguments SOutOfFuel {A}.

Notation "'let*' x ':=' m 'in' k" :=
  (match m with SRet x => k | SFail e b => SFail e b | SOutOfFuel => SOutOfFuel end)
  (at level 10, x pattern, m at level 200, k at level 200).

Definition dfail {A} (w : string) (L : JsonLexer) : status A :=
  SFail {| what := lit w; offset := _pos L |} false.

Definition parse_u64 (s : bytes) : option Z := from_chars_all 10 s.

Definition is_text (t : TokenType) : bool := match t with TString | TNumber => true | _ => false end.

(** [Decoder::next] *)
Definition dnext (L : JsonLexer) : status (Token * JsonLexer) :=
  match next L with
  | (Ok t, L') =>
    if token_is t TString && has_escapes t
    then SFail {| what := lit "escaped string; falling back"; offset := _pos L' |} true
    else SRet (t, L')
  | (Unexpected e, _) => SFail e false
  end.

(** ** Walking objects and arrays *)

Section Walk.
Context {S : Type}.

Fixpoint member_loop (fuel depth : nat) (f : bytes -> Token -> nat -> S -> JsonLexer -> status (S * JsonLexer))
    (token : Token) (s : S) (L : JsonLexer) : status (S * JsonLexer) :=
  match fuel with
  | O => SOutOfFuel
  | Datatypes.S fuel =>
    if negb (token_is token TString) then dfail "Expected string key in object" L
    else
      let key := text token in
      let* (colon, L) := dnext L in
      if negb (token_is colon Colon) then dfail "Expected ':' after object key" L
      else
        let* (value, L) := dnext L in
        let* (s, L) := f key value depth s L in
        let* (sep, L) := dnext L in
        if token_is sep RightBrace then SRet (s, L)
        else if negb (token_is sep Comma) then dfail "Expected ',' or '}' after object value" L
        else
          let* (token, L) := dnext L in
          member_loop fuel depth f token s L
  end.

Definition for_each_member (fuel depth : nat)
    (f : bytes -> Token -> nat -> S -> JsonLexer -> status (S * JsonLexer))
    (s : S) (L : JsonLexer) : status (S * JsonLexer) :=
  let* (token, L) := dnext L in
  if token_is token RightBrace then SRet (s, L)
  else member_loop fuel depth f token s L.

Fixpoint element_loop (fuel depth : nat) (f : Token -> nat -> S -> JsonLexer -> status (S * JsonLexer))
    (token : Token) (s : S) (L : JsonLexer) : status (S * JsonLexer) :=
  match fuel with
  | O => SOutOfFuel
  | Datatypes.S fuel =>
    let* (s, L) := f token depth s L in
    let* (sep, L) := dnext L in
    if token_is sep RightBracket then SRet (s, L)
    else if negb (token_is sep Comma) then dfail "Expected ',' or ']' after array value" L
    else
      let* (token, L) := dnext L in
      element_loop fuel depth f token s L
  end.

Definition for_each_element (fuel depth : nat)
    (f : Token -> nat -> S -> JsonLexer -> status (S * JsonLexer))
    (s : S) (L : JsonLexer) : status (S * JsonLexer) :=
  let* (token, L) := dnext L in
  if token_is token RightBracket then SRet (s, L)
  else element_loop fuel depth f token s L.
End Walk.

(** Validates and discards one value, given its first token. *)
Fixpoint skip_value (fuel : nat) (first : Token) (depth : nat) (L : JsonLexer) : status JsonLexer :=
  match fuel with
  | O => SOutOfFuel
  | S fuel =>
    match type first with
    | TString | TNumber | TTrue | TFalse | TNull => SRet L
    | LeftBrace | LeftBracket =>
      if (kMaxJsonDepth <=? depth)%nat then dfail "JSON nested too deeply" L
      else if token_is first LeftBrace then
        let* (_, L) := for_each_member fuel (S depth)
          (fun _ v d u L => let* L := skip_value fuel v d L in SRet (u, L)) tt L in SRet L
      else
        let* (_, L) := for_each_element fuel (S depth)
          (fun v d u L => let* L := skip_value fuel v d L in SRet (u, L)) tt L in SRet L
    | TEnd => dfail "Unexpected end of JSON" L
    | _ => dfail "Unexpected token in value position" L
    end
  end.

(** ** Fields *)

Definition scalar (fuel : nat) (field : Scalar) (v : Token) (depth : nat) (L : JsonLexer)
    : status (Scalar * JsonLexer) :=
  if negb (seen field) then
    if is_text (type v) then SRet ({| seen := true; value := Some (text v) |}, L)
    else let* L := skip_value fuel v depth L in SRet ({| seen := true; value := value field |}, L)
  else let* L := skip_value fuel v depth L in SRet (field, L).

(** The local variables [pair], [count] and [all_text] of the innermost callback. *)
Record PairState : Type := { pair0 : bytes; pair1 : bytes; pcount : nat; all_text : bool }.

Definition pair_element (fuel : nat) (x : Token) (depth : nat) (p : PairState) (L : JsonLexer)
    : status (PairState * JsonLexer) :=
  if is_text (type x) then
    SRet ({| pair0 := if (pcount p =? 0)%nat then text x else pair0 p;
             pair1 := if (pcount p =? 1)%nat then text x else pair1 p;
             pcount := S (pcount p); all_text := all_text p |}, L)
  else
    let* L := skip_value fuel x depth L in
    SRet ({| pair0 := pair0 p; pair1 := pair1 p; pcount := S (pcount p); all_text := false |}, L).

(** One element of a price-level array. *)
Definition level_element (fuel : nat) (element : Token) (d : nat) (field : LevelsField) (L : JsonLexer)
    : status (LevelsField * JsonLexer) :=
  let invalid := {| lf_seen := lf_seen field; present := present field; valid := false;
                    levels := levels field |} in
  if negb (token_is element LeftBracket) then
    let* L := skip_value fuel element d L in SRet (invalid, L)
  else if (kMaxJsonDepth <=? d)%nat then dfail "JSON nested too deeply" L
  else
    let* (p, L) := for_each_element fuel (S d) (pair_element fuel)
      {| pair0 := []; pair1 := []; pcount := 0; all_text := true |} L in
    if (pcount p =? 2)%nat && all_text p
    then SRet ({| lf_seen := lf_seen field; present := present field; valid := valid field;
                  levels := levels field ++ [(pair0 p, pair1 p)] |}, L)
    else SRet (invalid, L).

Definition levels_member (fuel : nat) (field : LevelsField) (v : Token) (depth : nat) (L : JsonLexer)
    : status (LevelsField * JsonLexer) :=
  if lf_seen field || negb (token_is v LeftBracket) then
    let* L := skip_value fuel v depth L in
    SRet ({| lf_seen := true; present := present field; valid := valid field; levels := levels field |}, L)
  else if (kMaxJsonDepth <=? depth)%nat then dfail "JSON nested too deeply" L
  else for_each_element fuel (S depth) (level_element fuel)
         {| lf_seen := true; present := true; valid := valid field; levels := levels field |} L.

Definition scalar_member (fuel : nat) (f : MsgFields) (get : MsgFields -> Scalar)
    (set : MsgFields -> Scalar -> MsgFields) (v : Token) (depth : nat) (L : JsonLexer)
    : status (MsgFields * JsonLexer) :=
  let* (x, L) := scalar fuel (get f) v depth L in SRet (set f x, L).

Definition msg_member (fuel : nat) (key : bytes) (value : Token) (depth : nat) (f : MsgFields) (L : JsonLexer)
    : status (MsgFields * JsonLexer) :=
  if bytes_eqb key (lit "market_ticker") then scalar_member fuel f f_market_ticker set_f_market_ticker value depth L
  else if bytes_eqb key (lit "market_id") then scalar_member fuel f f_market_id set_f_market_id value depth L
  else if bytes_eqb key (lit "price_dollars") then scalar_member fuel f f_price_dollars set_f_price_dollars value depth L
  else if bytes_eqb key (lit "delta_fp") then scalar_member fuel f f_delta_fp set_f_delta_fp value depth L
  else if bytes_eqb key (lit "side") then scalar_member fuel f f_side set_f_side value depth L
  else if bytes_eqb key (lit "ts") then scalar_member fuel f f_ts set_f_ts value depth L
  else if bytes_eqb key (lit "ts_ms") then scalar_member fuel f f_ts_ms set_f_ts_ms value depth L
  else if bytes_eqb key (lit "order_id") then scalar_member fuel f f_order_id set_f_order_id value depth L
  else if bytes_eqb key (lit "count_fp") then scalar_member fuel f f_count_fp set_f_count_fp value depth L
  else if bytes_eqb key (lit "action") then scalar_member fuel f f_action set_f_action value depth L
  else if bytes_eqb key (lit "yes_dollars_fp") then
    let* (x, L) := levels_member fuel (f_yes f) value depth L in SRet (set_f_yes f x, L)
  else if bytes_eqb key (lit "no_dollars_fp") then
    let* (x, L) := levels_member fuel (f_no f) value depth L in SRet (set_f_no f x, L)
  else let* L := skip_value fuel value depth L in SRet (f, L).

Definition root_member (fuel : nat) (key : bytes) (value : Token) (depth : nat) (f : Fields) (L : JsonLexer)
    : status (Fields * JsonLexer) :=
  if bytes_eqb key (lit "type") then
    let* (x, L) := scalar fuel (f_type f) value depth L in
    SRet ({| f_type := x; f_sid := f_sid f; f_seq := f_seq f; msg_seen := msg_seen f;
             msg_is_object := msg_is_object f; f_msg := f_msg f |}, L)
  else if bytes_eqb key (lit "sid") then
    let* (x, L) := scalar fuel (f_sid f) value depth L in
    SRet ({| f_type := f_type f; f_sid := x; f_seq := f_seq f; msg_seen := msg_seen f;
             msg_is_object := msg_is_object f; f_msg := f_msg f |}, L)
  else if bytes_eqb key (lit "seq") then
    let* (x, L) := scalar fuel (f_seq f) value depth L in
    SRet ({| f_type := f_type f; f_sid := f_sid f; f_seq := x; msg_seen := msg_seen f;
             msg_is_object := msg_is_object f; f_msg := f_msg f |}, L)
  else if bytes_eqb key (lit "msg") && negb (msg_seen f) then
    if token_is value LeftBrace then
      if (kMaxJsonDepth <=? depth)%nat then dfail "JSON nested too deeply" L
      else
        let* (m, L) := for_each_member fuel (S depth) (msg_member fuel) (f_msg f) L in
        SRet ({| f_type := f_type f; f_sid := f_sid f; f_seq := f_seq f; msg_seen := true;
                 msg_is_object := true; f_msg := m |}, L)
    else
      let* L := skip_value fuel value depth L in
      SRet ({| f_type := f_type f; f_sid := f_sid f; f_seq := f_seq f; msg_seen := true;
               msg_is_object := msg_is_object f; f_msg := f_msg f |}, L)
  else let* L := skip_value fuel value depth L in SRet (f, L).

(** [Decoder::decode] *)
Definition decode (fuel : nat) (L : JsonLexer) : status Fields :=
  let* (first, L) := dnext L in
  if negb (token_is first LeftBrace) then
    let* L := skip_value fuel first 0 L in
    let* (fin, L) := dnext L in
    if negb (token_is fin TEnd) then dfail "Trailing characters after JSON value" L
    else dfail "Root JSON is not an object" L
  else
    let* (f, L) := for_each_member fuel 1 (root_member fuel) new_fields L in
    let* (fin, L) := dnext L in
    if negb (token_is fin TEnd) then dfail "Trailing characters after JSON value" L
    else SRet f.

(** ** Building the message *)

Definition field_u64 (s : Scalar) : option Z := match value s with Some v => parse_u64 v | None => None end.

(** [present ? to_levels(levels) : {}] *)
Definition field_levels (l : LevelsField) : list PriceLevel := if present l then levels l else [].

Definition build (f : Fields) : expected bytes Message :=
  match value (f_type f) with
  | None => Unexpected (lit "Missing or invalid 'type' field")
  | Some ty =>
    let make p := {| msg_type := ty; sid := u32 (default 0 (field_u64 (f_sid f)));
                     seq := u32 (default 0 (field_u64 (f_seq f))); msg := p |} in
    let m := f_msg f in
    if bytes_eqb ty (lit "subscribed") then Ok (make PNone)
    else if negb (msg_is_object f) then Unexpected (lit "Missing 'msg' object")
    else if bytes_eqb ty (lit "orderbook_delta") then
      match value (f_market_ticker m), value (f_market_id m), value (f_price_dollars m),
            value (f_delta_fp m), value (f_side m), value (f_ts m), field_u64 (f_ts_ms m) with
      | Some ticker, Some market_id, Some price, Some delta, Some side, Some ts, Some ts_ms =>
        Ok (make (PDelta {| delta_market_ticker := ticker; delta_market_id := market_id;
                            price_dollars := price; delta_fp := delta; side := side; ts := ts;
                            delta_ts_ms := ts_ms |}))
      | _, _, _, _, _, _, _ => Unexpected (lit "Invalid Key")
      end
    else if bytes_eqb ty (lit "orderbook_snapshot") then
      match value (f_market_ticker m), value (f_market_id m) with
      | Some ticker, Some market_id =>
        if (present (f_yes m) && negb (valid (f_yes m))) || (present (f_no m) && negb (valid (f_no m)))
        then Unexpected (lit "Malformed price level")
        else Ok (make (PSnapshot {| snap_market_ticker := ticker; snap_market_id := market_id;
                                    yes_dollars_fp := field_levels (f_yes m);
                                    no_dollars_fp := field_levels (f_no m) |}))
      | _, _ => Unexpected (lit "Missing required fields in snapshot")
      end
    else if bytes_eqb ty (lit "fill") then
      match value (f_action m) with
      | None => Unexpected (lit "Missing action field")
      | Some action_str =>
        let? action := parse_action action_str in
        match value (f_order_id m), value (f_market_ticker m), value (f_count_fp m) with
        | Some order_id, Some market_ticker, Some count_fp =>
          Ok (make (PFill {| fill_order_id := order_id; fill_market_ticker := market_ticker;
                             count_fp := count_fp; action := action |}))
        | _, _, _ => Unexpected (lit "Missing fields in fill")
        end
      end
    else Unexpected (lit "Unknown message type: " ++ ty)
  end.

(** The path through the JSON tree: [parse_json(bytes).and_then(parse_kalshi_message)]. *)
Definition tree_decode (b : bytes) : expected bytes Message :=
  let? json := parse_json b in parse_kalshi_message json.

Definition decode_kalshi_message (b : bytes) : expected bytes Message :=
  match decode (json_fuel b) (new_lexer b) with
  | SRet fields => build fields
  | SFail e false => Unexpected (JsonError_message e)
  | SFail _ true => tree_decode b
  | SOutOfFuel => Unexpected (lit "out of fuel")
  end.
