(* ===== verification/DecoderEquiv.v ===== *)
(** * DecoderEquiv: the direct decoder implements the tree decoder

    The header comment of kalshi_decoder.cpp requires the decoder to accept and
    reject exactly what [parse_json] followed by [parse_kalshi_message] does.  The
    proof is a simulation between the two walks over the same token stream: while no
    escaped string occurs they consume the same tokens, fail together, and the
    recorded fields are those a lookup in the tree would return.  If an escaped
    string occurs the decoder falls back to the tree path itself. *)

From S2P Require Import Prelude CharConv JsonLexer JsonParser JsonFacts MessageTypes KalshiMessages KalshiDecoder.

(** ** Simulation of statuses *)

(** Outcomes of the two walks that agree, with results related by [R]. *)
Definition sim {A V} (R : A -> V -> Prop) (D : status (A * JsonLexer)) (P : outcome (V * JsonLexer)) : Prop :=
  match D, P with
  | SOutOfFuel, _ | _, OutOfFuel | SFail _ true, _ | SFail _ false, Fail _ => True
  | SRet (a, L1), Ret (v, L2) => L1 = L2 /\ R a v
  | _, _ => False
  end.

Lemma sim_bind {A V B W} (R : A -> V -> Prop) (R' : B -> W -> Prop) D P
    (kd : A -> JsonLexer -> status (B * JsonLexer)) (kp : V -> JsonLexer -> outcome (W * JsonLexer)) :
  sim R D P ->
  (forall a v L, R a v -> sim R' (kd a L) (kp v L)) ->
  sim R' (let* (a, L) := D in kd a L) (let! (v, L) := P in kp v L).
Proof.
  intros H Hk. destruct D as [[a L1]|e []|], P as [[v L2]|e'|]; cbn in *; try done.
  - destruct H as [<- H]. by apply Hk.
  - by destruct (kd a L1) as [[? ?]|? []|].
  - by destruct (kp v L2) as [[? ?]|?|].
Qed.

Lemma sim_weaken {A V} (R R' : A -> V -> Prop) D P :
  (forall a v, R a v -> R' a v) -> sim R D P -> sim R' D P.
Proof.
  intros HR. destruct D as [[a L1]|e []|], P as [[v L2]|e'|]; cbn; try done. intros [? ?]. auto.
Qed.

(** A string token without escapes. *)
Definition plain (t : Token) : Prop := type t = TString -> has_escapes t = false.

(** Both walks read the same plain token. *)
Lemma sim_next L : sim (fun t t' => t = t' /\ plain t) (dnext L) (pnext L).
Proof.
  unfold dnext, pnext. destruct (next L) as [[t|e] L']; [|done].
  destruct (token_is t TString) eqn:Et; cbn [andb].
  - destruct (has_escapes t) eqn:Ee; cbn; [done|]. split; [done|]. split; [done|]. by intros _.
  - apply token_is_false in Et. cbn. split; [done|]. split; [done|]. by intros ?.
Qed.

(** [let*] and [let!] of a token, then a test. *)
Lemma sim_next_bind {B W} (R' : B -> W -> Prop) L
    (kd : Token -> JsonLexer -> status (B * JsonLexer)) (kp : Token -> JsonLexer -> outcome (W * JsonLexer)) :
  (forall t L, plain t -> sim R' (kd t L) (kp t L)) ->
  sim R' (let* (a, L) := dnext L in kd a L) (let! (v, L) := pnext L in kp v L).
Proof.
  intros Hk. eapply sim_bind; [apply sim_next|]. intros t t' L' [<- Hp]. auto.
Qed.

Lemma sim_fail {A V} (R : A -> V -> Prop) w w' L L' : sim R (dfail w L) (fail w' L').
Proof. done. Qed.

Lemma sim_out {A V} (R : A -> V -> Prop) D : sim R D OutOfFuel.
Proof. by destruct D as [[? ?]|? []|]. Qed.

Lemma plain_string t L : plain t -> type t = TString -> string_value t L = Ret (text t).
Proof. intros Hp Ht. unfold string_value. by rewrite (Hp Ht). Qed.

(** ** Loops *)

Section Loops.
Context {S : Type}.
Variable pv : Token -> nat -> JsonLexer -> outcome (JsonValue * JsonLexer).
Variable depth : nat.

Lemma member_loop_sim (R : S -> JsonObject -> Prop) f n m token s obj L :
  (forall key v s obj L, plain v -> R s obj ->
     sim (fun s' val => R s' (emplace key val obj)) (f key v depth s L) (pv v depth L)) ->
  plain token -> R s obj ->
  sim R (member_loop n depth f token s L) (parse_object_loop pv m depth obj token L).
Proof.
  intros Hf. revert m token s obj L. induction n as [|n IH]; intros m token s obj L Ht HR; [done|].
  destruct m as [|m]; [apply sim_out|].
  cbn [member_loop parse_object_loop].
  destruct (token_is token TString) eqn:Et; cbn [negb]; [|apply sim_fail].
  apply token_is_true in Et. rewrite plain_string by done.
  apply sim_next_bind. intros colon L1 _. destruct (negb (token_is colon Colon)); [apply sim_fail|].
  apply sim_next_bind. intros v L2 Hv.
  eapply sim_bind; [by apply Hf|]. intros s' val L3 HR'. cbv beta in HR'.
  apply sim_next_bind. intros sep L4 _.
  destruct (token_is sep RightBrace); [done|]. destruct (negb (token_is sep Comma)); [apply sim_fail|].
  apply sim_next_bind. intros token' L5 Ht'. by apply IH.
Qed.

Lemma for_each_member_sim (R : S -> JsonObject -> Prop) f n m s L :
  (forall key v s obj L, plain v -> R s obj ->
     sim (fun s' val => R s' (emplace key val obj)) (f key v depth s L) (pv v depth L)) ->
  R s [] -> sim R (for_each_member n depth f s L) (parse_object pv m depth L).
Proof.
  intros Hf HR. unfold for_each_member, parse_object. apply sim_next_bind. intros token L1 Ht.
  destruct (token_is token RightBrace); [done|]. by apply member_loop_sim.
Qed.

Lemma element_loop_sim (R : S -> JsonArray -> Prop) f n m token s arr L :
  (forall v s arr L, plain v -> R s arr ->
     sim (fun s' val => R s' (arr ++ [val])) (f v depth s L) (pv v depth L)) ->
  plain token -> R s arr ->
  sim R (element_loop n depth f token s L) (parse_array_loop pv m depth arr token L).
Proof.
  intros Hf. revert m token s arr L. induction n as [|n IH]; intros m token s arr L Ht HR; [done|].
  destruct m as [|m]; [apply sim_out|].
  cbn [element_loop parse_array_loop].
  eapply sim_bind; [by apply Hf|]. intros s' val L3 HR'. cbv beta in HR'.
  apply sim_next_bind. intros sep L4 _.
  destruct (token_is sep RightBracket); [done|]. destruct (negb (token_is sep Comma)); [apply sim_fail|].
  apply sim_next_bind. intros token' L5 Ht'. by apply IH.
Qed.

Lemma for_each_element_sim (R : S -> JsonArray -> Prop) f n m s L :
  (forall v s arr L, plain v -> R s arr ->
     sim (fun s' val => R s' (arr ++ [val])) (f v depth s L) (pv v depth L)) ->
  R s [] -> sim R (for_each_element n depth f s L) (parse_array pv m depth L).
Proof.
  intros Hf HR. unfold for_each_element, parse_array. apply sim_next_bind. intros token L1 Ht.
  destruct (token_is token RightBracket); [done|]. by apply element_loop_sim.
Qed.
End Loops.

(** ** Skipped values *)

(** [let* L := D in SRet (s, L)]: a walk that only moves the lexer. *)
Definition skipping {A} (a : A) (D : status JsonLexer) : status (A * JsonLexer) :=
  let* L := D in SRet (a, L).

Lemma sim_skipping {A V} (R : A -> V -> Prop) a D (P : outcome (V * JsonLexer)) :
  sim (fun (_ : unit) v => R a v) (skipping tt D) P -> sim R (skipping a D) P.
Proof. by destruct D as [L|e []|], P as [[v L2]|e'|]. Qed.

Lemma skip_value_sim n m t d L :
  plain t -> sim (fun (_ : unit) _ => True) (skipping tt (skip_value n t d L)) (parse_value m t d L).
Proof.
  revert m t d L. induction n as [|n IH]; intros m t d L Ht; [done|].
  destruct m as [|m]; [apply sim_out|].
  cbn [skip_value parse_value].
  assert (forall (X : status (unit * JsonLexer)) (V : Type) (P : outcome (V * JsonLexer)) (c : V -> JsonValue),
    sim (fun _ _ => True) X P ->
    sim (fun (_ : unit) _ => True) (skipping tt (let* (_, L) := X in SRet L))
      (let! (v, L) := P in Ret (c v, L))) as Hwrap.
  { intros [[? ?]|? []|] V [[? ?]|?|] c; by cbn. }
  destruct (type t) eqn:Ety; try done; try apply sim_fail.
  - destruct (kMaxJsonDepth <=? d)%nat; [apply sim_fail|]. destruct (token_is t LeftBrace); apply Hwrap.
    + apply for_each_member_sim; [|done]. intros key v [] obj L' Hv _. by apply IH.
    + apply for_each_element_sim; [|done]. intros v [] arr L' Hv _. by apply IH.
  - destruct (kMaxJsonDepth <=? d)%nat; [apply sim_fail|]. destruct (token_is t LeftBrace); apply Hwrap.
    + apply for_each_member_sim; [|done]. intros key v [] obj L' Hv _. by apply IH.
    + apply for_each_element_sim; [|done]. intros v [] arr L' Hv _. by apply IH.
  - rewrite plain_string by done. done.
Qed.

(** ** The shape of a parsed value follows from its first token *)

Definition is_some {A} (o : option A) : bool := match o with Some _ => true | None => false end.

Lemma parse_value_shape m t d L v L' :
  parse_value m t d L = Ret (v, L') ->
  is_some (as_string v) = is_text (type t) /\
  is_some (as_object v) = token_is t LeftBrace /\ is_some (as_array v) = token_is t LeftBracket.
Proof.
  destruct m as [|m]; cbn [parse_value]; [done|]. unfold token_is.
  destruct (type t); intros H; repeat bind_step H; try done; by simplify_eq.
Qed.

Lemma sim_post {A V} (R : A -> V -> Prop) (Q : V -> Prop) D P :
  sim R D P -> (forall v L, P = Ret (v, L) -> Q v) -> sim (fun a v => R a v /\ Q v) D P.
Proof.
  intros H HQ. destruct D as [[a L1]|e []|], P as [[v L2]|e'|]; cbn in *; try done.
  destruct H as [<- H]. eauto.
Qed.

(** A walk whose tree value is wrapped in a constructor. *)
Lemma sim_wrap {A V W} (R : A -> V -> Prop) (R' : A -> W -> Prop) (c : V -> W) D P :
  sim R D P -> (forall a v, R a v -> R' a (c v)) -> sim R' D (let! (v, L) := P in Ret (c v, L)).
Proof.
  intros H HR. destruct D as [[a L1]|e []|], P as [[v L2]|e'|]; cbn in *; try done.
  destruct H as [<- H]. auto.
Qed.

(** A skipped value, with what its token says about it. *)
Lemma skip_sim {A} (R : A -> JsonValue -> Prop) a n m t d L :
  plain t ->
  (forall v, is_some (as_string v) = is_text (type t) -> is_some (as_object v) = token_is t LeftBrace ->
             is_some (as_array v) = token_is t LeftBracket -> R a v) ->
  sim R (let* L := skip_value n t d L in SRet (a, L)) (parse_value m t d L).
Proof.
  intros Ht HR. apply (sim_skipping R a).
  eapply sim_weaken; [|apply (sim_post (fun (_ : unit) _ => True) (fun v => R a v)); [by apply skip_value_sim|]].
  - by intros _ v [_ ?].
  - intros v L' Hv. apply parse_value_shape in Hv as (? & ? & ?). auto.
Qed.

Lemma as_string_None v : is_some (as_string v) = false -> as_string v = None.
Proof. by destruct (as_string v). Qed.

(** A text token parses to the string it holds. *)
Lemma parse_text m t d L :
  plain t -> is_text (type t) = true ->
  parse_value (S m) t d L = Ret (JString (text t), L).
Proof.
  intros Hp Ht. cbn [parse_value]. destruct (type t) eqn:E; try done. by rewrite plain_string.
Qed.

Lemma sim_text {A} (R : A -> JsonValue -> Prop) a m t d L :
  plain t -> is_text (type t) = true -> R a (JString (text t)) ->
  sim R (SRet (a, L)) (parse_value m t d L).
Proof. intros Hp Ht HR. destruct m as [|m]; [done|]. by rewrite parse_text. Qed.

(** ** Scalars *)

Definition scalar_rel (sc : Scalar) (o : option JsonValue) : Prop :=
  seen sc = is_some o /\ value sc = match o with Some v => as_string v | None => None end.

Lemma scalar_sim n m sc o t d L :
  plain t -> scalar_rel sc o ->
  sim (fun sc' v => scalar_rel sc' (Some (default v o))) (scalar n sc t d L) (parse_value m t d L).
Proof.
  intros Ht [Hseen Hval]. unfold scalar. rewrite Hseen. destruct o as [v0|]; cbn [is_some negb].
  - apply skip_sim; [done|]. intros v _ _ _. by split.
  - destruct (is_text (type t)) eqn:Etext.
    + by apply sim_text.
    + apply skip_sim; [done|]. intros v Hs _ _. rewrite Etext in Hs. apply as_string_None in Hs.
      split; [done|]. cbn. by rewrite Hval, Hs.
Qed.

(** ** Price levels *)

Lemma parse_price_levels_snoc a v :
  parse_price_levels (a ++ [v]) =
  let? l := parse_price_levels a in let? x := parse_price_level v in Ok (l ++ [x]).
Proof.
  induction a as [|w a IH]; cbn [app parse_price_levels].
  - by destruct (parse_price_level v).
  - rewrite IH. destruct (parse_price_level w); [|done].
    destruct (parse_price_levels a); [|done]. by destruct (parse_price_level v).
Qed.

Definition str_at (a : JsonArray) (i : nat) : bytes :=
  match a !! i with Some (JString s) => s | _ => [] end.

Definition pair_rel (p : PairState) (a : JsonArray) : Prop :=
  pcount p = length a /\ all_text p = forallb (fun v => is_some (as_string v)) a /\
  (all_text p = true -> pair0 p = str_at a 0 /\ pair1 p = str_at a 1).

Lemma str_at_snoc a v i :
  str_at (a ++ [v]) i = if (length a =? i)%nat then default [] (as_string v) else str_at a i.
Proof.
  unfold str_at. destruct (Nat.eqb_spec (length a) i) as [<-|Hne].
  - rewrite lookup_app_r, Nat.sub_diag by lia. by destruct v.
  - destruct (le_lt_dec (length a) i).
    + rewrite (lookup_ge_None_2 (a ++ [v])) by (rewrite length_app; cbn; lia).
      rewrite (lookup_ge_None_2 a); [done|lia].
    + by rewrite lookup_app_l.
Qed.

Lemma pair_element_sim n m t d p a L :
  plain t -> pair_rel p a ->
  sim (fun p' v => pair_rel p' (a ++ [v])) (pair_element n t d p L) (parse_value m t d L).
Proof.
  intros Ht (Hc & Ha & Hp). unfold pair_element.
  destruct (is_text (type t)) eqn:Etext.
  - apply sim_text; [done..|]. unfold pair_rel. cbn. rewrite length_app, forallb_app, Ha, Hc. cbn.
    rewrite !str_at_snoc, !andb_true_r. split; [lia|]. split; [done|].
    intros Hall. rewrite <- Ha in Hall. destruct (Hp Hall) as [-> ->]. cbn.
    by destruct (Nat.eqb_spec (length a) 0), (Nat.eqb_spec (length a) 1).
  - apply skip_sim; [done|]. intros v Hs _ _. unfold pair_rel.
    cbn [pcount all_text pair0 pair1].
    rewrite length_app, forallb_app, Hc. cbn [forallb length]. rewrite Hs, Etext. cbn [andb]. rewrite andb_false_r.
    split; [lia|]. done.
Qed.

(** Two text elements, and nothing else, make a price level. *)
Lemma pair_level p a :
  pair_rel p a ->
  parse_price_level (JArray a) =
    if (pcount p =? 2)%nat && all_text p then Ok (pair0 p, pair1 p)
    else if (pcount p =? 2)%nat then Unexpected (lit "Price levels contain non-string data")
    else Unexpected (lit "Price level is not a 2-element array").
Proof.
  intros (Hc & Ha & Hp). rewrite Hc. unfold parse_price_level. cbn [as_array].
  destruct a as [|x [|y [|z a]]]; try done. cbn in Ha |- *. rewrite andb_true_r in Ha.
  destruct (all_text p) eqn:E.
  - destruct (Hp eq_refl) as [-> ->]. by destruct x, y.
  - by destruct x, y.
Qed.

Definition level_track (lf : LevelsField) (a : JsonArray) : Prop :=
  lf_seen lf = true /\ present lf = true /\ valid lf = has_value (parse_price_levels a) /\
  forall l, parse_price_levels a = Ok l -> levels lf = l.

Lemma level_track_bad lf a v :
  level_track lf a -> has_value (parse_price_level v) = false ->
  level_track {| lf_seen := lf_seen lf; present := present lf; valid := false; levels := levels lf |} (a ++ [v]).
Proof.
  intros (Hs & Hpr & Hv & Hl) Hbad. unfold level_track. cbn. rewrite parse_price_levels_snoc.
  destruct (parse_price_level v); [done|]. by destruct (parse_price_levels a).
Qed.

Lemma level_element_sim n m t d lf a L :
  plain t -> level_track lf a ->
  sim (fun lf' v => level_track lf' (a ++ [v])) (level_element n t d lf L) (parse_value m t d L).
Proof.
  intros Ht Htr. unfold level_element. destruct (token_is t LeftBracket) eqn:Eb; cbn [negb].
  2: { apply skip_sim; [done|]. intros v _ _ Hs. apply level_track_bad; [done|].
       rewrite Eb in Hs. unfold parse_price_level. by destruct v. }
  destruct m as [|m]; [apply sim_out|].
  apply token_is_true in Eb. cbn [parse_value]. rewrite Eb.
  destruct (kMaxJsonDepth <=? d)%nat; [apply sim_fail|].
  assert (token_is t LeftBrace = false) as -> by (apply token_is_false; congruence).
  eapply sim_bind.
  - apply (for_each_element_sim _ _ pair_rel).
    + intros v p a' L' Hv Hp. by apply pair_element_sim.
    + done.
  - intros p a' L' Hp. pose proof (pair_level _ _ Hp) as Hlev.
    destruct ((pcount p =? 2)%nat && all_text p).
    + cbn. split; [done|]. destruct Htr as (Hs & Hpr & Hv & Hl). unfold level_track. cbn.
      rewrite parse_price_levels_snoc, Hlev. destruct (parse_price_levels a) as [l|]; [|done].
      rewrite (Hl l eq_refl). repeat split; [done..|]. by intros l' [= <-].
    + cbn. split; [done|]. apply level_track_bad; [done|]. rewrite Hlev. by destruct (pcount p =? 2)%nat.
Qed.

Definition levels_rel (lf : LevelsField) (o : option JsonValue) : Prop :=
  lf_seen lf = is_some o /\
  match o with
  | Some (JArray a) => level_track lf a
  | _ => present lf = false /\ valid lf = true /\ levels lf = []
  end.

Lemma levels_member_sim n m lf o t d L :
  plain t -> levels_rel lf o ->
  sim (fun lf' v => levels_rel lf' (Some (default v o))) (levels_member n lf t d L) (parse_value m t d L).
Proof.
  intros Ht [Hseen Hval]. unfold levels_member. rewrite Hseen. destruct o as [v0|]; cbn [is_some orb].
  - apply skip_sim; [done|]. intros v _ _ _. split; [done|]. cbn. destruct v0; try done.
    by destruct Hval as (_ & ? & ? & ?).
  - destruct (token_is t LeftBracket) eqn:Eb; cbn [negb].
    + destruct m as [|m]; [apply sim_out|].
      apply token_is_true in Eb. cbn [parse_value]. rewrite Eb.
      destruct (kMaxJsonDepth <=? d)%nat; [apply sim_fail|].
      assert (token_is t LeftBrace = false) as -> by (apply token_is_false; congruence).
      destruct Hval as (Hpr & Hv & Hl).
      eapply sim_wrap; [apply (for_each_element_sim _ _ level_track)|].
      * intros v lf1 a1 L1 Hv1 Htr. by apply level_element_sim.
      * unfold level_track. cbn. rewrite Hv, Hl. repeat split. by intros l [= <-].
      * intros lf' a Htr. split; [by destruct Htr|done].
    + apply skip_sim; [done|]. intros v _ _ Hs. rewrite Eb in Hs. split; [done|].
      cbn. by destruct v.
Qed.

(** ** Members of the message and of the root object *)

(** One field of a record of fields follows one key: writing the field of [k] and
    leaving the others is what [emplace] does to the lookups. *)
Section Tables.
Context {F X : Type} (rel : X -> option JsonValue -> Prop).

Definition tracks (tbl : list (bytes * (F -> X))) (f : F) (obj : JsonObject) : Prop :=
  Forall (fun kg => rel (kg.2 f) (find kg.1 obj)) tbl.

Lemma tracks_set tbl f f' x k v obj :
  keys_sorted obj -> tracks tbl f obj ->
  Forall (fun kg => kg.2 f' = if bytes_eqb kg.1 k then x else kg.2 f) tbl ->
  rel x (Some (default v (find k obj))) -> tracks tbl f' (emplace k v obj).
Proof.
  unfold tracks. rewrite !Forall_forall. intros Hs Hold Hset Hx kg Hin.
  rewrite find_emplace, (Hset kg Hin) by done. destruct (bytes_eqb kg.1 k); auto.
Qed.

Lemma tracks_keep tbl f f' k v obj :
  keys_sorted obj -> tracks tbl f obj ->
  Forall (fun kg => bytes_eqb kg.1 k = false /\ kg.2 f' = kg.2 f) tbl -> tracks tbl f' (emplace k v obj).
Proof.
  unfold tracks. rewrite !Forall_forall. intros Hs Hold Hset kg Hin.
  destruct (Hset kg Hin) as [Hk ->]. rewrite find_emplace, Hk by done. auto.
Qed.

Lemma tracks_at tbl f obj k g :
  tracks tbl f obj -> In (k, g) tbl -> rel (g f) (find k obj).
Proof. unfold tracks. rewrite List.Forall_forall. intros H Hin. exact (H (k, g) Hin). Qed.
End Tables.

Definition msg_scalars : list (bytes * (MsgFields -> Scalar)) :=
  [(lit "market_ticker", f_market_ticker); (lit "market_id", f_market_id);
   (lit "price_dollars", f_price_dollars); (lit "delta_fp", f_delta_fp); (lit "side", f_side);
   (lit "ts", f_ts); (lit "ts_ms", f_ts_ms); (lit "order_id", f_order_id);
   (lit "count_fp", f_count_fp); (lit "action", f_action)].

Definition msg_levels : list (bytes * (MsgFields -> LevelsField)) :=
  [(lit "yes_dollars_fp", f_yes); (lit "no_dollars_fp", f_no)].

Definition msg_rel (f : MsgFields) (obj : JsonObject) : Prop :=
  keys_sorted obj /\ tracks scalar_rel msg_scalars f obj /\ tracks levels_rel msg_levels f obj.

Lemma new_msg_rel : msg_rel new_msg_fields [].
Proof. split; [constructor|]. split; repeat constructor. Qed.

(** The fields of a table after one of them is written, by computation on the keys. *)
Ltac table := repeat constructor.

Lemma scalar_member_sim n m (get : MsgFields -> Scalar) set k t d f obj L :
  In (k, get) msg_scalars ->
  (forall x, Forall (fun kg => kg.2 (set f x) = if bytes_eqb kg.1 k then x else kg.2 f) msg_scalars) ->
  (forall x, Forall (fun kg => bytes_eqb kg.1 k = false /\ kg.2 (set f x) = kg.2 f) msg_levels) ->
  plain t -> msg_rel f obj ->
  sim (fun f' v => msg_rel f' (emplace k v obj)) (scalar_member n f get set t d L) (parse_value m t d L).
Proof.
  intros Hin Hset Hkeep Ht (Hs & Hsc & Hlv). unfold scalar_member.
  pose proof (scalar_sim n m (get f) (find k obj) t d L Ht (tracks_at _ _ _ _ _ _ Hsc Hin)) as Hsim.
  destruct (scalar n (get f) t d L) as [[x L1]|e []|], (parse_value m t d L) as [[v L2]|e'|]; try done.
  destruct Hsim as [<- Hx]. split; [done|]. split; [by apply emplace_sorted|].
  split; [by eapply tracks_set|by eapply tracks_keep].
Qed.

Lemma levels_field_sim n m (get : MsgFields -> LevelsField) set k t d f obj L :
  In (k, get) msg_levels ->
  (forall x, Forall (fun kg => bytes_eqb kg.1 k = false /\ kg.2 (set f x) = kg.2 f) msg_scalars) ->
  (forall x, Forall (fun kg => kg.2 (set f x) = if bytes_eqb kg.1 k then x else kg.2 f) msg_levels) ->
  plain t -> msg_rel f obj ->
  sim (fun f' v => msg_rel f' (emplace k v obj))
    (let* (x, L) := levels_member n (get f) t d L in SRet (set f x, L)) (parse_value m t d L).
Proof.
  intros Hin Hkeep Hset Ht (Hs & Hsc & Hlv).
  pose proof (levels_member_sim n m (get f) (find k obj) t d L Ht (tracks_at _ _ _ _ _ _ Hlv Hin)) as Hsim.
  destruct (levels_member n (get f) t d L) as [[x L1]|e []|], (parse_value m t d L) as [[v L2]|e'|]; try done.
  destruct Hsim as [<- Hx]. split; [done|]. split; [by apply emplace_sorted|].
  split; [by eapply tracks_keep|by eapply tracks_set].
Qed.

Lemma bytes_neqb s t : t <> s -> bytes_eqb s t = false.
Proof. by destruct (bytes_eqb_spec s t). Qed.

(** The fields of a table when none of its keys is written. *)
Ltac table_keep :=
  repeat (apply Forall_cons_2; [split; [by apply bytes_neqb|done]|]); apply Forall_nil_2.

Lemma msg_member_sim n m key t d f obj L :
  plain t -> msg_rel f obj ->
  sim (fun f' v => msg_rel f' (emplace key v obj)) (msg_member n key t d f L) (parse_value m t d L).
Proof.
  intros Ht Hr. unfold msg_member.
  repeat match goal with
  | |- sim _ (if bytes_eqb key ?k then _ else _) _ => destruct (bytes_eqb_spec key k) as [->|]
  end.
  all: try (apply scalar_member_sim; [cbn; tauto|intros x; table|intros x; table|done..]).
  - apply (levels_field_sim _ _ f_yes set_f_yes); [cbn; tauto|intros x; table|intros x; table|done..].
  - apply (levels_field_sim _ _ f_no set_f_no); [cbn; tauto|intros x; table|intros x; table|done..].
  - apply skip_sim; [done|]. intros v _ _ _. destruct Hr as (Hs & Hsc & Hlv).
    split; [by apply emplace_sorted|].
    split; (eapply tracks_keep; [done..|]); table_keep.
Qed.

Definition root_scalars : list (bytes * (Fields -> Scalar)) :=
  [(lit "type", f_type); (lit "sid", f_sid); (lit "seq", f_seq)].

(** What the decoder knows about the ["msg"] member. *)
Definition msg_track (f : Fields) (o : option JsonValue) : Prop :=
  msg_seen f = is_some o /\
  match o with
  | Some (JObject m) => msg_is_object f = true /\ msg_rel (f_msg f) m
  | _ => msg_is_object f = false /\ f_msg f = new_msg_fields
  end.

Definition root_rel (f : Fields) (obj : JsonObject) : Prop :=
  keys_sorted obj /\ tracks scalar_rel root_scalars f obj /\ msg_track f (find (lit "msg") obj).

Lemma root_scalar_sim n m (get : Fields -> Scalar) set k t d f obj L :
  In (k, get) root_scalars ->
  (forall x, Forall (fun kg => kg.2 (set x) = if bytes_eqb kg.1 k then x else kg.2 f) root_scalars) ->
  bytes_eqb (lit "msg") k = false -> (forall x o, msg_track f o -> msg_track (set x) o) ->
  plain t -> root_rel f obj ->
  sim (fun f' v => root_rel f' (emplace k v obj))
    (let* (x, L) := scalar n (get f) t d L in SRet (set x, L)) (parse_value m t d L).
Proof.
  intros Hin Hset Hk Hkeep Ht (Hs & Hsc & Hm).
  pose proof (scalar_sim n m (get f) (find k obj) t d L Ht (tracks_at _ _ _ _ _ _ Hsc Hin)) as Hsim.
  destruct (scalar n (get f) t d L) as [[x L1]|e []|], (parse_value m t d L) as [[v L2]|e'|]; try done.
  destruct Hsim as [<- Hx]. split; [done|]. split; [by apply emplace_sorted|].
  split; [by eapply tracks_set|]. rewrite find_emplace, Hk by done. auto.
Qed.

Lemma root_member_sim n m key t d f obj L :
  plain t -> root_rel f obj ->
  sim (fun f' v => root_rel f' (emplace key v obj)) (root_member n key t d f L) (parse_value m t d L).
Proof.
  intros Ht Hr. unfold root_member.
  destruct (bytes_eqb_spec key (lit "type")) as [->|Hty].
  { apply (root_scalar_sim _ _ f_type (fun x => {| f_type := x |})); [cbn; tauto|intros x; table|done..]. }
  destruct (bytes_eqb_spec key (lit "sid")) as [->|Hsid].
  { apply (root_scalar_sim _ _ f_sid (fun x => {| f_sid := x |})); [cbn; tauto|intros x; table|done..]. }
  destruct (bytes_eqb_spec key (lit "seq")) as [->|Hseq].
  { apply (root_scalar_sim _ _ f_seq (fun x => {| f_seq := x |})); [cbn; tauto|intros x; table|done..]. }
  destruct Hr as (Hs & Hsc & Hm).
  assert (forall f' v, f_type f' = f_type f -> f_sid f' = f_sid f -> f_seq f' = f_seq f ->
    tracks scalar_rel root_scalars f' (emplace key v obj)) as Hkeep.
  { intros f' v H1 H2 H3. eapply tracks_keep; [done..|]. table_keep. }
  pose proof Hm as [Hseen Hcase].
  destruct (bytes_eqb_spec key (lit "msg")) as [->|Hmsg]; cbn [andb].
  2: { apply skip_sim; [done|]. intros v _ _ _. split; [by apply emplace_sorted|]. split; [by apply Hkeep|].
       rewrite find_emplace, (bytes_neqb (lit "msg")) by done. done. }
  assert (forall f' v, f_type f' = f_type f -> f_sid f' = f_sid f -> f_seq f' = f_seq f ->
    msg_track f' (Some (default v (find (lit "msg") obj))) -> root_rel f' (emplace (lit "msg") v obj)) as Hput.
  { intros f' v H1 H2 H3 H4. split; [by apply emplace_sorted|]. split; [by apply Hkeep|].
    rewrite find_emplace, bytes_eqb_refl by done. done. }
  rewrite Hseen. destruct (find (lit "msg") obj) as [v0|]; cbn [is_some negb].
  { apply skip_sim; [done|]. intros v _ _ _. by apply Hput. }
  destruct Hcase as [Hobj Hnew]. destruct (token_is t LeftBrace) eqn:Eb.
  2: { apply skip_sim; [done|]. intros v _ Hno _. apply Hput; [done..|]. split; [done|].
       rewrite Eb in Hno. cbn. by destruct v. }
  destruct m as [|m]; [apply sim_out|]. cbn [parse_value].
  pose proof Eb as Ety. apply token_is_true in Ety. rewrite Ety.
  destruct (kMaxJsonDepth <=? d)%nat; [apply sim_fail|]. rewrite Eb, Hnew.
  eapply sim_bind.
  - apply (for_each_member_sim _ _ msg_rel); [|apply new_msg_rel].
    intros key v f' obj' L' Hv Hf'. by apply msg_member_sim.
  - intros m' obj' L' Hrel. split; [done|]. by apply Hput.
Qed.

(** ** Building the message *)

Lemma tracked_string {F} tbl (f : F) obj k g :
  tracks scalar_rel tbl f obj -> In (k, g) tbl -> value (g f) = get_string obj k.
Proof. intros Ht Hin. by destruct (tracks_at _ _ _ _ _ _ Ht Hin) as [_ ->]. Qed.

Lemma tracked_u64 {F} tbl (f : F) obj k g :
  tracks scalar_rel tbl f obj -> In (k, g) tbl -> field_u64 (g f) = get_uint64 obj k.
Proof.
  intros Ht Hin. unfold field_u64. rewrite (tracked_string tbl f obj k g) by done.
  unfold get_string, get_uint64. by destruct (find k obj) as [v|].
Qed.

Lemma levels_build lf (o : option JsonValue) :
  levels_rel lf o ->
  let l := optional_levels (match o with Some v => as_array v | None => None end) in
  present lf && negb (valid lf) = negb (has_value l) /\ (has_value l = true -> l = Ok (field_levels lf)).
Proof.
  intros [_ H]. unfold field_levels. destruct o as [[| | |a|]|]; cbn.
  4: { destruct H as (_ & -> & -> & Hl). destruct (parse_price_levels a) as [l|]; [|done].
       split; [done|]. intros _. f_equal. symmetry. by apply Hl. }
  all: by destruct H as (-> & -> & _).
Qed.

(** Both accept with the same result, or both reject. *)
Definition agree {A} (x y : expected bytes A) : Prop :=
  match x, y with Ok a, Ok b => a = b | Unexpected _, Unexpected _ => True | _, _ => False end.

(** Membership in a table, leaving the keys as they are written. *)
Ltac in_table := first [left; reflexivity | right; in_table].

(** Rewrites the recorded scalars of a table to lookups in the object. *)
Ltac tracked H :=
  repeat (first
    [ erewrite (tracked_u64 _ _ _ _ f_sid H) by in_table
    | erewrite (tracked_u64 _ _ _ _ f_seq H) by in_table
    | erewrite (tracked_u64 _ _ _ _ f_ts_ms H) by in_table
    | match goal with |- context [value (?g _)] => erewrite (tracked_string _ _ _ _ g H) by in_table end ]).

Lemma build_agree f obj : root_rel f obj -> agree (build f) (parse_kalshi_message (JObject obj)).
Proof.
  intros (_ & Hsc & _ & Hm). unfold build, parse_kalshi_message, get_object. cbn [as_object].
  tracked Hsc. destruct (get_string obj (lit "type")) as [ty|]; [|done].
  destruct (bytes_eqb ty (lit "subscribed")); [done|].
  destruct (find (lit "msg") obj) as [[| | | |m]|]; cbn [as_object].
  1-4,6: by destruct Hm as [-> _].
  destruct Hm as [-> (_ & Hms & Hml)]. cbn [negb]. tracked Hms.
  pose proof (levels_build _ _ (tracks_at _ _ _ _ (lit "yes_dollars_fp") f_yes Hml ltac:(cbn; tauto))) as [Hy Hyv].
  pose proof (levels_build _ _ (tracks_at _ _ _ _ (lit "no_dollars_fp") f_no Hml ltac:(cbn; tauto))) as [Hn Hnv].
  destruct (bytes_eqb ty (lit "orderbook_delta")); [unfold parse_delta; by repeat case_goal|].
  destruct (bytes_eqb ty (lit "orderbook_snapshot")).
  - rewrite Hy, Hn. unfold parse_snapshot, get_array.
    destruct (get_string m (lit "market_ticker")), (get_string m (lit "market_id")); try done.
    destruct (optional_levels _) as [ly|]; [|done].
    destruct (optional_levels _) as [ln|]; [|done].
    by injection (Hyv eq_refl) as ->; injection (Hnv eq_refl) as ->.
  - destruct (bytes_eqb ty (lit "fill")); [|done]. unfold parse_fill.
    destruct (get_string m (lit "action")); [|done]. destruct (parse_action _); [|done]. by repeat case_goal.
Qed.

(** ** Fuel of the decoder *)

(** A walk that returned without exhausting its fuel, at most [r] bytes from the end. *)
Definition fine {A} (r : nat) (D : status (A * JsonLexer)) : Prop :=
  match D with SRet (_, L) => (remaining L <= r)%nat | SFail _ _ => True | SOutOfFuel => False end.

Lemma fine_bind {A B} r r' (D : status (A * JsonLexer)) (k : A -> JsonLexer -> status (B * JsonLexer)) :
  fine r D -> (forall a L, remaining L <= r -> fine r' (k a L))%nat -> fine r' (let* (a, L) := D in k a L).
Proof. intros H Hk. destruct D as [[a L]| |]; cbn in *; auto. Qed.

Lemma fine_next {B} r L (k : Token -> JsonLexer -> status (B * JsonLexer)) :
  (forall t L', remaining L' <= remaining L -> (type t <> TEnd -> remaining L' < remaining L) ->
    fine r (k t L'))%nat -> fine r (let* (t, L) := dnext L in k t L).
Proof.
  intros Hk. unfold dnext. destruct (next L) as [[t|e] L'] eqn:E; [|done].
  destruct (token_is t TString && has_escapes t); [done|]. apply pnext_Ret in E.
  apply Hk; [by eapply pnext_remaining|by eapply pnext_progress].
Qed.

Section LoopFuel.
Context {S : Type} (n depth : nat).

Lemma member_loop_fine f fuel t (s : S) L r :
  (forall key v s L, 2 * remaining L + 3 <= n -> fine (remaining L) (f key v depth s L))%nat ->
  (0 < fuel)%nat -> (type t <> TEnd -> 2 * remaining L + 3 <= n /\ remaining L < fuel)%nat ->
  (remaining L <= r)%nat -> fine r (member_loop fuel depth f t s L).
Proof.
  intros Hf. revert t s L. induction fuel as [|fuel IH]; intros t s L H0 Hn Hr; [lia|]. cbn [member_loop].
  destruct (token_is t TString) eqn:Et; cbn [negb]; [|done].
  apply token_is_true in Et. destruct Hn as [Hn Hfu]; [congruence|].
  apply fine_next. intros colon L1 H1 P1. destruct (token_is colon Colon) eqn:Ec; cbn [negb]; [|done].
  apply token_is_true in Ec. assert (remaining L1 < remaining L)%nat by (apply P1; congruence).
  apply fine_next. intros v L2 H2 _.
  eapply fine_bind; [apply Hf; lia|]. intros s' L3 H3.
  apply fine_next. intros sep L4 H4 _. destruct (token_is sep RightBrace); [cbn; lia|].
  destruct (token_is sep Comma); cbn [negb]; [|done].
  apply fine_next. intros t' L5 H5 _. apply IH; lia.
Qed.

Lemma for_each_member_fine f fuel (s : S) L :
  (forall key v s L, 2 * remaining L + 3 <= n -> fine (remaining L) (f key v depth s L))%nat ->
  (2 * remaining L + 1 <= n)%nat -> (0 < fuel)%nat -> (remaining L <= fuel)%nat ->
  fine (remaining L) (for_each_member fuel depth f s L).
Proof.
  intros Hf Hn H0 Hfu. unfold for_each_member. apply fine_next. intros t L1 H1 P1.
  destruct (token_is t RightBrace); [cbn; lia|]. apply member_loop_fine; [done..| |lia].
  intros He. specialize (P1 He). lia.
Qed.

Lemma element_loop_fine f fuel t (s : S) L r :
  (forall v s L, 2 * remaining L + 3 <= n \/ type v = TEnd -> fine (remaining L) (f v depth s L))%nat ->
  (0 < fuel)%nat -> (type t <> TEnd -> 2 * remaining L + 3 <= n /\ remaining L < fuel)%nat ->
  (forall v s L, type v = TEnd -> match f v depth s L with SRet _ => False | _ => True end) ->
  (remaining L <= r)%nat -> fine r (element_loop fuel depth f t s L).
Proof.
  intros Hf H0 Hn Hend. revert t s L H0 Hn. induction fuel as [|fuel IH]; intros t s L H0 Hn Hr; [lia|].
  cbn [element_loop]. destruct (decide (type t = TEnd)) as [He|He].
  { specialize (Hf t s L (or_intror He)). specialize (Hend t s L He).
    by destruct (f t depth s L) as [[? ?]| |]. }
  destruct (Hn He) as [Hn1 Hf1].
  eapply fine_bind; [apply Hf; by left|]. intros s' L1 H1.
  apply fine_next. intros sep L2 H2 P2. destruct (token_is sep RightBracket); [cbn; lia|].
  destruct (token_is sep Comma) eqn:Ec; cbn [negb]; [|done].
  apply token_is_true in Ec. assert (remaining L2 < remaining L1)%nat by (apply P2; congruence).
  apply fine_next. intros t' L3 H3 _. apply IH; lia.
Qed.

Lemma for_each_element_fine f fuel (s : S) L :
  (forall v s L, 2 * remaining L + 3 <= n \/ type v = TEnd -> fine (remaining L) (f v depth s L))%nat ->
  (forall v s L, type v = TEnd -> match f v depth s L with SRet _ => False | _ => True end) ->
  (2 * remaining L + 1 <= n)%nat -> (0 < fuel)%nat -> (remaining L <= fuel)%nat ->
  fine (remaining L) (for_each_element fuel depth f s L).
Proof.
  intros Hf Hend Hn H0 Hfu. unfold for_each_element. apply fine_next. intros t L1 H1 P1.
  destruct (token_is t RightBracket); [cbn; lia|]. apply element_loop_fine; [done..| |done|lia].
  intros He. specialize (P1 He). lia.
Qed.
End LoopFuel.

Lemma skip_end {A} n t d L (a : A) :
  (0 < n)%nat -> type t = TEnd ->
  (let* L := skip_value n t d L in SRet (a, L)) = dfail "Unexpected end of JSON" L.
Proof. intros H0 He. destruct n; [lia|]. cbn [skip_value]. by rewrite He. Qed.

Lemma skip_value_fine n t d L :
  (2 * remaining L + 3 <= n)%nat -> fine (remaining L) (skipping tt (skip_value n t d L)).
Proof.
  revert t d L. induction n as [|n IH]; intros t d L Hn; [lia|]. cbn [skip_value].
  assert (forall (X : status (unit * JsonLexer)), fine (remaining L) X ->
    fine (remaining L) (skipping tt (let* (_, L) := X in SRet L))) as Hwrap.
  { by intros [[? ?]| |]. }
  destruct (type t); try done; try (cbn; lia).
  all: destruct (kMaxJsonDepth <=? d)%nat; [done|]; destruct (token_is t LeftBrace); apply Hwrap.
  all: try (apply (for_each_member_fine n); [|lia..]; intros key v [] L' H'; by apply IH).
  all: apply (for_each_element_fine n); [| |lia..].
  1,3: intros v [] L' [H'|H']; [by apply IH|]; by rewrite skip_end by (done || lia).
  all: intros v [] L' H'; by rewrite skip_end by (done || lia).
Qed.

(** The field walkers never exhaust their fuel either. *)
Lemma skip_fine {A} (a : A) n t d L :
  (2 * remaining L + 3 <= n)%nat -> fine (remaining L) (let* L := skip_value n t d L in SRet (a, L)).
Proof. intros Hn. pose proof (skip_value_fine n t d L Hn) as H. by destruct (skip_value n t d L). Qed.

Lemma scalar_fine n sc t d L :
  (2 * remaining L + 3 <= n)%nat -> fine (remaining L) (scalar n sc t d L).
Proof.
  intros Hn. unfold scalar. destruct (negb _); [|by apply skip_fine].
  destruct (is_text _); [cbn; lia|by apply skip_fine].
Qed.

Lemma pair_element_fine n t d p L :
  (0 < n)%nat -> (2 * remaining L + 3 <= n)%nat \/ type t = TEnd ->
  fine (remaining L) (pair_element n t d p L).
Proof.
  intros H0 H. unfold pair_element. destruct (is_text (type t)) eqn:Et; [cbn; lia|].
  destruct H as [H|H]; [by apply skip_fine|]. by rewrite skip_end.
Qed.

Lemma level_element_fine n t d lf L :
  (0 < n)%nat -> (2 * remaining L + 3 <= n)%nat \/ type t = TEnd ->
  fine (remaining L) (level_element n t d lf L).
Proof.
  intros H0 H. unfold level_element. destruct (token_is t LeftBracket) eqn:Et; cbn [negb].
  - destruct H as [H|H]; [|apply token_is_true in Et; congruence].
    destruct (kMaxJsonDepth <=? d)%nat; [done|].
    eapply fine_bind; [apply (for_each_element_fine n); [| |lia..]|].
    + intros v p L' H'. by apply pair_element_fine.
    + intros v p L' H'. unfold pair_element. rewrite H'. cbn [is_text]. by rewrite skip_end.
    + intros p L' H'. by destruct (_ && _).
  - destruct H as [H|H]; [by apply skip_fine|]. by rewrite skip_end.
Qed.

Lemma levels_member_fine n lf t d L :
  (2 * remaining L + 3 <= n)%nat -> fine (remaining L) (levels_member n lf t d L).
Proof.
  intros Hn. unfold levels_member. destruct (_ || _); [by apply skip_fine|].
  destruct (kMaxJsonDepth <=? d)%nat; [done|]. apply (for_each_element_fine n); [| |lia..].
  - intros v lf' L' H'. apply level_element_fine; [lia|done].
  - intros v lf' L' H'. unfold level_element, token_is. rewrite H'. cbn. by rewrite skip_end by (done || lia).
Qed.

Lemma msg_member_fine n key t d f L :
  (2 * remaining L + 3 <= n)%nat -> fine (remaining L) (msg_member n key t d f L).
Proof.
  intros Hn. unfold msg_member, scalar_member.
  repeat match goal with |- fine _ (if _ then _ else _) => case_match end; try by apply skip_fine.
  all: eapply fine_bind; [by apply scalar_fine || by apply levels_member_fine|done].
Qed.

Lemma root_member_fine n key t d f L :
  (2 * remaining L + 3 <= n)%nat -> fine (remaining L) (root_member n key t d f L).
Proof.
  intros Hn. unfold root_member.
  repeat match goal with |- fine _ (if _ then _ else _) => case_match end; try done; try by apply skip_fine.
  all: eapply fine_bind; [|done].
  all: try by apply scalar_fine.
  apply (for_each_member_fine n); [|lia..]. intros k v f' L' H'. by apply msg_member_fine.
Qed.

(** ** The equivalence *)

Lemma dnext_fine L : fine (remaining L) (dnext L).
Proof.
  pose proof (fine_next (remaining L) L (fun t L' => SRet (t, L'))) as H.
  destruct (dnext L) as [[t L']| |]; [apply H; by intros|done|apply H; by intros].
Qed.

Lemma decode_fuel b : decode (json_fuel b) (new_lexer b) <> SOutOfFuel.
Proof.
  unfold decode. pose proof (dnext_fine (new_lexer b)) as H1.
  destruct (dnext (new_lexer b)) as [[t L]| |]; [|done..]. cbn [fine] in H1.
  assert (remaining (new_lexer b) = length b) as Hlen by done. rewrite Hlen in H1.
  assert (2 * remaining L + 3 <= json_fuel b)%nat as Hf by (unfold json_fuel; lia).
  destruct (negb _).
  - pose proof (skip_fine tt (json_fuel b) t 0 L Hf) as H2.
    destruct (skip_value _ t 0 L) as [L2| |]; [|done..].
    pose proof (dnext_fine L2) as H3. destruct (dnext L2) as [[fin L3]| |]; [|done..]. by destruct (negb _).
  - pose proof (for_each_member_fine (json_fuel b) 1 (root_member (json_fuel b)) (json_fuel b) new_fields L)
      as H2.
    destruct (for_each_member _ _ _ _ _) as [[f L2]| |]; [|done|].
    + pose proof (dnext_fine L2) as H3. destruct (dnext L2) as [[fin L3]| |]; [|done..]. by destruct (negb _).
    + exfalso. apply H2; [|lia..]. intros. by apply root_member_fine.
Qed.

Lemma new_root_rel : root_rel new_fields [].
Proof. split; [constructor|]. split; repeat constructor. Qed.

(** Both walks check that nothing follows the value. *)
Lemma sim_finish {A V B W} (R : A -> V -> Prop) (R' : B -> W -> Prop) (N : W -> Prop) D P
    (kd : A -> JsonLexer -> status B) (kp : V -> outcome W) :
  sim R D P ->
  (forall a v L, R a v -> match kd a L, kp v with
     | SRet b, Ret w => R' b w | SFail _ false, Fail _ => True | SFail _ false, Ret w => N w
     | _, _ => False end) ->
  match (let* (a, L) := D in let* (fin, L) := dnext L in
         if negb (token_is fin TEnd) then dfail "Trailing characters after JSON value" L else kd a L),
        (let! (v, L) := P in let! (fin, L) := pnext L in
         if negb (token_is fin TEnd) then fail "Trailing characters after JSON value" L else kp v)
  with
  | SOutOfFuel, _ | _, OutOfFuel | SFail _ true, _ | SFail _ false, Fail _ => True
  | SRet b, Ret w => R' b w
  | SFail _ false, Ret w => N w
  | _, _ => False
  end.
Proof.
  intros H Hk. destruct D as [[a L1]|e []|], P as [[v L2]|e'|]; try done.
  all: try (by repeat case_match).
  destruct H as [<- H]. pose proof (sim_next L1) as Hn.
  destruct (dnext L1) as [[t L3]|e []|], (pnext L1) as [[t' L4]|e'|]; try done; try by repeat case_match.
  destruct Hn as [<- [<- _]]. destruct (negb _); [done|]. specialize (Hk a v L3 H).
  by destruct (kd a L3) as [|? []|], (kp v).
Qed.

Definition fields_of (f : Fields) (v : JsonValue) : Prop := exists obj, v = JObject obj /\ root_rel f obj.

(** The decoder's status against the parser's outcome, for the whole input. *)
Lemma decode_sim n m L :
  match decode n L, parse m L with
  | SOutOfFuel, _ | _, OutOfFuel | SFail _ true, _ | SFail _ false, Fail _ => True
  | SRet f, Ret v => fields_of f v
  | SFail _ false, Ret v => as_object v = None
  | _, _ => False
  end.
Proof.
  unfold decode, parse. pose proof (sim_next L) as H1.
  destruct (dnext L) as [[t L1]|e []|], (pnext L) as [[t' L1']|e'|]; try done; try by repeat case_match.
  destruct H1 as [<- [<- Ht]]. destruct (token_is t LeftBrace) eqn:Eb; cbn [negb].
  - apply (sim_finish fields_of fields_of (fun v => as_object v = None)); [|done].
    destruct m as [|m]; [apply sim_out|]. pose proof Eb as Ety. apply token_is_true in Ety.
    cbn [parse_value]. rewrite Ety, Eb. cbn [Nat.leb kMaxJsonDepth].
    eapply sim_wrap; [apply (for_each_member_sim _ _ root_rel); [|apply new_root_rel]|].
    + intros key v f obj L' Hv Hf. by apply root_member_sim.
    + intros f obj Hf. by exists obj.
  - pose proof (skip_sim (fun (_ : unit) v => as_object v = None) tt n m t 0 L1 Ht) as Hs.
    pose proof (sim_finish (fun (_ : unit) v => as_object v = None) fields_of (fun v => as_object v = None)
      (let* L := skip_value n t 0 L1 in SRet (tt, L)) (parse_value m t 0 L1)
      (fun _ L => dfail "Root JSON is not an object" L) Ret) as H.
    destruct (skip_value n t 0 L1) as [L2| |]; apply H; clear H.
    all: try (intros _ v L3 Hv; exact Hv).
    all: apply Hs; intros v _ Ho _; rewrite Eb in Ho; by destruct v.
Qed.

Lemma decoder_agrees b : agree (decode_kalshi_message b) (tree_decode b).
Proof.
  unfold decode_kalshi_message.
  pose proof (decode_sim (json_fuel b) (json_fuel b) (new_lexer b)) as Hs.
  pose proof (decode_fuel b). pose proof (parse_fuel b).
  unfold tree_decode, parse_json.
  destruct (decode _ _) as [f|e []|], (parse _ _) as [v|e'|]; try done.
  - destruct Hs as (obj & -> & Hr). by apply build_agree.
  - by destruct (parse_kalshi_message v).
  - cbn. unfold parse_kalshi_message. by rewrite Hs.
Qed.

(** C1. The streaming decoder is equivalent to the tree decoder: on every payload,
    [decode_kalshi_message] and [parse_json] followed by [parse_kalshi_message]
    either both return the same message or both reject, escaped strings, duplicate
    keys, nesting limits, malformed and trailing input included; and the decoder's
    walk always returns (its fuel is never exhausted). *)
Theorem decoder_equivalent_to_tree b :
  decode (json_fuel b) (new_lexer b) <> SOutOfFuel /\
  ((exists m, decode_kalshi_message b = Ok m /\ tree_decode b = Ok m) \/
   (exists e e', decode_kalshi_message b = Unexpected e /\ tree_decode b = Unexpected e')).
Proof.
  split; [apply decode_fuel|]. pose proof (decoder_agrees b) as H.
  destruct (decode_kalshi_message b), (tree_decode b); cbn in H; subst; try done; eauto.
Qed.
