(* ===== verification/Stream.v ===== *)
(** * Stream: incremental parsing of a byte stream

    The WebSocket and HTTP readers share a pattern: parse what has been received so
    far, and read more if the parser says the data are incomplete.  This file states
    what such a reader needs from its parser as a class, and proves against the
    class that where the network cut the stream into chunks does not matter. *)

From S2P Require Import Prelude.

(** [ParseError] of include/parse_error.hpp. *)
Inductive ParseErrorKind : Type := Incomplete | Malformed.

Record ParseError : Type := { pe_kind : ParseErrorKind; pe_message : bytes }.

Definition incomplete {A} (m : string) : expected ParseError A :=
  Unexpected {| pe_kind := Incomplete; pe_message := lit m |}.
Definition malformed_input {A} (m : bytes) : expected ParseError A :=
  Unexpected {| pe_kind := Malformed; pe_message := m |}.

(** ** The interface of an incremental parser *)

(** What a parser says about the bytes received so far: a result and the bytes it
    took, a request for more, or an error. *)
Inductive progress (R : Type) : Type :=
| Done (r : R) (n : nat)
| More
| Bad (e : bytes).
Arguments Done {R} r n.
Arguments More {R}.
Arguments Bad {R} e.

(** A complete result takes bytes that are there, and more input does not change it. *)
Class StreamParser {R} (step : bytes -> progress R) : Prop := {
  done_bound b r n : step b = Done r n -> (n <= length b)%nat;
  done_stable b rest r n : step b = Done r n -> step (b ++ rest) = Done r n;
}.

(** An error is final: more input does not repair it. *)
Class FinalErrors {R} (step : bytes -> progress R) : Prop := {
  bad_stable b rest e : step b = Bad e -> step (b ++ rest) = Bad e;
}.

(** ** A reader over the interface *)

(** What [receive_data] will return, call by call. *)
Abbreviation incoming := (list (expected bytes bytes)).

Section Reader.
Context {R : Type} (step : bytes -> progress R).

(** Parses the buffer, and reads another chunk while more is needed.  [None]: the
    script of received chunks is used up and the reader still waits. *)
Fixpoint read_one (buffer : bytes) (inc : incoming) : option (expected bytes R * bytes * incoming) :=
  match step buffer with
  | Done r n => Some (Ok r, drop n buffer, inc)
  | Bad e => Some (Unexpected e, buffer, inc)
  | More =>
    match inc with
    | [] => None
    | Ok chunk :: inc => read_one (buffer ++ chunk) inc
    | Unexpected e :: inc => Some (Unexpected e, buffer, inc)
    end
  end.

Context `{!StreamParser step}.

(** Some prefix of the data chunks completes the result; nothing is lost. *)
Lemma read_one_done buffer chunks inc r n :
  step (buffer ++ concat chunks) = Done r n ->
  (forall k e, step (buffer ++ concat (take k chunks)) <> Bad e) ->
  exists buffer' chunks',
    read_one buffer (map Ok chunks ++ inc) = Some (Ok r, buffer', map Ok chunks' ++ inc) /\
    buffer' ++ concat chunks' = drop n (buffer ++ concat chunks).
Proof.
  revert buffer. induction chunks as [|c chunks IH]; intros buffer Hdone Hgood.
  - cbn in Hdone. rewrite app_nil_r in Hdone. exists (drop n buffer), [].
    cbn [concat map app]. rewrite !app_nil_r. split; [|done].
    destruct inc; cbn [read_one]; by rewrite Hdone.
  - cbn [map app read_one]. destruct (step buffer) as [r' n'| |e] eqn:Es.
    + pose proof (done_stable _ (concat (c :: chunks)) _ _ Es) as Hs. rewrite Hs in Hdone.
      injection Hdone as -> ->. exists (drop n buffer), (c :: chunks). split; [done|].
      rewrite drop_app_le by (by eapply done_bound). done.
    + cbn [concat] in Hdone. rewrite app_assoc in Hdone.
      destruct (IH (buffer ++ c) Hdone) as (b' & cs' & Hr & Heq).
      { intros k e. specialize (Hgood (S k) e). cbn [take concat] in Hgood. by rewrite app_assoc in Hgood. }
      exists b', cs'. split; [done|]. cbn [concat]. by rewrite app_assoc.
    + exfalso. apply (Hgood 0%nat e). cbn. by rewrite app_nil_r.
Qed.

(** With final errors a complete result excludes an error on a prefix. *)
Lemma done_no_bad `{!FinalErrors step} buffer chunks r n :
  step (buffer ++ concat chunks) = Done r n ->
  forall k e, step (buffer ++ concat (take k chunks)) <> Bad e.
Proof.
  intros Hdone k e Hbad. apply (bad_stable _ (concat (drop k chunks))) in Hbad.
  rewrite <- app_assoc, <- concat_app, take_drop in Hbad. congruence.
Qed.
End Reader.

(** ** The stream behind the chunks *)

(** The bytes of the chunks before the first failed read, and what comes from that
    read on. *)
Fixpoint stream_of (inc : incoming) : bytes * incoming :=
  match inc with
  | Ok chunk :: inc => let '(data, rest) := stream_of inc in (chunk ++ data, rest)
  | _ => ([], inc)
  end.

(** The same for a reader that holds a buffer. *)
Definition unread (buffer : bytes) (inc : incoming) : bytes * incoming :=
  (buffer ++ fst (stream_of inc), snd (stream_of inc)).

Lemma unread_chunk buffer chunk inc : unread buffer (Ok chunk :: inc) = unread (buffer ++ chunk) inc.
Proof. unfold unread. cbn [stream_of]. destruct (stream_of inc). cbn. by rewrite app_assoc. Qed.

Lemma unread_stop buffer inc :
  (forall chunk inc', inc <> Ok chunk :: inc') -> unread buffer inc = (buffer, inc).
Proof.
  intros H. unfold unread. destruct inc as [|[chunk|e] inc]; cbn; rewrite ?app_nil_r; try done.
  by destruct (H chunk inc).
Qed.

Section Unread.
Context {R : Type} (step : bytes -> progress R) `{!StreamParser step, !FinalErrors step}.

(** A reader of the whole stream, without chunks. *)
Definition read_stream (p : bytes * incoming) : option (expected bytes R * (bytes * incoming)) :=
  let '(data, rest) := p in
  match step data with
  | Done r n => Some (Ok r, (drop n data, rest))
  | Bad e => Some (Unexpected e, (data, rest))
  | More =>
    match rest with
    | Unexpected e :: inc => Some (Unexpected e, unread data inc)
    | _ => None
    end
  end.

(** The reader over a buffer and chunks implements the reader of the stream. *)
Lemma read_one_stream buffer inc :
  (fun '(r, b, i) => (r, unread b i)) <$> read_one step buffer inc = read_stream (unread buffer inc).
Proof.
  revert buffer. induction inc as [|x inc IH]; intros buffer; cbn [read_one].
  - rewrite unread_stop by done. cbn [read_stream].
    destruct (step buffer) as [r n| |e]; cbn; try done; by rewrite unread_stop by done.
  - destruct (step buffer) as [r n| |e] eqn:Es.
    + unfold read_stream, unread at 2. rewrite (done_stable _ _ _ _ Es). cbn. unfold unread.
      by rewrite drop_app_le by (by eapply done_bound).
    + destruct x as [chunk|e]; [by rewrite unread_chunk|].
      rewrite (unread_stop _ (_ :: _)) by done. cbn [read_stream]. by rewrite Es.
    + unfold read_stream, unread at 2. by rewrite (bad_stable _ _ _ Es).
Qed.
End Unread.
