(* ===== verification/Sockets.v ===== *)
(** * Sockets: TCP and TLS connections (src/network/tcp_socket.cpp, tls_socket.cpp)

    The operating system and OpenSSL are outside the program: what a call returns is
    an argument, and every call that matters is logged in order, which is what the
    properties are about: descriptors, blocking mode and the set-up of certificate
    checks. *)

From S2P Require Import Prelude CharConv Stream.

(** ** System calls *)

Inductive SysCall : Type :=
| SysSocket (fd : Z)
| SysSetFlags (fd : Z) (flags : Z)
| SysConnect (fd : Z)
| SysPoll (fd : Z) (timeout_ms : Z)
| SysNoDelay (fd : Z)
| SysReceiveTimeout (fd : Z) (seconds : Z)
| SysMkstemp (path : bytes) (fd : Z)
| SysUnlink (path : bytes)
| SysSleep (seconds : Z)
| SysClose (fd : Z).

(** What the calls for one resolved address return: [socket], [F_GETFL] and the
    first [F_SETFL] of [fcntl], [connect] and its [errno], [poll], [getsockopt] and
    the error it reads, and the last [F_SETFL]. *)
Record Address : Type := {
  ai_socket : Z;
  ai_getfl : Z;
  ai_set_nonblock : Z;
  ai_connect : Z;
  ai_errno : Z;
  ai_poll : Z;
  ai_getsockopt : Z;
  ai_so_error : Z;
  ai_restore : Z;
}.

Definition O_NONBLOCK : Z := 2048.
Definition EINPROGRESS : Z := 115.
Definition kConnectTimeoutMs : Z := 5000.
Definition kReceiveTimeoutSeconds : Z := 30.
Definition kReceiveBufferSize : Z := 4096.

(** ** TCP *)

Record TcpSocket : Type := { _fd : Z }.

Definition new_tcp_socket : TcpSocket := {| _fd := -1 |}.

(** Whether the connection stands, and the calls made. *)
Definition connect_with_timeout (fd : Z) (a : Address) : bool * list SysCall :=
  let flags := ai_getfl a in
  if flags =? -1 then (false, [])
  else
    let start := [SysSetFlags fd (Z.lor flags O_NONBLOCK)] in
    if ai_set_nonblock a =? -1 then (false, start)
    else
      let restore calls := (negb (ai_restore a =? -1), calls ++ [SysSetFlags fd flags]) in
      let calls := start ++ [SysConnect fd] in
      if ai_connect a =? -1 then
        if negb (ai_errno a =? EINPROGRESS) then (false, calls)
        else
          let calls := calls ++ [SysPoll fd kConnectTimeoutMs] in
          if negb (ai_poll a =? 1) then (false, calls)
          else if (ai_getsockopt a =? -1) || negb (ai_so_error a =? 0) then (false, calls)
          else restore calls
      else restore calls.

(** The loop over the resolved addresses. *)
Fixpoint connect_loop (addresses : list Address) (t : TcpSocket) : expected bytes Z * TcpSocket * list SysCall :=
  match addresses with
  | [] => (Unexpected (lit "Failed to connect to any resolved address"), t, [])
  | a :: addresses =>
    let fd := ai_socket a in
    if fd =? -1 then connect_loop addresses {| _fd := fd |}
    else
      let '(ok, calls) := connect_with_timeout fd a in
      let calls := SysSocket fd :: calls in
      if ok then
        (Ok fd, {| _fd := fd |}, calls ++ [SysNoDelay fd; SysReceiveTimeout fd kReceiveTimeoutSeconds])
      else
        let '(r, t, more) := connect_loop addresses {| _fd := -1 |} in
        (r, t, calls ++ SysClose fd :: more)
  end.

(** [TcpSocket::connect]; [resolved] is what [getaddrinfo] gives. *)
Definition tcp_connect (resolved : expected bytes (list Address)) (t : TcpSocket)
    : expected bytes Z * TcpSocket * list SysCall :=
  match resolved with
  | Unexpected e => (Unexpected e, t, [])
  | Ok addresses => connect_loop addresses t
  end.

(** The destructor and the move assignment, which leaves the other socket empty. *)
Definition destroy (t : TcpSocket) : list SysCall := if _fd t =? -1 then [] else [SysClose (_fd t)].

Definition move_assign (t other : TcpSocket) : TcpSocket * TcpSocket * list SysCall :=
  (other, new_tcp_socket, destroy t).

(** The move constructor: the new socket and the one it was made from. *)
Definition move_construct (other : TcpSocket) : TcpSocket * TcpSocket := (other, new_tcp_socket).

(** [send] gives a count, or -1 with [strerror(errno)]. *)
Definition tcp_send_data (sent : Z) (strerror : bytes) : expected bytes Z :=
  if sent =? -1 then Unexpected strerror else Ok sent.

(** [recv] gives the bytes, or -1 with [strerror(errno)]. *)
Definition tcp_receive_data (received : expected bytes bytes) : expected bytes bytes :=
  match received with
  | Unexpected e => Unexpected e
  | Ok [] => Unexpected (lit "Connection closed by server.")
  | Ok data => Ok data
  end.

(** ** Descriptors *)

Fixpoint remove_one (x : Z) (l : list Z) : list Z :=
  match l with [] => [] | y :: l => if x =? y then l else y :: remove_one x l end.

Definition track (fds : list Z) (c : SysCall) : list Z :=
  match c with SysSocket fd | SysMkstemp _ fd => fd :: fds | SysClose fd => remove_one fd fds | _ => fds end.

(** The open descriptors after a sequence of calls. *)
Definition open_after (fds : list Z) (calls : list SysCall) : list Z := fold_left track calls fds.

Definition flags_of (fd : Z) (c : SysCall) : option Z :=
  match c with SysSetFlags fd' f => if fd =? fd' then Some f else None | _ => None end.

(** The flags a descriptor was last set to. *)
Fixpoint last_flags (fd : Z) (calls : list SysCall) : option Z :=
  match calls with
  | [] => None
  | c :: calls => match last_flags fd calls with Some f => Some f | None => flags_of fd c end
  end.

Lemma open_after_app fds l l' : open_after fds (l ++ l') = open_after (open_after fds l) l'.
Proof. apply fold_left_app. Qed.

Lemma open_after_cons fds c l : open_after fds (c :: l) = open_after (track fds c) l.
Proof. done. Qed.

Lemma timeout_calls_open fd a fds : open_after fds (snd (connect_with_timeout fd a)) = fds.
Proof. unfold connect_with_timeout. by repeat case_match. Qed.

Lemma connect_loop_open addresses : forall t fds,
  let '(r, t', calls) := connect_loop addresses t in
  match r with
  | Ok fd => t' = {| _fd := fd |} /\ fd <> -1 /\ open_after fds calls = fd :: fds
  | Unexpected _ => (addresses <> [] -> _fd t' = -1) /\ (addresses = [] -> t' = t) /\ open_after fds calls = fds
  end.
Proof.
  induction addresses as [|a addresses IH]; intros t fds; cbn [connect_loop]; [done|].
  destruct (Z.eqb_spec (ai_socket a) (-1)) as [Hm|Hm].
  - specialize (IH {| _fd := ai_socket a |} fds). destruct (connect_loop addresses _) as [[[fd|e] t'] calls]; [done|].
    destruct IH as (H1 & H2 & H3). split; [|done]. intros _.
    destruct addresses; [rewrite H2 by done; cbn; done|by apply H1].
  - pose proof (timeout_calls_open (ai_socket a) a (ai_socket a :: fds)) as Ho.
    destruct (connect_with_timeout (ai_socket a) a) as [[|] calls]; cbn [snd] in Ho.
    + split; [done|]. split; [done|]. cbn [app]. change (open_after (ai_socket a :: fds) (calls ++ [SysNoDelay (ai_socket a); SysReceiveTimeout (ai_socket a) kReceiveTimeoutSeconds]) = ai_socket a :: fds).
      by rewrite open_after_app, Ho.
    + specialize (IH {| _fd := -1 |} fds). destruct (connect_loop addresses _) as [[r t'] more].
      assert (open_after fds ((SysSocket (ai_socket a) :: calls) ++ SysClose (ai_socket a) :: more) = open_after fds more) as Hc.
      { change (open_after (ai_socket a :: fds) (calls ++ SysClose (ai_socket a) :: more) = open_after fds more).
        rewrite open_after_app, Ho. cbn. by rewrite Z.eqb_refl. }
      destruct r as [fd|e]; [by rewrite Hc|]. destruct IH as (H1 & H2 & H3). rewrite Hc. split; [|done].
      intros _. destruct addresses; [by rewrite H2|by apply H1].
Qed.

Lemma last_flags_app fd l l' :
  last_flags fd (l ++ l') = match last_flags fd l' with Some f => Some f | None => last_flags fd l end.
Proof.
  induction l as [|c l IH]; cbn [app last_flags]; [by destruct (last_flags fd l')|].
  rewrite IH. by destruct (last_flags fd l').
Qed.

Lemma timeout_restores fd a calls :
  connect_with_timeout fd a = (true, calls) -> last_flags fd calls = Some (ai_getfl a).
Proof.
  unfold connect_with_timeout. repeat case_match; intros [= Hr <-]; try done.
  all: cbn; by rewrite !Z.eqb_refl.
Qed.

Lemma connect_loop_flags addresses : forall t fd t' calls,
  connect_loop addresses t = (Ok fd, t', calls) ->
  exists a, In a addresses /\ ai_socket a = fd /\ last_flags fd calls = Some (ai_getfl a) /\ In (SysNoDelay fd) calls.
Proof.
  induction addresses as [|a addresses IH]; intros t fd t' calls H; cbn [connect_loop] in H; [done|].
  destruct (Z.eqb_spec (ai_socket a) (-1)).
  { apply IH in H as (a' & Hin & H). exists a'. split; [by right|done]. }
  destruct (connect_with_timeout (ai_socket a) a) as [[|] cs] eqn:Ec.
  - apply timeout_restores in Ec. injection H as <- <- <-. exists a. split; [by left|]. split; [done|]. split.
    + cbn [app last_flags]. rewrite last_flags_app. cbn. by rewrite Ec.
    + right. apply in_or_app. right. by left.
  - destruct (connect_loop addresses _) as [[r t2] more] eqn:El. injection H as -> -> <-.
    apply IH in El as (a' & Hin & Ha & Hf & Hn). exists a'. split; [by right|]. split; [done|]. split.
    + cbn [last_flags]. rewrite last_flags_app. cbn [last_flags]. by rewrite Hf.
    + right. apply in_or_app. right. by right.
Qed.

(** TCP connections do not leak and come out blocking: whatever the system calls
    return, after [TcpSocket::connect] on a new socket and its destructor the open
    descriptors are those of before; a successful connect owns exactly the descriptor
    it returns, with its original file flags restored and Nagle's algorithm off; a
    failed one owns none. *)
Theorem tcp_connect_no_leak addresses fds r t calls :
  tcp_connect (Ok addresses) new_tcp_socket = (r, t, calls) ->
  open_after fds (calls ++ destroy t) = fds /\
  match r with
  | Ok fd => _fd t = fd /\ open_after fds calls = fd :: fds /\ In (SysNoDelay fd) calls /\
             exists a, In a addresses /\ ai_socket a = fd /\ last_flags fd calls = Some (ai_getfl a)
  | Unexpected _ => _fd t = -1 /\ open_after fds calls = fds
  end.
Proof.
  cbn [tcp_connect]. intros H. pose proof (connect_loop_open addresses new_tcp_socket fds) as Ho. rewrite H in Ho.
  rewrite open_after_app. destruct r as [fd|e].
  - destruct Ho as (-> & Hne & Ho). apply connect_loop_flags in H as (a & Hin & Ha & Hf & Hn). rewrite Ho.
    unfold destroy. cbn [_fd]. destruct (Z.eqb_spec fd (-1)); [done|]. cbn. rewrite Z.eqb_refl. eauto 10.
  - destruct Ho as (H1 & H2 & ->). assert (_fd t = -1) as Ht.
    { destruct addresses; [by rewrite H2|by apply H1]. }
    split; [|done]. unfold destroy. by rewrite Ht.
Qed.

(** Two addresses: the first refuses, the second is reached after a poll. *)
Definition refusing (fd : Z) : Address :=
  {| ai_socket := fd; ai_getfl := 2; ai_set_nonblock := 0; ai_connect := -1; ai_errno := 111; ai_poll := 0;
     ai_getsockopt := 0; ai_so_error := 0; ai_restore := 0 |}.
Definition slow (fd : Z) : Address :=
  {| ai_socket := fd; ai_getfl := 2; ai_set_nonblock := 0; ai_connect := -1; ai_errno := EINPROGRESS; ai_poll := 1;
     ai_getsockopt := 0; ai_so_error := 0; ai_restore := 0 |}.

Lemma tcp_connect_no_leak_witness :
  exists t calls, tcp_connect (Ok [refusing 5; slow 5]) new_tcp_socket = (Ok 5, t, calls) /\
    open_after [1; 2] (calls ++ destroy t) = [1; 2] /\ _fd t = 5.
Proof.
  destruct (tcp_connect (Ok [refusing 5; slow 5]) new_tcp_socket) as [[r t] calls] eqn:E.
  pose proof (tcp_connect_no_leak _ [1; 2] _ _ _ E) as [H1 H2]. assert (r = Ok 5) as -> by (by vm_compute in E; injection E as <- _ _).
  exists t, calls. split; [reflexivity|]. split; [exact H1|]. exact (proj1 H2).
Defined.

(** ** TLS *)

(** The calls of OpenSSL that set up and start a handshake; an object may fail to be
    created. *)
Inductive SslCall : Type :=
| SslCtxNew (ok : bool)
| SslCtxSetDefaultVerifyPaths
| SslCtxSetVerifyPeer
| SslNew (ok : bool)
| SslSetFd (fd : Z)
| SslSetHostName (host : bytes)
| SslSet1Host (host : bytes)
| SslConnect.

(** What OpenSSL returns in [TlsSocket::connect]: whether the context exists, whether
    [SSL_new] gives an object, and the results of [SSL_set_fd] and [SSL_connect] with
    the error text. *)
Record SslResults : Type := {
  ssl_ctx : bool;
  ssl_new : bool;
  ssl_set_fd : Z;
  ssl_connect : Z;
  ssl_error_string : bytes;
}.

(** The constructor of [TlsSocket]. *)
Definition new_tls_socket (s : SslResults) : list SslCall :=
  SslCtxNew (ssl_ctx s) :: (if ssl_ctx s then [SslCtxSetDefaultVerifyPaths; SslCtxSetVerifyPeer] else []).

(** [TlsSocket::connect] on its TCP socket [t]. *)
Definition tls_socket_connect (host : bytes) (resolved : expected bytes (list Address)) (s : SslResults) (t : TcpSocket)
    : expected bytes unit * TcpSocket * list SysCall * list SslCall :=
  if negb (ssl_ctx s) then (Unexpected (lit "Failed to create SSL context"), t, [], [])
  else
    let '(tcp, t, calls) := tcp_connect resolved t in
    match tcp with
    | Unexpected e => (Unexpected e, t, calls, [])
    | Ok fd =>
      if negb (ssl_new s) then (Unexpected (lit "Failed to create SSL object"), t, calls, [SslNew false])
      else if negb (ssl_set_fd s =? 1)
      then (Unexpected (lit "Failed to bind socket fd to SSL object"), t, calls, [SslNew true; SslSetFd fd])
      else
        let ssl := [SslNew true; SslSetFd fd; SslSetHostName host; SslSet1Host host; SslConnect] in
        if negb (ssl_connect s =? 1)
        then (Unexpected (lit "TLS handshake failed: " ++ ssl_error_string s), t, calls, ssl)
        else (Ok tt, t, calls, ssl)
    end.

(** A new TLS socket that is kept if it connects and destroyed if it does not: the
    socket and the system calls. *)
Definition dial (host : bytes) (resolved : expected bytes (list Address)) (s : SslResults)
    : expected bytes TcpSocket * list SysCall :=
  let '(r, t, calls, _) := tls_socket_connect host resolved s new_tcp_socket in
  match r with
  | Ok _ => (Ok t, calls)
  | Unexpected e => (Unexpected e, calls ++ destroy t)
  end.

(** What [SSL_get_error] says after a failed read. *)
Inductive SslError : Type := SslZeroReturn | SslWantRead | SslSyscall (errno : Z) (strerror : bytes) | SslOther (text : bytes).

Definition EINTR : Z := 4.

(** [SSL_read]: the bytes it stored, or the error after a result that is not positive. *)
Definition receive_data (read : expected SslError bytes) : expected bytes bytes :=
  match read with
  | Ok data => Ok data
  | Unexpected SslZeroReturn => Unexpected (lit "connection closed by peer")
  | Unexpected SslWantRead => Unexpected (lit "receive timed out")
  | Unexpected (SslSyscall errno strerror) =>
    if errno =? EINTR then Unexpected (lit "interrupted")
    else if errno =? 0 then Unexpected (lit "connection closed by peer (no TLS close_notify)")
    else Unexpected (lit "SSL_read failed: " ++ strerror)
  | Unexpected (SslOther text) => Unexpected (lit "SSL_read failed: " ++ text)
  end.

(** A handshake is started only on the TCP connection's descriptor, with peer
    verification switched on and after the host name for the certificate check has
    been given. *)
Lemma handshake_after_host_check host resolved s t r t' calls ssl :
  tls_socket_connect host resolved s t = (r, t', calls, ssl) -> In SslConnect ssl ->
  exists fd, tcp_connect resolved t = (Ok fd, t', calls) /\
    new_tls_socket s ++ ssl =
    [SslCtxNew true; SslCtxSetDefaultVerifyPaths; SslCtxSetVerifyPeer;
     SslNew true; SslSetFd fd; SslSetHostName host; SslSet1Host host; SslConnect].
Proof.
  unfold tls_socket_connect, new_tls_socket. destruct (ssl_ctx s); cbn [negb]; [|by intros [= <- <- <- <-]].
  repeat case_match; intros [= <- <- <- <-] Hin; cbn in Hin.
  all: try (exfalso; repeat destruct Hin as [Hin|Hin]; done). all: eauto.
Qed.

(** ** Ownership *)

(** The descriptors a socket owns. *)
Definition owned (t : TcpSocket) : list Z := if _fd t =? -1 then [] else [_fd t].

Lemma tcp_connect_open resolved fds r t calls :
  tcp_connect resolved new_tcp_socket = (r, t, calls) ->
  open_after fds calls = owned t ++ fds /\ (forall fd, r = Ok fd -> t = {| _fd := fd |} /\ fd <> -1).
Proof.
  destruct resolved as [addresses|e]; cbn [tcp_connect]; [|by intros [= <- <- <-]].
  intros H. pose proof (connect_loop_open addresses new_tcp_socket fds) as Ho. rewrite H in Ho. destruct r as [fd|e].
  - destruct Ho as (-> & Hne & ->). split; [|by intros ? [= <-]]. unfold owned. cbn. by destruct (Z.eqb_spec fd (-1)).
  - destruct Ho as (H1 & H2 & ->). split; [|done].
    assert (_fd t = -1) as Ht by (destruct addresses; [by rewrite H2|by apply H1]). unfold owned. by rewrite Ht.
Qed.

Lemma open_after_destroy t fds : open_after (owned t ++ fds) (destroy t) = fds.
Proof. unfold owned, destroy. destruct (_fd t =? -1); [done|]. cbn. by rewrite Z.eqb_refl. Qed.

Lemma tls_connect_open host resolved s fds r t calls ssl :
  tls_socket_connect host resolved s new_tcp_socket = (r, t, calls, ssl) -> open_after fds calls = owned t ++ fds.
Proof.
  unfold tls_socket_connect. destruct (ssl_ctx s); cbn [negb]; [|by intros [= <- <- <- <-]].
  destruct (tcp_connect resolved new_tcp_socket) as [[tcp t'] cs] eqn:E.
  pose proof (proj1 (tcp_connect_open _ fds _ _ _ E)) as Ho.
  destruct tcp as [fd|e]; [|by intros [= <- <- <- <-]].
  destruct (ssl_new s), (ssl_set_fd s =? 1), (ssl_connect s =? 1); cbn [negb]; by intros [= <- <- <- <-].
Qed.

(** Dialling opens exactly the descriptor of the socket it returns. *)
Lemma dial_open host resolved s fds r calls :
  dial host resolved s = (r, calls) ->
  open_after fds calls = match r with Ok t => owned t ++ fds | Unexpected _ => fds end.
Proof.
  unfold dial. destruct (tls_socket_connect host resolved s new_tcp_socket) as [[[tr t] cs] ssl] eqn:E.
  apply (tls_connect_open _ _ _ fds) in E.
  destruct tr; intros [= <- <-]; [done|]. by rewrite open_after_app, E, open_after_destroy.
Qed.

Lemma remove_one_Permutation x l l' : l ≡ₚ l' -> remove_one x l ≡ₚ remove_one x l'.
Proof.
  induction 1 as [|y l l' H IH|y z l|l l1 l' _ IH1 _ IH2]; cbn [remove_one]; [done| | |by rewrite IH1].
  - destruct (Z.eqb_spec x y); [done|by constructor].
  - destruct (Z.eqb_spec x y), (Z.eqb_spec x z); subst; done || by constructor.
Qed.

#[export] Instance open_after_Proper : Proper ((≡ₚ) ==> eq ==> (≡ₚ)) open_after.
Proof.
  intros l l' Hl calls _ <-. revert l l' Hl. induction calls as [|c calls IH]; intros l l' Hl; [done|].
  apply (IH (track l c) (track l' c)).
  destruct c; cbn [track]; first [done | by constructor | by apply remove_one_Permutation].
Qed.
