(* ===== verification/Tls.v ===== *)
(** * Tls: the objects a TLS socket owns (include/tls_socket.hpp)

    [TlsSocket] holds a TCP socket, an [SSL_CTX] and an [SSL], the last two in
    [std::unique_ptr]s with deleters.  This file models the members and their
    lifetimes over the operations of Sockets, with the calls to the system and to
    OpenSSL in one trace, and an account of the resources such a trace holds that
    rejects a double release and a TLS shutdown on a descriptor that is not open. *)

From S2P Require Import Prelude CharConv Stream Sockets.

(** ** Members and deleters *)

Inductive TlsCall : Type :=
| OnSys (c : SysCall)
| OnSsl (c : SslCall)
| SslShutdown (fd : option Z)   (* the descriptor the object is bound to *)
| SslFree
| SslCtxFree.

(** [_tcp_socket], [_ctx] and [_ssl]: whether there is a context, and the [SSL] object
    with the descriptor it was bound to. *)
Record TlsMembers : Type := { m_tcp_socket : TcpSocket; m_ctx : bool; m_ssl : option (option Z) }.

(** [SslDeleter] and [SslCtxDeleter], which a [unique_ptr] runs if it holds an object. *)
Definition delete_ssl (ssl : option (option Z)) : list TlsCall :=
  match ssl with Some fd => [SslShutdown fd; SslFree] | None => [] end.
Definition delete_ctx (ctx : bool) : list TlsCall := if ctx then [SslCtxFree] else [].

(** ** Operations *)

(** A socket with nothing in it: a moved-from one. *)
Definition empty_members : TlsMembers := {| m_tcp_socket := new_tcp_socket; m_ctx := false; m_ssl := None |}.

Definition construct (s : SslResults) : TlsMembers * list TlsCall :=
  ({| m_tcp_socket := new_tcp_socket; m_ctx := ssl_ctx s; m_ssl := None |}, map OnSsl (new_tls_socket s)).

(** [_ssl.reset(SSL_new(...))] deletes the object held before after the new one is
    made. *)
Definition reset_ssl (old : option (option Z)) (calls : list SslCall) : list TlsCall :=
  match calls with
  | SslNew ok :: calls => OnSsl (SslNew ok) :: delete_ssl old ++ map OnSsl calls
  | calls => map OnSsl calls
  end.

(** What [_ssl] holds after the calls of [connect]. *)
Definition ssl_after (s : SslResults) (old : option (option Z)) (calls : list SslCall) : option (option Z) :=
  match calls with
  | SslNew ok :: SslSetFd fd :: _ => Some (if ssl_set_fd s =? 1 then Some fd else None)
  | SslNew ok :: _ => None
  | _ => old
  end.

(** [TlsSocket::connect] on the members. *)
Definition members_connect (host : bytes) (resolved : expected bytes (list Address)) (s : SslResults) (m : TlsMembers)
    : expected bytes unit * TlsMembers * list TlsCall :=
  let '(r, t, sys, ssl) := tls_socket_connect host resolved s (m_tcp_socket m) in
  (r, {| m_tcp_socket := t; m_ctx := m_ctx m; m_ssl := ssl_after s (m_ssl m) ssl |}, map OnSys sys ++ reset_ssl (m_ssl m) ssl).

(** The implicit destructor: the members in reverse order of declaration. *)
Definition members_destroy (m : TlsMembers) : list TlsCall :=
  delete_ssl (m_ssl m) ++ delete_ctx (m_ctx m) ++ map OnSys (destroy (m_tcp_socket m)).

(** The implicit move constructor: the new socket and the one it was made from. *)
Definition members_move (m : TlsMembers) : TlsMembers * TlsMembers := (m, empty_members).

Definition fd (m : TlsMembers) : Z := _fd (m_tcp_socket m).

(** ** An account of the resources *)

(** Contexts, SSL objects and open descriptors. *)
Record Held : Type := { h_ctxs : nat; h_ssls : nat; h_fds : list Z }.

(** One call; [None]: it releases what is not held or shuts a closed connection down. *)
Definition account (h : Held) (c : TlsCall) : option Held :=
  match c with
  | OnSys (SysClose fd) =>
    if bool_decide (fd ∈ h_fds h) then Some {| h_ctxs := h_ctxs h; h_ssls := h_ssls h; h_fds := remove_one fd (h_fds h) |} else None
  | OnSys c => Some {| h_ctxs := h_ctxs h; h_ssls := h_ssls h; h_fds := track (h_fds h) c |}
  | OnSsl (SslCtxNew true) => Some {| h_ctxs := S (h_ctxs h); h_ssls := h_ssls h; h_fds := h_fds h |}
  | OnSsl (SslNew true) => Some {| h_ctxs := h_ctxs h; h_ssls := S (h_ssls h); h_fds := h_fds h |}
  | OnSsl _ => Some h
  | SslShutdown (Some fd) => if bool_decide (fd ∈ h_fds h) then Some h else None
  | SslShutdown None => Some h
  | SslFree => match h_ssls h with O => None | S n => Some {| h_ctxs := h_ctxs h; h_ssls := n; h_fds := h_fds h |} end
  | SslCtxFree => match h_ctxs h with O => None | S n => Some {| h_ctxs := n; h_ssls := h_ssls h; h_fds := h_fds h |} end
  end.

Fixpoint account_all (h : Held) (cs : list TlsCall) : option Held :=
  match cs with
  | [] => Some h
  | c :: cs => match account h c with Some h => account_all h cs | None => None end
  end.

Lemma account_all_app h cs1 cs2 :
  account_all h (cs1 ++ cs2) = match account_all h cs1 with Some h => account_all h cs2 | None => None end.
Proof. revert h. induction cs1 as [|c cs1 IH]; intros h; cbn; [done|]. destruct (account h c); [apply IH|done]. Qed.

(** The resources of a socket on top of [h]. *)
Definition hold (m : TlsMembers) (h : Held) : Held :=
  {| h_ctxs := (if m_ctx m then 1 else 0) + h_ctxs h; h_ssls := (match m_ssl m with Some _ => 1 | None => 0 end) + h_ssls h;
     h_fds := owned (m_tcp_socket m) ++ h_fds h |}.

(** An SSL object is bound to the socket's own descriptor. *)
Definition bound_ok (m : TlsMembers) : Prop := forall fd, m_ssl m = Some (Some fd) -> fd ∈ owned (m_tcp_socket m).

(** Calls that neither open nor close a descriptor. *)
Definition neutral (c : SysCall) : Prop := match c with SysSocket _ | SysMkstemp _ _ | SysClose _ => False | _ => True end.

Lemma account_neutral cs h : Forall neutral cs -> account_all h (map OnSys cs) = Some h.
Proof. induction 1 as [|c cs Hc _ IH]; cbn; [done|]. by destruct c, h. Qed.

Lemma timeout_calls_neutral fd a : Forall neutral (snd (connect_with_timeout fd a)).
Proof. unfold connect_with_timeout. repeat case_match; repeat constructor. Qed.

(** [connect] closes only descriptors that it opened. *)
Lemma connect_loop_account addresses : forall t h,
  let '(_, _, calls) := connect_loop addresses t in
  account_all h (map OnSys calls) = Some {| h_ctxs := h_ctxs h; h_ssls := h_ssls h; h_fds := open_after (h_fds h) calls |}.
Proof.
  induction addresses as [|a addresses IH]; intros t h; cbn [connect_loop]; [by destruct h|].
  destruct (ai_socket a =? -1); [apply IH|].
  pose proof (timeout_calls_neutral (ai_socket a) a) as Hn.
  pose proof (timeout_calls_open (ai_socket a) a (ai_socket a :: h_fds h)) as Ho.
  destruct (connect_with_timeout (ai_socket a) a) as [[|] calls]; cbn [snd] in Hn, Ho.
  - cbn [map app account_all account track]. rewrite account_neutral.
    + cbn [h_fds h_ctxs h_ssls]. by rewrite open_after_cons, open_after_app; cbn [track]; rewrite Ho.
    + apply Forall_app. split; [done|]. by repeat constructor.
  - specialize (IH {| _fd := -1 |} h). destruct (connect_loop addresses _) as [[r t'] more].
    cbn [map app account_all account track]. rewrite map_app, account_all_app, account_neutral by done.
    cbn [map account_all account h_fds h_ctxs h_ssls remove_one]. rewrite bool_decide_true by (by left).
    rewrite Z.eqb_refl. destruct h as [c s l]. cbn [h_fds h_ctxs h_ssls] in *. rewrite IH.
    rewrite open_after_cons, open_after_app. cbn [track]. rewrite Ho, open_after_cons. cbn. by rewrite Z.eqb_refl.
Qed.

Lemma tcp_connect_account resolved h r t calls :
  tcp_connect resolved new_tcp_socket = (r, t, calls) ->
  account_all h (map OnSys calls) = Some {| h_ctxs := h_ctxs h; h_ssls := h_ssls h; h_fds := owned t ++ h_fds h |}.
Proof.
  intros H. rewrite <- (proj1 (tcp_connect_open _ (h_fds h) _ _ _ H)).
  destruct resolved as [addresses|e]; cbn [tcp_connect] in H; [|injection H as _ _ <-; by destruct h].
  pose proof (connect_loop_account addresses new_tcp_socket h) as Ha. by rewrite H in Ha.
Qed.

Lemma construct_account s h : account_all h (snd (construct s)) = Some (hold (fst (construct s)) h).
Proof. unfold construct, new_tls_socket, hold. destruct h. by destruct (ssl_ctx s). Qed.

(** The first [connect] of a socket. *)
Lemma connect_account host resolved s h r m calls :
  members_connect host resolved s (fst (construct s)) = (r, m, calls) ->
  account_all (hold (fst (construct s)) h) calls = Some (hold m h) /\ bound_ok m /\
  (forall u, r = Ok u -> m_ctx m = true /\ m_ssl m = Some (Some (fd m)) /\ fd m <> -1).
Proof.
  unfold members_connect, tls_socket_connect. cbn [construct fst m_tcp_socket m_ctx m_ssl].
  destruct (ssl_ctx s) eqn:Ec; cbn [negb]; [|by intros [= <- <- <-]].
  destruct (tcp_connect resolved new_tcp_socket) as [[[f|e] t] cs] eqn:Et.
  2: { intros [= <- <- <-]. rewrite app_nil_r. split; [|done]. by rewrite (tcp_connect_account _ _ _ _ _ Et). }
  pose proof (fun h => tcp_connect_account _ h _ _ _ Et) as Ha.
  destruct (proj2 (tcp_connect_open _ [] _ _ _ Et) f eq_refl) as [-> Hf].
  assert (owned {| _fd := f |} = [f]) as Ho by (unfold owned; cbn; by destruct (Z.eqb_spec f (-1))).
  destruct (ssl_new s), (ssl_set_fd s =? 1) eqn:Es, (ssl_connect s =? 1); cbn [negb]; intros [= <- <- <-];
    rewrite account_all_app, Ha; (split; [done|]); (split; [intros x Hx; cbn in Hx; rewrite ?Es in Hx; simplify_eq; cbn; rewrite Ho; by left|]).
  all: intros u Hu; simplify_eq; cbn; by rewrite ?Es.
Qed.

(** The destructor releases what the socket holds. *)
Lemma destroy_account m h : bound_ok m -> account_all (hold m h) (members_destroy m) = Some h.
Proof.
  intros Hb. unfold members_destroy. rewrite account_all_app.
  assert (account_all (hold m h) (delete_ssl (m_ssl m)) = Some (hold {| m_tcp_socket := m_tcp_socket m; m_ctx := m_ctx m; m_ssl := None |} h)) as ->.
  { unfold hold. destruct m as [t ctx [[f|]|]]; cbn; [|done..].
    by rewrite bool_decide_true by (apply elem_of_app; left; by apply Hb). }
  rewrite account_all_app.
  assert (account_all (hold {| m_tcp_socket := m_tcp_socket m; m_ctx := m_ctx m; m_ssl := None |} h) (delete_ctx (m_ctx m))
          = Some (hold {| m_tcp_socket := m_tcp_socket m; m_ctx := false; m_ssl := None |} h)) as -> by (by destruct (m_ctx m)).
  unfold hold, destroy, owned. destruct m as [[f] ctx ssl], h as [c n l]. cbn. destruct (f =? -1); cbn; [done|].
  by rewrite bool_decide_true, Z.eqb_refl by (by left).
Qed.

(** ** Properties *)

(** C30. A TLS socket releases everything exactly once: whatever the system and OpenSSL
    answer, over its life (constructor, [connect], a move as into the HTTP client's
    [std::optional], destructors of both objects) every context and every SSL object
    that was created is freed once and never twice, every descriptor opened is closed
    once, and [SSL_shutdown] is called only while the connection's descriptor is still
    open; a connected socket holds one context, one SSL object and one descriptor, to
    which the SSL object is bound. *)
Theorem tls_socket_releases_everything host resolved s h r m calls moved left :
  members_connect host resolved s (fst (construct s)) = (r, m, calls) -> members_move m = (moved, left) ->
  account_all h (snd (construct s) ++ calls ++ members_destroy left ++ members_destroy moved) = Some h /\
  (forall u, r = Ok u ->
     account_all h (snd (construct s) ++ calls) = Some {| h_ctxs := S (h_ctxs h); h_ssls := S (h_ssls h); h_fds := fd m :: h_fds h |} /\
     m_ssl m = Some (Some (fd m))).
Proof.
  intros H [= <- <-]. apply (connect_account _ _ _ h) in H as (Ha & Hb & Hok).
  rewrite !account_all_app, construct_account, account_all_app, Ha. split; [by apply destroy_account|].
  intros u Hr. destruct (Hok u Hr) as (Hc & Hs & Hf). split; [|done]. unfold hold. rewrite Hc, Hs.
  unfold owned, fd in *. by destruct (Z.eqb_spec (_fd (m_tcp_socket m)) (-1)).
Qed.

(** The first address refuses, the second is reached after a poll. *)
Lemma tls_socket_releases_everything_witness :
  let s := {| ssl_ctx := true; ssl_new := true; ssl_set_fd := 1; ssl_connect := 1; ssl_error_string := [] |} in
  let h := {| h_ctxs := 0; h_ssls := 0; h_fds := [1; 2] |} in
  exists m calls, members_connect (lit "h") (Ok [refusing 5; slow 6]) s (fst (construct s)) = (Ok tt, m, calls) /\
    account_all h (snd (construct s) ++ calls ++ members_destroy empty_members ++ members_destroy m) = Some h /\ fd m = 6.
Proof.
  intros s h. destruct (members_connect (lit "h") (Ok [refusing 5; slow 6]) s (fst (construct s))) as [[r m] calls] eqn:E.
  pose proof (tls_socket_releases_everything _ _ _ h _ _ _ m empty_members E eq_refl) as [H _].
  exists m, calls. assert (r = Ok tt /\ fd m = 6) as [-> Hm] by (by vm_compute in E; injection E as <- <- _).
  split; [reflexivity|]. split; [exact H|exact Hm].
Defined.

(** The system calls are those of Sockets, so the descriptors of the clients are
    those of this account. *)
Definition sys_of (c : TlsCall) : option SysCall := match c with OnSys c => Some c | _ => None end.

Lemma sys_of_ssl cs : omap sys_of (map OnSsl cs) = [].
Proof. by induction cs. Qed.

Lemma sys_of_sys cs : omap sys_of (map OnSys cs) = cs.
Proof. induction cs as [|c cs IH]; cbn; [done|]. by rewrite IH. Qed.

Lemma members_system_calls host resolved s m :
  (let '(r, m', calls) := members_connect host resolved s m in (r, m_tcp_socket m', omap sys_of calls)) =
  (let '(r, t, sys, _) := tls_socket_connect host resolved s (m_tcp_socket m) in (r, t, sys)) /\
  omap sys_of (members_destroy m) = destroy (m_tcp_socket m).
Proof.
  split.
  - unfold members_connect. destruct (tls_socket_connect host resolved s _) as [[[r t] sys] ssl]. cbn [m_tcp_socket].
    rewrite omap_app, sys_of_sys. assert (omap sys_of (reset_ssl (m_ssl m) ssl) = []) as ->; [|by rewrite app_nil_r].
    destruct ssl as [|[] ssl]; cbn [reset_ssl]; try apply sys_of_ssl. cbn [omap list_omap sys_of].
    change (omap sys_of (delete_ssl (m_ssl m) ++ map OnSsl ssl) = []). rewrite omap_app, sys_of_ssl. by destruct (m_ssl m).
  - unfold members_destroy. rewrite !omap_app, sys_of_sys. by destruct (m_ssl m), (m_ctx m).
Qed.

(** A second [connect] on the same object frees the first SSL object but leaves the
    first descriptor open for good; the clients make a new socket for each attempt. *)
Example second_connect_leaks :
  let s := {| ssl_ctx := true; ssl_new := true; ssl_set_fd := 1; ssl_connect := 1; ssl_error_string := [] |} in
  let '(m0, c0) := construct s in
  let '(_, m1, c1) := members_connect (lit "h") (Ok [slow 5]) s m0 in
  let '(_, m2, c2) := members_connect (lit "h") (Ok [slow 6]) s m1 in
  account_all {| h_ctxs := 0; h_ssls := 0; h_fds := [] |} (c0 ++ c1 ++ c2 ++ members_destroy m2) =
  Some {| h_ctxs := 0; h_ssls := 0; h_fds := [5] |}.
Proof. by vm_compute. Qed.
