(* ===== verification/Frame.v ===== *)
(** * Frame: WebSocket frames (src/protocol/frame_parser.cpp, frame_builder.cpp)

    [frame_parser] reads one frame from the front of the receive buffer and
    [frame_builder] writes a masked frame.  Both convert lengths to network order
    ([std::bit_cast] and, on a little-endian machine, [std::byteswap]), which is the
    big-endian reading [be_value] and writing [be_bytes] here. *)

From S2P Require Import Prelude CharConv Stream.

(** ** Data *)

(** [WebSocketFrame::Opcode] *)
Inductive Opcode : Type := Continuation | Text | Binary | Close | Ping | Pong.

#[export] Instance Opcode_eq_dec : EqDecision Opcode.
Proof. solve_decision. Defined.

(** [std::to_underlying] *)
Definition opcode_value (op : Opcode) : Z :=
  match op with Continuation => 0 | Text => 1 | Binary => 2 | Close => 8 | Ping => 9 | Pong => 10 end.

(** The check against [valid_opcodes], then [static_cast<Opcode>]. *)
Definition opcode_of (raw : Z) : option Opcode :=
  if raw =? 0 then Some Continuation else if raw =? 1 then Some Text else if raw =? 2 then Some Binary
  else if raw =? 8 then Some Close else if raw =? 9 then Some Ping else if raw =? 10 then Some Pong
  else None.

Record WebSocketFrame : Type := {
  fin_bit : bool;
  op_code : Opcode;
  mask_key : option bytes;
  payload : bytes;
}.

Record ParseResult : Type := { frame : WebSocketFrame; bytes_consumed : nat }.

Definition kMaxFramePayload : Z := 16 * 1024 * 1024.

(** ** Helpers *)

Definition be_value (s : bytes) : Z := fold_left (fun v c => v * 256 + bz c) s 0.

Fixpoint be_bytes (w : nat) (n : Z) : bytes :=
  match w with O => [] | S w => be_bytes w (n / 256) ++ [zb (n mod 256)] end.

Definition byte_xor (a b : byte) : byte := zb (Z.lxor (bz a) (bz b)).

(** The loops over [i], with [mask_key[i % 4]]. *)
Definition xor_mask (key : bytes) (p : bytes) : bytes :=
  imap (fun i c => byte_xor c (nth (i mod 4) key x00)) p.

Definition subspan (s : bytes) (pos len : nat) : bytes := take len (drop pos s).

(** ** The parser *)

(** The [switch (payload_len)]: the payload length and the position after the
    length field. *)
Definition payload_length (b : bytes) (payload_len : Z) : expected ParseError (Z * nat) :=
  let pos := 2%nat in
  if payload_len =? 126 then
    if (length b <? pos + 2)%nat
    then incomplete "Frame header incomplete: missing 2-byte extended length field"
    else Ok (be_value (subspan b pos 2), (pos + 2)%nat)
  else if payload_len =? 127 then
    if (length b <? pos + 8)%nat
    then incomplete "Frame header incomplete: missing 8-byte extended length field"
    else
      let len := be_value (subspan b pos 8) in
      if negb (Z.shiftr len 63 =? 0)
      then malformed_input (lit "Malformed frame: 64-bit length has MSB set")
      else Ok (len, (pos + 8)%nat)
  else Ok (payload_len, pos).

(** The block guarded by [if (mask_bit)]. *)
Definition masking_key (b : bytes) (mask_bit : bool) (pos : nat) : expected ParseError (option bytes * nat) :=
  if mask_bit then
    if (length b <? pos + 4)%nat
    then incomplete "Frame header incomplete: missing 4-byte masking key"
    else Ok (Some (subspan b pos 4), (pos + 4)%nat)
  else Ok (None, pos).

Definition unmask (key : option bytes) (p : bytes) : bytes :=
  match key with Some k => xor_mask k p | None => p end.

(** What follows the checks of the first byte. *)
Definition parse_body (b : bytes) (fin : bool) (raw_opcode : Z) (opcode : Opcode) (byte1 : byte)
    : expected ParseError ParseResult :=
  let mask_bit := negb (Z.land (bz byte1) 128 =? 0) in
  let payload_len := Z.land (bz byte1) 127 in
  let? (actual_payload_len, pos) := payload_length b payload_len in
  if (8 <=? raw_opcode) && (negb fin || (125 <? actual_payload_len))
  then malformed_input (lit "Malformed frame: invalid control frame")
  else if kMaxFramePayload <? actual_payload_len
  then malformed_input (lit "Frame payload of " ++ fmt_uint actual_payload_len ++ lit " bytes exceeds limit")
  else
    let? (key, pos) := masking_key b mask_bit pos in
    if Z.of_nat (length b - pos) <? actual_payload_len
    then incomplete "Frame payload incomplete: received fewer bytes than indicated by length field"
    else
      Ok {| frame := {| fin_bit := fin; op_code := opcode; mask_key := key;
                        payload := unmask key (subspan b pos (Z.to_nat actual_payload_len)) |};
            bytes_consumed := pos + Z.to_nat actual_payload_len |}.

Definition frame_parser (b : bytes) : expected ParseError ParseResult :=
  match b with
  | [] => incomplete "No bytes available to parse"
  | [_] => incomplete "Frame header incomplete: only 1 byte received"
  | byte0 :: byte1 :: _ =>
    let fin := negb (Z.land (bz byte0) 128 =? 0) in
    let raw_opcode := Z.land (bz byte0) 15 in
    match opcode_of raw_opcode with
    | None => malformed_input (lit "Malformed frame: unrecognized opcode 0x0" ++ [hex_digit raw_opcode])
    | Some opcode =>
      if negb (Z.land (bz byte0) 112 =? 0)
      then malformed_input (lit "Malformed frame: reserved bits set")
      else parse_body b fin raw_opcode opcode byte1
    end
  end.

(** ** The builder *)

(** The header's length field: the seven bits with the mask bit set, and the
    extended length. *)
Definition length_field (n : Z) : bytes :=
  if n <=? 125 then [zb (Z.lor 128 n)]
  else if n <=? 65535 then zb (Z.lor 128 126) :: be_bytes 2 n
  else zb (Z.lor 128 127) :: be_bytes 8 n.

(** [rand] is what [RAND_bytes] produced: four bytes, or a failure. *)
Definition frame_builder (rand : option bytes) (f : WebSocketFrame) : expected bytes bytes :=
  match rand with
  | None => Unexpected (lit "Failed to generate masking key")
  | Some key =>
    Ok (zb (Z.lor 128 (opcode_value (op_code f))) :: length_field (Z.of_nat (length (payload f)))
        ++ key ++ xor_mask key (payload f))
  end.

Definition is_malformed {A} (r : expected ParseError A) : bool :=
  match r with Unexpected e => match pe_kind e with Malformed => true | Incomplete => false end | Ok _ => false end.

Example frame_rejects_protocol_violations :
  map (fun l => is_malformed (frame_parser (map zb l)))
    [[131; 0]; [193; 0]; [9; 0]; [137; 126; 0; 126]; [130; 127; 128; 0; 0; 0; 0; 0; 0; 0];
     [130; 127; 0; 0; 0; 1; 0; 0; 0; 0]] = replicate 6 true.
Proof. by vm_compute. Qed.

(** ** The wire format (RFC 6455, section 5.2) *)

(** The 7-bit length and the extended length that may announce [n] bytes; the
    parser does not insist on the shortest form. *)
Inductive length_form (n : Z) : Z -> bytes -> Prop :=
| form7 : 0 <= n <= 125 -> length_form n n []
| form16 ext : length ext = 2%nat -> be_value ext = n -> length_form n 126 ext
| form64 ext : length ext = 8%nat -> be_value ext = n -> length_form n 127 ext.

Definition is_control (op : Opcode) : bool := match op with Close | Ping | Pong => true | _ => false end.

(** The limits on a frame: a bounded payload, and short unfragmented control frames. *)
Definition frame_ok (f : WebSocketFrame) : Prop :=
  Z.of_nat (length (payload f)) <= kMaxFramePayload /\
  (is_control (op_code f) = true -> fin_bit f = true /\ (length (payload f) <= 125)%nat) /\
  match mask_key f with Some k => length k = 4%nat | None => True end.

Definition bit7 (b : bool) : Z := if b then 128 else 0.

(** [e] is the encoding of [f]. *)
Definition encodes (f : WebSocketFrame) (e : bytes) : Prop :=
  exists l7 ext,
    length_form (Z.of_nat (length (payload f))) l7 ext /\
    e = zb (bit7 (fin_bit f) + opcode_value (op_code f)) ::
        zb (bit7 (bool_decide (is_Some (mask_key f))) + l7) :: ext ++
        default [] (mask_key f) ++ unmask (mask_key f) (payload f).

(** ** Bits *)

Lemma byte_xor_bound a b : 0 <= Z.lxor (bz a) (bz b) < 256.
Proof.
  pose proof (bz_range a). pose proof (bz_range b).
  assert (0 <= Z.lxor (bz a) (bz b)) as Hge by (apply Z.lxor_nonneg; lia).
  split; [done|]. destruct (decide (Z.lxor (bz a) (bz b) = 0)) as [->|Hne]; [lia|].
  apply (Z.log2_lt_pow2 _ 8); [lia|].
  assert (forall x, 0 <= x < 256 -> Z.log2 x < 8) as Hlog.
  { intros x Hx. destruct (decide (x = 0)) as [->|]; [done|]. apply Z.log2_lt_pow2; lia. }
  eapply Z.le_lt_trans; [apply Z.log2_lxor; lia|]. apply Z.max_lub_lt; auto.
Qed.

Lemma byte_xor_involutive a k : byte_xor (byte_xor a k) k = a.
Proof.
  unfold byte_xor. rewrite bz_zb_small by apply byte_xor_bound.
  by rewrite Z.lxor_assoc, Z.lxor_nilpotent, Z.lxor_0_r, zb_bz.
Qed.

Lemma xor_mask_involutive key p : xor_mask key (xor_mask key p) = p.
Proof.
  apply list_eq. intros i. unfold xor_mask. rewrite !list_lookup_imap.
  destruct (p !! i) as [c|]; cbn; [|done]. by rewrite byte_xor_involutive.
Qed.

Lemma unmask_involutive key p : unmask key (unmask key p) = p.
Proof. destruct key; [apply xor_mask_involutive|done]. Qed.

Lemma length_unmask key p : length (unmask key p) = length p.
Proof. destruct key; [apply length_imap|done]. Qed.

Lemma opcode_of_value op : opcode_of (opcode_value op) = Some op.
Proof. by destruct op. Qed.

(** The first byte and its three fields. *)
Lemma byte0_fields fin op :
  let b := zb (bit7 fin + opcode_value op) in
  Z.land (bz b) 15 = opcode_value op /\ Z.land (bz b) 112 = 0 /\ negb (Z.land (bz b) 128 =? 0) = fin.
Proof. by destruct fin, op. Qed.

Lemma byte0_inv b op :
  opcode_of (Z.land (bz b) 15) = Some op -> Z.land (bz b) 112 = 0 ->
  b = zb (bit7 (negb (Z.land (bz b) 128 =? 0)) + opcode_value op) /\ Z.land (bz b) 15 = opcode_value op.
Proof.
  pose proof (byte_cases (fun b => match opcode_of (Z.land (bz b) 15) with
    | Some op => negb (Z.land (bz b) 112 =? 0) ||
        (Byte.eqb b (zb (bit7 (negb (Z.land (bz b) 128 =? 0)) + opcode_value op)) &&
         (Z.land (bz b) 15 =? opcode_value op))
    | None => true end) ltac:(by vm_compute) b) as H.
  intros Hop Hrsv. cbv beta in H. rewrite Hop, Hrsv in H. cbn [negb orb Z.eqb] in H.
  apply andb_true_iff in H as [H1 H2]. split; [|by apply Z.eqb_eq]. by apply Byte.byte_dec_bl.
Qed.

Lemma byte1_inv b :
  bz b = bit7 (negb (Z.land (bz b) 128 =? 0)) + Z.land (bz b) 127 /\ 0 <= Z.land (bz b) 127 < 128.
Proof.
  pose proof (byte_cases (fun b => (bz b =? bit7 (negb (Z.land (bz b) 128 =? 0)) + Z.land (bz b) 127) &&
    (0 <=? Z.land (bz b) 127) && (Z.land (bz b) 127 <? 128)) ltac:(by vm_compute) b) as H.
  cbv beta in H. bool_hyps. lia.
Qed.

Lemma byte1_fields m l :
  0 <= l < 128 ->
  let b := zb (bit7 m + l) in Z.land (bz b) 127 = l /\ negb (Z.land (bz b) 128 =? 0) = m.
Proof.
  intros Hl b. assert (bz b = bit7 m + l) as Hb.
  { subst b. apply bz_zb_small. destruct m; cbn; lia. }
  destruct (byte1_inv b) as [Hinv Hr]. rewrite Hb in Hinv at 1.
  destruct (negb (Z.land (bz b) 128 =? 0)), m; cbn [bit7] in Hinv; split; first [done | lia].
Qed.

(** ** Lengths *)

Lemma be_value_snoc s c : be_value (s ++ [c]) = be_value s * 256 + bz c.
Proof. unfold be_value. by rewrite fold_left_app. Qed.

Lemma be_value_bound s : 0 <= be_value s < 256 ^ Z.of_nat (length s).
Proof.
  induction s as [|c s IH] using rev_ind; [done|].
  rewrite be_value_snoc, length_app, Nat2Z.inj_add, Z.pow_add_r by lia. pose proof (bz_range c).
  change (256 ^ Z.of_nat (length [c])) with 256. nia.
Qed.

Lemma be_value_bytes w n : 0 <= n < 256 ^ Z.of_nat w -> be_value (be_bytes w n) = n /\ length (be_bytes w n) = w.
Proof.
  revert n. induction w as [|w IH]; intros n Hn; cbn [be_bytes].
  { split; [|done]. cbn in *. lia. }
  rewrite Nat2Z.inj_succ, Z.pow_succ_r in Hn by lia.
  destruct (IH (n / 256)) as [Hv Hl].
  { split; [apply Z.div_pos; lia|]. apply Z.div_lt_upper_bound; lia. }
  pose proof (Z.mod_pos_bound n 256 ltac:(lia)). pose proof (Z.div_mod n 256 ltac:(lia)).
  rewrite be_value_snoc, length_app, Hv, Hl, bz_zb_small by lia. cbn. lia.
Qed.

Lemma subspan_length b pos len : (pos + len <= length b)%nat -> length (subspan b pos len) = len.
Proof. intros H. unfold subspan. rewrite length_take, length_drop. lia. Qed.

Lemma subspan_at (x y z : bytes) pos len :
  length x = pos -> length y = len -> subspan (x ++ y ++ z) pos len = y.
Proof. intros <- <-. unfold subspan. by rewrite drop_app_length, take_app_length. Qed.

(** A prefix of a buffer is its pieces, in order. *)
Lemma take_add_subspan (b : bytes) i n : take (i + n) b = take i b ++ subspan b i n.
Proof. unfold subspan. by rewrite take_take_drop. Qed.

(** ** The parser accepts exactly the encodings *)

Lemma payload_length_complete n l7 ext b0 b1 r :
  length_form n l7 ext -> n <= kMaxFramePayload ->
  payload_length (b0 :: b1 :: ext ++ r) l7 = Ok (n, (2 + length ext)%nat) /\ 0 <= l7 < 128.
Proof.
  intros Hf Hmax. unfold payload_length. destruct Hf as [Hn|ext Hl Hv|ext Hl Hv].
  - assert (n <> 126 /\ n <> 127) as [H1 H2] by lia. apply Z.eqb_neq in H1, H2. rewrite H1, H2.
    split; [done|lia].
  - split; [|lia]. cbn [Z.eqb Pos.eqb]. cbn [length]. rewrite length_app, Hl.
    rewrite (subspan_at [b0; b1] ext r), Hv by done. done.
  - split; [|lia]. cbn [Z.eqb Pos.eqb]. cbn [length]. rewrite length_app, Hl.
    rewrite (subspan_at [b0; b1] ext r), Hv by done.
    pose proof (be_value_bound ext). rewrite Hv in *.
    rewrite Z.shiftr_div_pow2, Z.div_small by (unfold kMaxFramePayload in Hmax; lia). done.
Qed.

Lemma payload_length_sound b l7 n pos :
  payload_length b l7 = Ok (n, pos) -> 0 <= l7 < 128 -> (2 <= length b)%nat ->
  (2 <= pos <= length b)%nat /\ length_form n l7 (subspan b 2 (pos - 2)) /\ 0 <= n.
Proof.
  unfold payload_length. intros H Hl Hb.
  destruct (Z.eqb_spec l7 126) as [->|].
  { destruct (Nat.ltb_spec (length b) (2 + 2)); [done|]. injection H as <- <-.
    split; [lia|]. split; [|apply be_value_bound]. constructor; [apply subspan_length; lia|done]. }
  destruct (Z.eqb_spec l7 127) as [->|].
  { destruct (Nat.ltb_spec (length b) (2 + 8)); [done|]. destruct (negb _); [done|]. injection H as <- <-.
    split; [lia|]. split; [|apply be_value_bound]. constructor; [apply subspan_length; lia|done]. }
  injection H as <- <-. split; [lia|]. split; [|lia]. constructor. lia.
Qed.

Lemma masking_key_complete (pre r : bytes) key :
  match key with Some k => length k = 4%nat | None => True end ->
  masking_key (pre ++ default [] key ++ r) (bool_decide (is_Some key)) (length pre) =
  Ok (key, (length pre + length (default [] key))%nat).
Proof.
  intros Hk. destruct key as [k|]; unfold masking_key.
  - change (default [] (Some k)) with k. rewrite bool_decide_true by eauto. rewrite !length_app, Hk.
    destruct (Nat.ltb_spec (length pre + (4 + length r)) (length pre + 4)); [lia|].
    by rewrite subspan_at.
  - rewrite bool_decide_false by (by intros [? ?]). by rewrite Nat.add_0_r.
Qed.

Lemma masking_key_sound b m pos key pos' :
  masking_key b m pos = Ok (key, pos') -> (pos <= length b)%nat ->
  (pos' <= length b)%nat /\ pos' = (pos + length (default [] key))%nat /\
  default [] key = subspan b pos (pos' - pos) /\ m = bool_decide (is_Some key) /\
  match key with Some k => length k = 4%nat | None => True end.
Proof.
  unfold masking_key. intros H Hp. destruct m.
  - destruct (Nat.ltb_spec (length b) (pos + 4)); [done|]. injection H as <- <-.
    change (default [] (Some (subspan b pos 4))) with (subspan b pos 4).
    rewrite subspan_length by lia. repeat split; try lia.
    f_equal. lia.
  - injection H as <- <-. cbn. rewrite Nat.sub_diag. repeat split; lia.
Qed.

Lemma control_raw op : (8 <=? opcode_value op) = is_control op.
Proof. by destruct op. Qed.

Lemma parse_body_complete f b0 b1 l7 ext rest :
  frame_ok f -> length_form (Z.of_nat (length (payload f))) l7 ext ->
  b1 = zb (bit7 (bool_decide (is_Some (mask_key f))) + l7) ->
  parse_body (b0 :: b1 :: ext ++ default [] (mask_key f) ++ unmask (mask_key f) (payload f) ++ rest)
    (fin_bit f) (opcode_value (op_code f)) (op_code f) b1 =
  Ok {| frame := f;
        bytes_consumed := 2 + length ext + length (default [] (mask_key f)) + length (payload f) |}.
Proof.
  intros (Hmax & Hctl & Hkey) Hform Hb1. unfold parse_body.
  set (tail := unmask (mask_key f) (payload f) ++ rest).
  pose proof (payload_length_complete _ _ _ b0 b1 (default [] (mask_key f) ++ tail) Hform Hmax) as [Hlen H7].
  destruct (byte1_fields (bool_decide (is_Some (mask_key f))) l7 H7) as [Hl Hm]. rewrite <- Hb1 in Hl, Hm.
  rewrite Hl, Hm, Hlen, control_raw. cbv iota beta.
  replace (is_control _ && _) with false.
  2: { symmetry. apply andb_false_iff. destruct (is_control (op_code f)); [right|by left].
       destruct (Hctl eq_refl) as [-> Hle]. cbn [negb orb]. apply Z.ltb_ge. lia. }
  destruct (Z.ltb_spec kMaxFramePayload (Z.of_nat (length (payload f)))); [lia|].
  pose proof (masking_key_complete (b0 :: b1 :: ext) tail (mask_key f) Hkey) as Hmk.
  cbn [app length] in Hmk. cbn [Nat.add]. rewrite Hmk.
  set (k := default [] (mask_key f)). rewrite Nat2Z.id. cbn [length].
  rewrite !length_app. unfold tail at 1. rewrite length_app, length_unmask.
  match goal with |- context [Z.ltb ?x ?y] => destruct (Z.ltb_spec x y); [lia|] end.
  pose proof (subspan_at (b0 :: b1 :: ext ++ k) (unmask (mask_key f) (payload f)) rest) as Hsub.
  cbn [app] in Hsub. rewrite <- app_assoc in Hsub. fold tail in Hsub.
  rewrite Hsub by (cbn [length]; rewrite ?length_app, ?length_unmask; lia).
  rewrite unmask_involutive. by destruct f.
Qed.

Lemma frame_parser_complete f e rest :
  frame_ok f -> encodes f e -> frame_parser (e ++ rest) = Ok {| frame := f; bytes_consumed := length e |}.
Proof.
  intros Hok (l7 & ext & Hform & ->). cbn [app frame_parser].
  destruct (byte0_fields (fin_bit f) (op_code f)) as (Hop & Hrsv & Hfin). rewrite Hop, Hrsv, Hfin.
  rewrite opcode_of_value. cbn [negb Z.eqb]. rewrite <- !app_assoc, (parse_body_complete f _ _ l7) by done.
  cbn [length]. rewrite !length_app, length_unmask. do 2 f_equal. lia.
Qed.

Lemma frame_parser_sound b r :
  frame_parser b = Ok r ->
  frame_ok (frame r) /\ (bytes_consumed r <= length b)%nat /\
  encodes (frame r) (take (bytes_consumed r) b).
Proof.
  destruct b as [|b0 [|b1 b]]; [done..|]. cbn [frame_parser].
  destruct (opcode_of _) as [op|] eqn:Eop; [|done].
  destruct (Z.eqb_spec (Z.land (bz b0) 112) 0) as [Hrsv|]; [|done]. cbn [negb].
  destruct (byte0_inv b0 op Eop Hrsv) as [Hb0 Hraw]. rewrite Hraw. clear Eop Hrsv Hraw.
  set (fin := negb _) in *. set (bb := b0 :: b1 :: b). unfold parse_body.
  destruct (byte1_inv b1) as [Hb1 H7]. set (l7 := Z.land (bz b1) 127) in *. set (m := negb _) in Hb1 |- *.
  destruct (payload_length bb l7) as [[n pos]|] eqn:El; [|done].
  apply payload_length_sound in El as (Hpos & Hform & Hn); [|done|cbn; lia].
  rewrite control_raw. destruct (is_control op && _) eqn:Ec; [done|].
  destruct (Z.ltb_spec kMaxFramePayload n) as [|Hmax]; [done|].
  destruct (masking_key bb m pos) as [[key pos']|] eqn:Ek; [|done].
  apply masking_key_sound in Ek as (Hpos' & Hp' & Hkey & Hm & Hk4); [|lia].
  destruct (Z.ltb_spec (Z.of_nat (length bb - pos')) n) as [|Hlen]; [done|].
  intros [= <-]. cbn [frame bytes_consumed].
  assert (length (subspan bb pos' (Z.to_nat n)) = Z.to_nat n) as Hpl by (apply subspan_length; lia).
  split; [|split; [lia|]].
  - unfold frame_ok. cbn [payload op_code fin_bit mask_key]. rewrite length_unmask, Hpl.
    split; [lia|]. split; [|done]. intros Hc. rewrite Hc in Ec. cbn [andb] in Ec. bool_hyps. split; [done|lia].
  - exists l7, (subspan bb 2 (pos - 2)). cbn [payload op_code fin_bit mask_key].
    rewrite length_unmask, Hpl, unmask_involutive, Z2Nat.id by done. split; [done|].
    rewrite <- Hm, Hkey, <- Hb1, zb_bz, <- Hb0.
    replace (pos' + Z.to_nat n)%nat with (2 + (pos - 2) + (pos' - pos) + Z.to_nat n)%nat by lia.
    rewrite !take_add_subspan. rewrite <- !app_assoc.
    replace (2 + (pos - 2))%nat with pos by lia. by replace (pos + (pos' - pos))%nat with pos' by lia.
Qed.

(** ** Incremental parsing *)

Lemma subspan_app b rest pos len :
  (pos + len <= length b)%nat -> subspan (b ++ rest) pos len = subspan b pos len.
Proof. intros H. unfold subspan. rewrite drop_app_le, take_app_le; [done|rewrite length_drop|]; lia. Qed.

(** An answer other than "incomplete". *)
Definition decided {A} (x : expected ParseError A) : bool :=
  match x with Unexpected e => match pe_kind e with Malformed => true | Incomplete => false end | Ok _ => true end.

Lemma payload_length_app b rest l7 :
  decided (payload_length b l7) = true -> payload_length (b ++ rest) l7 = payload_length b l7.
Proof.
  unfold payload_length. rewrite length_app.
  destruct (l7 =? 126).
  { destruct (Nat.ltb_spec (length b) (2 + 2)), (Nat.ltb_spec (length b + length rest) (2 + 2)); try done; [lia|].
    intros _. by rewrite subspan_app. }
  destruct (l7 =? 127); [|done].
  destruct (Nat.ltb_spec (length b) (2 + 8)), (Nat.ltb_spec (length b + length rest) (2 + 8)); try done; [lia|].
  intros _. by rewrite subspan_app.
Qed.

Lemma frame_parser_malformed b rest e :
  frame_parser b = Unexpected e -> pe_kind e = Malformed -> frame_parser (b ++ rest) = Unexpected e.
Proof.
  destruct b as [|b0 [|b1 b]]; [by intros [= <-]..|]. cbn [frame_parser app].
  destruct (opcode_of _) as [op|]; [|done]. destruct (negb _); [done|].
  change (b0 :: b1 :: b ++ rest) with ((b0 :: b1 :: b) ++ rest). set (bb := b0 :: b1 :: b).
  unfold parse_body. set (l7 := Z.land (bz b1) 127).
  pose proof (payload_length_app bb rest l7) as Happ.
  destruct (payload_length bb l7) as [[n pos]|e'].
  - rewrite Happ by done. destruct (_ && _); [done|]. destruct (_ <? n); [done|]. intros H Hk. exfalso.
    unfold masking_key, incomplete in H.
    destruct (negb _), (Nat.ltb_spec (length bb) (pos + 4)); simplify_eq/=; by case_match; simplify_eq/=.
  - intros [= <-] Hk. by rewrite Happ by (cbn; by rewrite Hk).
Qed.

(** [frame_parser] as the reader sees it. *)
Definition frame_step (b : bytes) : progress WebSocketFrame :=
  match frame_parser b with
  | Ok r => Done (frame r) (bytes_consumed r)
  | Unexpected e => match pe_kind e with Malformed => Bad (pe_message e) | Incomplete => More end
  end.

Lemma frame_parser_stable b rest r : frame_parser b = Ok r -> frame_parser (b ++ rest) = Ok r.
Proof.
  intros H. apply frame_parser_sound in H as (Hok & Hle & Henc). destruct r as [f n]. cbn in *.
  pose proof (frame_parser_complete f (take n b) (drop n b ++ rest) Hok Henc) as Hc.
  rewrite app_assoc, take_drop in Hc. rewrite Hc, length_take. do 2 f_equal. lia.
Qed.

#[export] Instance frame_stream : StreamParser frame_step.
Proof.
  split; intros b; unfold frame_step.
  - intros r n. destruct (frame_parser b) as [x|e] eqn:E; [|by destruct (pe_kind e)].
    intros [= <- <-]. by apply frame_parser_sound in E as (_ & ? & _).
  - intros rest r n. destruct (frame_parser b) as [x|e] eqn:E; [|by destruct (pe_kind e)].
    intros [= <- <-]. by rewrite (frame_parser_stable _ rest _ E).
Qed.

#[export] Instance frame_final : FinalErrors frame_step.
Proof.
  split. intros b rest m. unfold frame_step. destruct (frame_parser b) as [x|e] eqn:E; [done|].
  destruct (pe_kind e) eqn:Ek; [done|]. intros [= <-]. by rewrite (frame_parser_malformed _ rest _ E Ek), Ek.
Qed.

Lemma encodes_step f e rest : frame_ok f -> encodes f e -> frame_step (e ++ rest) = Done f (length e).
Proof. intros Hok He. unfold frame_step. by rewrite (frame_parser_complete f e rest Hok He). Qed.

(** ** Properties *)

(** C34. The frame parser accepts exactly the RFC 6455 frames within its limits: it
    returns frame [f] and the byte count [n] if and only if the first [n] bytes are
    an encoding of [f] (first byte, any of the three length forms, masking key,
    masked payload), the payload is at most 16 MiB, and a control frame is final
    with at most 125 bytes.  In particular it never reads or consumes bytes beyond
    the input. *)
Theorem frame_parser_exact b f n :
  frame_parser b = Ok {| frame := f; bytes_consumed := n |} <->
  frame_ok f /\ (n <= length b)%nat /\ encodes f (take n b).
Proof.
  split; [apply frame_parser_sound|]. intros (Hok & Hle & Henc).
  pose proof (frame_parser_complete f (take n b) (drop n b) Hok Henc) as Hc.
  rewrite take_drop in Hc. rewrite Hc, length_take. do 2 f_equal. lia.
Qed.

Lemma builder_encodes key f e :
  length key = 4%nat -> Z.of_nat (length (payload f)) <= kMaxFramePayload ->
  frame_builder (Some key) f = Ok e ->
  encodes {| fin_bit := true; op_code := op_code f; mask_key := Some key; payload := payload f |} e.
Proof.
  intros Hkey Hmax [= <-].
  assert (forall x y, 0 <= x < 128 -> Z.lor 128 x = y -> y = 128 + x) as Hlor.
  { intros x y Hx <-. rewrite <- Z.add_lor_land.
    replace (Z.land 128 x) with 0; [lia|]. symmetry. apply Z.bits_inj'. intros k Hk.
    rewrite Z.land_spec, Z.bits_0. destruct (decide (k = 7)) as [->|].
    - rewrite (Z.bits_above_log2 x 7), andb_false_r; [done|lia|].
      destruct (decide (x = 0)) as [->|]; [done|]. apply Z.log2_lt_pow2; lia.
    - rewrite (Z.pow2_bits_false 7) by lia. done. }
  set (n := Z.of_nat (length (payload f))).
  assert (zb (Z.lor 128 (opcode_value (op_code f))) = zb (bit7 true + opcode_value (op_code f))) as Hb0
    by (by destruct (op_code f)).
  assert (exists l7 ext, length_form n l7 ext /\ length_field n = zb (bit7 true + l7) :: ext) as (l7 & ext & Hf & Hlf).
  { unfold length_field. destruct (Z.leb_spec n 125).
    - exists n, []. split; [constructor; lia|]. by rewrite (Hlor n _ ltac:(lia) eq_refl).
    - destruct (Z.leb_spec n 65535).
      + destruct (be_value_bytes 2 n) as [Hv Hl]; [lia|]. exists 126, (be_bytes 2 n). by split; [constructor|].
      + unfold kMaxFramePayload in Hmax. destruct (be_value_bytes 8 n) as [Hv Hl]; [lia|].
        exists 127, (be_bytes 8 n). by split; [constructor|]. }
  exists l7, ext. cbn [payload op_code fin_bit mask_key]. split; [done|]. rewrite Hlf, Hb0.
  by rewrite bool_decide_true by eauto.
Qed.

Lemma incomplete_or_decided b :
  (exists m, frame_parser b = Unexpected {| pe_kind := Incomplete; pe_message := m |}) \/
  decided (frame_parser b) = true.
Proof.
  destruct (frame_parser b) as [r|[[] m]]; [by right|left; eauto|by right].
Qed.

(** Before the last byte of a frame has arrived the parser asks for more. *)
Lemma frame_prefix_incomplete b r k :
  frame_parser b = Ok r -> (k < bytes_consumed r)%nat ->
  exists m, frame_parser (take k b) = Unexpected {| pe_kind := Incomplete; pe_message := m |}.
Proof.
  intros Hb Hk. destruct (incomplete_or_decided (take k b)) as [?|Hd]; [done|]. exfalso.
  destruct (frame_parser (take k b)) as [r'|e] eqn:E.
  - pose proof (frame_parser_stable _ (drop k b) _ E) as Hs. rewrite take_drop, Hb in Hs. injection Hs as <-.
    apply frame_parser_sound in E as (_ & Hle & _). rewrite length_take in Hle. lia.
  - cbn in Hd. destruct (pe_kind e) eqn:Ek; [done|].
    pose proof (frame_parser_malformed _ (drop k b) _ E Ek) as Hm. rewrite take_drop in Hm. congruence.
Qed.

(** Incremental parsing of frames: a complete frame is recognised exactly when
    its last byte arrives (every shorter prefix is reported incomplete, every longer
    buffer gives the same frame and count), and a malformed answer is final. *)
Theorem frame_parser_incremental b rest :
  (forall r, frame_parser b = Ok r ->
    frame_parser (b ++ rest) = Ok r /\
    forall k, if (k <? bytes_consumed r)%nat
              then exists m, frame_parser (take k b) = Unexpected {| pe_kind := Incomplete; pe_message := m |}
              else frame_parser (take k b) = Ok r) /\
  (forall e, frame_parser b = Unexpected e -> pe_kind e = Malformed -> frame_parser (b ++ rest) = Unexpected e).
Proof.
  split; [|by intros e; apply frame_parser_malformed]. intros r Hr. split; [by apply frame_parser_stable|].
  intros k. destruct (Nat.ltb_spec k (bytes_consumed r)) as [Hk|Hk]; [by eapply frame_prefix_incomplete|].
  pose proof (frame_parser_sound _ _ Hr) as (Hok & Hle & Henc). destruct r as [f n]. cbn in *.
  pose proof (frame_parser_complete f (take n b) (subspan b n (k - n)) Hok Henc) as Hc.
  rewrite <- take_add_subspan in Hc. replace (n + (k - n))%nat with k in Hc by lia.
  rewrite Hc, length_take. do 2 f_equal. lia.
Qed.

Lemma frame_parser_incremental_witness :
  let b := map zb [137; 2; 65; 66; 7] in
  exists r, frame_parser b = Ok r /\ frame_parser (b ++ [x00]) = Ok r /\
    exists m, frame_parser (take 3 b) = Unexpected {| pe_kind := Incomplete; pe_message := m |}.
Proof.
  intros b.
  assert (frame_parser b = Ok {| frame := {| fin_bit := true; op_code := Ping; mask_key := None;
    payload := map zb [65; 66] |}; bytes_consumed := 4 |}) as Hb by (by vm_compute).
  eexists. split; [exact Hb|]. destruct (frame_parser_incremental b [x00]) as [H _].
  destruct (H _ Hb) as [H1 H2]. split; [exact H1|]. exact (H2 3%nat).
Defined.

Lemma built_frame_ok key f :
  length key = 4%nat -> Z.of_nat (length (payload f)) <= kMaxFramePayload ->
  (is_control (op_code f) = true -> (length (payload f) <= 125)%nat) ->
  frame_ok {| fin_bit := true; op_code := op_code f; mask_key := Some key; payload := payload f |}.
Proof. intros Hkey Hmax Hctl. split; [done|]. split; [|done]. intros H. split; [done|]. by apply Hctl. Qed.

(** C35. Builder/parser round trip, with every masking key and all three length
    encodings: what [frame_builder] sends for a frame within the limits is parsed
    back to the same opcode and payload (FIN is always set), consuming exactly the
    bytes sent even when more follow, and no strict prefix is taken for a frame. *)
Theorem frame_round_trip key f :
  length key = 4%nat -> Z.of_nat (length (payload f)) <= kMaxFramePayload ->
  (is_control (op_code f) = true -> (length (payload f) <= 125)%nat) ->
  exists e, frame_builder (Some key) f = Ok e /\
    (forall rest, frame_parser (e ++ rest) =
       Ok {| frame := {| fin_bit := true; op_code := op_code f; mask_key := Some key; payload := payload f |};
             bytes_consumed := length e |}) /\
    (forall k, (k < length e)%nat ->
       exists m, frame_parser (take k e) = Unexpected {| pe_kind := Incomplete; pe_message := m |}).
Proof.
  intros Hkey Hmax Hctl. eexists. split; [done|].
  match goal with |- context [frame_parser (?x ++ _)] => set (e := x) end.
  pose proof (builder_encodes key f e Hkey Hmax eq_refl) as Henc.
  assert (frame_ok {| fin_bit := true; op_code := op_code f; mask_key := Some key; payload := payload f |}) as Hok.
  { by apply built_frame_ok. }
  pose proof (frame_parser_complete _ _ [] Hok Henc) as Hc. rewrite app_nil_r in Hc.
  split; [intros rest; by apply frame_parser_complete|]. intros k Hk. by eapply frame_prefix_incomplete.
Qed.

Lemma frame_round_trip_witness :
  exists e, frame_builder (Some (map zb [1; 2; 3; 4]))
              {| fin_bit := true; op_code := Pong; mask_key := None; payload := lit "hello" |} = Ok e /\
    frame_parser (e ++ [x07]) =
      Ok {| frame := {| fin_bit := true; op_code := Pong; mask_key := Some (map zb [1; 2; 3; 4]);
                        payload := lit "hello" |}; bytes_consumed := length e |}.
Proof.
  destruct (frame_round_trip (map zb [1; 2; 3; 4])
    {| fin_bit := true; op_code := Pong; mask_key := None; payload := lit "hello" |}) as (e & He & Hp & _).
  - by vm_compute.
  - by vm_compute.
  - intros _. cbn. lia.
  - exists e. split; [exact He|]. apply Hp.
Defined.
