(* ===== verification/World.v ===== *)
(** * World: the network, the console and the clock as an environment

    The operating system, the clock and [poll] are outside the model: the results of
    the calls of every connection attempt and write are functions of how many network
    events came before, every clock reading and poll of how many readings came
    before, and received chunks come from a script.  Connection attempts and writes
    are logged in order, and so are system calls on descriptors and printed lines.  A
    computation of a component is a function from the component's state and the world
    to a result, or [None] while it waits for data and where the C++ is undefined (a
    signed overflow). *)

From stdpp Require Import gmap.
From S2P Require Import Prelude CharConv Stream Sockets.

(** ** The environment *)

Inductive NetEvent : Type :=
| EvConnect (ok : bool)
| EvSend (data : bytes) (ok : bool).

Record NetEnv : Type := {
  env_resolve : nat -> expected bytes (list Address);   (* [getaddrinfo] and the calls for each address *)
  env_ssl : nat -> SslResults;                          (* OpenSSL in [TlsSocket::connect] *)
  env_write : nat -> option bytes;     (* [Some e]: [SSL_write] fails with [e] *)
  env_poll : nat -> bool;              (* [poll(...) != 0] *)
  env_clock : nat -> Z;                (* [Clock::now()], in nanoseconds *)
  env_timestamp : nat -> Z;            (* [current_timestamp_ms()] *)
  env_encode_block : bytes -> bytes;   (* [EVP_EncodeBlock] *)
  (* the order in which a [std::unordered_map] is iterated, which may change with time *)
  env_order : nat -> gmap bytes Z -> list (bytes * Z);
  env_order_perm n m : env_order n m ≡ₚ map_to_list m;
}.

Inductive OutStream : Type := Stdout | Stderr.

(** The part of the world that changes. *)
Record World : Type := {
  log : list NetEvent;
  ticks : nat;
  inbox : incoming;
  syscalls : list SysCall;
  console : list (OutStream * bytes);
}.

(** The descriptors open in a world that started with none. *)
Definition fds (w : World) : list Z := open_after [] (syscalls w).

Lemma fds_calls w w' cs : syscalls w' = syscalls w ++ cs -> fds w' = open_after (fds w) cs.
Proof. unfold fds. intros ->. apply open_after_app. Qed.

Definition new_world (i : incoming) : World := {| log := []; ticks := 0; inbox := i; syscalls := []; console := [] |}.

(** *** Updates of one field *)

Definition record_event (e : NetEvent) (w : World) : World :=
  {| log := log w ++ [e]; ticks := ticks w; inbox := inbox w; syscalls := syscalls w; console := console w |}.
Definition advance (w : World) : World :=
  {| log := log w; ticks := S (ticks w); inbox := inbox w; syscalls := syscalls w; console := console w |}.
Definition set_inbox (i : incoming) (w : World) : World :=
  {| log := log w; ticks := ticks w; inbox := i; syscalls := syscalls w; console := console w |}.
Definition record_calls (cs : list SysCall) (w : World) : World :=
  {| log := log w; ticks := ticks w; inbox := inbox w; syscalls := syscalls w ++ cs; console := console w |}.
Definition print_line (l : OutStream * bytes) (w : World) : World :=
  {| log := log w; ticks := ticks w; inbox := inbox w; syscalls := syscalls w; console := console w ++ [l] |}.

(** ** The monad *)

(** A computation over the state [S] of a component. *)
Definition M (S A : Type) : Type := S -> World -> option (A * S * World).

Definition ret {S A} (a : A) : M S A := fun c w => Some (a, c, w).
Definition bind {S A B} (m : M S A) (k : A -> M S B) : M S B :=
  fun c w => match m c w with Some (a, c, w) => k a c w | None => None end.

Notation "'let%' x ':=' m 'in' k" := (bind m (fun x => k))
  (at level 10, x pattern, m at level 200, k at level 200).

Definition get {S} : M S S := fun c w => Some (c, c, w).
Definition modify {S} (f : S -> S) : M S unit := fun c w => Some (tt, f c, w).

(** A computation on a component of a larger state. *)
Definition zoom {S T A} (part : T -> S) (put : S -> T -> T) (m : M S A) : M T A :=
  fun t w => match m (part t) w with Some (a, s, w) => Some (a, put s t, w) | None => None end.


(** A computation on a state of its own, which is gone afterwards. *)
Definition local {S T A} (s : S) (m : M S A) : M T A :=
  fun t w => match m s w with Some (a, _, w) => Some (a, t, w) | None => None end.

(** [std::println] to [stdout] and [stderr]. *)
Definition print {S} (l : OutStream * bytes) : M S unit := fun c w => Some (tt, c, print_line l w).
Definition println {S} (line : bytes) : M S unit := print (Stdout, line).
Definition eprintln {S} (line : bytes) : M S unit := print (Stderr, line).

(** System calls on descriptors. *)
Definition sys {S} (cs : list SysCall) : M S unit := fun c w => Some (tt, c, record_calls cs w).

Section Environment.
Variable env : NetEnv.

(** ** The environment's operations *)

Definition tick {S A} (f : nat -> A) : M S A := fun c w => Some (f (ticks w), c, advance w).

Definition now {S} : M S Z := tick (env_clock env).
Definition poll {S} : M S bool := tick (env_poll env).
Definition current_timestamp_ms {S} : M S bytes := tick (fun n => fmt_int (env_timestamp env n)).

(** [std::this_thread::sleep_for], during which a signal may arrive. *)
Definition sleep_for {S} (seconds : Z) : M S unit := fun c w => Some (tt, c, record_calls [SysSleep seconds] (advance w)).

(** A new [TlsSocket] connected to [host]; a socket that fails to connect is
    destroyed. *)
Definition tls_connect {S} (host : bytes) : M S (expected bytes TcpSocket) :=
  fun c w =>
    let n := length (log w) in
    let '(r, cs) := dial host (env_resolve env n) (env_ssl env n) in
    Some (r, c, record_event (EvConnect (has_value r)) (record_calls cs w)).

Definition tls_send {S} (data : bytes) : M S (expected bytes unit) :=
  fun c w => match env_write env (length (log w)) with
             | None => Some (Ok tt, c, record_event (EvSend data true) w)
             | Some e => Some (Unexpected e, c, record_event (EvSend data false) w)
             end.

End Environment.

(** Maps iterated in the order of their representation. *)
Definition fixed_order (_ : nat) (m : gmap bytes Z) : list (bytes * Z) := map_to_list m.

Lemma fixed_order_perm n m : fixed_order n m ≡ₚ map_to_list m.
Proof. done. Qed.

(** A network on which every connection is made at once, on descriptor [fd]. *)
Definition reachable_at (fd : Z) : list Address :=
  [{| ai_socket := fd; ai_getfl := 2; ai_set_nonblock := 0; ai_connect := 0; ai_errno := 0; ai_poll := 0;
      ai_getsockopt := 0; ai_so_error := 0; ai_restore := 0 |}].
Definition working_ssl : SslResults :=
  {| ssl_ctx := true; ssl_new := true; ssl_set_fd := 1; ssl_connect := 1; ssl_error_string := [] |}.

Lemma bind_Some {S A B} (m : M S A) (k : A -> M S B) c w x :
  bind m k c w = Some x -> exists a c1 w1, m c w = Some (a, c1, w1) /\ k a c1 w1 = Some x.
Proof. unfold bind. destruct (m c w) as [[[a c1] w1]|]; [|done]. eauto 10. Qed.
