(* ===== verification/WebSocket.v ===== *)
(** * WebSocket: frames over a TLS connection (src/network/web_socket.cpp)

    The TLS socket is outside the model: [receive_data] returns what the environment
    has prepared, chunk by chunk ([incoming] of Stream), and the result of the n-th
    [SSL_write] is a function of n.  Everything written is logged. *)

From S2P Require Import Prelude CharConv JsonLexer Stream Sockets Frame.

(** ** State *)

(** The environment of one connection: what will be received, how each write ends,
    the bytes of successful and failed writes in order, and the four random bytes
    [RAND_bytes] gives for the n-th masking key. *)
Record TlsSocket : Type := {
  to_receive : incoming;
  write_result : nat -> option bytes;   (* [Some e]: the write fails with [e] *)
  random_key : nat -> option bytes;
  written : list bytes;
  keys_drawn : nat;
  _tcp_socket : TcpSocket;
}.

Record WebSocket : Type := { _tls_socket : TlsSocket; _buffer : bytes }.

Definition set_receive (t : TlsSocket) (i : incoming) : TlsSocket :=
  {| to_receive := i; write_result := write_result t; random_key := random_key t; written := written t;
     keys_drawn := keys_drawn t; _tcp_socket := _tcp_socket t |}.

(** [TlsSocket::send_data] *)
Definition send_data (t : TlsSocket) (data : bytes) : expected bytes unit * TlsSocket :=
  (match write_result t (length (written t)) with Some e => Unexpected e | None => Ok tt end,
   {| to_receive := to_receive t; write_result := write_result t; random_key := random_key t;
      written := written t ++ [data]; keys_drawn := keys_drawn t; _tcp_socket := _tcp_socket t |}).

Definition draw_key (t : TlsSocket) : option bytes * TlsSocket :=
  (random_key t (keys_drawn t),
   {| to_receive := to_receive t; write_result := write_result t; random_key := random_key t;
      written := written t; keys_drawn := S (keys_drawn t); _tcp_socket := _tcp_socket t |}).

(** ** Operations *)

(** The loop of [receive_frame]; [None]: still waiting for data. *)
Fixpoint receive_frame_loop (buffer : bytes) (inc : incoming)
    : option (expected bytes WebSocketFrame * bytes * incoming) :=
  match frame_parser buffer with
  | Ok result => Some (Ok (frame result), drop (bytes_consumed result) buffer, inc)
  | Unexpected e =>
    match pe_kind e with
    | Malformed => Some (Unexpected (pe_message e), buffer, inc)
    | Incomplete =>
      match inc with
      | [] => None
      | Unexpected err :: inc => Some (Unexpected err, buffer, inc)
      | Ok raw_bytes :: inc => receive_frame_loop (buffer ++ raw_bytes) inc
      end
    end
  end.

Definition receive_frame (ws : WebSocket) : option (expected bytes WebSocketFrame * WebSocket) :=
  match receive_frame_loop (_buffer ws) (to_receive (_tls_socket ws)) with
  | Some (r, b, i) => Some (r, {| _tls_socket := set_receive (_tls_socket ws) i; _buffer := b |})
  | None => None
  end.

Definition send_frame (ws : WebSocket) (f : WebSocketFrame) : expected bytes unit * WebSocket :=
  let '(key, t) := draw_key (_tls_socket ws) in
  match frame_builder key f with
  | Unexpected e => (Unexpected e, {| _tls_socket := t; _buffer := _buffer ws |})
  | Ok out_going_frame =>
    let '(r, t) := send_data t out_going_frame in
    (r, {| _tls_socket := t; _buffer := _buffer ws |})
  end.

Definition send_pong (ws : WebSocket) (ping_frame : WebSocketFrame) : expected bytes unit * WebSocket :=
  send_frame ws {| fin_bit := true; op_code := Pong; mask_key := None; payload := payload ping_frame |}.

Definition send_text (ws : WebSocket) (text : bytes) : expected bytes unit * WebSocket :=
  send_frame ws {| fin_bit := true; op_code := Text; mask_key := None; payload := text |}.

Definition kWebSocketPath : bytes := lit "/trade-api/ws/v2".

Definition crlf : bytes := [x0d; x0a].

Definition upgrade_request (host websocket_key auth_headers : bytes) : bytes :=
  lit "GET " ++ kWebSocketPath ++ lit " HTTP/1.1" ++ crlf ++
  lit "Host: " ++ host ++ crlf ++
  lit "Upgrade: websocket" ++ crlf ++
  lit "Connection: Upgrade" ++ crlf ++
  lit "Sec-WebSocket-Key: " ++ websocket_key ++ crlf ++
  lit "Sec-WebSocket-Version: 13" ++ crlf ++
  auth_headers ++ crlf.

Fixpoint first_line (s : bytes) : bytes :=
  match s with
  | [] => []
  | c :: s' => if starts_with s crlf then [] else c :: first_line s'
  end.

Definition set_tcp (k : TcpSocket) (t : TlsSocket) : TlsSocket :=
  {| to_receive := to_receive t; write_result := write_result t; random_key := random_key t; written := written t;
     keys_drawn := keys_drawn t; _tcp_socket := k |}.

(** [raw] is what [RAND_bytes] gives and [encode_block] is [EVP_EncodeBlock]. *)
Definition generate_websocket_key (encode_block : bytes -> bytes) (raw : option bytes) : expected bytes bytes :=
  match raw with
  | None => Unexpected (lit "Failed to generate random bytes for WebSocket key")
  | Some raw => Ok (encode_block raw)
  end.

(** [connect] and its system calls: [auth] is what the signer returns, [resolved] and
    [ssl] what the system and OpenSSL do in [TlsSocket::connect], and [key] what
    [generate_websocket_key] returns.  [None]: waiting for the response. *)
Definition connect (ws : WebSocket) (host : bytes) (auth : expected bytes bytes)
    (resolved : expected bytes (list Address)) (ssl : SslResults) (key : expected bytes bytes)
    : option (expected bytes unit * WebSocket * list SysCall) :=
  match auth with
  | Unexpected e => Some (Unexpected e, ws, [])
  | Ok auth_headers =>
    let '(tls_result, k, calls, _) := tls_socket_connect host resolved ssl (_tcp_socket (_tls_socket ws)) in
    let ws := {| _tls_socket := set_tcp k (_tls_socket ws); _buffer := _buffer ws |} in
    match tls_result with
    | Unexpected e => Some (Unexpected (lit "TLS connection failed " ++ e), ws, calls)
    | Ok _ =>
      match key with
      | Unexpected e => Some (Unexpected e, ws, calls)
      | Ok websocket_key =>
        let '(sent, t) := send_data (_tls_socket ws) (upgrade_request host websocket_key auth_headers) in
        let ws := {| _tls_socket := t; _buffer := _buffer ws |} in
        match sent with
        | Unexpected e => Some (Unexpected (lit "Failed to send data " ++ e), ws, calls)
        | Ok _ =>
          match to_receive t with
          | [] => None
          | Unexpected e :: inc =>
            Some (Unexpected (lit "Failed to receive data " ++ e),
                  {| _tls_socket := set_receive t inc; _buffer := _buffer ws |}, calls)
          | Ok response :: inc =>
            let ws := {| _tls_socket := set_receive t inc; _buffer := _buffer ws |} in
            if starts_with response (lit "HTTP/1.1 101") then Some (Ok tt, ws, calls)
            else Some (Unexpected (lit "Handshake rejected: " ++ first_line response), ws, calls)
          end
        end
      end
    end
  end.

(** The destructor closes the TCP connection. *)
Definition destroy_web_socket (ws : WebSocket) : list SysCall := destroy (_tcp_socket (_tls_socket ws)).

Lemma receive_frame_read_one buffer inc : receive_frame_loop buffer inc = read_one frame_step buffer inc.
Proof.
  revert buffer. induction inc as [|[c|e] inc IH]; intros buffer; cbn [receive_frame_loop read_one];
    unfold frame_step; destruct (frame_parser buffer) as [r|e']; try done; by destruct (pe_kind e').
Qed.

(** [n] calls of [receive_frame], stopping at the first that does not return a frame. *)
Fixpoint receive_frames (n : nat) (ws : WebSocket) : option (list WebSocketFrame * WebSocket) :=
  match n with
  | O => Some ([], ws)
  | S n =>
    match receive_frame ws with
    | Some (Ok f, ws) =>
      match receive_frames n ws with Some (fs, ws) => Some (f :: fs, ws) | None => None end
    | _ => None
    end
  end.

Lemma receive_frame_encoded ws chunks inc f e tail :
  frame_ok f -> encodes f e -> to_receive (_tls_socket ws) = map Ok chunks ++ inc ->
  _buffer ws ++ concat chunks = e ++ tail ->
  exists ws' chunks',
    receive_frame ws = Some (Ok f, ws') /\ to_receive (_tls_socket ws') = map Ok chunks' ++ inc /\
    _buffer ws' ++ concat chunks' = tail /\ written (_tls_socket ws') = written (_tls_socket ws).
Proof.
  intros Hok He Hinc Hbytes. unfold receive_frame. rewrite receive_frame_read_one, Hinc.
  pose proof (encodes_step f e tail Hok He) as Hstep. rewrite <- Hbytes in Hstep.
  destruct (read_one_done frame_step _ _ inc _ _ Hstep (done_no_bad _ _ _ _ _ Hstep)) as (b' & cs' & Hr & Heq).
  rewrite Hr. eexists _, cs'. split; [done|]. cbn. split; [done|]. split; [|done].
  by rewrite Heq, Hbytes, drop_app_length.
Qed.

Lemma receive_frames_encoded fs es ws chunks inc tail :
  Forall2 (fun f e => frame_ok f /\ encodes f e) fs es ->
  to_receive (_tls_socket ws) = map Ok chunks ++ inc -> _buffer ws ++ concat chunks = concat es ++ tail ->
  exists ws' chunks',
    receive_frames (length fs) ws = Some (fs, ws') /\ to_receive (_tls_socket ws') = map Ok chunks' ++ inc /\
    _buffer ws' ++ concat chunks' = tail.
Proof.
  intros H. revert ws chunks. induction H as [|f e fs es [Hok He] H IH]; intros ws chunks Hinc Hb.
  - exists ws, chunks. done.
  - cbn [concat] in Hb. rewrite <- app_assoc in Hb.
    destruct (receive_frame_encoded ws chunks inc f e _ Hok He Hinc Hb) as (ws1 & cs1 & Hr & Hi & Hb1 & _).
    destruct (IH ws1 cs1 Hi Hb1) as (ws2 & cs2 & Hr2 & Hi2 & Hb2).
    exists ws2, cs2. cbn [length receive_frames]. by rewrite Hr, Hr2.
Qed.

Lemma receive_loop_ok inc buffer f b' inc' : receive_frame_loop buffer inc = Some (Ok f, b', inc') -> frame_ok f.
Proof.
  revert buffer. induction inc as [|[c|e] inc IH]; intros buffer; cbn [receive_frame_loop];
    (destruct (frame_parser buffer) as [r|e'] eqn:E;
     [intros [= <- <- <-]; by apply frame_parser_sound in E as [? _]|destruct (pe_kind e'); try done]).
  apply IH.
Qed.

Lemma receive_frame_ok ws f ws' : receive_frame ws = Some (Ok f, ws') -> frame_ok f.
Proof.
  unfold receive_frame. destruct (receive_frame_loop _ _) as [[[r b] i]|] eqn:E; [|done].
  intros [= -> _]. by eapply receive_loop_ok.
Qed.

(** ** Properties *)

(** Frames are delivered in order whatever the chunking: if the buffered bytes
    followed by the chunks that will arrive start with the encodings of frames
    [fs], then [length fs] calls of [receive_frame] return exactly [fs], and the
    bytes that follow are still in the buffer or to be received, none lost or
    duplicated. *)
Theorem frames_delivered_in_order fs es ws chunks inc tail :
  Forall2 (fun f e => frame_ok f /\ encodes f e) fs es ->
  to_receive (_tls_socket ws) = map Ok chunks ++ inc -> _buffer ws ++ concat chunks = concat es ++ tail ->
  exists ws' chunks',
    receive_frames (length fs) ws = Some (fs, ws') /\ to_receive (_tls_socket ws') = map Ok chunks' ++ inc /\
    _buffer ws' ++ concat chunks' = tail.
Proof. apply receive_frames_encoded. Qed.

Definition tls_with (chunks : incoming) : TlsSocket :=
  {| to_receive := chunks; write_result := fun _ => None; random_key := fun _ => Some (map zb [1; 2; 3; 4]);
     written := []; keys_drawn := 0; _tcp_socket := new_tcp_socket |}.

Definition ping_hi : WebSocketFrame :=
  {| fin_bit := true; op_code := Ping; mask_key := None; payload := lit "hi" |}.
Definition text_x : WebSocketFrame :=
  {| fin_bit := true; op_code := Text; mask_key := None; payload := lit "x" |}.

Lemma frames_delivered_in_order_witness :
  exists ws' chunks',
    receive_frames 2 {| _tls_socket := tls_with (map Ok [map zb [137]; map zb [2; 104; 105; 129]; map zb [1; 120; 7]]);
                        _buffer := [] |} = Some ([ping_hi; text_x], ws') /\
    to_receive (_tls_socket ws') = map Ok chunks' ++ [] /\ _buffer ws' ++ concat chunks' = map zb [7].
Proof.
  apply (frames_delivered_in_order [ping_hi; text_x] [map zb [137; 2; 104; 105]; map zb [129; 1; 120]] _
           [map zb [137]; map zb [2; 104; 105; 129]; map zb [1; 120; 7]] []); [|done..].
  constructor; [|constructor; [|constructor]].
  - split; [by split; [vm_compute|split; [cbn; split; [done|lia]|]]|].
    exists 2, []. split; [constructor; cbn; lia|]. by vm_compute.
  - split; [by split; [vm_compute|split]|]. exists 1, []. split; [constructor; cbn; lia|]. by vm_compute.
Defined.

(** C36. Pings are answered faithfully: for a ping returned by [receive_frame],
    [send_pong] writes one message, and the peer's parser reads from it a Pong
    frame with the payload of the ping (a control frame from the parser is short
    enough for the reply to be legal). *)
Theorem pong_echoes_ping ws f ws1 key :
  receive_frame ws = Some (Ok f, ws1) -> op_code f = Ping ->
  random_key (_tls_socket ws1) (keys_drawn (_tls_socket ws1)) = Some key -> length key = 4%nat ->
  write_result (_tls_socket ws1) (length (written (_tls_socket ws1))) = None ->
  exists e ws2,
    send_pong ws1 f = (Ok tt, ws2) /\ written (_tls_socket ws2) = written (_tls_socket ws1) ++ [e] /\
    frame_parser e = Ok {| frame := {| fin_bit := true; op_code := Pong; mask_key := Some key; payload := payload f |};
                           bytes_consumed := length e |}.
Proof.
  intros Hr Hop Hkey Hlen Hw. apply receive_frame_ok in Hr as (Hmax & Hctl & _).
  rewrite Hop in Hctl. destruct (Hctl eq_refl) as [_ H125].
  unfold send_pong, send_frame, draw_key, frame_builder. rewrite Hkey. unfold send_data.
  cbn [write_result written]. rewrite Hw. eexists _, _. split; [done|]. split; [done|].
  set (pong := {| fin_bit := true; op_code := Pong; mask_key := Some key; payload := payload f |}).
  match goal with |- frame_parser ?x = _ => set (e := x) end.
  assert (encodes pong e) as Henc by (by apply (builder_encodes key {| fin_bit := true; op_code := Pong;
    mask_key := None; payload := payload f |})).
  assert (frame_ok pong) as Hok by (by split; [|split]).
  pose proof (frame_parser_complete pong e [] Hok Henc) as Hc. by rewrite app_nil_r in Hc.
Qed.

Lemma pong_echoes_ping_witness :
  exists ws1 e ws2,
    receive_frame {| _tls_socket := tls_with [Ok (map zb [137; 2; 104; 105])]; _buffer := [] |} = Some (Ok ping_hi, ws1) /\
    send_pong ws1 ping_hi = (Ok tt, ws2) /\ written (_tls_socket ws2) = [e] /\
    frame_parser e = Ok {| frame := {| fin_bit := true; op_code := Pong; mask_key := Some (map zb [1; 2; 3; 4]);
                                       payload := lit "hi" |}; bytes_consumed := length e |}.
Proof.
  assert (receive_frame {| _tls_socket := tls_with [Ok (map zb [137; 2; 104; 105])]; _buffer := [] |} =
          Some (Ok ping_hi, {| _tls_socket := tls_with []; _buffer := [] |})) as Hr by (by vm_compute).
  destruct (pong_echoes_ping _ _ _ (map zb [1; 2; 3; 4]) Hr eq_refl eq_refl eq_refl eq_refl)
    as (e & ws2 & H1 & H2 & H3).
  eexists _, e, ws2. split; [exact Hr|]. split; [exact H1|]. split; [exact H2|exact H3].
Defined.

(** The handshake keeps nothing of the response: bytes that arrive in the same read
    after the response headers, such as the server's first frame, are dropped, and
    the socket continues as if they had never been sent. *)
Lemma handshake_drops_trailing_bytes ws host auth resolved ssl k calls ss key resp extra inc :
  tls_socket_connect host resolved ssl (_tcp_socket (_tls_socket ws)) = (Ok tt, k, calls, ss) ->
  to_receive (_tls_socket ws) = Ok (resp ++ extra) :: inc -> _buffer ws = [] ->
  starts_with resp (lit "HTTP/1.1 101") = true ->
  write_result (_tls_socket ws) (length (written (_tls_socket ws))) = None ->
  exists ws', connect ws host (Ok auth) resolved ssl (Ok key) = Some (Ok tt, ws', calls) /\
    _buffer ws' = [] /\ to_receive (_tls_socket ws') = inc.
Proof.
  intros Ht Hi Hb Hs Hw. unfold connect, send_data. rewrite Ht. cbn [_tls_socket set_tcp write_result written to_receive].
  rewrite Hw, Hi.
  assert (starts_with (resp ++ extra) (lit "HTTP/1.1 101") = true) as ->.
  { apply starts_with_true in Hs as [r ->]. rewrite <- app_assoc. apply starts_with_app. }
  eexists. split; [done|]. done.
Qed.

(** Whatever the outcome, the descriptors opened are those the socket owns. *)
Lemma connect_open ws host auth resolved ssl key r ws' calls fds :
  connect ws host auth resolved ssl key = Some (r, ws', calls) -> _tcp_socket (_tls_socket ws) = new_tcp_socket ->
  open_after fds calls = owned (_tcp_socket (_tls_socket ws')) ++ fds.
Proof.
  intros H Hnew. unfold connect in H. destruct auth as [auth|e]; [|injection H as <- <- <-; by rewrite Hnew].
  rewrite Hnew in H. destruct (tls_socket_connect host resolved ssl new_tcp_socket) as [[[tr k] cs] ss] eqn:Et.
  assert (open_after fds cs = owned k ++ fds) as Ho by (by eapply tls_connect_open).
  unfold send_data in H. cbn [_tls_socket set_tcp write_result written to_receive] in H.
  repeat case_match; simplify_eq; exact Ho.
Qed.
