(* ===== verification/HttpResponse.v ===== *)
(** * HttpResponse: the HTTP/1.1 response parser (src/protocol/http_response.cpp)

    [parse_http_response] is called with everything received so far.  The loops over
    header lines, chunks and trailer lines move a position forward through the data;
    they take the length of the data as fuel, and [header_loop_fuel],
    [chunk_loop_fuel] and [trailer_loop_fuel] show that more fuel never changes the
    result. *)

From S2P Require Import Prelude FixedPoint CharConv JsonLexer Stream.

(** ** Text helpers *)

Definition kCrlf : bytes := [x0d; x0a].

(** [data.find(needle, pos)]; [None] is [npos]. *)
Fixpoint find_sub (needle s : bytes) : option nat :=
  if starts_with s needle then Some 0%nat
  else match s with [] => None | _ :: s' => S <$> find_sub needle s' end.

Definition find_from (needle s : bytes) (pos : nat) : option nat :=
  Nat.add pos <$> find_sub needle (drop pos s).

Definition find_char (c : byte) (s : bytes) : option nat := find_sub [c] s.

Definition lower (c : byte) : byte := if (65 <=? bz c) && (bz c <=? 90) then zb (bz c + 32) else c.

Definition ichar_equal (x y : byte) : bool := Byte.eqb (lower x) (lower y).

Fixpoint iequals (a b : bytes) : bool :=
  match a, b with
  | [], [] => true
  | x :: a', y :: b' => ichar_equal x y && iequals a' b'
  | _, _ => false
  end.

Fixpoint istarts_with (s word : bytes) : bool :=
  match word, s with
  | [], _ => true
  | w :: word', c :: s' => ichar_equal c w && istarts_with s' word'
  | _ :: _, [] => false
  end.

(** [std::ranges::contains_subrange] *)
Fixpoint icontains (haystack needle : bytes) : bool :=
  istarts_with haystack needle ||
  match haystack with [] => false | _ :: h => icontains h needle end.

Definition is_blank (c : byte) : bool := Byte.eqb c " "%byte || Byte.eqb c x09.

Fixpoint trim_front (s : bytes) : bytes :=
  match s with c :: s' => if is_blank c then trim_front s' else s | [] => [] end.

Definition trim (s : bytes) : bytes := reverse (trim_front (reverse (trim_front s))).

(** ** Headers *)

Record Headers : Type := {
  h_status : Z;
  http10 : bool;
  content_length : option Z;
  chunked : bool;
  connection_keep_alive : option bool;
}.

Record HttpResponse : Type := { http_status : Z; keep_alive : bool; body : bytes }.

Record ParsedHttpResponse : Type := { response : HttpResponse; consumed : nat }.

Definition kMaxHttpHeaderBytes : Z := 64 * 1024.
Definition kMaxHttpBodyBytes : Z := 16 * 1024 * 1024.

Definition set_content_length (h : Headers) (len : Z) : Headers :=
  {| h_status := h_status h; http10 := http10 h; content_length := Some len; chunked := chunked h;
     connection_keep_alive := connection_keep_alive h |}.
Definition set_chunked (h : Headers) (c : bool) : Headers :=
  {| h_status := h_status h; http10 := http10 h; content_length := content_length h; chunked := c;
     connection_keep_alive := connection_keep_alive h |}.
Definition set_keep_alive (h : Headers) (k : bool) : Headers :=
  {| h_status := h_status h; http10 := http10 h; content_length := content_length h; chunked := chunked h;
     connection_keep_alive := Some k |}.

(** The body of the header loop, for one line. *)
Definition header_line (h : Headers) (line : bytes) : expected bytes Headers :=
  match find_char ":"%byte line with
  | None | Some O => Unexpected (lit "Malformed HTTP header line")
  | Some colon =>
    let name := take colon line in
    let value := trim (drop (S colon) line) in
    if iequals name (lit "content-length") then
      match from_chars_all 10 value with
      | None => Unexpected (lit "Malformed Content-Length")
      | Some len =>
        match content_length h with
        | Some old => if old =? len then Ok (set_content_length h len)
                      else Unexpected (lit "Conflicting Content-Length headers")
        | None => Ok (set_content_length h len)
        end
      end
    else if iequals name (lit "transfer-encoding") then Ok (set_chunked h (icontains value (lit "chunked")))
    else if iequals name (lit "connection") then
      if icontains value (lit "close") then Ok (set_keep_alive h false)
      else if icontains value (lit "keep-alive") then Ok (set_keep_alive h true)
      else Ok h
    else Ok h
  end.

Fixpoint header_loop (fuel : nat) (head : bytes) (pos : nat) (h : Headers) : expected bytes Headers :=
  match fuel with
  | O => Ok h
  | S fuel =>
    if (pos <? length head)%nat then
      let fin := default (length head) (find_from kCrlf head pos) in
      let? h := header_line h (substr head pos (fin - pos)) in
      header_loop fuel head (fin + 2) h
    else Ok h
  end.

Definition parse_headers (head : bytes) : expected bytes Headers :=
  let line_end := find_sub kCrlf head in
  let status_line := match line_end with Some e => take e head | None => head end in
  if (length status_line <? 12)%nat || negb (starts_with status_line (lit "HTTP/1."))
     || negb (Byte.eqb (nth 8 status_line x00) " "%byte)
  then Unexpected (lit "Malformed HTTP status line")
  else
    match from_chars_int (substr status_line 9 3) with
    | FcOk st _ =>
      if (st <? 100) || (599 <? st) then Unexpected (lit "Malformed HTTP status code")
      else
        let pos := match line_end with Some e => (e + 2)%nat | None => length head end in
        header_loop (length head) head pos
          {| h_status := st; http10 := Byte.eqb (nth 7 status_line x00) "0"%byte;
             content_length := None; chunked := false; connection_keep_alive := None |}
    | _ => Unexpected (lit "Malformed HTTP status code")
    end.

(** ** Chunked bodies *)

(** The loop over trailer lines: the index after the empty line. *)
Fixpoint trailer_loop (fuel : nat) (data : bytes) (pos : nat) : option nat :=
  match fuel with
  | O => None
  | S fuel =>
    match find_from kCrlf data pos with
    | None => None
    | Some trailer_end =>
      if (trailer_end =? pos)%nat then Some (trailer_end + 2)%nat
      else trailer_loop fuel data (trailer_end + 2)
    end
  end.

(** The chunk size announced by a size line, its extensions dropped. *)
Definition chunk_size_of (line : bytes) : option Z :=
  let size_str := match find_char ";"%byte line with Some i => take i line | None => line end in
  from_chars_all 16 (trim size_str).

(** [decode_chunked]: [None] when more data are needed, otherwise the end of the
    body and the body. *)
Fixpoint chunk_loop (fuel : nat) (data : bytes) (pos : nat) (b : bytes)
    : expected bytes (option (nat * bytes)) :=
  match fuel with
  | O => Ok None
  | S fuel =>
    match find_from kCrlf data pos with
    | None =>
      if (1024 <? length data - pos)%nat then Unexpected (lit "Chunk size line too long") else Ok None
    | Some line_end =>
      match chunk_size_of (substr data pos (line_end - pos)) with
      | None => Unexpected (lit "Malformed chunk size")
      | Some chunk_size =>
        let pos := (line_end + 2)%nat in
        if chunk_size =? 0 then
          Ok (match trailer_loop (S (length data)) data pos with Some e => Some (e, b) | None => None end)
        else if (kMaxHttpBodyBytes <? chunk_size) || (kMaxHttpBodyBytes <? Z.of_nat (length b) + chunk_size)
        then Unexpected (lit "HTTP body too large")
        else if Z.of_nat (length data - pos) <? chunk_size + 2 then Ok None
        else
          let n := Z.to_nat chunk_size in
          if negb (bytes_eqb (substr data (pos + n) 2) kCrlf)
          then Unexpected (lit "Missing CRLF after chunk data")
          else chunk_loop fuel data (pos + n + 2) (b ++ substr data pos n)
      end
    end
  end.

Definition decode_chunked (data : bytes) (pos : nat) : expected bytes (option (nat * bytes)) :=
  chunk_loop (S (length data)) data pos [].

(** ** Responses *)

Definition parse_http_response (data : bytes) (eof : bool) : expected bytes (option ParsedHttpResponse) :=
  match find_sub (kCrlf ++ kCrlf) data with
  | None =>
    if kMaxHttpHeaderBytes <? Z.of_nat (length data) then Unexpected (lit "HTTP headers too large")
    else if eof then Unexpected (lit "Connection closed before HTTP headers were complete")
    else Ok None
  | Some header_end =>
    if kMaxHttpHeaderBytes <? Z.of_nat header_end then Unexpected (lit "HTTP headers too large")
    else
      let? headers := parse_headers (take header_end data) in
      let body_start := (header_end + 4)%nat in
      let make ka b n :=
        Ok (Some {| response := {| http_status := h_status headers; keep_alive := ka; body := b |};
                    consumed := n |}) in
      let ka := default (negb (http10 headers)) (connection_keep_alive headers) in
      if chunked headers then
        let? r := decode_chunked data body_start in
        match r with
        | None => if eof then Unexpected (lit "Connection closed mid-chunked body") else Ok None
        | Some (e, b) => make ka b e
        end
      else
        match content_length headers with
        | Some len =>
          if kMaxHttpBodyBytes <? len then Unexpected (lit "HTTP body too large")
          else if Z.of_nat (length data - body_start) <? len then
            if eof then Unexpected (lit "Connection closed before HTTP body was complete") else Ok None
          else make ka (substr data body_start (Z.to_nat len)) (body_start + Z.to_nat len)%nat
        | None =>
          if (h_status headers <? 200) || (h_status headers =? 204) || (h_status headers =? 304)
          then make ka [] body_start
          else if negb eof then Ok None
          else if kMaxHttpBodyBytes <? Z.of_nat (length data - body_start)
          then Unexpected (lit "HTTP body too large")
          else make false (drop body_start data) (length data)
        end
  end.

(** ** Searching *)

Lemma starts_with_long s r w : (length w <= length s)%nat -> starts_with (s ++ r) w = starts_with s w.
Proof.
  revert s. induction w as [|x w IH]; intros s H.
  - by destruct s, r.
  - destruct s as [|c s]; cbn [starts_with app length] in *; [lia|]. by rewrite IH by lia.
Qed.

Lemma starts_with_length s w : starts_with s w = true -> (length w <= length s)%nat.
Proof.
  revert s. induction w as [|x w IH]; intros [|c s]; cbn [starts_with length]; intros H; try done; try lia.
  apply andb_true_iff in H as [_ H]. apply IH in H. lia.
Qed.

Lemma find_sub_bound w s i : find_sub w s = Some i -> (i + length w <= length s)%nat.
Proof.
  revert i. induction s as [|c s IH]; intros i; cbn [find_sub].
  - destruct (starts_with [] w) eqn:E; [|done]. intros [= <-]. by apply starts_with_length in E.
  - destruct (starts_with (c :: s) w) eqn:E.
    + intros [= <-]. by apply starts_with_length in E.
    + destruct (find_sub w s) as [j|]; [|done]. intros [= <-]. specialize (IH j eq_refl). cbn. lia.
Qed.

Lemma find_sub_app w s r i : find_sub w s = Some i -> find_sub w (s ++ r) = Some i.
Proof.
  revert i. induction s as [|c s IH]; intros i; cbn [find_sub app].
  - destruct w as [|x w]; [|done]. intros [= <-]. by destruct r.
  - destruct (starts_with (c :: s) w) eqn:E.
    + intros [= <-]. pose proof (starts_with_length _ _ E) as Hl.
      pose proof (starts_with_long (c :: s) r w Hl) as Hs. cbn [app] in Hs. by rewrite Hs, E.
    + destruct (find_sub w s) as [j|] eqn:Ej; [|done]. intros [= <-].
      pose proof (find_sub_bound _ _ _ Ej).
      pose proof (starts_with_long (c :: s) r w ltac:(cbn; lia)) as Hs. cbn [app] in Hs. rewrite Hs, E.
      by rewrite (IH j eq_refl).
Qed.

Lemma find_from_crlf s p i : find_from kCrlf s p = Some i -> (p <= i)%nat /\ (i + 2 <= length s)%nat.
Proof.
  unfold find_from. destruct (find_sub kCrlf (drop p s)) as [j|] eqn:E; [|done]. intros [= <-].
  apply find_sub_bound in E. rewrite length_drop in E. cbn in E. lia.
Qed.

Lemma find_from_app s r p i : find_from kCrlf s p = Some i -> find_from kCrlf (s ++ r) p = Some i.
Proof.
  intros H. pose proof (find_from_crlf _ _ _ H). unfold find_from in *.
  rewrite drop_app_le by lia. destruct (find_sub kCrlf (drop p s)) as [j|] eqn:E; [|done].
  by rewrite (find_sub_app _ _ r _ E).
Qed.

Lemma substr_app_le (s r : bytes) p n : (p + n <= length s)%nat -> substr (s ++ r) p n = substr s p n.
Proof. intros H. unfold substr. rewrite drop_app_le, take_app_le; [done|rewrite length_drop|]; lia. Qed.

Lemma substr_length (s : bytes) p n : (p + n <= length s)%nat -> length (substr s p n) = n.
Proof. intros H. unfold substr. rewrite length_take, length_drop. lia. Qed.

Lemma chunk_size_nonneg line n : chunk_size_of line = Some n -> 0 <= n.
Proof. intros H. by apply from_chars_all_u64 in H as [? _]. Qed.

(** ** Fuel *)

Lemma header_loop_fuel f f' head pos h :
  (length head - pos <= f)%nat -> (length head - pos <= f')%nat ->
  header_loop f head pos h = header_loop f' head pos h.
Proof.
  revert f' pos h. induction f as [|f IH]; intros [|f'] pos h Hf Hf'; cbn [header_loop]; try done.
  1,2: destruct (Nat.ltb_spec pos (length head)); [lia|done].
  destruct (Nat.ltb_spec pos (length head)) as [Hp|]; [|done].
  destruct (header_line h _); [|done].
  assert (pos <= default (length head) (find_from kCrlf head pos))%nat.
  { destruct (find_from kCrlf head pos) as [i|] eqn:E; cbn; [|lia]. apply find_from_crlf in E. lia. }
  apply IH; lia.
Qed.

Lemma trailer_loop_fuel f f' data pos :
  (length data - pos < f)%nat -> (length data - pos < f')%nat ->
  trailer_loop f data pos = trailer_loop f' data pos.
Proof.
  revert f' pos. induction f as [|f IH]; intros [|f'] pos Hf Hf'; try lia. cbn [trailer_loop].
  destruct (find_from kCrlf data pos) as [i|] eqn:E; [|done]. apply find_from_crlf in E.
  destruct (i =? pos)%nat; [done|]. apply IH; lia.
Qed.

Lemma chunk_loop_fuel f f' data pos b :
  (length data - pos < f)%nat -> (length data - pos < f')%nat ->
  chunk_loop f data pos b = chunk_loop f' data pos b.
Proof.
  revert f' pos b. induction f as [|f IH]; intros [|f'] pos b Hf Hf'; try lia. cbn [chunk_loop].
  destruct (find_from kCrlf data pos) as [i|] eqn:E; [|done]. apply find_from_crlf in E.
  destruct (chunk_size_of _) as [n|]; [|done]. destruct (n =? 0); [done|].
  destruct (_ || _); [done|]. destruct (_ <? n + 2); [done|]. destruct (negb _); [done|]. apply IH; lia.
Qed.

(** ** Extension of the data *)

Lemma trailer_loop_app f f' data rest pos e :
  trailer_loop f data pos = Some e -> (f <= f')%nat ->
  trailer_loop f' (data ++ rest) pos = Some e /\ (pos <= e <= length data)%nat.
Proof.
  revert f' pos. induction f as [|f IH]; intros [|f'] pos; cbn [trailer_loop]; try done; [lia|].
  destruct (find_from kCrlf data pos) as [i|] eqn:E; [|done].
  rewrite (find_from_app _ rest _ _ E). apply find_from_crlf in E.
  destruct (i =? pos)%nat.
  - intros [= <-] _. split; [done|lia].
  - intros H Hle. destruct (IH f' (i + 2)%nat H ltac:(lia)) as [? ?]. split; [done|lia].
Qed.

Lemma chunk_loop_app f f' data rest pos b e b' :
  chunk_loop f data pos b = Ok (Some (e, b')) -> (f <= f')%nat ->
  Z.of_nat (length b) <= kMaxHttpBodyBytes ->
  chunk_loop f' (data ++ rest) pos b = Ok (Some (e, b')) /\ (pos <= e <= length data)%nat /\
  Z.of_nat (length b') <= kMaxHttpBodyBytes.
Proof.
  revert f' pos b. induction f as [|f IH]; intros [|f'] pos b; cbn [chunk_loop]; try done; [lia|].
  destruct (find_from kCrlf data pos) as [i|] eqn:E; [|by destruct (_ <? _)%nat].
  rewrite (find_from_app _ rest _ _ E). apply find_from_crlf in E.
  rewrite substr_app_le by lia. destruct (chunk_size_of _) as [n|] eqn:En; [|done].
  destruct (Z.eqb_spec n 0) as [_|Hn0].
  - destruct (trailer_loop (S (length data)) data (i + 2)) as [e0|] eqn:Et; [|done].
    intros [= <- <-] _ Hb.
    apply (trailer_loop_app _ (S (length (data ++ rest))) _ rest) in Et as [-> ?]; [|rewrite length_app; lia].
    split; [done|]. split; [lia|done].
  - destruct (_ || _) eqn:Emax; [done|]. apply orb_false_iff in Emax as [Hmax1 Hmax2].
    apply Z.ltb_ge in Hmax1, Hmax2.
    destruct (Z.ltb_spec (Z.of_nat (length data - (i + 2))) (n + 2)) as [|Hlen]; [done|].
    apply chunk_size_nonneg in En.
    destruct (Z.ltb_spec (Z.of_nat (length (data ++ rest) - (i + 2))) (n + 2)) as [Hx|_];
      [rewrite length_app in Hx; lia|].
    rewrite !substr_app_le by lia. destruct (negb _); [done|]. intros H Hle Hb.
    destruct (IH f' (i + 2 + Z.to_nat n + 2)%nat (b ++ substr data (i + 2) (Z.to_nat n)) H) as (Hr & He & Hb').
    + lia.
    + rewrite length_app, substr_length by lia. lia.
    + split; [done|]. split; [lia|done].
Qed.

(** ** Whole responses *)

Lemma header_line_status h line h' : header_line h line = Ok h' -> h_status h' = h_status h.
Proof.
  unfold header_line. destruct (find_char _ line) as [[|colon]|]; [done| |done].
  repeat case_match; intros [= <-]; done.
Qed.

Lemma header_loop_status f head pos h h' : header_loop f head pos h = Ok h' -> h_status h' = h_status h.
Proof.
  revert pos h. induction f as [|f IH]; intros pos h; cbn [header_loop]; [by intros [= <-]|].
  destruct (_ <? _)%nat; [|by intros [= <-]]. destruct (header_line h _) as [h1|] eqn:E; [|done].
  intros H. apply IH in H. rewrite H. by eapply header_line_status.
Qed.

Lemma parse_headers_status head h : parse_headers head = Ok h -> 100 <= h_status h <= 599.
Proof.
  unfold parse_headers. destruct (_ || _); [done|].
  destruct (from_chars_int _) as [| |st n]; [done..|]. destruct (_ || _) eqn:E; [done|].
  intros H%header_loop_status. rewrite H. cbn. bool_hyps. lia.
Qed.

(** What a returned response satisfies. *)
Definition response_ok (data : bytes) (p : ParsedHttpResponse) : Prop :=
  (consumed p <= length data)%nat /\ 100 <= http_status (response p) <= 599 /\
  Z.of_nat (length (body (response p))) <= kMaxHttpBodyBytes.

Lemma decode_chunked_app data rest pos e b :
  decode_chunked data pos = Ok (Some (e, b)) ->
  decode_chunked (data ++ rest) pos = Ok (Some (e, b)) /\ (e <= length data)%nat /\
  Z.of_nat (length b) <= kMaxHttpBodyBytes.
Proof.
  unfold decode_chunked. intros H.
  apply (chunk_loop_app _ (S (length (data ++ rest))) _ rest) in H as (Hr & He & Hb).
  - split; [done|]. split; [lia|done].
  - rewrite length_app. lia.
  - done.
Qed.

Lemma parse_response_ok data eof p : parse_http_response data eof = Ok (Some p) -> response_ok data p.
Proof.
  unfold parse_http_response. destruct (find_sub _ data) as [he|] eqn:Ef.
  2: { by destruct (_ <? _), eof. }
  apply find_sub_bound in Ef. cbn in Ef. destruct (_ <? _); [done|].
  destruct (parse_headers _) as [h|] eqn:Eh; [|done]. apply parse_headers_status in Eh.
  destruct (chunked h).
  { destruct (decode_chunked data _) as [[[e b]|]|] eqn:Ed; [| by destruct eof | done].
    intros [= <-]. apply (decode_chunked_app _ []) in Ed as (_ & ? & ?). done. }
  destruct (content_length h) as [len|].
  { destruct (Z.ltb_spec kMaxHttpBodyBytes len); [done|].
    destruct (Z.ltb_spec (Z.of_nat (length data - (he + 4))) len); [by destruct eof|].
    intros [= <-]. split; [cbn; lia|]. split; [done|]. cbn. unfold substr. rewrite length_take.
    unfold kMaxHttpBodyBytes in *. lia. }
  destruct (_ || _). { intros [= <-]. split; [cbn; lia|done]. }
  destruct eof; cbn [negb]; [|done].
  destruct (Z.ltb_spec kMaxHttpBodyBytes (Z.of_nat (length data - (he + 4)))); [done|].
  intros [= <-]. split; [cbn; lia|]. split; [done|]. cbn. rewrite length_drop. lia.
Qed.

Lemma parse_response_app data rest p :
  parse_http_response data false = Ok (Some p) -> parse_http_response (data ++ rest) false = Ok (Some p).
Proof.
  unfold parse_http_response. destruct (find_sub _ data) as [he|] eqn:Ef; [|by destruct (_ <? _)].
  rewrite (find_sub_app _ _ rest _ Ef). apply find_sub_bound in Ef. cbn in Ef.
  destruct (_ <? _); [done|]. rewrite take_app_le by lia.
  destruct (parse_headers _) as [h|]; [|done]. destruct (chunked h).
  { destruct (decode_chunked data _) as [[[e b]|]|] eqn:Ed; [|done..].
    apply (decode_chunked_app _ rest) in Ed as (-> & _). done. }
  destruct (content_length h) as [len|]; [|by destruct (_ || _)].
  destruct (_ <? len); [done|].
  destruct (Z.ltb_spec (Z.of_nat (length data - (he + 4))) len); [done|].
  destruct (Z.ltb_spec (Z.of_nat (length (data ++ rest) - (he + 4))) len) as [Hx|_];
    [rewrite length_app in Hx; lia|].
  intros [= <-]. by rewrite substr_app_le by lia.
Qed.

(** [parse_http_response] as the reader sees it. *)
Definition http_step (data : bytes) : progress HttpResponse :=
  match parse_http_response data false with
  | Ok (Some p) => Done (response p) (consumed p)
  | Ok None => More
  | Unexpected e => Bad e
  end.

#[export] Instance http_stream : StreamParser http_step.
Proof.
  split; intros b; unfold http_step.
  - intros r n. destruct (parse_http_response b false) as [[p|]|] eqn:E; [|done..].
    intros [= <- <-]. by apply parse_response_ok in E as [? _].
  - intros rest r n. destruct (parse_http_response b false) as [[p|]|] eqn:E; [|done..].
    intros [= <- <-]. by rewrite (parse_response_app _ rest _ E).
Qed.

(** ** Properties *)

(** The HTTP parser is consistent under incremental delivery: once a prefix of
    the stream yields a response, every longer prefix yields the same response with
    the same byte count. *)
Theorem http_response_stable data rest p :
  parse_http_response data false = Ok (Some p) -> parse_http_response (data ++ rest) false = Ok (Some p).
Proof. apply parse_response_app. Qed.

(** C37. Bounds of a returned response, with or without end of file: it consumes at
    most the data given, its status is between 100 and 599 and its body is at most
    16 MiB, whatever framing the response uses. *)
Theorem http_response_bounds data eof p :
  parse_http_response data eof = Ok (Some p) ->
  (consumed p <= length data)%nat /\ 100 <= http_status (response p) <= 599 /\
  Z.of_nat (length (body (response p))) <= kMaxHttpBodyBytes.
Proof. apply parse_response_ok. Qed.

Definition crlf_lines (l : list string) : bytes := concat (map (fun s => lit s ++ kCrlf) l).

Definition sample_response : bytes :=
  crlf_lines ["HTTP/1.1 201 Created"; "Transfer-Encoding: chunked"; ""; "4;ext=1"; "abcd"; "3"; "efg"; "0";
              "X-Trailer: y"; ""]%string.

Definition sample_parsed : ParsedHttpResponse :=
  {| response := {| http_status := 201; keep_alive := true; body := lit "abcdefg" |};
     consumed := length sample_response |}.

Lemma http_response_stable_witness :
  parse_http_response (sample_response ++ lit "HTTP/1.1 200") false = Ok (Some sample_parsed).
Proof. apply (http_response_stable sample_response). by vm_compute. Defined.

Lemma http_response_bounds_witness : (consumed sample_parsed <= length sample_response)%nat.
Proof. apply (http_response_bounds sample_response true sample_parsed). by vm_compute. Defined.

(** An error is not final, unlike a response: a header block of at most 64 KiB is
    rejected if the buffer passes 64 KiB before its last byte arrives, and accepted
    when it arrives whole. *)
Definition long_headers : bytes :=
  lit "HTTP/1.1 204 X" ++ kCrlf ++ lit "A:" ++ repeat "a"%byte (Z.to_nat 65517) ++ [x0d; x0a; x0d].

Definition response_status (r : expected bytes (option ParsedHttpResponse)) : option Z :=
  match r with Ok (Some p) => Some (http_status (response p)) | _ => None end.

Lemma header_limit_depends_on_chunking :
  http_step long_headers = Bad (lit "HTTP headers too large") /\
  response_status (parse_http_response (long_headers ++ [x0a]) false) = Some 204.
Proof. split; by vm_compute. Qed.

(** The same for the size line of a chunk, limited only while its CRLF is missing. *)
Lemma chunk_line_limit_depends_on_chunking :
  let head := crlf_lines ["HTTP/1.1 200 OK"; "Transfer-Encoding: chunked"; ""]%string in
  let line := lit "2;" ++ repeat "x"%byte (Z.to_nat 1100) in
  http_step (head ++ line) = Bad (lit "Chunk size line too long") /\
  response_status (parse_http_response (head ++ line ++ kCrlf ++ crlf_lines ["ok"; "0"; ""]%string) false) = Some 200.
Proof. split; by vm_compute. Qed.

(** ** Lines

    A message is its lines joined by CRLF; the position-based loops see exactly
    those lines. *)

(** A line without carriage returns. *)
Definition clean (line : bytes) : Prop := Forall (fun c => c <> x0d) line.

Definition joined (lines : list bytes) : bytes := concat (map (fun l => kCrlf ++ l) lines).

Lemma find_sub_clean w line r :
  clean line -> find_sub (x0d :: w) (line ++ r) = Nat.add (length line) <$> find_sub (x0d :: w) r.
Proof.
  intros Hc. induction Hc as [|c line Hc Hl IH]; cbn [app length].
  - by destruct (find_sub (x0d :: w) r).
  - cbn [find_sub starts_with]. destruct (byte_eqb_spec c x0d); [done|]. cbn [andb]. rewrite IH.
    by destruct (find_sub (x0d :: w) r).
Qed.

Lemma starts_with_nil s : starts_with s [] = true.
Proof. by destruct s. Qed.

Lemma find_crlf_clean line r : clean line -> find_sub kCrlf (line ++ kCrlf ++ r) = Some (length line).
Proof. intros Hc. unfold kCrlf at 1. rewrite find_sub_clean by done. cbn. rewrite starts_with_nil. cbn. by rewrite Nat.add_0_r. Qed.

Lemma find_crlf_none line : clean line -> find_sub kCrlf line = None.
Proof. intros Hc. unfold kCrlf. rewrite <- (app_nil_r line), find_sub_clean; done. Qed.

(** Lines of a header block are not empty and hold no carriage return. *)
Definition header_lines (lines : list bytes) : Prop := Forall (fun l => clean l /\ l <> []) lines.

Lemma find_header_end first lines r :
  clean first -> header_lines lines ->
  find_sub (kCrlf ++ kCrlf) ((first ++ joined lines) ++ kCrlf ++ kCrlf ++ r) = Some (length (first ++ joined lines)).
Proof.
  intros Hf Hl. revert first Hf. induction Hl as [|l lines [Hc Hne] Hl IH]; intros first Hf.
  - unfold joined. cbn [map concat]. rewrite app_nil_r. cbn [app kCrlf].
    rewrite find_sub_clean by done. cbn. rewrite starts_with_nil. cbn. by rewrite Nat.add_0_r.
  - destruct l as [|c l]; [done|]. unfold joined. cbn [map concat]. fold (joined lines).
    cbn [app kCrlf]. rewrite <- app_assoc, find_sub_clean by done. cbn [app].
    specialize (IH (c :: l) Hc). cbn [app kCrlf] in IH.
    apply Forall_cons_1 in Hc as [Hc0 _].
    cbn [find_sub starts_with]. destruct (byte_eqb_spec c x0d); [done|].
    rewrite !byte_eqb_refl. cbn [andb]. change (Byte.eqb x0a x0d) with false. cbn [andb].
    cbn [find_sub starts_with] in IH. destruct (byte_eqb_spec c x0d) in IH; [done|]. cbn [andb] in IH.
    rewrite <- app_assoc in *. rewrite IH. cbn [kCrlf].
    destruct (byte_eqb_spec c x0d); [done|]. cbn. rewrite !length_app. cbn. by rewrite length_app.
Qed.

(** The header lines in order, stopping at the first error. *)
Fixpoint fold_headers (h : Headers) (lines : list bytes) : expected bytes Headers :=
  match lines with
  | [] => Ok h
  | l :: lines => let? h := header_line h l in fold_headers h lines
  end.

Lemma header_loop_lines lines pre f h :
  header_lines lines -> (length (joined lines) <= f)%nat ->
  header_loop f (pre ++ joined lines) (length pre + 2) h = fold_headers h lines.
Proof.
  intros Hl. revert pre f h. induction Hl as [|l lines [Hc Hne] Hl IH]; intros pre f h Hf.
  - unfold joined. cbn. rewrite app_nil_r. destruct f as [|f]; [done|]. cbn [header_loop].
    by destruct (Nat.ltb_spec (length pre + 2) (length pre)); [lia|].
  - unfold joined in *. cbn [map concat fold_headers] in *. fold (joined lines) in *.
    rewrite !length_app in Hf. cbn [length kCrlf] in Hf.
    destruct f as [|f]; [lia|]. cbn [header_loop].
    assert (length l <> 0)%nat by (by destruct l).
    destruct (Nat.ltb_spec (length pre + 2) (length (pre ++ (kCrlf ++ l) ++ joined lines))) as [_|Hx].
    2: { rewrite !length_app in Hx. cbn in Hx. lia. }
    assert (drop (length pre + 2) (pre ++ (kCrlf ++ l) ++ joined lines) = l ++ joined lines) as Hdrop.
    { rewrite <- drop_drop, drop_app_length. done. }
    assert (default (length (pre ++ (kCrlf ++ l) ++ joined lines))
              (find_from kCrlf (pre ++ (kCrlf ++ l) ++ joined lines) (length pre + 2)) =
            length pre + 2 + length l)%nat as Hend.
    { unfold find_from. rewrite Hdrop. destruct lines as [|l2 lines].
      - unfold joined. cbn [map concat]. rewrite !app_nil_r, find_crlf_none by done. cbn.
        rewrite !length_app. cbn. lia.
      - unfold joined. cbn [map concat]. rewrite <- (app_assoc kCrlf l2), find_crlf_clean by done. done. }
    rewrite Hend. unfold substr. rewrite Hdrop.
    replace (length pre + 2 + length l - (length pre + 2))%nat with (length l) by lia.
    rewrite take_app_length. destruct (header_line h l) as [h'|]; [|done].
    replace (pre ++ (kCrlf ++ l) ++ joined lines) with ((pre ++ kCrlf ++ l) ++ joined lines)
      by (by rewrite <- !app_assoc).
    replace (length pre + 2 + length l + 2)%nat with (length (pre ++ kCrlf ++ l) + 2)%nat
      by (rewrite !length_app; cbn; lia).
    apply IH. lia.
Qed.

(** ** Messages *)

Definition status_line (st : Z) (reason : bytes) : bytes :=
  lit "HTTP/1.1 " ++ fmt_uint st ++ lit " " ++ reason.

(** A response: the status line, the header lines, an empty line and the body. *)
Definition http_message (st : Z) (reason : bytes) (lines : list bytes) (content : bytes) : bytes :=
  (status_line st reason ++ joined lines) ++ kCrlf ++ kCrlf ++ content.

Definition three_digits (st : Z) : bool :=
  match fmt_uint st with
  | [a; b; c] => forallb (fun x => negb (Byte.eqb x x0d)) [a; b; c] &&
                 match from_chars_int [a; b; c] with FcOk v _ => v =? st | _ => false end
  | _ => false
  end.

Lemma status_digits st :
  100 <= st <= 599 ->
  exists a b c n, fmt_uint st = [a; b; c] /\ clean [a; b; c] /\ from_chars_int [a; b; c] = FcOk st n.
Proof.
  intros Hst. assert (three_digits st = true) as H.
  { assert (forallb (fun n => three_digits (Z.of_nat n)) (List.seq 100 500) = true) as Hall by (by vm_compute).
    rewrite forallb_forall in Hall. rewrite <- (Z2Nat.id st) by lia. apply Hall, in_seq. lia. }
  unfold three_digits in H. destruct (fmt_uint st) as [|a [|b [|c [|d s]]]]; try done.
  apply andb_true_iff in H as [Hc H]. destruct (from_chars_int [a; b; c]) as [| |v n] eqn:E; try done.
  apply Z.eqb_eq in H as ->. exists a, b, c, n. split; [done|]. split; [|done].
  apply List.Forall_forall. intros x Hx. rewrite forallb_forall in Hc. specialize (Hc x Hx).
  by destruct (byte_eqb_spec x x0d).
Qed.

Lemma status_line_clean st reason : 100 <= st <= 599 -> clean reason -> clean (status_line st reason).
Proof.
  intros Hst Hr. unfold status_line. destruct (status_digits st Hst) as (a & b & c & n & -> & Hd & _).
  apply Forall_app. split; [by repeat constructor|]. apply Forall_app. split; [done|].
  apply Forall_app. split; [by repeat constructor|done].
Qed.

Definition start_headers (st : Z) : Headers :=
  {| h_status := st; http10 := false; content_length := None; chunked := false; connection_keep_alive := None |}.

Lemma parse_headers_message st reason lines :
  100 <= st <= 599 -> clean reason -> header_lines lines ->
  parse_headers (status_line st reason ++ joined lines) = fold_headers (start_headers st) lines.
Proof.
  intros Hst Hr Hl. pose proof (status_line_clean st reason Hst Hr) as Hc.
  pose proof (header_loop_lines lines (status_line st reason)
    (length (status_line st reason ++ joined lines)) (start_headers st) Hl) as Hloop.
  rewrite length_app in Hloop at 1. specialize (Hloop ltac:(lia)).
  set (sl := status_line st reason) in *.
  assert (exists pos,
    match find_sub kCrlf (sl ++ joined lines) with Some e => take e (sl ++ joined lines) | None => sl ++ joined lines end
      = sl /\
    match find_sub kCrlf (sl ++ joined lines) with Some e => (e + 2)%nat | None => length (sl ++ joined lines) end
      = pos /\
    header_loop (length (sl ++ joined lines)) (sl ++ joined lines) pos (start_headers st) =
    fold_headers (start_headers st) lines) as (pos & Hsl & Hpos & Hres).
  { destruct Hl as [|l lines [Hcl _] Hl].
    - exists (length sl). unfold joined. cbn [map concat]. rewrite app_nil_r, find_crlf_none by done.
      split; [done|]. split; [done|]. destruct (length sl) as [|m] eqn:E; [done|]. cbn [header_loop].
      rewrite E. by rewrite Nat.ltb_irrefl.
    - exists (length sl + 2)%nat. rewrite Hloop. unfold joined. cbn [map concat].
      rewrite <- (app_assoc kCrlf l), find_crlf_clean by done. by rewrite take_app_length. }
  destruct (status_digits st Hst) as (a & b & c & n & Hf & _ & Hfc).
  assert ((length sl <? 12)%nat = false /\ starts_with sl (lit "HTTP/1.") = true /\
    nth 8 sl x00 = " "%byte /\ nth 7 sl x00 = "1"%byte /\ substr sl 9 3 = [a; b; c]) as (H1 & H2 & H3 & H4 & H5).
  { subst sl. unfold status_line. rewrite Hf. by repeat split. }
  unfold parse_headers. rewrite Hsl, Hpos, H1, H2, H3, H4, H5, Hfc. cbn [negb orb Byte.eqb].
  destruct (Z.ltb_spec st 100), (Z.ltb_spec 599 st); try lia. exact Hres.
Qed.

Lemma parse_message st reason lines content h :
  100 <= st <= 599 -> clean reason -> header_lines lines ->
  fold_headers (start_headers st) lines = Ok h ->
  let head := status_line st reason ++ joined lines in
  let data := http_message st reason lines content in
  let body_start := (length head + 4)%nat in
  find_sub (kCrlf ++ kCrlf) data = Some (length head) /\
  parse_headers (take (length head) data) = Ok h /\
  drop body_start data = content /\ length data = (body_start + length content)%nat.
Proof.
  intros Hst Hr Hl Hh head data body_start. subst head data body_start. unfold http_message.
  split; [apply find_header_end; [by apply status_line_clean|done]|].
  split; [rewrite take_app_length; by rewrite parse_headers_message|].
  split.
  - rewrite <- drop_drop, drop_app_length. done.
  - rewrite !length_app. cbn. lia.
Qed.

(** ** Content-Length *)

Lemma trim_front_solid s : Forall (fun c => is_blank c = false) s -> trim_front s = s.
Proof. intros H. destruct H as [|c s Hc Hs]; cbn [trim_front]; [done|]. by rewrite Hc. Qed.

Lemma trim_solid s : Forall (fun c => is_blank c = false) s -> trim s = s.
Proof.
  intros H. unfold trim. rewrite (trim_front_solid s) by done.
  rewrite (trim_front_solid (reverse s)); [by rewrite reverse_involutive|].
  by apply Forall_reverse.
Qed.

Lemma digit_not_blank c : digit_char c -> is_blank c = false.
Proof.
  unfold digit_char, is_blank. intros H.
  destruct (byte_eqb_spec c " "%byte) as [->|]; [vm_compute in H; by destruct H|].
  destruct (byte_eqb_spec c x09) as [->|]; [vm_compute in H; by destruct H|done].
Qed.

Definition content_length_line (n : Z) : bytes := lit "Content-Length: " ++ fmt_uint n.

Lemma content_length_header h n :
  in_u64 n -> content_length h = None ->
  header_line h (content_length_line n) = Ok (set_content_length h n).
Proof.
  intros Hn Hh. unfold header_line, content_length_line.
  change (find_char ":"%byte (lit "Content-Length: " ++ fmt_uint n)) with (Some 14%nat). cbv iota beta.
  change (iequals (take 14 (lit "Content-Length: " ++ fmt_uint n)) (lit "content-length")) with true.
  cbv iota. change (drop 15 (lit "Content-Length: " ++ fmt_uint n)) with (" "%byte :: fmt_uint n).
  assert (trim (" "%byte :: fmt_uint n) = fmt_uint n) as ->.
  { change (trim (" "%byte :: fmt_uint n)) with (trim (fmt_uint n)). apply trim_solid.
    destruct (fmt_uint_spec n) as (Hd & _); [by destruct Hn|].
    eapply Forall_impl; [exact Hd|]. apply digit_not_blank. }
  by rewrite from_chars_fmt_uint, Hh.
Qed.

Lemma content_length_line_ok n : 0 <= n -> clean (content_length_line n) /\ content_length_line n <> [].
Proof.
  intros Hn. split; [|done]. unfold content_length_line. apply Forall_app. split; [by repeat constructor|].
  destruct (fmt_uint_spec n Hn) as (Hd & _). eapply Forall_impl; [exact Hd|].
  intros c Hc ->. vm_compute in Hc. by destruct Hc.
Qed.

(** ** Chunks *)

(** The hexadecimal digits and their values. *)
Definition hex_table : list (byte * Z) :=
  [("0"%byte, 0); ("1"%byte, 1); ("2"%byte, 2); ("3"%byte, 3); ("4"%byte, 4); ("5"%byte, 5); ("6"%byte, 6); ("7"%byte, 7);
   ("8"%byte, 8); ("9"%byte, 9); ("a"%byte, 10); ("b"%byte, 11); ("c"%byte, 12); ("d"%byte, 13); ("e"%byte, 14); ("f"%byte, 15);
   ("A"%byte, 10); ("B"%byte, 11); ("C"%byte, 12); ("D"%byte, 13); ("E"%byte, 14); ("F"%byte, 15)].

(** The hexadecimal numerals and their values, the last digit the least. *)
Inductive hex_numeral : bytes -> Z -> Prop :=
| hex_digit_alone c d : (c, d) ∈ hex_table -> hex_numeral [c] d
| hex_digit_after ds n c d : hex_numeral ds n -> (c, d) ∈ hex_table -> hex_numeral (ds ++ [c]) (16 * n + d).

(** The size line of a chunk of [n] bytes (RFC 9112, 7.1): a hexadecimal numeral, which
    may stand between spaces and tabs, and perhaps extensions after a semicolon. *)
Definition size_line (n : Z) (line : bytes) : Prop :=
  exists blanks ds blanks' ext,
    line = blanks ++ ds ++ blanks' ++ ext /\ hex_numeral ds n /\ Forall (fun c => c ∈ lit " " ++ [x09]) (blanks ++ blanks') /\
    (ext = [] \/ exists exts, ext = ";"%byte :: exts).

(** A chunk: its size line and its data. *)
Definition chunk_ok (c : bytes * bytes) : Prop :=
  clean c.1 /\ size_line (Z.of_nat (length c.2)) c.1 /\ c.2 <> [].

Lemma hex_table_digit c d : (c, d) ∈ hex_table -> digit_value 16 c = Some d /\ is_blank c = false /\ c <> ";"%byte.
Proof.
  assert (forallb (fun '(c, d) => bool_decide (digit_value 16 c = Some d) && negb (is_blank c) && negb (Byte.eqb c ";"%byte)) hex_table = true)
    as H by (by vm_compute).
  rewrite forallb_forall in H. intros Hin. apply list_elem_of_In, H in Hin. cbv beta iota in Hin.
  apply andb_true_iff in Hin as [[H1 H2]%andb_true_iff H3]. split; [by eapply bool_decide_eq_true|].
  split; [by apply negb_true_iff|]. by destruct (byte_eqb_spec c ";"%byte).
Qed.

Lemma scan_digits_app base s1 s2 acc n v :
  scan_digits base s1 acc n = (v, (n + length s1)%nat) -> scan_digits base (s1 ++ s2) acc n = scan_digits base s2 v (n + length s1).
Proof.
  revert acc n. induction s1 as [|c s1 IH]; intros acc n; cbn; [by rewrite Nat.add_0_r; intros [= ->]|].
  destruct (digit_value base c); [|intros [= _ H]; lia]. rewrite Nat.add_succ_r, <- Nat.add_succ_l. apply IH.
Qed.

Lemma hex_numeral_scan ds n :
  hex_numeral ds n -> scan_digits 16 ds 0 0 = (n, length ds) /\ ds <> [] /\ Forall (fun c => is_blank c = false /\ c <> ";"%byte) ds.
Proof.
  induction 1 as [c d (H1 & H2 & H3)%hex_table_digit|ds n c d _ (IH & Hne & Hds) (H1 & H2 & H3)%hex_table_digit].
  - cbn. rewrite H1. split; [done|]. split; [done|]. by constructor.
  - split; [|split; [by destruct ds|apply Forall_app; split; [done|by constructor]]].
    rewrite (scan_digits_app 16 ds [c] 0 0 n) by done. cbn. rewrite H1, length_app, Nat.add_1_r. f_equal. lia.
Qed.

Lemma hex_numeral_read ds n : hex_numeral ds n -> n <= UINT64_MAX -> from_chars_all 16 ds = Some n.
Proof.
  intros (Hs & Hne & _)%hex_numeral_scan Hn. unfold from_chars_all, from_chars_u64. rewrite Hs.
  destruct ds; [done|]. cbn [length Nat.eqb]. destruct (Z.ltb_spec UINT64_MAX n); [lia|]. by rewrite Nat.eqb_refl.
Qed.

Lemma trim_front_blanks blanks s : Forall (fun c => is_blank c = true) blanks -> trim_front (blanks ++ s) = trim_front s.
Proof. induction 1 as [|c blanks Hc _ IH]; cbn; [done|]. by rewrite Hc. Qed.

Lemma trim_blanks blanks s blanks' :
  Forall (fun c => is_blank c = true) (blanks ++ blanks') -> Forall (fun c => is_blank c = false) s -> s <> [] ->
  trim (blanks ++ s ++ blanks') = s.
Proof.
  intros [H1 H2]%Forall_app Hs Hne. unfold trim. rewrite trim_front_blanks by done.
  destruct Hs as [|c s Hc Hs]; [done|]. cbn [app trim_front]. rewrite Hc, app_comm_cons, reverse_app, trim_front_blanks by (by apply Forall_reverse).
  rewrite trim_front_solid; [by rewrite reverse_involutive|]. apply Forall_reverse. by constructor.
Qed.

Lemma find_char_none c s : Forall (fun x => x <> c) s -> find_char c s = None.
Proof.
  unfold find_char. induction 1 as [|x s Hx _ IH]; [done|]. cbn [find_sub] in *.
  cbn [starts_with]. destruct (byte_eqb_spec x c); [done|]. cbn [andb]. by rewrite IH.
Qed.

Lemma find_char_first c s r : Forall (fun x => x <> c) s -> find_char c (s ++ c :: r) = Some (length s).
Proof.
  unfold find_char. induction 1 as [|x s Hx _ IH]; cbn [app find_sub starts_with length].
  - destruct (byte_eqb_spec c c); [|done]. cbn [andb]. by destruct r.
  - destruct (byte_eqb_spec x c); [done|]. cbn [andb]. by rewrite IH.
Qed.

(** The code reads the size that the line announces. *)
Lemma size_line_read n line : size_line n line -> n <= UINT64_MAX -> chunk_size_of line = Some n.
Proof.
  intros (blanks & ds & blanks' & ext & -> & Hd & Hb & Hext) Hn. pose proof (hex_numeral_scan _ _ Hd) as (_ & Hne & Hds).
  assert (Forall (fun c => is_blank c = true) (blanks ++ blanks')) as Hbl.
  { eapply Forall_impl; [exact Hb|]. intros c Hc. apply elem_of_cons in Hc as [->|Hc]; [done|].
    apply list_elem_of_singleton in Hc as ->. done. }
  assert (Forall (fun c => c <> ";"%byte) (blanks ++ ds ++ blanks')) as Hsemi.
  { apply Forall_app in Hbl as [Hb1 Hb2]. rewrite !Forall_app.
    split; [|split]; [eapply Forall_impl; [exact Hb1|]|eapply Forall_impl; [exact Hds|]|eapply Forall_impl; [exact Hb2|]].
    - by intros c Hc ->.
    - by intros c [_ Hc].
    - by intros c Hc ->. }
  assert (trim (blanks ++ ds ++ blanks') = ds) as Ht.
  { apply trim_blanks; [done| |done]. eapply Forall_impl; [exact Hds|]. by intros c []. }
  unfold chunk_size_of. destruct Hext as [->|[exts ->]].
  - rewrite app_nil_r, find_char_none by done. rewrite Ht. by apply hex_numeral_read.
  - replace (blanks ++ ds ++ blanks' ++ ";"%byte :: exts) with ((blanks ++ ds ++ blanks') ++ ";"%byte :: exts) by (by rewrite <- !app_assoc).
    rewrite find_char_first, take_app_length, Ht by done. by apply hex_numeral_read.
Qed.

Definition chunk_bytes (c : bytes * bytes) : bytes := c.1 ++ kCrlf ++ c.2 ++ kCrlf.

(** The last chunk, the trailer lines and the final empty line. *)
Definition last_chunk (l0 : bytes) (trailers : list bytes) : bytes :=
  l0 ++ kCrlf ++ concat (map (fun t => t ++ kCrlf) trailers) ++ kCrlf.

Lemma find_from_line (pre line r : bytes) :
  clean line -> find_from kCrlf (pre ++ line ++ kCrlf ++ r) (length pre) = Some (length pre + length line)%nat.
Proof. intros Hc. unfold find_from. by rewrite drop_app_length, find_crlf_clean. Qed.

Lemma trailer_loop_lines trailers pre f r :
  header_lines trailers -> (length trailers < f)%nat ->
  trailer_loop f (pre ++ concat (map (fun t => t ++ kCrlf) trailers) ++ kCrlf ++ r) (length pre) =
  Some (length pre + length (concat (map (fun t => t ++ kCrlf) trailers)) + 2)%nat.
Proof.
  intros Ht. revert pre f. induction Ht as [|t trailers [Hc Hne] Ht IH]; intros pre f Hf.
  - destruct f as [|f]; [cbn in Hf; lia|]. cbn [trailer_loop map concat app].
    pose proof (find_from_line pre [] r) as H. cbn [app length] in H. rewrite H by constructor.
    rewrite Nat.add_0_r, Nat.eqb_refl. cbn. f_equal. lia.
  - destruct f as [|f]; [cbn in Hf; lia|]. cbn [trailer_loop map concat].
    rewrite <- !app_assoc, find_from_line by done.
    destruct (Nat.eqb_spec (length pre + length t) (length pre)) as [He|_]; [by destruct t; cbn in He; [|lia]|].
    replace (length pre + length t + 2)%nat with (length (pre ++ t ++ kCrlf)) by (rewrite !length_app; cbn; lia).
    replace (pre ++ t ++ kCrlf ++ concat (map (fun t => t ++ kCrlf) trailers) ++ kCrlf ++ r)
      with ((pre ++ t ++ kCrlf) ++ concat (map (fun t => t ++ kCrlf) trailers) ++ kCrlf ++ r)
      by (by rewrite <- !app_assoc).
    rewrite IH by (cbn in Hf; lia). f_equal. rewrite !length_app. cbn. lia.
Qed.

Lemma substr_at (x y z : bytes) n : n = length y -> substr (x ++ y ++ z) (length x) n = y.
Proof. intros ->. unfold substr. by rewrite drop_app_length, take_app_length. Qed.

Lemma chunk_loop_chunks chunks pre f b l0 trailers rest :
  Forall chunk_ok chunks -> clean l0 -> size_line 0 l0 -> header_lines trailers ->
  Z.of_nat (length b + length (concat (map snd chunks))) <= kMaxHttpBodyBytes -> (length chunks < f)%nat ->
  chunk_loop f (pre ++ concat (map chunk_bytes chunks) ++ last_chunk l0 trailers ++ rest) (length pre) b =
  Ok (Some (length (pre ++ concat (map chunk_bytes chunks) ++ last_chunk l0 trailers), b ++ concat (map snd chunks))).
Proof.
  intros Hch Hl0 H0%size_line_read Ht; [|done]. revert pre f b. induction Hch as [|[l d] chunks (Hc & Hsz & Hne) Hch IH]; intros pre f b Hmax Hf;
    (destruct f as [|f]; [cbn in Hf; lia|]); cbn [map concat chunk_loop].
  - unfold last_chunk. cbn [app]. rewrite <- !app_assoc, find_from_line, app_nil_r by done.
    replace (length pre + length l0 - length pre)%nat with (length l0) by lia.
    rewrite substr_at, H0 by done. cbn [Z.eqb].
    replace (length pre + length l0 + 2)%nat with (length (pre ++ l0 ++ kCrlf)) by (rewrite !length_app; cbn; lia).
    replace (pre ++ l0 ++ kCrlf ++ concat (map (fun t => t ++ kCrlf) trailers) ++ kCrlf ++ rest)
      with ((pre ++ l0 ++ kCrlf) ++ concat (map (fun t => t ++ kCrlf) trailers) ++ kCrlf ++ rest)
      by (by rewrite <- !app_assoc).
    rewrite trailer_loop_lines; [|done|].
    + do 3 f_equal. rewrite !length_app. cbn. lia.
    + rewrite !length_app.
      assert (length trailers <= length (concat (map (fun t => t ++ kCrlf) trailers)))%nat; [|lia].
      clear. induction trailers as [|t ts IH]; cbn; [lia|]. rewrite !length_app. cbn. lia.
  - cbn [fst snd] in *. change (chunk_bytes (l, d)) with (l ++ kCrlf ++ d ++ kCrlf). rewrite <- !app_assoc, find_from_line by done.
    replace (length pre + length l - length pre)%nat with (length l) by lia.
    assert (length d <> 0)%nat by (by destruct d).
    cbn [map concat] in Hmax. rewrite length_app in Hmax. cbn [snd] in Hmax.
    apply size_line_read in Hsz; [|unfold UINT64_MAX, kMaxHttpBodyBytes in *; lia]. rewrite substr_at, Hsz by done.
    destruct (Z.eqb_spec (Z.of_nat (length d)) 0); [lia|].
    destruct (Z.ltb_spec kMaxHttpBodyBytes (Z.of_nat (length d))); [lia|].
    destruct (Z.ltb_spec kMaxHttpBodyBytes (Z.of_nat (length b) + Z.of_nat (length d))); [lia|]. cbn [orb].
    rewrite Nat2Z.id.
    replace (length pre + length l + 2)%nat with (length (pre ++ l ++ kCrlf)) by (rewrite !length_app; cbn; lia).
    set (tail := concat (map chunk_bytes chunks) ++ last_chunk l0 trailers ++ rest).
    replace (pre ++ l ++ kCrlf ++ d ++ kCrlf ++ tail) with ((pre ++ l ++ kCrlf) ++ d ++ kCrlf ++ tail)
      by (by rewrite <- !app_assoc).
    destruct (Z.ltb_spec (Z.of_nat (length ((pre ++ l ++ kCrlf) ++ d ++ kCrlf ++ tail) - length (pre ++ l ++ kCrlf)))
      (Z.of_nat (length d) + 2)) as [Hx|_].
    { rewrite length_app in Hx at 1. rewrite !(length_app d), !(length_app kCrlf) in Hx. cbn in Hx. lia. }
    rewrite (substr_at _ d) by done.
    replace (length (pre ++ l ++ kCrlf) + length d)%nat with (length ((pre ++ l ++ kCrlf) ++ d))
      by (rewrite length_app; lia).
    rewrite (app_assoc _ d (kCrlf ++ tail)), (substr_at _ kCrlf) by done.
    rewrite bytes_eqb_refl. cbn [negb].
    replace (length ((pre ++ l ++ kCrlf) ++ d) + 2)%nat with (length (((pre ++ l ++ kCrlf) ++ d) ++ kCrlf))
      by (rewrite (length_app _ kCrlf); cbn; lia).
    rewrite (app_assoc _ kCrlf tail). unfold tail. rewrite IH; [|rewrite length_app; lia|cbn in Hf; lia].
    by rewrite <- !app_assoc.
Qed.

(** ** Round trips *)

Lemma message_app st reason lines content rest :
  http_message st reason lines content ++ rest = http_message st reason lines (content ++ rest).
Proof. unfold http_message. by rewrite <- !app_assoc. Qed.

(** The header block of a message. *)
Definition head_of (st : Z) (reason : bytes) (lines : list bytes) : bytes := status_line st reason ++ joined lines.

Definition content_length_message (st : Z) (reason content : bytes) : bytes :=
  http_message st reason [content_length_line (Z.of_nat (length content))] content.

Definition te_line : bytes := lit "Transfer-Encoding: chunked".

Definition chunked_message (st : Z) (reason : bytes) (chunks : list (bytes * bytes)) (l0 : bytes)
    (trailers : list bytes) : bytes :=
  http_message st reason [te_line] (concat (map chunk_bytes chunks) ++ last_chunk l0 trailers).

(** Content-Length round trip: a response with any status from 100 to 599, any
    reason phrase and any body up to 16 MiB, framed by a Content-Length header in a
    header block of at most 64 KiB, is parsed back to its status and body, consuming
    exactly the message even when other bytes follow. *)
Theorem content_length_round_trip st reason content rest eof :
  100 <= st <= 599 -> clean reason -> Z.of_nat (length content) <= kMaxHttpBodyBytes ->
  Z.of_nat (length (head_of st reason [content_length_line (Z.of_nat (length content))])) <= kMaxHttpHeaderBytes ->
  parse_http_response (content_length_message st reason content ++ rest) eof =
  Ok (Some {| response := {| http_status := st; keep_alive := true; body := content |};
              consumed := length (content_length_message st reason content) |}).
Proof.
  intros Hst Hr Hmax Hhead. unfold content_length_message. set (n := Z.of_nat (length content)) in *.
  assert (in_u64 n) as Hu by (unfold in_u64, UINT64_MAX, kMaxHttpBodyBytes in *; lia).
  assert (fold_headers (start_headers st) [content_length_line n] = Ok (set_content_length (start_headers st) n)) as Hh.
  { cbn [fold_headers]. by rewrite content_length_header. }
  assert (header_lines [content_length_line n]) as Hl
    by (constructor; [apply content_length_line_ok; lia|constructor]).
  destruct (parse_message st reason _ (content ++ rest) _ Hst Hr Hl Hh) as (H1 & H2 & H3 & H4).
  destruct (parse_message st reason _ content _ Hst Hr Hl Hh) as (_ & _ & _ & H5).
  rewrite message_app. unfold parse_http_response. rewrite H1, H2.
  fold (head_of st reason [content_length_line n]) in *. set (head := head_of _ _ _) in *.
  destruct (Z.ltb_spec kMaxHttpHeaderBytes (Z.of_nat (length head))); [lia|].
  cbn [chunked set_content_length start_headers content_length h_status http10 connection_keep_alive].
  destruct (Z.ltb_spec kMaxHttpBodyBytes n); [lia|]. rewrite H4, length_app.
  destruct (Z.ltb_spec (Z.of_nat (length head + 4 + (length content + length rest) - (length head + 4))) n); [lia|].
  assert (Z.to_nat n = length content) as -> by (unfold n; lia).
  unfold substr. rewrite H3, take_app_length. cbn [negb]. by rewrite H5.
Qed.

Lemma content_length_round_trip_witness :
  parse_http_response (content_length_message 201 (lit "Created") (lit "{}") ++ lit "HTTP/1.1 4") false =
  Ok (Some {| response := {| http_status := 201; keep_alive := true; body := lit "{}" |};
              consumed := length (content_length_message 201 (lit "Created") (lit "{}")) |}).
Proof. apply content_length_round_trip; [lia|by repeat constructor|by vm_compute|by vm_compute]. Defined.

(** C38. Chunked round trip: a response framed by Transfer-Encoding: chunked is
    parsed back to its status and the concatenation of its chunks, and exactly the
    message is consumed, whatever the cut into non-empty chunks, the size lines, each a
    hexadecimal numeral of the chunk's length with upper or lower case digits, leading
    zeros, blanks around it and extensions, and the trailer lines; the body is at most
    16 MiB and the header block at most 64 KiB. *)
Theorem chunked_round_trip st reason chunks l0 trailers rest eof :
  100 <= st <= 599 -> clean reason -> Forall chunk_ok chunks ->
  clean l0 -> size_line 0 l0 -> header_lines trailers ->
  Z.of_nat (length (concat (map snd chunks))) <= kMaxHttpBodyBytes ->
  Z.of_nat (length (head_of st reason [te_line])) <= kMaxHttpHeaderBytes ->
  parse_http_response (chunked_message st reason chunks l0 trailers ++ rest) eof =
  Ok (Some {| response := {| http_status := st; keep_alive := true; body := concat (map snd chunks) |};
              consumed := length (chunked_message st reason chunks l0 trailers) |}).
Proof.
  intros Hst Hr Hch Hl0 H0 Ht Hmax Hhead. unfold chunked_message.
  assert (fold_headers (start_headers st) [te_line] = Ok (set_chunked (start_headers st) true)) as Hh by done.
  assert (header_lines [te_line]) as Hl by (repeat constructor; done).
  set (content := concat (map chunk_bytes chunks) ++ last_chunk l0 trailers).
  destruct (parse_message st reason _ (content ++ rest) _ Hst Hr Hl Hh) as (H1 & H2 & _ & _).
  destruct (parse_message st reason _ content _ Hst Hr Hl Hh) as (_ & _ & _ & H5).
  rewrite message_app. unfold parse_http_response. rewrite H1, H2.
  fold (head_of st reason [te_line]) in *. set (head := head_of _ _ _) in *.
  destruct (Z.ltb_spec kMaxHttpHeaderBytes (Z.of_nat (length head))); [lia|].
  cbn [chunked set_chunked start_headers content_length h_status http10 connection_keep_alive].
  unfold decode_chunked, http_message. fold (head_of st reason [te_line]). fold head.
  replace (head ++ kCrlf ++ kCrlf ++ content ++ rest)
    with ((head ++ kCrlf ++ kCrlf) ++ concat (map chunk_bytes chunks) ++ last_chunk l0 trailers ++ rest)
    by (unfold content; by rewrite <- !app_assoc).
  replace (length head + 4)%nat with (length (head ++ kCrlf ++ kCrlf)) by (rewrite !length_app; cbn; lia).
  rewrite chunk_loop_chunks; [|done..|].
  - cbn [app default negb]. do 4 f_equal. by rewrite <- !app_assoc.
  - rewrite !length_app.
    assert (length chunks <= length (concat (map chunk_bytes chunks)))%nat; [|lia].
    clear. induction chunks as [|c cs IH]; cbn [map concat length]; [lia|].
    rewrite length_app. unfold chunk_bytes at 1. rewrite !length_app. cbn. lia.
Qed.

(** Chunks of 26, 16 and 3 bytes: the sizes are [1A], [10] and [003]. *)
Lemma chunked_round_trip_witness :
  let chunks := [(lit "1A;ext=1", lit "abcdefghijklmnopqrstuvwxyz"); (lit " 10", lit "0123456789ABCDEF"); (lit "003 ", lit "xyz")] in
  parse_http_response (chunked_message 200 (lit "OK") chunks (lit "0") [lit "X-Trailer: y"] ++ lit "HTTP") false =
  Ok (Some {| response := {| http_status := 200; keep_alive := true; body := lit "abcdefghijklmnopqrstuvwxyz0123456789ABCDEFxyz" |};
              consumed := length (chunked_message 200 (lit "OK") chunks (lit "0") [lit "X-Trailer: y"]) |}).
Proof.
  intros chunks. apply (chunked_round_trip 200 (lit "OK") chunks); [lia|by repeat constructor| |by repeat constructor| | | |].
  - repeat apply Forall_cons_2; [..|apply Forall_nil_2]; (split; [by repeat constructor|]; split; [|done]).
    + exists [], (lit "1A"), [], (lit ";ext=1"). split; [done|]. split; [|split; [constructor|right; by eexists]].
      apply (hex_digit_after (lit "1") 1 "A"%byte 10); [constructor|]; apply list_elem_of_In; cbn; tauto.
    + exists (lit " "), (lit "10"), [], []. split; [done|]. split; [|split; [by repeat constructor|by left]].
      apply (hex_digit_after (lit "1") 1 "0"%byte 0); [constructor|]; apply list_elem_of_In; cbn; tauto.
    + exists [], (lit "003"), (lit " "), []. split; [done|]. split; [|split; [by repeat constructor|by left]].
      apply (hex_digit_after (lit "00") 0 "3"%byte 3); [apply (hex_digit_after (lit "0") 0 "0"%byte 0); [constructor|]|];
        apply list_elem_of_In; cbn; tauto.
  - exists [], (lit "0"), [], []. split; [done|]. split; [|split; [constructor|by left]]. constructor. apply list_elem_of_In; cbn; tauto.
  - by repeat constructor.
  - by vm_compute.
  - by vm_compute.
Defined.
