(* ===== verification/KalshiAuth.v ===== *)
(** * KalshiAuth: credentials and request signing (src/protocol/kalshi_auth.cpp)

    OpenSSL is outside the program: what its functions return is a parameter
    ([OpenSsl]).  The model covers the calls the program makes, in order, with their
    errors, and the headers it builds. *)

From S2P Require Import Prelude.

Record Credentials : Type := { key_id : bytes; private_key_path : bytes }.

(** [std::getenv]: [None] is a null pointer. *)
Definition load_credentials_from_env (key_id_env key_path_env : option bytes) : expected bytes Credentials :=
  match key_id_env with
  | None | Some [] => Unexpected (lit "KALSHI_API_KEY_ID environment variable is not set")
  | Some id =>
    match key_path_env with
    | None | Some [] => Unexpected (lit "KALSHI_PRIVATE_KEY_PATH environment variable is not set")
    | Some path => Ok {| key_id := id; private_key_path := path |}
    end
  end.

(** ** OpenSSL *)

Definition RSA_PKCS1_PSS_PADDING : Z := 6.
Definition RSA_PSS_SALTLEN_DIGEST : Z := -1.

(** A function that returns a status returns it here together with what it writes.
    The signature depends on the key, the padding and salt length that were set, and
    the data. *)
Record OpenSsl : Type := {
  Key : Type;
  BIO_new_file : bytes -> bool;
  PEM_read_bio_PrivateKey : bytes -> option Key;
  EVP_MD_CTX_new : bool;
  EVP_DigestSignInit : Key -> Z;
  EVP_PKEY_CTX_set_rsa_padding : Z -> Z;
  EVP_PKEY_CTX_set_rsa_pss_saltlen : Z -> Z;
  EVP_DigestSignUpdate : bytes -> Z;
  EVP_DigestSignFinal_length : Key -> Z;
  EVP_DigestSignFinal : Key -> Z -> Z -> bytes -> Z * bytes;
  EVP_EncodeBlock : bytes -> bytes;
  error_string : bytes;
}.

(** The characters [base64_encode] reserves, one of them for the final zero. *)
Definition base64_buffer (n : nat) : nat := 4 * ((n + 2) / 3) + 1.

Definition base64_encode (o : OpenSsl) (data : bytes) : bytes := EVP_EncodeBlock o data.

(** ** Signing *)

Record Signer : Type := { _key_id : bytes; sign : bytes -> expected bytes bytes }.

(** [Signer::sign] for a key. *)
Definition sign_with (o : OpenSsl) (key : Key o) (message : bytes) : expected bytes bytes :=
  if negb (EVP_MD_CTX_new o) then Unexpected (lit "Failed to create digest context")
  else if negb (EVP_DigestSignInit o key =? 1) then Unexpected (lit "EVP_DigestSignInit failed: " ++ error_string o)
  else if EVP_PKEY_CTX_set_rsa_padding o RSA_PKCS1_PSS_PADDING <=? 0
  then Unexpected (lit "Failed to set RSA-PSS padding: " ++ error_string o)
  else if EVP_PKEY_CTX_set_rsa_pss_saltlen o RSA_PSS_SALTLEN_DIGEST <=? 0
  then Unexpected (lit "Failed to set RSA-PSS salt length: " ++ error_string o)
  else if negb (EVP_DigestSignUpdate o message =? 1)
  then Unexpected (lit "EVP_DigestSignUpdate failed: " ++ error_string o)
  else if negb (EVP_DigestSignFinal_length o key =? 1)
  then Unexpected (lit "Failed to determine signature length: " ++ error_string o)
  else
    let '(result, signature) := EVP_DigestSignFinal o key RSA_PKCS1_PSS_PADDING RSA_PSS_SALTLEN_DIGEST message in
    if negb (result =? 1) then Unexpected (lit "EVP_DigestSignFinal failed: " ++ error_string o)
    else Ok (base64_encode o signature).

Definition from_credentials (o : OpenSsl) (credentials : Credentials) : expected bytes Signer :=
  if negb (BIO_new_file o (private_key_path credentials))
  then Unexpected (lit "Failed to open private key file: " ++ private_key_path credentials)
  else
    match PEM_read_bio_PrivateKey o (private_key_path credentials) with
    | None => Unexpected (lit "Failed to parse private key: " ++ error_string o)
    | Some key => Ok {| _key_id := key_id credentials; sign := sign_with o key |}
    end.

Definition header (name value : bytes) : bytes := name ++ lit ": " ++ value ++ [x0d; x0a].

Definition auth_headers (s : Signer) (timestamp method path : bytes) : expected bytes bytes :=
  match sign s (timestamp ++ method ++ path) with
  | Unexpected e => Unexpected (lit "Failed to sign request: " ++ e)
  | Ok signature =>
    Ok (header (lit "KALSHI-ACCESS-KEY") (_key_id s) ++
        header (lit "KALSHI-ACCESS-SIGNATURE") signature ++
        header (lit "KALSHI-ACCESS-TIMESTAMP") timestamp)
  end.

(** ** Facts *)

(** What OpenSSL documents: a signature verifies for the same key, parameters and
    data; base64 can be decoded and has four characters for every three bytes. *)
Class OpenSslLaws (o : OpenSsl) (verify : Key o -> Z -> Z -> bytes -> bytes -> bool) (decode : bytes -> option bytes) : Prop := {
  final_verifies key padding salt data signature :
    EVP_DigestSignFinal o key padding salt data = (1, signature) -> verify key padding salt data signature = true;
  encode_decodes data : decode (EVP_EncodeBlock o data) = Some data;
  encode_length data : length (EVP_EncodeBlock o data) = (4 * ((length data + 2) / 3))%nat;
}.

(** Headers that a server with the public key accepts for [message]. *)
Definition signed_headers (o : OpenSsl) (verify : Key o -> Z -> Z -> bytes -> bytes -> bool) (decode : bytes -> option bytes)
    (c : Credentials) (timestamp message h : bytes) : Prop :=
  exists key text signature,
    PEM_read_bio_PrivateKey o (private_key_path c) = Some key /\
    h = header (lit "KALSHI-ACCESS-KEY") (key_id c) ++ header (lit "KALSHI-ACCESS-SIGNATURE") text ++
        header (lit "KALSHI-ACCESS-TIMESTAMP") timestamp /\
    decode text = Some signature /\
    verify key RSA_PKCS1_PSS_PADDING RSA_PSS_SALTLEN_DIGEST message signature = true /\
    (length text < base64_buffer (length signature))%nat.

Section Facts.
Context (o : OpenSsl) (verify : Key o -> Z -> Z -> bytes -> bytes -> bool) (decode : bytes -> option bytes).
Context `{!OpenSslLaws o verify decode}.

Lemma sign_with_ok key message text :
  sign_with o key message = Ok text ->
  exists signature, decode text = Some signature /\
    verify key RSA_PKCS1_PSS_PADDING RSA_PSS_SALTLEN_DIGEST message signature = true /\
    (length text < base64_buffer (length signature))%nat.
Proof.
  unfold sign_with, base64_encode.
  destruct (EVP_DigestSignFinal o key _ _ message) as [result signature] eqn:E.
  destruct (Z.eqb_spec result 1) as [->|]; cbn [negb]; repeat case_match; intros [= <-].
  exists signature. split; [apply encode_decodes|]. split; [by eapply final_verifies|].
  rewrite encode_length. unfold base64_buffer. lia.
Qed.

Lemma auth_headers_signed c signer timestamp method path h :
  from_credentials o c = Ok signer -> auth_headers signer timestamp method path = Ok h ->
  signed_headers o verify decode c timestamp (timestamp ++ method ++ path) h.
Proof.
  unfold from_credentials, auth_headers. destruct (BIO_new_file o _); cbn [negb]; [|done].
  destruct (PEM_read_bio_PrivateKey o (private_key_path c)) as [key|] eqn:Ek; [|done]. intros [= <-]. cbn [sign _key_id].
  destruct (sign_with o key _) as [text|e] eqn:Es; [|done]. intros [= <-].
  apply sign_with_ok in Es as (signature & Hd & Hv & Hl). by exists key, text, signature.
Qed.
End Facts.

(** ** An instance of the laws *)

(** Four characters for every three bytes, the last of them the number of bytes. *)
Fixpoint block_encode (data : bytes) : bytes :=
  match data with
  | [] => []
  | [a] => [a; x00; x00; x01]
  | [a; b] => [a; b; x00; x02]
  | a :: b :: c :: data => a :: b :: c :: x03 :: block_encode data
  end.

Fixpoint block_decode (text : bytes) : option bytes :=
  match text with
  | [] => Some []
  | a :: b :: c :: n :: text =>
    match n with
    | x01 => Some [a]
    | x02 => Some [a; b]
    | _ => match block_decode text with Some data => Some (a :: b :: c :: data) | None => None end
    end
  | _ => None
  end.

(** A library with one key, where the signature of data is the data. *)
Definition sample_openssl : OpenSsl :=
  {| Key := unit; BIO_new_file := fun _ => true; PEM_read_bio_PrivateKey := fun _ => Some tt; EVP_MD_CTX_new := true;
     EVP_DigestSignInit := fun _ => 1; EVP_PKEY_CTX_set_rsa_padding := fun _ => 1;
     EVP_PKEY_CTX_set_rsa_pss_saltlen := fun _ => 1; EVP_DigestSignUpdate := fun _ => 1;
     EVP_DigestSignFinal_length := fun _ => 1; EVP_DigestSignFinal := fun _ _ _ data => (1, data);
     EVP_EncodeBlock := block_encode; error_string := [] |}.

Definition sample_verify (_ : unit) (_ _ : Z) (data signature : bytes) : bool := bytes_eqb data signature.

Lemma block_decode_encode n : forall data, (length data <= n)%nat -> block_decode (block_encode data) = Some data.
Proof.
  induction n as [|n IH]; intros [|a [|b [|c data]]] Hn; try done; cbn in Hn; [lia|].
  cbn [block_encode block_decode]. rewrite IH by lia. done.
Qed.

Lemma block_encode_length n : forall data,
  (length data <= n)%nat -> length (block_encode data) = (4 * ((length data + 2) / 3))%nat.
Proof.
  induction n as [|n IH]; intros [|a [|b [|c data]]] Hn; try done; cbn in Hn; [lia|].
  cbn [block_encode length]. rewrite IH by lia.
  replace (S (S (S (length data))) + 2)%nat with (length data + 2 + 1 * 3)%nat by lia.
  rewrite Nat.div_add by lia. lia.
Qed.

#[export] Instance sample_openssl_laws : OpenSslLaws sample_openssl sample_verify block_decode.
Proof.
  split; cbn.
  - intros key padding salt data signature [= <-]. unfold sample_verify. apply bytes_eqb_refl.
  - intros data. by eapply block_decode_encode.
  - intros data. by eapply block_encode_length.
Qed.
