(* ===== verification/HttpClient.v ===== *)
(** * HttpClient: one keep-alive HTTPS connection (src/protocol/http_client.cpp)

    The client in the monad of World over its own state: connection attempts and
    writes are logged in order, which is what the retry policy is about, and system
    calls too, so that the client owns the only descriptor it leaves open. *)

From S2P Require Import Prelude CharConv JsonLexer JsonParser Stream Sockets World HttpResponse KalshiAuth.

(** ** State *)

Record HttpClient : Type := {
  _host : bytes;
  _signer : option Signer;
  _tls : option TcpSocket;             (* the TLS socket, as the TCP socket in it *)
  _buffer : bytes;
  _last_used : Z;
  _last_send : Z;
  _connections_opened : Z;
}.

Definition new_http_client (host : bytes) (signer : option Signer) : HttpClient :=
  {| _host := host; _signer := signer; _tls := None; _buffer := []; _last_used := 0; _last_send := 0;
     _connections_opened := 0 |}.

Definition set_tls (b : option TcpSocket) (c : HttpClient) : HttpClient :=
  {| _host := _host c; _signer := _signer c; _tls := b; _buffer := _buffer c; _last_used := _last_used c;
     _last_send := _last_send c; _connections_opened := _connections_opened c |}.
Definition set_buffer (b : bytes) (c : HttpClient) : HttpClient :=
  {| _host := _host c; _signer := _signer c; _tls := _tls c; _buffer := b; _last_used := _last_used c;
     _last_send := _last_send c; _connections_opened := _connections_opened c |}.
Definition set_last_used (t : Z) (c : HttpClient) : HttpClient :=
  {| _host := _host c; _signer := _signer c; _tls := _tls c; _buffer := _buffer c; _last_used := t;
     _last_send := _last_send c; _connections_opened := _connections_opened c |}.
Definition set_last_send (t : Z) (c : HttpClient) : HttpClient :=
  {| _host := _host c; _signer := _signer c; _tls := _tls c; _buffer := _buffer c; _last_used := _last_used c;
     _last_send := t; _connections_opened := _connections_opened c |}.
Definition count_connection (c : HttpClient) : HttpClient :=
  {| _host := _host c; _signer := _signer c; _tls := _tls c; _buffer := _buffer c; _last_used := _last_used c;
     _last_send := _last_send c; _connections_opened := u64 (_connections_opened c + 1) |}.

(** [connected] *)
Definition connected (c : HttpClient) : bool := match _tls c with Some _ => true | None => false end.

(** [_tls.reset()]: the socket in it is destroyed. *)
Definition reset_tls : M HttpClient unit :=
  let% c := get in
  let% _ := (match _tls c with Some t => sys (destroy t) | None => ret tt end) in
  modify (set_tls None).

Section Client.
Variable env : NetEnv.

(** ** Operations *)

Definition kMaxIdle : Z := 50 * 1000000000.

Definition open_connection : M HttpClient (expected bytes unit) :=
  let% _ := reset_tls in
  let% _ := modify (set_buffer []) in
  let% c := get in
  let% result := tls_connect env (_host c) in
  match result with
  | Unexpected e => ret (Unexpected e)
  | Ok tls =>
    let% _ := modify (set_tls (Some tls)) in
    let% _ := modify count_connection in
    let% t := now env in
    let% _ := modify (set_last_used t) in
    ret (Ok tt)
  end.

Definition idle_connection_is_dead : M HttpClient bool :=
  let% t := now env in
  let% c := get in
  if kMaxIdle <? t - _last_used c then ret true else poll env.

(** [_tls && !idle_connection_is_dead()] *)
Definition usable : M HttpClient bool :=
  let% c := get in
  if connected c then let% dead := idle_connection_is_dead in ret (negb dead) else ret false.

Definition connect : M HttpClient (expected bytes unit) :=
  let% ok := usable in
  if ok then ret (Ok tt) else open_connection.

(** The loop of [read_response]: the result, the buffer and what is left to receive. *)
Fixpoint read_response_loop (buffer : bytes) (inc : incoming) : option (expected bytes HttpResponse * bytes * incoming) :=
  match parse_http_response buffer false with
  | Unexpected e => Some (Unexpected e, buffer, inc)
  | Ok (Some parsed) => Some (Ok (response parsed), drop (consumed parsed) buffer, inc)
  | Ok None =>
    match inc with
    | [] => None
    | Unexpected e :: inc =>
      match parse_http_response buffer true with
      | Ok (Some final) => Some (Ok (response final), buffer, inc)
      | _ => Some (Unexpected (lit "reading response: " ++ e), buffer, inc)
      end
    | Ok chunk :: inc => read_response_loop (buffer ++ chunk) inc
    end
  end.

Definition read_response : M HttpClient (expected bytes HttpResponse) :=
  fun c w => match read_response_loop (_buffer c) (inbox w) with
             | Some (r, b, i) => Some (r, set_buffer b c, set_inbox i w)
             | None => None
             end.

Definition request_text (host auth method path content : bytes) : bytes :=
  let content_headers :=
    if negb (bytes_eqb content []) || bytes_eqb method (lit "POST")
    then lit "Content-Type: application/json" ++ kCrlf ++
         lit "Content-Length: " ++ fmt_uint (Z.of_nat (length content)) ++ kCrlf
    else [] in
  method ++ lit " " ++ path ++ lit " HTTP/1.1" ++ kCrlf ++
  lit "Host: " ++ host ++ kCrlf ++ auth ++ content_headers ++ kCrlf ++ content.

(** Sending, with the single retry on a connection that was being reused. *)
Definition send_with_retry (reused : bool) (data : bytes) : M HttpClient (expected bytes unit) :=
  let% sent := tls_send env data in
  match sent with
  | Ok _ => ret (Ok tt)
  | Unexpected e =>
    let% second :=
      (if reused then
         let% opened := open_connection in
         match opened with
         | Unexpected e => ret (Unexpected e)
         | Ok _ => let% sent := tls_send env data in ret (Ok sent)
         end
       else ret (Ok (Unexpected e))) in
    match second with
    | Unexpected opening_error => ret (Unexpected opening_error)
    | Ok (Ok _) => ret (Ok tt)
    | Ok (Unexpected e) =>
      let% _ := reset_tls in
      ret (Unexpected (lit "sending request: " ++ e))
    end
  end.

(** The part of [request] after the request text has been built. *)
Definition exchange (data : bytes) : M HttpClient (expected bytes HttpResponse) :=
  let% reused := usable in
  let% opened := (if reused then ret (Ok tt) else open_connection) in
  match opened with
  | Unexpected e => ret (Unexpected e)
  | Ok _ =>
    let% sent := send_with_retry reused data in
    match sent with
    | Unexpected e => ret (Unexpected e)
    | Ok _ =>
      let% t := now env in
      let% _ := modify (set_last_send t) in
      let% resp := read_response in
      let% t := now env in
      let% _ := modify (set_last_used t) in
      let% _ := (match resp with
                 | Ok r => if keep_alive r then ret tt else reset_tls
                 | Unexpected _ => reset_tls
                 end) in
      ret resp
    end
  end.

Definition request (method path content : bytes) : M HttpClient (expected bytes HttpResponse) :=
  let% c := get in
  let% auth :=
    (match _signer c with
     | None => ret (Ok [])
     | Some s => let% ts := current_timestamp_ms env in ret (auth_headers s ts method path)
     end) in
  match auth with
  | Unexpected e => ret (Unexpected e)
  | Ok auth => exchange (request_text (_host c) auth method path content)
  end.

Definition request_json (method path content : bytes) : M HttpClient (expected bytes JsonValue) :=
  let% resp := request method path content in
  ret (match resp with
       | Unexpected e => Unexpected e
       | Ok r =>
         match parse_json (body r) with
         | Ok v => Ok v
         | Unexpected error =>
           Unexpected (lit "HTTP " ++ fmt_int (http_status r) ++ lit " with unparseable body: " ++ error)
         end
       end).

(** [idle_for] *)
Definition idle_for : M HttpClient Z := let% t := now env in let% c := get in ret (t - _last_used c).
End Client.

(** ** Running computations *)

(** Opens the bind at the head of a run. *)
Ltac run H :=
  let a := fresh "a" in let c := fresh "c" in let w := fresh "w" in let E := fresh "E" in
  apply bind_Some in H as (a & c & w & E & H).

Section Facts.
Variable env : NetEnv.

Lemma reset_tls_spec c w r c' w' :
  reset_tls c w = Some (r, c', w') ->
  c' = set_tls None c /\ log w' = log w /\ inbox w' = inbox w /\
  syscalls w' = syscalls w ++ match _tls c with Some t => destroy t | None => [] end.
Proof.
  unfold reset_tls, bind, get, modify, sys, ret. destruct (_tls c); intros [= <- <- <-]; cbn; [done|].
  by rewrite app_nil_r.
Qed.

Lemma open_connection_spec c w r c' w' :
  open_connection env c w = Some (r, c', w') ->
  inbox w' = inbox w /\ _buffer c' = [] /\ _host c' = _host c /\ _signer c' = _signer c /\
  connected c' = has_value r /\ log w' = log w ++ [EvConnect (has_value r)] /\
  exists dialled calls, dial (_host c) (env_resolve env (length (log w))) (env_ssl env (length (log w))) = (dialled, calls) /\
    has_value dialled = has_value r /\ _tls c' = match dialled with Ok t => Some t | Unexpected _ => None end /\
    syscalls w' = syscalls w ++ match _tls c with Some t => destroy t | None => [] end ++ calls.
Proof.
  unfold open_connection. intros H. run H. apply reset_tls_spec in E as (-> & Hl & Hi & Hs).
  unfold modify, get, tls_connect, now, tick, ret, bind in H. cbn in H. rewrite Hl in H.
  destruct (dial _ _ _) as [[t|e] calls] eqn:Ed; injection H as <- <- <-; cbn;
    rewrite Hl, Hs, <- app_assoc; repeat split; eauto 10.
Qed.

Lemma usable_spec c w b c' w' :
  usable env c w = Some (b, c', w') -> c' = c /\ log w' = log w /\ inbox w' = inbox w /\ (b = true -> connected c = true).
Proof.
  unfold usable, idle_connection_is_dead, get, now, poll, tick, ret, bind. cbn.
  unfold connected. destruct (_tls c); [|intros [= <- <- <-]; done].
  destruct (kMaxIdle <? _); intros [= <- <- <-]; done.
Qed.

(** What a request puts on the network: [reused] says whether a connection was
    already open; the second index whether the request was delivered. *)
Inductive request_trace (data : bytes) : bool -> list NetEvent -> bool -> Prop :=
| trace_no_connection : request_trace data false [EvConnect false] false
| trace_fresh ok : request_trace data false [EvConnect true; EvSend data ok] ok
| trace_reused : request_trace data true [EvSend data true] true
| trace_retry_no_connection : request_trace data true [EvSend data false; EvConnect false] false
| trace_retry ok : request_trace data true [EvSend data false; EvConnect true; EvSend data ok] ok.

Lemma tls_send_spec data (c : HttpClient) w r c' w' :
  tls_send env data c w = Some (r, c', w') ->
  c' = c /\ inbox w' = inbox w /\ log w' = log w ++ [EvSend data (has_value r)].
Proof.
  unfold tls_send. destruct (env_write env (length (log w))); by intros [= <- <- <-].
Qed.

(** [send_with_retry]: the events after those that opened the connection. *)
Lemma send_with_retry_spec reused data c w r c' w' :
  send_with_retry env reused data c w = Some (r, c', w') -> connected c = true ->
  exists tr, log w' = log w ++ tr /\ inbox w' = inbox w /\ connected c' = has_value r /\
    (if reused then request_trace data true tr (has_value r) else tr = [EvSend data (has_value r)]).
Proof.
  unfold send_with_retry. intros H Htls. run H. apply tls_send_spec in E as (-> & Hi & Hl).
  destruct a as [[]|e]; cbn [has_value] in Hl.
  { injection H as <- <- <-. exists [EvSend data true]. rewrite Hl. destruct reused; repeat split; try done.
    constructor. }
  destruct reused.
  2: { run H. injection E as <- <- <-. run H. injection H as <- <- <-. apply reset_tls_spec in E as (-> & Hl' & Hi' & _).
       exists [EvSend data false]. rewrite Hl', Hi', Hl. done. }
  run H. run E. apply open_connection_spec in E0 as (Hi1 & _ & _ & _ & Ht1 & Hl1 & _).
  destruct a0 as [[]|e1]; cbn [has_value] in *.
  - run E. apply tls_send_spec in E0 as (-> & Hi2 & Hl2). injection E as <- <- <-.
    exists [EvSend data false; EvConnect true; EvSend data (has_value a0)].
    destruct a0 as [[]|e2]; cbn [has_value] in *.
    + injection H as <- <- <-. rewrite Hl2, Hl1, Hl, <- !app_assoc. repeat split; try (cbn; congruence). constructor.
    + run H. injection H as <- <- <-. apply reset_tls_spec in E as (-> & Hl' & Hi' & _).
      rewrite Hl', Hi', Hl2, Hl1, Hl, <- !app_assoc. repeat split; try (cbn; congruence). constructor.
  - injection E as <- <- <-. injection H as <- <- <-.
    exists [EvSend data false; EvConnect false]. rewrite Hl1, Hl, <- !app_assoc.
    repeat split; try (cbn; congruence). constructor.
Qed.

(** The connection survives exactly a response that keeps it alive. *)
Definition survives (r : expected bytes HttpResponse) : bool :=
  match r with Ok resp => keep_alive resp | Unexpected _ => false end.

Lemma exchange_spec data c w r c' w' :
  exchange env data c w = Some (r, c', w') ->
  exists reused tr delivered,
    log w' = log w ++ tr /\ request_trace data reused tr delivered /\ (reused = true -> connected c = true) /\
    connected c' = survives r /\
    (delivered = false -> has_value r = false /\ inbox w' = inbox w).
Proof.
  unfold exchange. intros H.
  apply bind_Some in H as (reused & c0 & w0 & E & H). apply usable_spec in E as (-> & Hlu & Hiu & Htu).
  apply bind_Some in H as (a & c1 & w1 & E & H).
  assert (exists tr0, log w1 = log w0 ++ tr0 /\ inbox w1 = inbox w0 /\ connected c1 = has_value a /\
    tr0 = if reused then [] else [EvConnect (has_value a)]) as (tr0 & Hl0 & Hi0 & Ht0 & Htr0).
  { destruct reused.
    - injection E as <- <- <-. exists []. rewrite app_nil_r. repeat split. by apply Htu.
    - apply open_connection_spec in E as (Hi & _ & _ & _ & Ht & Hl & _). eexists. done. }
  destruct a as [[]|e]; cbn [has_value] in *.
  2: { injection H as <- <- <-. destruct reused; [by injection E|].
       exists false, [EvConnect false], false. rewrite Hl0, Hlu, Htr0.
       repeat split; try (cbn; congruence). constructor. }
  apply bind_Some in H as (a & c2 & w2 & E0 & H).
  apply send_with_retry_spec in E0 as (tr1 & Hl1 & Hi1 & Ht1 & Htr1); [|done].
  assert (exists tr, log w2 = log w ++ tr /\ request_trace data reused tr (has_value a)) as (tr & Hlog & Htr).
  { exists (tr0 ++ tr1). rewrite Hl1, Hl0, Hlu, app_assoc. split; [done|]. subst tr0. destruct reused; [done|].
    subst tr1. constructor. }
  exists reused, tr, (has_value a). destruct a as [[]|e]; cbn [has_value] in *.
  - run H. injection E0 as <- <- <-. run H. injection E0 as <- <- <-. run H. unfold read_response in E0.
    destruct (read_response_loop _ _) as [[[resp b] i]|]; [|done]. injection E0 as <- <- <-.
    run H. injection E0 as <- <- <-. run H. injection E0 as <- <- <-. apply bind_Some in H as (u & cf & wf & E0 & H). injection H as <- <- <-.
    assert (log wf = log w2 /\ connected cf = survives resp) as [-> ->].
    { destruct resp as [resp|e]; cbn [survives]; [destruct (keep_alive resp)|].
      - injection E0 as <- <- <-. unfold connected in *. cbn in *. done.
      - by apply reset_tls_spec in E0 as (-> & -> & _).
      - by apply reset_tls_spec in E0 as (-> & -> & _). }
    repeat split; done.
  - injection H as <- <- <-. repeat split; first [done | cbn; congruence].
Qed.
End Facts.

(** ** Descriptors *)

Definition client_fds (c : HttpClient) : list Z := match _tls c with Some t => owned t | None => [] end.

(** The client's descriptor is the only one a computation opens or closes. *)
Definition balanced {A} (m : M HttpClient A) : Prop :=
  forall c w a c' w' base,
    m c w = Some (a, c', w') -> fds w ≡ₚ client_fds c ++ base -> fds w' ≡ₚ client_fds c' ++ base.

Create HintDb balance.

Lemma balanced_bind {A B} (m : M HttpClient A) (k : A -> M HttpClient B) :
  balanced m -> (forall a, balanced (k a)) -> balanced (bind m k).
Proof. intros Hm Hk c w a c' w' base H Hf. run H. eapply Hk; [exact H|]. by eapply Hm. Qed.

Lemma balanced_quiet {A} (m : M HttpClient A) :
  (forall c w a c' w', m c w = Some (a, c', w') -> _tls c' = _tls c /\ syscalls w' = syscalls w) -> balanced m.
Proof. intros Hm c w a c' w' base H Hf. apply Hm in H as [Ht Hs]. unfold fds, client_fds in *. by rewrite Hs, Ht. Qed.

Lemma balanced_ret {A} (a : A) : balanced (ret a).
Proof. apply balanced_quiet. by intros c w a' c' w' [= <- <- <-]. Qed.
Lemma balanced_get : balanced get.
Proof. apply balanced_quiet. by intros c w a' c' w' [= <- <- <-]. Qed.
Lemma balanced_print l : balanced (print l).
Proof. apply balanced_quiet. by intros c w a' c' w' [= <- <- <-]. Qed.
Lemma balanced_tick {A} (f : nat -> A) : balanced (tick f).
Proof. apply balanced_quiet. by intros c w a' c' w' [= <- <- <-]. Qed.
Lemma balanced_sleep n : balanced (sleep_for n).
Proof.
  intros c w a c' w' base [= <- <- <-] Hf.
  rewrite (fds_calls (advance w) (record_calls [SysSleep n] (advance w)) [SysSleep n] eq_refl). exact Hf.
Qed.
Lemma balanced_modify f : (forall c, _tls (f c) = _tls c) -> balanced (modify f).
Proof. intros Hf. apply balanced_quiet. by intros c w a' c' w' [= <- <- <-]. Qed.
Lemma balanced_send env data : balanced (tls_send env data).
Proof. apply balanced_quiet. unfold tls_send. intros c w a c' w'. by destruct (env_write _ _); intros [= <- <- <-]. Qed.
Lemma balanced_read : balanced read_response.
Proof.
  apply balanced_quiet. unfold read_response. intros c w a c' w'.
  destruct (read_response_loop _ _) as [[[r b] i]|]; [|done]. by intros [= <- <- <-].
Qed.

Lemma balanced_reset : balanced reset_tls.
Proof.
  intros c w a c' w' base H Hf. apply reset_tls_spec in H as (-> & _ & _ & Hs).
  rewrite (fds_calls _ _ _ Hs). unfold client_fds in *. cbn [_tls set_tls app]. destruct (_tls c) as [t|]; [|done].
  rewrite Hf. by rewrite open_after_destroy.
Qed.

Lemma balanced_open env : balanced (open_connection env).
Proof.
  intros c w a c' w' base H Hf. apply open_connection_spec in H as (_ & _ & _ & _ & _ & _ & d & calls & Hd & _ & Ht & Hs).
  rewrite (fds_calls _ _ _ Hs), open_after_app.
  assert (open_after (fds w) (match _tls c with Some t => destroy t | None => [] end) ≡ₚ base) as ->.
  { unfold client_fds in Hf. destruct (_tls c) as [t|]; [|done]. rewrite Hf. by rewrite open_after_destroy. }
  rewrite (dial_open _ _ _ base _ _ Hd). unfold client_fds. rewrite Ht. by destruct d.
Qed.

#[export] Hint Resolve balanced_bind balanced_ret balanced_get balanced_print balanced_tick balanced_sleep balanced_modify balanced_send : balance.
#[export] Hint Resolve balanced_read balanced_reset balanced_open : balance.

(** Walks through the binds, matches and tests of a computation. *)
Ltac balance :=
  repeat (first [simple apply balanced_bind; [|intros ?] | case_match]); 
  unfold now, poll, current_timestamp_ms, println, eprintln; auto with balance.

Lemma balanced_usable env : balanced (usable env).
Proof. unfold usable, idle_connection_is_dead. balance. Qed.
#[export] Hint Resolve balanced_usable : balance.

Lemma balanced_connect env : balanced (connect env).
Proof. unfold connect. balance. Qed.

Lemma balanced_send_with_retry env reused data : balanced (send_with_retry env reused data).
Proof. unfold send_with_retry. balance. Qed.
#[export] Hint Resolve balanced_send_with_retry : balance.

Lemma balanced_request env method path content : balanced (request env method path content).
Proof. unfold request, exchange. balance. Qed.

Lemma balanced_request_json env method path content : balanced (request_json env method path content).
Proof. unfold request_json. apply balanced_bind; [apply balanced_request|auto with balance]. Qed.

Lemma balanced_idle_for env : balanced (idle_for env).
Proof. unfold idle_for. balance. Qed.

(** ** Reading *)

Lemma read_response_read_one buffer chunks inc r b' inc' :
  read_one http_step buffer (map Ok chunks ++ inc) = Some (Ok r, b', inc') ->
  (exists n, http_step (buffer ++ concat chunks) = Done r n) ->
  read_response_loop buffer (map Ok chunks ++ inc) = Some (Ok r, b', inc').
Proof.
  revert buffer. induction chunks as [|c chunks IH]; intros buffer.
  - cbn [map app concat]. rewrite app_nil_r. intros H [n Hn]. unfold http_step in Hn.
    destruct (parse_http_response buffer false) as [[p|]|] eqn:E; [|done..]. injection Hn as <- <-.
    destruct inc as [|x inc]; cbn [read_one read_response_loop] in *; unfold http_step in H; rewrite E in *; done.
  - cbn [map app concat read_one read_response_loop]. unfold http_step at 1.
    destruct (parse_http_response buffer false) as [[p|]|] eqn:E; [done| |done].
    intros H [n Hn]. apply IH; [done|]. exists n. by rewrite <- app_assoc.
Qed.

(** Bytes sent successfully during a trace. *)
Fixpoint deliveries (tr : list NetEvent) : nat :=
  match tr with
  | [] => O
  | EvSend _ true :: tr => S (deliveries tr)
  | _ :: tr => deliveries tr
  end.

Lemma trace_deliveries data reused tr d : request_trace data reused tr d -> deliveries tr = if d then 1%nat else 0%nat.
Proof. intros []; try done; by destruct ok. Qed.

Lemma trace_sends data reused tr d : request_trace data reused tr d -> forall x ok, EvSend x ok ∈ tr -> x = data.
Proof. intros [] x ok' Hin; rewrite ?elem_of_cons, ?elem_of_nil in Hin; intuition congruence. Qed.

(** The headers of a request made at the clock reading [n]. *)
Definition headers_of (env : NetEnv) (signer : option Signer) (n : nat) (method path : bytes) : expected bytes bytes :=
  match signer with
  | None => Ok []
  | Some s => auth_headers s (fmt_int (env_timestamp env n)) method path
  end.

Lemma request_spec env method path content c w r c' w' :
  request env method path content c w = Some (r, c', w') ->
  (log w' = log w /\ has_value r = false) \/
  exists auth reused tr delivered,
    headers_of env (_signer c) (ticks w) method path = Ok auth /\ log w' = log w ++ tr /\
    request_trace (request_text (_host c) auth method path content) reused tr delivered /\
    (reused = true -> connected c = true) /\ (delivered = false -> has_value r = false /\ inbox w' = inbox w).
Proof.
  unfold request. intros H. run H. injection E as <- <- <-. apply bind_Some in H as (auth & c1 & w1 & E & H).
  assert (c1 = c /\ log w1 = log w /\ inbox w1 = inbox w /\ headers_of env (_signer c) (ticks w) method path = auth) as (-> & Hl & Hi & Ha).
  { unfold headers_of. destruct (_signer c); unfold current_timestamp_ms, tick, bind, ret in E; by injection E as <- <- <-. }
  destruct auth as [auth|e]; [right|left; by injection H as <- <- <-].
  apply exchange_spec in H as (reused & tr & d & Hlog & Htr & Hre & _ & Hd).
  exists auth, reused, tr, d. rewrite Hlog, Hl. split; [done|]. split; [done|]. split; [done|]. split; [done|].
  intros Hf. rewrite <- Hi. auto.
Qed.

(** ** What is sent *)

(** Every message of a trace is the text of a request. *)
Definition sends (method path content : bytes) (tr : list NetEvent) : Prop :=
  forall data ok, EvSend data ok ∈ tr -> exists host auth, data = request_text host auth method path content.

Lemma starts_with_method host auth method path content :
  starts_with (request_text host auth method path content) (method ++ lit " ") = true.
Proof. unfold request_text. rewrite app_assoc. apply starts_with_app. Qed.

Lemma sends_get_no_post path content tr data ok :
  sends (lit "GET") path content tr -> EvSend data ok ∈ tr -> starts_with data (lit "POST ") = true -> False.
Proof. intros Hs Hin Hp. destruct (Hs data ok Hin) as (host & auth & ->). by cbn in Hp. Qed.

Lemma sends_nil method path content : sends method path content [].
Proof. intros data ok Hin. by apply not_elem_of_nil in Hin. Qed.

Lemma request_sends env method path content c w r c' w' :
  request env method path content c w = Some (r, c', w') ->
  exists tr, log w' = log w ++ tr /\ sends method path content tr /\ (deliveries tr <= 1)%nat /\
    (has_value r = true -> deliveries tr = 1%nat).
Proof.
  intros E. apply request_spec in E as [[Hl Hv]|(auth & reused & tr & d & _ & Hlog & Htr & _ & Hd)].
  - exists []. rewrite app_nil_r. split; [done|]. split; [apply sends_nil|]. split; [cbn; lia|]. congruence.
  - exists tr. split; [done|]. split; [intros data ok Hin; eexists _, _; by eapply trace_sends|].
    rewrite (trace_deliveries _ _ _ _ Htr). destruct d; split; try lia. destruct (Hd eq_refl) as [Hv _]. congruence.
Qed.

Lemma request_json_sends env method path content c w r c' w' :
  request_json env method path content c w = Some (r, c', w') ->
  exists tr, log w' = log w ++ tr /\ sends method path content tr /\ (deliveries tr <= 1)%nat /\
    (has_value r = true -> deliveries tr = 1%nat).
Proof.
  unfold request_json. intros H. apply bind_Some in H as (resp & c1 & w1 & E & H). injection H as Hr <- <-.
  apply request_sends in E as (tr & H1 & H2 & H3 & H4). exists tr. split; [done|]. split; [done|]. split; [done|].
  intros Hv. apply H4. subst r. by destruct resp.
Qed.

(** A POST request that reached the server. *)
Definition is_post (e : NetEvent) : bool :=
  match e with EvSend data true => starts_with data (lit "POST ") | _ => false end.

Definition posts (tr : list NetEvent) : nat := length (List.filter is_post tr).

Lemma posts_app tr tr' : posts (tr ++ tr') = (posts tr + posts tr')%nat.
Proof. unfold posts. by rewrite List.filter_app, length_app. Qed.

Lemma sends_get_posts path content tr : sends (lit "GET") path content tr -> posts tr = 0%nat.
Proof.
  induction tr as [|e tr IH]; intros H; [done|].
  assert (posts tr = 0%nat) as Htr by (apply IH; intros data ok Hin; apply (H data ok); by right).
  unfold posts in *. cbn [List.filter]. destruct e as [ok|data [|]]; [done| |done]. cbn [is_post].
  destruct (H data true) as (host & auth & ->); [by left|]. by cbn.
Qed.

Lemma sends_post_posts path content tr : sends (lit "POST") path content tr -> posts tr = deliveries tr.
Proof.
  induction tr as [|e tr IH]; intros H; [done|].
  assert (posts tr = deliveries tr) as Htr by (apply IH; intros data ok Hin; apply (H data ok); by right).
  unfold posts in *. cbn [List.filter deliveries]. destruct e as [ok|data [|]]; [done| |done]. cbn [is_post].
  destruct (H data true) as (host & auth & ->); [by left|].
  change (lit "POST ") with (lit "POST" ++ lit " "). rewrite starts_with_method. cbn [length]. by rewrite Htr.
Qed.

(** A computation of the client that does not try to post anything. *)
Definition posts_nothing {A} (m : M HttpClient A) : Prop :=
  forall c w a c' w', m c w = Some (a, c', w') ->
  exists tr, log w' = log w ++ tr /\ forall data ok, EvSend data ok ∈ tr -> starts_with data (lit "POST ") = false.

Lemma no_post_posts tr : (forall data ok, EvSend data ok ∈ tr -> starts_with data (lit "POST ") = false) -> posts tr = 0%nat.
Proof.
  induction tr as [|e tr IH]; intros H; [done|].
  assert (posts tr = 0%nat) as Htr by (apply IH; intros data ok Hin; apply (H data ok); by right).
  unfold posts in *. cbn [List.filter]. destruct e as [ok|data [|]]; [done| |done]. cbn [is_post].
  by rewrite (H data true) by (by left).
Qed.

Lemma posts_nothing_get env path content : posts_nothing (request env (lit "GET") path content).
Proof.
  intros c w a c' w' H. apply request_sends in H as (tr & Hl & Hs & _). exists tr. split; [done|]. intros data ok Hin.
  destruct (starts_with data (lit "POST ")) eqn:E; [|done]. by destruct (sends_get_no_post _ _ _ _ _ Hs Hin E).
Qed.

Lemma posts_nothing_idle env : posts_nothing (idle_for env).
Proof.
  intros c w a c' w' H. unfold idle_for, bind, now, tick, get, ret in H. injection H as _ _ <-. exists [].
  rewrite app_nil_r. split; [done|]. intros data ok Hin. by apply not_elem_of_nil in Hin.
Qed.

Lemma posts_nothing_connect env : posts_nothing (connect env).
Proof.
  intros c w a c' w' H. unfold connect in H. apply bind_Some in H as (ok & c1 & w1 & Hu & H).
  apply usable_spec in Hu as (-> & Hl & _). destruct ok.
  - injection H as _ _ <-. exists []. rewrite app_nil_r. split; [done|]. intros data ok' Hin. by apply not_elem_of_nil in Hin.
  - apply open_connection_spec in H as (_ & _ & _ & _ & _ & Hlog & _). rewrite Hl in Hlog. eexists. split; [exact Hlog|].
    intros data ok' Hin. apply list_elem_of_singleton in Hin. done.
Qed.

#[export] Hint Resolve posts_nothing_get posts_nothing_idle posts_nothing_connect : balance.

(** ** Properties *)

(** C25. The retry policy is safe for orders: whatever the network does, a request
    either fails before anything is sent, or its network trace is one of: a failed
    connection attempt; one send on a new connection; one send on the reused
    connection; or a failed send on the reused connection, a new connection and at
    most one more send of the same bytes.  So the request is delivered at most
    once, a failure while reading never resends, and an undelivered request reports
    an error without consuming received data. *)
Theorem request_at_most_once env method path content c w r c' w' :
  request env method path content c w = Some (r, c', w') ->
  (log w' = log w /\ has_value r = false) \/
  exists data reused tr delivered,
    log w' = log w ++ tr /\ request_trace data reused tr delivered /\
    deliveries tr = (if delivered then 1%nat else 0%nat) /\ (reused = true -> connected c = true) /\
    (delivered = false -> has_value r = false /\ inbox w' = inbox w).
Proof.
  intros H. apply request_spec in H as [[Hl Hv]|(auth & reused & tr & d & _ & Hlog & Htr & Hre & Hd)]; [by left|right].
  eexists _, reused, tr, d. split; [done|]. split; [exact Htr|]. split; [by eapply trace_deliveries|]. done.
Qed.

(** C26. Every request is authenticated: for a client whose signer was made from
    credentials, every message a request sends, the one repeated after a failure
    included, is the request's text with the key id, the time of the request, and a
    signature that the key's owner verifies for that time, method and path, as long
    as OpenSSL does what it documents. *)
Theorem requests_are_signed o verify decode `{!OpenSslLaws o verify decode} cred signer env method path content c w r c' w' :
  from_credentials o cred = Ok signer -> _signer c = Some signer ->
  request env method path content c w = Some (r, c', w') ->
  exists tr, log w' = log w ++ tr /\
    forall data ok, EvSend data ok ∈ tr ->
      exists h, data = request_text (_host c) h method path content /\
        let ts := fmt_int (env_timestamp env (ticks w)) in signed_headers o verify decode cred ts (ts ++ method ++ path) h.
Proof.
  intros Hc Hs H. apply request_spec in H as [[Hl _]|(h & reused & tr & d & Ha & Hlog & Htr & _)].
  - exists []. rewrite app_nil_r. split; [done|]. intros data ok Hin. by apply not_elem_of_nil in Hin.
  - exists tr. split; [done|]. intros data ok Hin. exists h. split; [by eapply trace_sends|].
    rewrite Hs in Ha. by eapply auth_headers_signed.
Qed.

(** Keep-alive: after an exchange the client holds a connection exactly when it
    returned a response that keeps the connection alive; every error, in sending or
    in reading, closes it. *)
Theorem connection_survives_iff_keep_alive env data c w r c' w' :
  exchange env data c w = Some (r, c', w') -> connected c' = survives r.
Proof. intros H. by apply exchange_spec in H as (_ & _ & _ & _ & _ & _ & ? & _). Qed.

(** Reading a response does not depend on how the network cut it: if the bytes
    in the buffer and the chunks to come parse as a response of [n] bytes and no
    shorter prefix of whole chunks is rejected, [read_response] returns that
    response and keeps exactly the bytes after it. *)
Theorem read_response_chunking c w chunks inc r n :
  inbox w = map Ok chunks ++ inc -> http_step (_buffer c ++ concat chunks) = Done r n ->
  (forall k e, http_step (_buffer c ++ concat (take k chunks)) <> Bad e) ->
  exists c' w' chunks',
    read_response c w = Some (Ok r, c', w') /\ inbox w' = map Ok chunks' ++ inc /\
    _buffer c' ++ concat chunks' = drop n (_buffer c ++ concat chunks).
Proof.
  intros Hi Hdone Hgood.
  destruct (read_one_done http_step _ _ inc _ _ Hdone Hgood) as (b' & cs' & Hr & Heq).
  apply read_response_read_one in Hr; [|by eexists].
  unfold read_response. rewrite Hi, Hr. eexists _, _, cs'. split; [done|]. done.
Qed.

(** A world in which the first write fails and the second connection answers. *)
Definition retry_env : NetEnv :=
  {| env_resolve := fun n => Ok (reachable_at (3 + Z.of_nat n)); env_ssl := fun _ => working_ssl;
     env_write := fun n => if (n =? 0)%nat then Some (lit "broken pipe") else None;
     env_poll := fun _ => false; env_clock := fun n => Z.of_nat n; env_timestamp := fun _ => 0; env_encode_block := id;
     env_order := fixed_order; env_order_perm := fixed_order_perm |}.

Definition idle_client : HttpClient := set_tls (Some {| _fd := 9 |}) (new_http_client (lit "h") None).

Definition answering_world : World :=
  new_world [Ok (lit "HTTP/1.1 204 "); Ok (kCrlf ++ lit "A: b" ++ kCrlf ++ kCrlf)].

Definition no_content : HttpResponse := {| http_status := 204; keep_alive := true; body := [] |}.

Definition run_result {A} (x : option (A * HttpClient * World)) : option (A * list NetEvent) :=
  match x with Some (a, _, w) => Some (a, log w) | None => None end.

Example retry_sample :
  run_result (request retry_env (lit "GET") (lit "/") [] idle_client answering_world) =
  let d := request_text (lit "h") [] (lit "GET") (lit "/") [] in
  Some (Ok no_content, [EvSend d false; EvConnect true; EvSend d true]).
Proof. by vm_compute. Qed.

Lemma request_at_most_once_witness :
  exists x, request retry_env (lit "GET") (lit "/") [] idle_client answering_world = Some x /\
    ((log x.2 = [] /\ has_value x.1.1 = false) \/
     exists data reused tr delivered,
       log x.2 = [] ++ tr /\ request_trace data reused tr delivered /\
       deliveries tr = (if delivered then 1%nat else 0%nat) /\ (reused = true -> connected idle_client = true) /\
       (delivered = false -> has_value x.1.1 = false /\ inbox x.2 = inbox answering_world)).
Proof.
  destruct (request retry_env (lit "GET") (lit "/") [] idle_client answering_world) as [[[r c'] w']|] eqn:E.
  - exists (r, c', w'). split; [reflexivity|]. exact (request_at_most_once _ _ _ _ _ _ _ _ _ E).
  - vm_compute in E. discriminate E.
Defined.

Definition sample_credentials : Credentials := {| key_id := lit "k"; private_key_path := lit "key.pem" |}.

Definition sample_signer : Signer := {| _key_id := lit "k"; sign := sign_with sample_openssl tt |}.

(** The retry above, with a signer. *)
Definition signing_client : HttpClient := set_tls (Some {| _fd := 9 |}) (new_http_client (lit "h") (Some sample_signer)).

Lemma requests_are_signed_witness :
  exists r c' w' tr, request retry_env (lit "GET") (lit "/") [] signing_client answering_world
      = Some (r, c', w') /\ log w' = [] ++ tr /\ tr <> [] /\
    forall data ok, EvSend data ok ∈ tr ->
      exists h, data = request_text (lit "h") h (lit "GET") (lit "/") [] /\
        signed_headers sample_openssl sample_verify block_decode sample_credentials (lit "0") (lit "0" ++ lit "GET" ++ lit "/") h.
Proof.
  assert (match request retry_env (lit "GET") (lit "/") [] signing_client answering_world with
          | Some (_, _, w') => length (log w') =? 3 | None => false end = true)%nat as Hs by (by vm_compute).
  destruct (request _ _ _ _ _ _) as [[[r c'] w']|] eqn:E; [|discriminate Hs].
  destruct (requests_are_signed sample_openssl sample_verify block_decode sample_credentials sample_signer _ _ _ _ signing_client _ _ _ _ eq_refl eq_refl E)
    as (tr & Hl & Htr).
  exists r, c', w', tr. split; [reflexivity|]. split; [exact Hl|]. split; [|exact Htr].
  intros ->. rewrite Hl in Hs. discriminate Hs.
Defined.

Lemma connection_survives_iff_keep_alive_witness :
  exists x, exchange retry_env [] idle_client answering_world = Some x /\ connected x.1.2 = survives x.1.1.
Proof.
  destruct (exchange retry_env [] idle_client answering_world) as [[[r c'] w']|] eqn:E.
  - exists (r, c', w'). split; [reflexivity|]. exact (connection_survives_iff_keep_alive _ _ _ _ _ _ _ E).
  - vm_compute in E. discriminate E.
Defined.

Lemma read_response_chunking_witness :
  exists c' w' chunks',
    read_response idle_client answering_world = Some (Ok no_content, c', w') /\
    inbox w' = map Ok chunks' ++ [] /\
    _buffer c' ++ concat chunks' = drop 23 (concat [lit "HTTP/1.1 204 "; kCrlf ++ lit "A: b" ++ kCrlf ++ kCrlf]).
Proof.
  apply (read_response_chunking idle_client answering_world
           [lit "HTTP/1.1 204 "; kCrlf ++ lit "A: b" ++ kCrlf ++ kCrlf] [] no_content 23).
  - by vm_compute.
  - by vm_compute.
  - intros k e. destruct k as [|[|k]]; [by vm_compute..|]. rewrite take_ge by (cbn; lia). by vm_compute.
Defined.

(** Bytes that follow a response in the same read stay in the buffer while the
    connection is reused, and are taken for the response to the next request: here
    the second request returns 404 although nothing is received after it is sent. *)
Definition quiet_env : NetEnv :=
  {| env_resolve := fun n => Ok (reachable_at (3 + Z.of_nat n)); env_ssl := fun _ => working_ssl; env_write := fun _ => None; env_poll := fun _ => false;
     env_clock := fun _ => 0; env_timestamp := fun _ => 0; env_encode_block := id;
     env_order := fixed_order; env_order_perm := fixed_order_perm |}.

Definition two_requests : M HttpClient (expected bytes HttpResponse * expected bytes HttpResponse) :=
  let% r1 := request quiet_env (lit "GET") (lit "/a") [] in
  let% r2 := request quiet_env (lit "GET") (lit "/b") [] in
  ret (r1, r2).

Lemma stale_bytes_answer_next_request :
  run_result (two_requests idle_client
    (new_world [Ok (crlf_lines ["HTTP/1.1 204 No Content"; ""; "HTTP/1.1 404 X"; "Content-Length: 0"; ""]%string)])) =
  Some ((Ok no_content, Ok {| http_status := 404; keep_alive := true; body := [] |}),
        [EvSend (request_text (lit "h") [] (lit "GET") (lit "/a") []) true;
         EvSend (request_text (lit "h") [] (lit "GET") (lit "/b") []) true]).
Proof. by vm_compute. Qed.
