(* ===== verification/HttpReplies.v ===== *)
(** * HttpReplies: what the HTTPS server sends, as replies

    An HTTP/1.1 server sends a reply only after a request (the comment on
    [idle_connection_is_dead] relies on it), so what the client reads is a sequence of
    replies, each cut into reads in some way.  This file says which replies are read the
    same whatever their cut, those of which the parser refuses no prefix, that
    [read_response] takes one such reply whatever its cut, and that every response with
    a Content-Length within the limits is one. *)

From S2P Require Import Prelude CharConv Stream World HttpResponse HttpClient.

(** ** What the server sends *)

(** A complete response, or the bytes before a read that fails with [e]. *)
Inductive Reply : Type :=
| Answer (data : bytes)
| Failure (data e : bytes).

(** The replies whose cut does not matter: one response with nothing after it, of which
    the parser rejects no prefix, or bytes before a failure of which no prefix is
    rejected or complete.  A response of which a prefix is rejected, because the limit
    on the header is applied to what has arrived, is read or refused depending on its
    cut ([header_limit_depends_on_chunking]). *)
Definition reply_ok (r : Reply) : Prop :=
  match r with
  | Answer data =>
    (exists resp, http_step data = Done resp (length data)) /\ forall k e, http_step (take k data) <> Bad e
  | Failure data _ => forall k, http_step (take k data) = More
  end.

(** The reads a reply arrives in; [SSL_read] returns at least one byte. *)
Inductive cut : Reply -> incoming -> Prop :=
| cut_answer chunks : Forall (fun c => c <> []) chunks -> cut (Answer (concat chunks)) (map Ok chunks)
| cut_failure chunks e :
    Forall (fun c => c <> []) chunks -> cut (Failure (concat chunks) e) (map Ok chunks ++ [Unexpected e]).

Inductive delivers : list Reply -> incoming -> Prop :=
| delivers_nil : delivers [] []
| delivers_cons r rs i inc : reply_ok r -> cut r i -> delivers rs inc -> delivers (r :: rs) (i ++ inc).

(** ** Reading a reply *)

(** What [read_response] makes of a reply, and what it leaves in the buffer. *)
Definition reply_result (r : Reply) : expected bytes HttpResponse :=
  match r with
  | Answer data =>
    match http_step data with
    | Done resp _ => Ok resp
    | More => Unexpected []
    | Bad e => Unexpected e
    end
  | Failure data e =>
    match parse_http_response data true with
    | Ok (Some final) => Ok (response final)
    | _ => Unexpected (lit "reading response: " ++ e)
    end
  end.

Definition reply_left (r : Reply) : bytes := match r with Answer _ => [] | Failure data _ => data end.

Lemma concat_take_prefix (chunks : list bytes) j :
  concat (take j chunks) = take (length (concat (take j chunks))) (concat chunks).
Proof.
  rewrite <- (take_drop j chunks) at 3. rewrite concat_app. by rewrite take_app_length.
Qed.

Lemma concat_take_short (chunks : list bytes) j :
  Forall (fun c => c <> []) chunks -> (j < length chunks)%nat -> (length (concat (take j chunks)) < length (concat chunks))%nat.
Proof.
  intros Hne Hj. rewrite <- (take_drop j chunks) at 2. rewrite concat_app, length_app.
  destruct (drop j chunks) as [|c rest] eqn:E; [apply (f_equal length) in E; rewrite length_drop in E; cbn in E; lia|].
  apply (Forall_drop _ j) in Hne. rewrite E in Hne. apply Forall_cons in Hne as [Hc _]. destruct c; [done|]. cbn. lia.
Qed.

(** Until the response is complete the loop takes chunk after chunk. *)
Lemma read_response_more chunks : forall buffer tail,
  (forall j, (j < length chunks)%nat -> http_step (buffer ++ concat (take j chunks)) = More) ->
  read_response_loop buffer (map Ok chunks ++ tail) = read_response_loop (buffer ++ concat chunks) tail.
Proof.
  induction chunks as [|c chunks IH]; intros buffer tail Hmore; cbn [map app concat]; [by rewrite app_nil_r|].
  pose proof (Hmore 0%nat ltac:(cbn; lia)) as H0. cbn in H0. rewrite app_nil_r in H0. unfold http_step in H0.
  cbn [read_response_loop]. destruct (parse_http_response buffer false) as [[p|]|e0]; [done| |done].
  rewrite IH; [by rewrite app_assoc|]. intros j Hj. specialize (Hmore (S j) ltac:(cbn; lia)).
  cbn [take concat] in Hmore. by rewrite app_assoc in Hmore.
Qed.

(** A strict prefix of an answer is incomplete. *)
Lemma answer_prefix data k : reply_ok (Answer data) -> (k < length data)%nat -> http_step (take k data) = More.
Proof.
  intros [[resp Hd] Hb] Hk. destruct (http_step (take k data)) as [r n| |e0] eqn:E; [|done|by destruct (Hb k e0)].
  pose proof (done_bound _ _ _ E) as Hn. rewrite length_take in Hn.
  apply (done_stable _ (drop k data)) in E. rewrite take_drop, Hd in E. injection E as _ E. lia.
Qed.

Lemma read_response_step buffer tail r n :
  http_step buffer = Done r n -> read_response_loop buffer tail = Some (Ok r, drop n buffer, tail).
Proof.
  unfold http_step. intros H. destruct tail; cbn [read_response_loop].
  all: destruct (parse_http_response buffer false) as [[p|]|e0]; try done; by injection H as -> <-.
Qed.

Lemma read_reply r i inc :
  reply_ok r -> cut r i -> read_response_loop [] (i ++ inc) = Some (reply_result r, reply_left r, inc).
Proof.
  intros Hok Hcut. destruct Hcut as [chunks Hne|chunks e Hne].
  - rewrite read_response_more.
    + destruct (proj1 Hok) as [resp Hd]. cbn [app reply_result reply_left]. rewrite Hd.
      rewrite (read_response_step _ _ _ _ Hd). by rewrite drop_all.
    + intros j Hj. cbn [app]. rewrite concat_take_prefix. apply answer_prefix; [done|]. by apply concat_take_short.
  - cbn [reply_ok] in Hok. rewrite <- app_assoc, read_response_more.
    + cbn [app read_response_loop]. specialize (Hok (length (concat chunks))). rewrite take_ge in Hok by lia.
      unfold http_step in Hok. destruct (parse_http_response (concat chunks) false) as [[p|]|]; try done.
      cbn [reply_result reply_left]. by destruct (parse_http_response (concat chunks) true) as [[p|]|].
    + intros j Hj. cbn [app]. rewrite concat_take_prefix. apply Hok.
Qed.

(** A response that the end of the connection completes does not keep it alive. *)
Lemma final_closes data p :
  parse_http_response data false = Ok None -> parse_http_response data true = Ok (Some p) -> keep_alive (response p) = false.
Proof.
  unfold parse_http_response. destruct (find_sub _ data) as [e|]; [|by case_match].
  destruct (_ <? _); [done|]. destruct (parse_headers _) as [h|]; [|done]. 
  destruct (chunked h).
  { by destruct (decode_chunked _ _) as [[[e1 b]|]|]. }
  destruct (content_length h) as [len|].
  { destruct (_ <? len); [done|]. destruct (_ <? len); done. }
  destruct (_ || _); [done|]. cbn [negb]. intros _. destruct (_ <? _); [done|]. by intros [= <-].
Qed.

(** ** Replies with a Content-Length *)

(** Until the blank line is complete the header block is incomplete. *)
Lemma header_prefix data k e :
  find_sub (kCrlf ++ kCrlf) data = Some e -> (k < e + 4)%nat -> Z.of_nat (e + 4) <= kMaxHttpHeaderBytes ->
  http_step (take k data) = More.
Proof.
  intros Hf Hk Hmax. unfold http_step, parse_http_response.
  destruct (find_sub (kCrlf ++ kCrlf) (take k data)) as [i|] eqn:E.
  - exfalso. pose proof (find_sub_bound _ _ _ E) as Hb. rewrite length_take in Hb. cbn in Hb.
    apply (find_sub_app _ _ (drop k data)) in E. rewrite take_drop, Hf in E. injection E as ->. lia.
  - destruct (Z.ltb_spec kMaxHttpHeaderBytes (Z.of_nat (length (take k data)))); [|done]. rewrite length_take in *. lia.
Qed.

(** Every response with a Content-Length, whose header block and body are within the
    limits, is an answer: however it is cut, it is read back. *)
Lemma content_length_answer st reason content :
  100 <= st <= 599 -> clean reason -> Z.of_nat (length content) <= kMaxHttpBodyBytes ->
  Z.of_nat (length (head_of st reason [content_length_line (Z.of_nat (length content))]) + 4) <= kMaxHttpHeaderBytes ->
  reply_ok (Answer (content_length_message st reason content)).
Proof.
  intros Hst Hr Hmax Hhead.
  assert (http_step (content_length_message st reason content)
          = Done {| http_status := st; keep_alive := true; body := content |} (length (content_length_message st reason content))) as Hd.
  { pose proof (content_length_round_trip st reason content [] false Hst Hr Hmax ltac:(lia)) as H. rewrite app_nil_r in H.
    unfold http_step. by rewrite H. }
  split; [eauto|]. intros k e. destruct (Nat.lt_ge_cases k (length (content_length_message st reason content))) as [Hk|Hk];
    [|by rewrite take_ge, Hd by done].
  revert Hd Hk. unfold content_length_message. set (n := Z.of_nat (length content)) in *.
  assert (in_u64 n) as Hu by (unfold in_u64, UINT64_MAX, kMaxHttpBodyBytes in *; lia).
  assert (fold_headers (start_headers st) [content_length_line n] = Ok (set_content_length (start_headers st) n)) as Hh.
  { cbn [fold_headers]. by rewrite content_length_header. }
  assert (header_lines [content_length_line n]) as Hl by (constructor; [apply content_length_line_ok; lia|constructor]).
  destruct (parse_message st reason _ content _ Hst Hr Hl Hh) as (H1 & _ & _ & H4).
  fold (head_of st reason [content_length_line n]) in *. set (head := head_of _ _ _) in *. intros _ Hk.
  destruct (Nat.lt_ge_cases k (length head + 4)) as [Hlt|Hge]; [by rewrite (header_prefix _ _ _ H1)|].
  assert (take k (http_message st reason [content_length_line n] content)
          = http_message st reason [content_length_line n] (take (k - (length head + 4)) content)) as ->.
  { unfold http_message. fold (head_of st reason [content_length_line n]). fold head. rewrite !app_assoc.
    rewrite take_app_ge by (rewrite !length_app; change (length kCrlf) with 2%nat; lia). do 2 f_equal. rewrite !length_app. change (length kCrlf) with 2%nat. lia. }
  destruct (parse_message st reason _ (take (k - (length head + 4)) content) _ Hst Hr Hl Hh) as (P1 & P2 & _ & P4).
  fold (head_of st reason [content_length_line n]) in *. fold head in P1, P2, P4.
  unfold http_step, parse_http_response. rewrite P1, P2. destruct (Z.ltb_spec kMaxHttpHeaderBytes (Z.of_nat (length head))); [lia|].
  cbn [chunked set_content_length start_headers content_length]. destruct (Z.ltb_spec kMaxHttpBodyBytes n); [lia|].
  destruct (Z.ltb_spec (Z.of_nat (length (http_message st reason [content_length_line n] (take (k - (length head + 4)) content))
    - (length head + 4))) n) as [|Hbad]; [done|]. rewrite P4, length_take in Hbad. unfold n in Hbad. lia.
Qed.

(** ** Cuts *)

(** Replies that arrive in one read each, and byte by byte. *)
Lemma delivers_whole ds : Forall (fun d => reply_ok (Answer d) /\ d <> []) ds -> delivers (map Answer ds) (map Ok ds).
Proof.
  induction 1 as [|d ds [Hok Hd] _ IH]; cbn [map]; [constructor|].
  apply (delivers_cons (Answer d) _ [Ok d] (map Ok ds)); [done| |done].
  pose proof (cut_answer [d]) as Hc. cbn in Hc. rewrite app_nil_r in Hc. apply Hc. by constructor.
Qed.

Definition in_bytes (d : bytes) : incoming := map (fun c => Ok [c]) d.

Lemma delivers_bytes ds : Forall (fun d => reply_ok (Answer d)) ds -> delivers (map Answer ds) (concat (map in_bytes ds)).
Proof.
  induction 1 as [|d ds Hok _ IH]; cbn [map concat]; [constructor|]. apply delivers_cons; [done| |done].
  assert (concat (map (fun c => [c]) d) = d) as Hd by (clear; induction d as [|c d IHd]; cbn; congruence).
  rewrite <- Hd at 1. unfold in_bytes. rewrite <- (map_map (fun c => [c]) Ok). constructor. clear. induction d; by constructor.
Qed.

(** ** The buffer between requests *)

(** No bytes are kept for a connection that is open. *)
Definition clean_client (c : HttpClient) : Prop := connected c = true -> HttpClient._buffer c = [].

Lemma closed_clean c : _tls c = None -> clean_client c.
Proof. unfold clean_client, connected. by intros ->. Qed.

Lemma new_client_clean host signer : clean_client (new_http_client host signer).
Proof. by apply closed_clean. Qed.
