(* ===== verification/Trackers.v ===== *)
(** * Trackers: orders, positions and latency samples

    include/order_tracker.hpp, include/position_tracker.hpp and
    include/latency_stats.hpp.  The [unordered_map]s are finite maps keyed by byte
    strings; the one place that iterates over such a map, [exposure()], takes the order
    from the environment (TradingBot). *)

From stdpp Require Import gmap.
From S2P Require Import Prelude CharConv MessageTypes.

(** ** Orders *)

Inductive OrderStatus : Type := Pending | Open | Filled | Cancelled.

Record Order : Type := {
  order_id : bytes;
  order_request : OrderRequest;
  order_status : OrderStatus;
  order_fill_count : bytes;
  order_remaining_count : bytes;
}.

Abbreviation OrderTracker := (gmap bytes Order).

Definition get_order (t : OrderTracker) (id : bytes) : option Order := t !! id.

(** [emplace]: the first order recorded under an id stays. *)
Definition add_order (t : OrderTracker) (o : Order) : OrderTracker :=
  match t !! order_id o with Some _ => t | None => <[order_id o := o]> t end.

Definition set_status (o : Order) (st : OrderStatus) : Order :=
  {| order_id := order_id o; order_request := order_request o; order_status := st;
     order_fill_count := order_fill_count o; order_remaining_count := order_remaining_count o |}.

Definition update_status (t : OrderTracker) (id : bytes) (st : OrderStatus) : OrderTracker :=
  match t !! id with Some o => <[id := set_status o st]> t | None => t end.

(** ** Positions *)

Abbreviation PositionTracker := (gmap bytes Z).

Definition get_position (t : PositionTracker) (ticker : bytes) : Z := default 0 (t !! ticker).

(** [_positions[ticker] += quantity]; [None] is signed overflow. *)
Definition update_positions (t : PositionTracker) (ticker : bytes) (q : Z) : option PositionTracker :=
  match i64_add (get_position t ticker) q with
  | Some p => Some (<[ticker := p]> t)
  | None => None
  end.

(** ** Latency samples *)

Definition kCapacity : nat := Z.to_nat 65536.

Record LatencyStats : Type := {
  _name : bytes;
  _samples_ns : list Z;
  _next : nat;
  _count : Z;
}.

Definition new_latency_stats (name : string) : LatencyStats :=
  {| _name := lit name; _samples_ns := []; _next := 0; _count := 0 |}.

Definition record (s : LatencyStats) (ns : Z) : LatencyStats :=
  {| _name := _name s;
     _samples_ns := if (length (_samples_ns s) <? kCapacity)%nat then _samples_ns s ++ [ns]
                    else <[_next s := ns]> (_samples_ns s);
     _next := (_next s + 1) mod kCapacity;
     _count := u64 (_count s + 1) |}.

(** ** Facts *)

Lemma get_order_add t o id :
  get_order (add_order t o) id =
  if decide (id = order_id o) then Some (default o (get_order t id)) else get_order t id.
Proof.
  unfold get_order, add_order. destruct (t !! order_id o) as [o'|] eqn:E; case_decide as Hd; subst.
  - by rewrite E.
  - done.
  - rewrite lookup_insert_eq. by rewrite E.
  - by rewrite lookup_insert_ne.
Qed.

Lemma get_order_update t id st id' :
  get_order (update_status t id st) id' =
  if decide (id' = id) then (fun o => set_status o st) <$> get_order t id' else get_order t id'.
Proof.
  unfold get_order, update_status. destruct (t !! id) as [o|] eqn:E; case_decide as Hd; subst.
  - by rewrite lookup_insert_eq, E.
  - by rewrite lookup_insert_ne.
  - by rewrite E.
  - done.
Qed.

Lemma get_position_update t ticker q t' x :
  update_positions t ticker q = Some t' ->
  get_position t' x = get_position t x + (if decide (x = ticker) then q else 0).
Proof.
  unfold update_positions, i64_add. destruct (_ && _); [|done]. intros [= <-]. unfold get_position at 1.
  case_decide as Hd; subst.
  - by rewrite lookup_insert_eq.
  - rewrite lookup_insert_ne by done. fold (get_position t x). lia.
Qed.

(** ** The ring buffer *)

Definition record_all (s : LatencyStats) (ds : list Z) : LatencyStats := fold_left record ds s.

(** The most recent [kCapacity] samples, oldest first. *)
Definition recent (ds : list Z) : list Z := drop (length ds - kCapacity) ds.

(** The buffer holds the recent samples, rotated so that the oldest is at [_next]. *)
Definition ring_ok (s : LatencyStats) (ds : list Z) : Prop :=
  _count s = u64 (Z.of_nat (length ds)) /\ _next s = (length ds mod kCapacity)%nat /\
  if (length ds <? kCapacity)%nat then _samples_ns s = ds
  else _samples_ns s = drop (kCapacity - _next s) (recent ds) ++ take (kCapacity - _next s) (recent ds).

Lemma kCapacity_pos : (0 < kCapacity)%nat.
Proof. unfold kCapacity. lia. Qed.

Lemma recent_snoc ds d :
  recent (ds ++ [d]) = if (length ds <? kCapacity)%nat then ds ++ [d] else drop 1 (recent ds) ++ [d].
Proof.
  pose proof kCapacity_pos. unfold recent. rewrite length_app. cbn [length].
  destruct (Nat.ltb_spec (length ds) kCapacity) as [Hlt|Hge].
  - by replace (length ds + 1 - kCapacity)%nat with 0%nat by lia.
  - rewrite drop_drop. replace (length ds + 1 - kCapacity)%nat with (length ds - kCapacity + 1)%nat by lia.
    by rewrite drop_app_le by lia.
Qed.

Lemma recent_length ds : length (recent ds) = Nat.min (length ds) kCapacity.
Proof. unfold recent. rewrite length_drop. lia. Qed.

Lemma rotate_step (n cap : nat) (r : list Z) d :
  length r = cap -> (n < cap)%nat ->
  <[n := d]> (drop (cap - n) r ++ take (cap - n) r) =
  let r' := drop 1 r ++ [d] in let n' := ((n + 1) mod cap)%nat in
  drop (cap - n') r' ++ take (cap - n') r'.
Proof.
  intros Hr Hn. cbv zeta. set (n' := ((n + 1) mod cap)%nat).
  destruct r as [|x r]; [cbn in Hr; lia|]. cbn [length] in Hr.
  assert (length (drop (cap - n) (x :: r)) = n) as Hld by (rewrite length_drop; cbn; lia).
  replace n with (length (drop (cap - n) (x :: r)) + 0)%nat at 1 by lia.
  rewrite insert_app_r. destruct (cap - n)%nat as [|k] eqn:Ek; [lia|]. cbn [take drop] in *.
  change (<[0%nat := d]> (x :: take k r)) with (d :: take k r).
  destruct (decide (S n = cap)) as [<-|Hne].
  - assert (n' = 0%nat) as ->. { subst n'. rewrite Nat.add_1_r. apply Nat.Div0.mod_same. }
    assert (k = 0%nat) as -> by lia. rewrite Nat.sub_0_r. cbn [take drop].
    rewrite !drop_0, take_0, (drop_ge (r ++ [d])), (take_ge (r ++ [d])) by (rewrite length_app; cbn; lia). done.
  - assert (n' = S n) as ->. { subst n'. rewrite Nat.add_1_r. apply Nat.mod_small. lia. }
    replace (cap - S n)%nat with k by lia.
    rewrite !drop_0, drop_app_le, take_app_le by lia. by rewrite <- app_assoc.
Qed.

Lemma record_ring s ds d : ring_ok s ds -> ring_ok (record s d) (ds ++ [d]).
Proof.
  intros (Hc & Hn & Hs). pose proof kCapacity_pos as Hpos.
  assert (length (_samples_ns s) = Nat.min (length ds) kCapacity) as Hlen.
  { destruct (Nat.ltb_spec (length ds) kCapacity); rewrite Hs; [lia|].
    rewrite length_app, Nat.add_comm, <- length_app, take_drop, recent_length. lia. }
  unfold ring_ok, record. cbn [_count _next _samples_ns]. rewrite length_app. cbn [length].
  split; [rewrite Hc, Nat2Z.inj_add; unfold u64; apply Zplus_mod_idemp_l|].
  assert ((_next s + 1) mod kCapacity = (length ds + 1) mod kCapacity)%nat as Hnext.
  { rewrite Hn. by rewrite Nat.Div0.add_mod_idemp_l. }
  split; [done|]. rewrite Hlen.
  destruct (Nat.ltb_spec (length ds) kCapacity) as [Hlt|Hge].
  - rewrite Nat.min_l by lia. destruct (Nat.ltb_spec (length ds) kCapacity) as [_|]; [|lia]. rewrite Hs.
    destruct (Nat.ltb_spec (length ds + 1) kCapacity) as [|Hfull]; [done|].
    assert (length ds + 1 = kCapacity)%nat as Hcap by lia.
    rewrite Hnext, Hcap, Nat.Div0.mod_same, Nat.sub_0_r, recent_snoc.
    destruct (Nat.ltb_spec (length ds) kCapacity); [|lia].
    rewrite drop_ge, take_ge by (rewrite length_app; cbn; lia). done.
  - rewrite Nat.min_r by lia. rewrite Nat.ltb_irrefl.
    destruct (Nat.ltb_spec (length ds + 1) kCapacity); [lia|]. rewrite Hs, recent_snoc.
    destruct (Nat.ltb_spec (length ds) kCapacity); [lia|]. apply rotate_step.
    + rewrite recent_length. lia.
    + rewrite Hn. apply Nat.mod_upper_bound. lia.
Qed.

Lemma record_all_ring name ds : ring_ok (record_all (new_latency_stats name) ds) ds.
Proof.
  induction ds as [|d ds IH] using rev_ind.
  - unfold ring_ok. cbn. pose proof kCapacity_pos. rewrite Nat.Div0.mod_0_l.
    destruct (Nat.ltb_spec 0 kCapacity); [done|lia].
  - unfold record_all. rewrite fold_left_app. by apply record_ring.
Qed.

Lemma record_all_recent name ds :
  let s := record_all (new_latency_stats name) ds in
  _count s = u64 (Z.of_nat (length ds)) /\ _samples_ns s ≡ₚ recent ds /\ (length (_samples_ns s) <= kCapacity)%nat.
Proof.
  intros s. destruct (record_all_ring name ds) as (Hc & Hn & Hs). fold s in Hc, Hn, Hs.
  assert (_samples_ns s ≡ₚ recent ds) as Hp.
  { destruct (Nat.ltb_spec (length ds) kCapacity).
    - rewrite Hs. unfold recent. by replace (length ds - kCapacity)%nat with 0%nat by lia.
    - by rewrite Hs, Permutation_app_comm, take_drop. }
  split; [done|]. split; [done|]. rewrite Hp, recent_length. lia.
Qed.

(** The latency buffer keeps the most recent samples: after any sequence of
    recordings it counts them all (modulo 2^64) and holds, up to order, exactly the last
    [kCapacity] of them, so its memory stays bounded. *)
Theorem latency_keeps_recent name ds :
  let s := record_all (new_latency_stats name) ds in
  _count s = u64 (Z.of_nat (length ds)) /\ _samples_ns s ≡ₚ recent ds /\ (length (_samples_ns s) <= kCapacity)%nat.
Proof. apply record_all_recent. Qed.
