(* ===== verification/Latency.v ===== *)
(** * Latency: the summary of the latency samples (include/latency_stats.hpp)

    [LatencyStats::summary] sorts the samples, reads them at positions computed in
    floating point, and formats what it read.  [None] stands for a read outside the
    vector. *)

From stdpp Require Import sorting.
From S2P Require Import Prelude Double DoubleFacts FixedPoint CharConv Format MessageTypes Trackers.

(** ** Definitions *)

(** The literals 0.50, 0.90 and 0.99 as doubles. *)
Definition p50 : double := S754_finite false 4503599627370496 (-53).
Definition p90 : double := S754_finite false 8106479329266893 (-53).
Definition p99 : double := S754_finite false 8917127262193582 (-53).

Definition pretty (ns : Z) : bytes :=
  if ns <? 1000 then fmt_int ns ++ lit "ns"
  else if ns <? 1000000 then fmt_fixed1 (ddiv (of_int ns) (of_int 1000)) ++ lit "us"
  else fmt_fixed1 (ddiv (of_int ns) (of_int 1000000)) ++ lit "ms".

(** [std::ranges::sort] *)
Definition sort_samples (samples : list Z) : list Z := merge_sort Z.le samples.

(** The position [pct] reads in a vector of [size] elements. *)
Definition pct_index (p : double) (size : Z) : option Z := to_size (dmul p (of_int (size - 1))).

(** The lambda [pct] of [summary]. *)
Definition pct (sorted : list Z) (p : double) : option Z :=
  match pct_index p (Z.of_nat (length sorted)) with Some i => sorted !! Z.to_nat i | None => None end.

Definition summary_line (name : bytes) (count a b c d : Z) : bytes :=
  pad 22 name ++ lit " n=" ++ pad 7 (fmt_uint count) ++ lit " p50=" ++ pad 9 (pretty a) ++
  lit " p90=" ++ pad 9 (pretty b) ++ lit " p99=" ++ pad 9 (pretty c) ++ lit " max=" ++ pretty d.

Definition summary (s : LatencyStats) : option bytes :=
  match _samples_ns s with
  | [] => Some (pad 22 (_name s) ++ lit " no samples")
  | samples =>
    let sorted := sort_samples samples in
    match pct sorted p50, pct sorted p90, pct sorted p99, last sorted with
    | Some a, Some b, Some c, Some d => Some (summary_line (_name s) (_count s) a b c d)
    | _, _, _, _ => None
    end
  end.

Example summary_sample :
  summary (record_all (new_latency_stats "decode") [1500; 900; 2500000; 1200]) =
  Some (lit "decode                 n=4       p50=1.2us     p90=1.5us     p99=1.5us     max=2.5ms").
Proof. by vm_compute. Qed.

(** ** Positions *)

(** The position read for a factor [m * 2^-53] of full precision below one. *)
Lemma pct_index_spec m size :
  2 ^ 52 <= Z.pos m < 2 ^ 53 -> 2 <= size <= 2 ^ 32 ->
  exists J X, 0 <= J /\ 0 <= X / 2 ^ J <= size - 1 /\
    pct_index (S754_finite false m (-53)) size = Some (X / 2 ^ J) /\
    2 ^ 106 * X <= Z.pos m * (size - 1) * 2 ^ J * (2 ^ 53 + 1) /\
    Z.pos m * (size - 1) * 2 ^ J * (2 ^ 53 - 1) <= 2 ^ 106 * X.
Proof.
  intros Hm Hs. destruct (dmul_of_int m (size - 1) Hm ltac:(lia)) as (q & K & J & X & Hd & HK & HJ & HX & Hup & Hlo).
  assert (0 < 2 ^ J) as HJp by (apply Z.pow_pos_nonneg; lia).
  assert (0 < 2 ^ K) as HKp by (apply Z.pow_pos_nonneg; lia).
  assert (X <= (size - 1) * 2 ^ J) as HXle.
  { assert (Z.pos m * (2 ^ 53 + 1) * ((size - 1) * 2 ^ J) <= 2 ^ 106 * ((size - 1) * 2 ^ J))
      by (apply Z.mul_le_mono_nonneg_r; [nia|lia]). lia. }
  assert (0 <= X / 2 ^ J <= size - 1) as Hrange.
  { split; [apply Z.div_pos; lia|]. apply Z.div_le_upper_bound; lia. }
  exists J, X. split; [done|]. split; [done|]. split; [|done]. unfold pct_index. rewrite Hd. cbn [to_size].
  assert ((if 0 <=? K - J then Z.pos q * 2 ^ (K - J) else Z.pos q / 2 ^ (- (K - J))) = X / 2 ^ J) as ->.
  { subst X. destruct (Z.leb_spec 0 (K - J)).
    - replace K with (K - J + J) at 2 by lia. rewrite Z.pow_add_r, Z.mul_assoc, Z.div_mul by lia. done.
    - replace J with (- (K - J) + K) at 2 by lia. rewrite Z.pow_add_r, Z.div_mul_cancel_r by lia. done. }
  destruct (Z.leb_spec (X / 2 ^ J) UINT64_MAX); [done|]. unfold UINT64_MAX in *. lia.
Qed.

Lemma div_le_cross a b c d : 0 < b -> 0 < d -> a * d <= c * b -> a / b <= c / d.
Proof.
  intros Hb Hd H. apply Z.div_le_lower_bound; [done|]. pose proof (Z.mul_div_le a b Hb).
  apply (Z.mul_le_mono_pos_l _ _ b); [done|]. nia.
Qed.

(** The three positions, in order and inside the vector. *)
Lemma pct_indices size :
  1 <= size <= 2 ^ 32 ->
  exists i j k, pct_index p50 size = Some i /\ pct_index p90 size = Some j /\ pct_index p99 size = Some k /\
    0 <= i <= j /\ j <= k < size.
Proof.
  intros Hs. destruct (decide (size = 1)) as [->|Hne].
  { exists 0, 0, 0. repeat split; try done; lia. }
  destruct (pct_index_spec 4503599627370496 size ltac:(lia) ltac:(lia)) as (J1 & X1 & HJ1 & Hr1 & H1 & Hu1 & Hl1).
  destruct (pct_index_spec 8106479329266893 size ltac:(lia) ltac:(lia)) as (J2 & X2 & HJ2 & Hr2 & H2 & Hu2 & Hl2).
  destruct (pct_index_spec 8917127262193582 size ltac:(lia) ltac:(lia)) as (J3 & X3 & HJ3 & Hr3 & H3 & Hu3 & Hl3).
  exists (X1 / 2 ^ J1), (X2 / 2 ^ J2), (X3 / 2 ^ J3). split; [exact H1|]. split; [exact H2|]. split; [exact H3|].
  assert (0 < 2 ^ J1 /\ 0 < 2 ^ J2 /\ 0 < 2 ^ J3) as (P1 & P2 & P3) by (repeat split; apply Z.pow_pos_nonneg; lia).
  set (A := 2 ^ J1) in *. set (B := 2 ^ J2) in *. set (C := 2 ^ J3) in *. clearbody A B C. set (n := size - 1) in *.
  assert (0 < n < size) as [Hn Hns] by lia. clearbody n.
  assert (X1 / A <= X2 / B) by (apply div_le_cross; [done|done|]; assert (0 < n * A * B) by nia; nia).
  assert (X2 / B <= X3 / C) by (apply div_le_cross; [done|done|]; assert (0 < n * B * C) by nia; nia).
  lia.
Qed.

(** ** The summary *)

Lemma sorted_lookup_le (l : list Z) i j x y :
  StronglySorted Z.le l -> l !! i = Some x -> l !! j = Some y -> (i <= j)%nat -> x <= y.
Proof.
  intros Hs. revert i j. induction Hs as [|a l Hs IH Ha]; intros i j Hx Hy Hij; [done|].
  destruct i as [|i], j as [|j]; cbn in *; simplify_eq; [lia| |lia|by eapply (IH i j); eauto with lia].
  rewrite Forall_forall in Ha. apply Ha. by eapply list_elem_of_lookup_2.
Qed.

(** What [summary] prints of a vector of samples. *)
Definition percentiles_of (samples : list Z) (a b c d : Z) : Prop :=
  a <= b <= c /\ c <= d /\ a ∈ samples /\ b ∈ samples /\ c ∈ samples /\ d ∈ samples /\ Forall (fun x => x <= d) samples.

Lemma summary_of_samples s :
  _samples_ns s <> [] -> (length (_samples_ns s) <= kCapacity)%nat ->
  exists a b c d, summary s = Some (summary_line (_name s) (_count s) a b c d) /\ percentiles_of (_samples_ns s) a b c d.
Proof.
  intros Hne Hcap. unfold summary. destruct (_samples_ns s) as [|x xs] eqn:Es; [done|]. rewrite <- Es in *. clear Hne.
  set (l := sort_samples (_samples_ns s)). assert (l ≡ₚ _samples_ns s) as Hp by apply merge_sort_Permutation.
  assert (StronglySorted Z.le l) as Hs by (unfold l, sort_samples; apply StronglySorted_merge_sort; apply _).
  assert (1 <= Z.of_nat (length l) <= 2 ^ 32) as Hlen.
  { rewrite Hp. rewrite Es in *. cbn [length] in *. unfold kCapacity in Hcap. lia. }
  destruct (pct_indices _ Hlen) as (i & j & k & Hi & Hj & Hk & Hij & Hjk).
  destruct (lookup_lt_is_Some_2 l (Z.to_nat i) ltac:(lia)) as [a Ha].
  destruct (lookup_lt_is_Some_2 l (Z.to_nat j) ltac:(lia)) as [b Hb].
  destruct (lookup_lt_is_Some_2 l (Z.to_nat k) ltac:(lia)) as [c Hc].
  destruct (lookup_lt_is_Some_2 l (pred (length l)) ltac:(lia)) as [d Hd].
  exists a, b, c, d. unfold pct. rewrite Hi, Hj, Hk, Ha, Hb, Hc, last_lookup, Hd. split; [done|].
  assert (forall n y, l !! n = Some y -> y <= d) as Hmax.
  { intros n y Hy. eapply (sorted_lookup_le l n (pred (length l))); eauto. apply lookup_lt_Some in Hy. lia. }
  unfold percentiles_of. split; [split; eapply (sorted_lookup_le l); eauto; lia|]. split; [by eapply Hmax|].
  rewrite <- Hp. repeat (split; [by eapply list_elem_of_lookup_2|]).
  apply Forall_lookup. intros n y. apply Hmax.
Qed.

(** C40. The latency summary never reads outside the samples: whatever has been
    recorded, the floating-point positions of the percentiles are inside the sorted
    vector, so the summary is defined; with samples, it prints p50 <= p90 <= p99 <=
    max, each of them one of the most recent samples, and max is their maximum. *)
Theorem summary_reads_in_range name ds :
  let s := record_all (new_latency_stats name) ds in
  if (length ds =? 0)%nat then summary s = Some (pad 22 (_name s) ++ lit " no samples")
  else exists a b c d, summary s = Some (summary_line (_name s) (_count s) a b c d) /\
         percentiles_of (recent ds) a b c d.
Proof.
  intros s. destruct (record_all_recent name ds) as (_ & Hp & Hcap). fold s in Hp, Hcap.
  destruct (Nat.eqb_spec (length ds) 0) as [H0|H0]; [by destruct ds|].
  destruct (summary_of_samples s) as (a & b & c & d & Hsum & Hper); [|done|].
  { intros Hnil. rewrite Hnil in Hp. apply Permutation_nil_l in Hp.
    pose proof (recent_length ds) as Hl. rewrite <- Hp in Hl. unfold kCapacity in Hl. cbn in Hl. lia. }
  exists a, b, c, d. split; [done|]. unfold percentiles_of in *. by rewrite Hp in Hper.
Qed.
