(* ===== verification/Strategy.v ===== *)
(** * Strategy: mean reversion on the mid price (src/trading/strategy.cpp)

    [double] is the type of Double.  [std::exp] is a parameter of the model, since the C++ library does not fix its
    rounding.  Durations and time points are integers of nanoseconds. *)

From S2P Require Import Prelude Double FixedPoint CharConv JsonLexer JsonParser MessageTypes MarketState KalshiMessages JsonRoundTrip.

(** ** Data *)

Definition kSecond : Z := 1000000000.

Record StrategyConfig : Type := {
  ema_time_constant : Z;   (* seconds *)
  warmup : Z;              (* seconds *)
  entry_edge : Z;
  max_spread : Z;
  max_position : Z;
  order_size : Z;
  cooldown : Z;            (* seconds *)
}.

Definition default_config : StrategyConfig :=
  {| ema_time_constant := 60; warmup := 60; entry_edge := cents 3; max_spread := cents 4; max_position := 5;
     order_size := 1; cooldown := 5 |}.

Record Signal : Type := { signal_side : OrderSide; signal_price : Z; signal_count : Z }.

Record MeanReversionStrategy : Type := {
  _config : StrategyConfig;
  _ema : option double;
  _first_update : Z;
  _last_update : Z;
  _last_order : option Z;
}.

Definition new_strategy (config : StrategyConfig) : MeanReversionStrategy :=
  {| _config := config; _ema := None; _first_update := 0; _last_update := 0; _last_order := None |}.

Definition fair_value (s : MeanReversionStrategy) : option double := _ema s.
Definition config (s : MeanReversionStrategy) : StrategyConfig := _config s.

Section Update.
Variable exp : double -> double.

(** The EMA after an update at [now] with mid price [mid], and the first update. *)
Definition update_ema (s : MeanReversionStrategy) (mid : double) (now : Z) : double * Z :=
  match _ema s with
  | None => (mid, now)
  | Some ema =>
    let dt := ddiv (of_int (now - _last_update s)) (of_int kSecond) in
    let tau := of_int (ema_time_constant (_config s)) in
    let alpha := dsub (of_int 1) (exp (ddiv (dneg dt) tau)) in
    (dadd ema (dmul alpha (dsub mid ema)), _first_update s)
  end.

(** The comparison with the edge and then, in [int64_t], with the position limit.  The
    sum and the differences are computed only if the first comparison holds; [None]:
    one of them leaves [int64_t]. *)
Definition make_signal (cfg : StrategyConfig) (ema : double) (bid ask exposure : Z) : option (option Signal) :=
  let sell :=
    if dge (of_int bid) (dadd ema (of_int (entry_edge cfg))) then
      match i64_sub exposure (order_size cfg), i64_sub 0 (max_position cfg) with
      | Some after, Some limit =>
        Some (if limit <=? after
              then Some {| signal_side := Ask; signal_price := bid; signal_count := order_size cfg |}
              else None)
      | _, _ => None
      end
    else Some None in
  if dle (of_int ask) (dsub ema (of_int (entry_edge cfg))) then
    match i64_add exposure (order_size cfg) with
    | None => None
    | Some after =>
      if after <=? max_position cfg
      then Some (Some {| signal_side := Bid; signal_price := ask; signal_count := order_size cfg |})
      else sell
    end
  else sell.

(** [None]: the arithmetic of the position limit overflows. *)
Definition on_book_update (s : MeanReversionStrategy) (book : MarketState) (exposure now : Z)
    : option (option Signal * MeanReversionStrategy) :=
  match best_yes_bid book, best_yes_ask book with
  | Some bid, Some ask =>
    if ask <=? bid then Some (None, s)
    else
      let mid := ddiv (of_int (bid + ask)) (of_int 2) in
      let '(ema, first) := update_ema s mid now in
      let cfg := _config s in
      let s := {| _config := cfg; _ema := Some ema; _first_update := first; _last_update := now;
                  _last_order := _last_order s |} in
      if now - first <? warmup cfg * kSecond then Some (None, s)
      else if max_spread cfg <? ask - bid then Some (None, s)
      else if match _last_order s with Some t => now - t <? cooldown cfg * kSecond | None => false end
      then Some (None, s)
      else
        match make_signal cfg ema bid ask exposure with
        | None => None
        | Some None => Some (None, s)
        | Some (Some signal) =>
          Some (Some signal, {| _config := cfg; _ema := Some ema; _first_update := first; _last_update := now;
                                _last_order := Some now |})
        end
  | _, _ => Some (None, s)
  end.
End Update.

Definition make_ioc_order (tk : bytes) (signal : Signal) (id : bytes) : OrderRequest :=
  {| ticker := tk;
     order_side := signal_side signal;
     count := fmt_int (signal_count signal) ++ lit ".00";
     price := price_to_dollars (signal_price signal);
     time_in_force := ImmediateOrCancel;
     self_trade_prevention := TakerAtCross;
     client_order_id := id;
     post_only := false |}.

(** ** Signals *)

(** What holds whenever the strategy trades; the sums are those of [int64_t]. *)
Definition signal_justified (s s' : MeanReversionStrategy) (book : MarketState) (exposure now : Z) (sig : Signal) : Prop :=
  exists bid ask ema,
    best_yes_bid book = Some bid /\ best_yes_ask book = Some ask /\ bid < ask /\
    ask - bid <= max_spread (_config s) /\ _ema s' = Some ema /\
    warmup (_config s) * kSecond <= now - _first_update s' /\
    (forall t, _last_order s = Some t -> cooldown (_config s) * kSecond <= now - t) /\
    signal_count sig = order_size (_config s) /\
    match signal_side sig with
    | Bid => signal_price sig = ask /\ dle (of_int ask) (dsub ema (of_int (entry_edge (_config s)))) = true /\
             in_i64 (exposure + signal_count sig) /\ exposure + signal_count sig <= max_position (_config s)
    | Ask => signal_price sig = bid /\ dge (of_int bid) (dadd ema (of_int (entry_edge (_config s)))) = true /\
             in_i64 (exposure - signal_count sig) /\ - max_position (_config s) <= exposure - signal_count sig
    end.

Lemma make_signal_spec cfg ema bid ask exposure sig :
  make_signal cfg ema bid ask exposure = Some (Some sig) ->
  signal_count sig = order_size cfg /\
  match signal_side sig with
  | Bid => signal_price sig = ask /\ dle (of_int ask) (dsub ema (of_int (entry_edge cfg))) = true /\
           in_i64 (exposure + signal_count sig) /\ exposure + signal_count sig <= max_position cfg
  | Ask => signal_price sig = bid /\ dge (of_int bid) (dadd ema (of_int (entry_edge cfg))) = true /\
           in_i64 (exposure - signal_count sig) /\ - max_position cfg <= exposure - signal_count sig
  end.
Proof.
  unfold make_signal. set (sell := if dge _ _ then _ else _).
  assert (sell = Some (Some sig) -> signal_side sig = Ask /\ signal_count sig = order_size cfg /\ signal_price sig = bid /\
    dge (of_int bid) (dadd ema (of_int (entry_edge cfg))) = true /\
    in_i64 (exposure - signal_count sig) /\ - max_position cfg <= exposure - signal_count sig) as Hsell.
  { subst sell. destruct (dge _ _) eqn:E; [|done]. destruct (i64_sub exposure _) as [after|] eqn:E1; [|done].
    destruct (i64_sub 0 _) as [limit|] eqn:E2; [|done]. apply i64_sub_iff in E1 as [-> Hr], E2 as [-> _].
    destruct (Z.leb_spec (0 - max_position cfg) (exposure - order_size cfg)); [|done]. intros [= <-]. cbn. repeat (split; [done|]). lia. }
  clearbody sell. match goal with |- _ -> ?G => assert (sell = Some (Some sig) -> G) as Hs end.
  { intros H. destruct (Hsell H) as (Hside & Hc & Hrest). split; [exact Hc|]. rewrite Hside. exact Hrest. }
  destruct (dle _ _) eqn:E; [|exact Hs].
  destruct (i64_add _ _) as [after|] eqn:Ea; [|done]. apply i64_add_iff in Ea as [-> Hr].
  destruct (Z.leb_spec (exposure + order_size cfg) (max_position cfg)); [|exact Hs]. by intros [= <-].
Qed.

(** Exposures that stay clear of the ends of [int64_t] are compared without overflow. *)
Lemma make_signal_defined cfg ema bid ask exposure :
  in_i64 (exposure + order_size cfg) -> in_i64 (exposure - order_size cfg) -> in_i64 (- max_position cfg) ->
  is_Some (make_signal cfg ema bid ask exposure).
Proof.
  intros H1 H2 H3. unfold make_signal.
  rewrite (proj2 (i64_add_iff _ _ _) (conj eq_refl H1)), (proj2 (i64_sub_iff exposure _ _) (conj eq_refl H2)).
  rewrite (proj2 (i64_sub_iff 0 _ _) (conj eq_refl H3)). by repeat case_match.
Qed.

Lemma on_book_update_defined exp s book exposure now :
  let cfg := _config s in
  in_i64 (exposure + order_size cfg) -> in_i64 (exposure - order_size cfg) -> in_i64 (- max_position cfg) ->
  is_Some (on_book_update exp s book exposure now).
Proof.
  intros cfg H1 H2 H3. unfold on_book_update. destruct (best_yes_bid book) as [bid|]; [|done]. destruct (best_yes_ask book) as [ask|]; [|done].
  destruct (_ <=? _); [done|]. destruct (update_ema _ _ _ _) as [ema first]. do 3 (destruct (_ : bool); [done|]).
  destruct (make_signal_defined cfg ema bid ask exposure H1 H2 H3) as [[sig|] E]; unfold cfg in E; by rewrite E.
Qed.

Lemma on_book_update_spec exp s book exposure now r s' :
  on_book_update exp s book exposure now = Some (r, s') ->
  _config s' = _config s /\ _last_order s' = (match r with Some _ => Some now | None => _last_order s end) /\
  (forall sig, r = Some sig -> signal_justified s s' book exposure now sig).
Proof.
  unfold on_book_update.
  destruct (best_yes_bid book) as [bid|] eqn:Eb; [|by intros [= <- <-]].
  destruct (best_yes_ask book) as [ask|] eqn:Ea; [|by intros [= <- <-]].
  destruct (Z.leb_spec ask bid) as [|Hba]; [by intros [= <- <-]|].
  destruct (update_ema _ _ _ _) as [ema first].
  destruct (Z.ltb_spec (now - first) (warmup (_config s) * kSecond)) as [|Hw]; [by intros [= <- <-]|].
  destruct (Z.ltb_spec (max_spread (_config s)) (ask - bid)) as [|Hs]; [by intros [= <- <-]|].
  cbn [_last_order]. destruct (match _last_order s with Some t => _ | None => _ end) eqn:Ec; [by intros [= <- <-]|].
  destruct (make_signal _ _ _ _ _) as [[sig|]|] eqn:Em; [|by intros [= <- <-]|done].
  intros [= <- <-]. split; [done|]. split; [done|]. intros sig' [= <-].
  apply make_signal_spec in Em as [Hc Hm].
  exists bid, ask, ema. repeat (split; [done|]). split; [|done].
  intros t Ht. rewrite Ht in Ec. apply Z.ltb_ge in Ec. lia.
Qed.

(** The touch prices of a well-formed book are valid ticks. *)
Lemma touch_valid book :
  book_ok book ->
  (forall b, best_yes_bid book = Some b -> valid_price b) /\ (forall a, best_yes_ask book = Some a -> valid_price a).
Proof.
  intros [[_ [Hy _]] [_ [Hn _]]]. unfold best_yes_bid, best_yes_ask. split.
  - intros b. destruct Hy as [->|[Hv _]]; [done|]. unfold valid_price in *. case_match; [done|]. by intros [= <-].
  - intros a. destruct Hn as [->|[Hv _]]; [done|]. unfold valid_price, kMaxPrice in *. case_match; [done|].
    intros [= <-]. lia.
Qed.

Lemma whole_contracts n : in_i64 n -> 0 <= n -> parse_fixed 0 (fmt_int n ++ lit ".00") = Some n.
Proof.
  intros [_ Hmax] Hn. unfold fmt_int. destruct (Z.ltb_spec n 0); [lia|].
  destruct (fmt_uint_spec n Hn) as (Hd & Hne & Hv).
  apply parse_fixed_iff. exists false, (fmt_uint n), (lit "00"), n. split.
  - exists (fmt_uint n ++ lit ".00"). split; [done|]. split; [by left|]. split; [done|].
    split; [repeat constructor; vm_compute; done|]. by destruct (fmt_uint n).
  - split; [|done]. rewrite dec_from_app, Hv. change (pow10 0) with 1. change (length (lit "00")) with 2%nat.
    unfold pow10, dec_from. cbn. lia.
Qed.

(** ** Runs *)

(** One update of the strategy: the book, the exposure and the time. *)
Definition update : Type := MarketState * Z * Z.

(** The signals of a sequence of updates, with their times, up to an overflow. *)
Fixpoint run_strategy (exp : double -> double) (s : MeanReversionStrategy) (ups : list update) : list (Z * Signal) :=
  match ups with
  | [] => []
  | (book, exposure, now) :: ups =>
    match on_book_update exp s book exposure now with
    | Some (Some sig, s') => (now, sig) :: run_strategy exp s' ups
    | Some (None, s') => run_strategy exp s' ups
    | None => []
    end
  end.

(** Consecutive times are at least [d] apart. *)
Inductive spaced (d : Z) : list Z -> Prop :=
| spaced_nil : spaced d []
| spaced_one t : spaced d [t]
| spaced_cons t u l : d <= u - t -> spaced d (u :: l) -> spaced d (t :: u :: l).

Lemma run_strategy_spaced exp ups s :
  let ts := map fst (run_strategy exp s ups) in
  spaced (cooldown (_config s) * kSecond) (match _last_order s with Some t => t :: ts | None => ts end).
Proof.
  revert s. induction ups as [|[[book exposure] now] ups IH]; intros s; cbn [run_strategy map].
  - destruct (_last_order s); constructor.
  - destruct (on_book_update exp s book exposure now) as [[r s']|] eqn:E;
      [|destruct (_last_order s); constructor].
    apply on_book_update_spec in E as (Hcfg & Hlast & Hsig). specialize (IH s'). cbv zeta in IH.
    rewrite Hcfg, Hlast in IH. destruct r as [sig|]; [|done].
    destruct (Hsig sig eq_refl) as (bid & ask & ema & _ & _ & _ & _ & _ & _ & Hcool & _).
    cbn [map fst]. destruct (_last_order s) as [t|]; [|done]. constructor; [by apply Hcool|done].
Qed.

(** ** The order of a signal *)

Lemma signal_bounds exp s book exposure now sig s' :
  on_book_update exp s book exposure now = Some (Some sig, s') -> book_ok book ->
  valid_price (signal_price sig) /\ signal_count sig = order_size (_config s).
Proof.
  intros H Hbook. apply on_book_update_spec in H as (_ & _ & Hs).
  destruct (Hs sig eq_refl) as (bid & ask & ema & Hb & Ha & _ & _ & _ & _ & _ & Hcount & Hside).
  destruct (touch_valid book Hbook) as [Hvb Hva]. split; [|done].
  destruct (signal_side sig); destruct Hside as [-> _]; auto.
Qed.

Definition plainb (s : bytes) : bool :=
  forallb (fun c => negb (Byte.eqb c dquote) && negb (Byte.eqb c backslash) && (32 <=? bz c)) s.

Lemma plainb_plain s : plainb s = true -> plain s.
Proof.
  unfold plainb, plain. rewrite forallb_forall. intros H. apply Forall_forall. intros c Hc.
  apply list_elem_of_In, H in Hc. destruct (byte_eqb_spec c dquote), (byte_eqb_spec c backslash); try done.
  split; [done|]. split; [done|]. by apply Z.leb_le.
Qed.

Lemma all_prices_plain : forallb (fun n => plainb (price_to_dollars (Z.of_nat n))) (List.seq 1 999) = true.
Proof. vm_compute. reflexivity. Qed.

Lemma digits_plain l : Forall digit_char l -> plain l.
Proof.
  intros H. eapply Forall_impl; [exact H|]. unfold digit_char. intros c Hc.
  assert (bz dquote = 34 /\ bz backslash = 92) as [H1 H2] by done.
  split; [intros ->; lia|]. split; [intros ->; lia|]. lia.
Qed.

Lemma ioc_plain tk sig id :
  plain tk -> plain id -> valid_price (signal_price sig) -> 0 <= signal_count sig ->
  plain_order (make_ioc_order tk sig id).
Proof.
  intros Htk Hid [Hp1 Hp2] Hc. split; [done|]. split; [|split; [|done]]; cbn [count price make_ioc_order].
  - unfold fmt_int. destruct (Z.ltb_spec (signal_count sig) 0); [lia|]. apply Forall_app. split.
    + apply digits_plain. by apply fmt_uint_spec.
    + repeat constructor; vm_compute; done.
  - pose proof (proj1 (forallb_forall _ _) all_prices_plain (Z.to_nat (signal_price sig))) as H. cbv beta in H.
    rewrite Z2Nat.id in H by lia. apply plainb_plain, H, in_seq. unfold kMaxPrice in *. lia.
Qed.

(** ** Properties *)

(** C16. Every trade is justified: when [on_book_update] returns a signal the book is
    two-sided and not crossed, the spread is within the limit, the warm-up and the
    cooldown have passed, the order is for [order_size] contracts at the opposite
    touch, that touch is at least [entry_edge] away from the EMA in the profitable
    direction, and the order cannot take the exposure past [max_position], where the
    new exposure is a value of [int64_t], so that the comparison of the code is the
    one with the exact sum; the order time is recorded. *)
Theorem strategy_trades_only_when_justified exp s book exposure now sig s' :
  on_book_update exp s book exposure now = Some (Some sig, s') ->
  signal_justified s s' book exposure now sig /\ _last_order s' = Some now.
Proof. intros H. apply on_book_update_spec in H as (_ & Hl & Hs). split; [by apply Hs|done]. Qed.

(** C39. Orders are spaced: whatever the books, exposures and times of a sequence of
    updates (up to one whose sums overflow), consecutive signals of a new strategy are at
    least the cooldown apart. *)
Theorem signals_respect_cooldown exp config ups :
  spaced (cooldown config * kSecond) (map fst (run_strategy exp (new_strategy config) ups)).
Proof. exact (run_strategy_spaced exp ups (new_strategy config)). Qed.

(** C17. The order on the wire is the signal: for a signal on a well-formed book, an
    order size that fits [int64_t] and a ticker and client id that need no escaping,
    the body of the order is parsed to a JSON object whose price member is read back
    as the signal's price, whose count member as the signal's count, and whose side,
    ticker, id and immediate-or-cancel flag are those of the order. *)
Theorem order_encodes_signal exp s book exposure now sig s' tk id :
  book_ok book -> 0 <= order_size (_config s) <= INT64_MAX -> plain tk -> plain id ->
  on_book_update exp s book exposure now = Some (Some sig, s') ->
  exists obj p c,
    parse_json (serialize_order_request (make_ioc_order tk sig id)) = Ok (JObject obj) /\
    get_string obj (lit "price") = Some p /\ parse_price p = Ok (signal_price sig) /\ valid_price (signal_price sig) /\
    get_string obj (lit "count") = Some c /\ parse_fixed 0 c = Some (signal_count sig) /\
    get_string obj (lit "side") = Some (OrderSide_to_string (signal_side sig)) /\
    get_string obj (lit "ticker") = Some tk /\ get_string obj (lit "client_order_id") = Some id /\
    get_string obj (lit "time_in_force") = Some (lit "immediate_or_cancel").
Proof.
  intros Hbook Hsize Htk Hid H. apply signal_bounds in H as [Hv Hcount]; [|done].
  rewrite <- Hcount in Hsize.
  destruct (order_parsed (make_ioc_order tk sig id)) as (obj & Hobj & _ & Hm); [by apply ioc_plain; [..|lia]|].
  unfold order_members in Hm. rewrite !Forall_cons in Hm. cbn [fst snd] in Hm.
  destruct Hm as (H1 & H2 & H3 & H4 & H5 & H6 & H7 & H8 & _).
  exists obj, (price_to_dollars (signal_price sig)), (fmt_int (signal_count sig) ++ lit ".00").
  unfold get_string. rewrite H1, H2, H3, H4, H5, H8. split_and!; try done.
  - by apply price_wire.
  - apply whole_contracts; [unfold in_i64, INT64_MIN|]; lia.
Qed.

(** ** A sample run *)

(** A book with one bid on each side. *)
Definition sample_book (yes no : string) : MarketState :=
  snd (apply_snapshot new_market_state
    {| snap_market_ticker := lit "T"; snap_market_id := lit "id";
       yes_dollars_fp := [(lit yes, lit "10.00")]; no_dollars_fp := [(lit no, lit "10.00")] |}).

(** With this [exp] the EMA stays at the first mid price. *)
Definition flat_exp (_ : double) : double := of_int 1.

(** The strategy after an update. *)
Definition updated (s : MeanReversionStrategy) (r : option (option Signal * MeanReversionStrategy)) : MeanReversionStrategy :=
  match r with Some (_, s') => s' | None => s end.

Definition warmed_up : MeanReversionStrategy :=
  updated (new_strategy default_config) (on_book_update flat_exp (new_strategy default_config) (sample_book "0.29" "0.69") 0 0).

Definition buy_26 : Signal := {| signal_side := Bid; signal_price := cents 26; signal_count := 1 |}.

Lemma sample_signal :
  fst <$> on_book_update flat_exp warmed_up (sample_book "0.24" "0.74") 0 (61 * kSecond) = Some (Some buy_26).
Proof. by vm_compute. Qed.

Lemma sample_book_ok yes no : book_ok (sample_book yes no).
Proof.
  unfold sample_book. destruct (apply_snapshot _ _) as [r st] eqn:E.
  eapply (book_event_ok new_market_state (EvSnapshot _)); [apply new_market_state_ok|].
  cbn [book_event]. by rewrite E.
Qed.

Lemma strategy_trades_only_when_justified_witness :
  exists s', signal_justified warmed_up s' (sample_book "0.24" "0.74") 0 (61 * kSecond) buy_26 /\
             _last_order s' = Some (61 * kSecond).
Proof.
  pose proof sample_signal as Hs.
  destruct (on_book_update flat_exp warmed_up (sample_book "0.24" "0.74") 0 (61 * kSecond)) as [[r s']|] eqn:E; [|discriminate Hs].
  injection Hs as ->. exists s'. exact (strategy_trades_only_when_justified _ _ _ _ _ _ _ E).
Defined.

Lemma order_encodes_signal_witness :
  exists obj p, parse_json (serialize_order_request (make_ioc_order (lit "T") buy_26 (lit "c1"))) = Ok (JObject obj) /\
    get_string obj (lit "price") = Some p /\ parse_price p = Ok (cents 26).
Proof.
  pose proof sample_signal as Hs.
  destruct (on_book_update flat_exp warmed_up (sample_book "0.24" "0.74") 0 (61 * kSecond)) as [[r s']|] eqn:E; [|discriminate Hs].
  injection Hs as ->.
  destruct (order_encodes_signal flat_exp warmed_up _ _ _ _ _ (lit "T") (lit "c1")
    (sample_book_ok _ _) ltac:(assert (order_size (_config warmed_up) = 1) as -> by (by vm_compute); vm_compute; split; discriminate)
    ltac:(apply plainb_plain; reflexivity) ltac:(apply plainb_plain; reflexivity) E) as (obj & p & c & H1 & H2 & H3 & _).
  exists obj, p. split; [exact H1|]. split; [exact H2|exact H3].
Defined.
