(* ===== verification/TradingBot.v ===== *)
(** * TradingBot: the trading loop (src/trading/trading_bot.cpp)

    The bot in the monad of World over its own state, with the HTTP client and the
    WebSocket of the session as components.  [g_running] is the bot's flag together
    with the arrival of a signal, which may happen between any two clock readings.
    Printed lines are part of the world, in order. *)

From stdpp Require Import gmap.
From S2P Require Import Prelude Double FixedPoint CharConv JsonLexer JsonParser MessageTypes MarketState KalshiMessages KalshiDecoder Stream Sockets World Frame WebSocket HttpResponse KalshiAuth HttpClient Format Trackers Latency Strategy.

(** ** State *)

Record Bot : Type := {
  _ticker : bytes;
  _signer : Signer;
  _strategy : MeanReversionStrategy;
  _http : HttpClient;
  _orders : OrderTracker;
  _positions : PositionTracker;
  _unconfirmed_fills : gmap bytes Z;
  _order_seq : Z;
  _book : MarketState;
  _book_sid : option Z;
  _book_seq : Z;
  _decode : LatencyStats;
  _book_and_strategy : LatencyStats;
  _tick_to_order : LatencyStats;
  _order_round_trip : LatencyStats;
  running : bool;
}.

Definition kKalshiHost : bytes := lit "external-api.demo.kalshi.co".
Definition kKalshiWsHost : bytes := lit "external-api-ws.demo.kalshi.co".
Definition kOrdersPath : bytes := lit "/trade-api/v2/portfolio/events/orders".
Definition kExchangeStatusPath : bytes := lit "/trade-api/v2/exchange/status".

Definition new_bot (tk : bytes) (signer : Signer) (config : StrategyConfig) : Bot :=
  {| _ticker := tk; _signer := signer; _strategy := new_strategy config; _http := new_http_client kKalshiHost (Some signer);
     _orders := ∅; _positions := ∅; _unconfirmed_fills := ∅; _order_seq := 0;
     _book := new_market_state; _book_sid := None; _book_seq := 0;
     _decode := new_latency_stats "decode (frame->msg)";
     _book_and_strategy := new_latency_stats "book + strategy";
     _tick_to_order := new_latency_stats "tick-to-order-sent";
     _order_round_trip := new_latency_stats "order round trip"; running := true |}.

(** *** Updates of one field *)

Definition set_strategy (s : MeanReversionStrategy) (b : Bot) : Bot :=
  {| _ticker := _ticker b; _signer := _signer b; _strategy := s; _http := _http b; _orders := _orders b; _positions := _positions b;
     _unconfirmed_fills := _unconfirmed_fills b; _order_seq := _order_seq b; _book := _book b;
     _book_sid := _book_sid b; _book_seq := _book_seq b; _decode := _decode b;
     _book_and_strategy := _book_and_strategy b; _tick_to_order := _tick_to_order b;
     _order_round_trip := _order_round_trip b; running := running b |}.
Definition set_http (h : HttpClient) (b : Bot) : Bot :=
  {| _ticker := _ticker b; _signer := _signer b; _strategy := _strategy b; _http := h; _orders := _orders b; _positions := _positions b;
     _unconfirmed_fills := _unconfirmed_fills b; _order_seq := _order_seq b; _book := _book b;
     _book_sid := _book_sid b; _book_seq := _book_seq b; _decode := _decode b;
     _book_and_strategy := _book_and_strategy b; _tick_to_order := _tick_to_order b;
     _order_round_trip := _order_round_trip b; running := running b |}.
(** The trackers an order or a fill changes. *)
Definition set_trackers (o : OrderTracker) (p : PositionTracker) (u : gmap bytes Z) (b : Bot) : Bot :=
  {| _ticker := _ticker b; _signer := _signer b; _strategy := _strategy b; _http := _http b; _orders := o; _positions := p;
     _unconfirmed_fills := u; _order_seq := _order_seq b; _book := _book b;
     _book_sid := _book_sid b; _book_seq := _book_seq b; _decode := _decode b;
     _book_and_strategy := _book_and_strategy b; _tick_to_order := _tick_to_order b;
     _order_round_trip := _order_round_trip b; running := running b |}.
Definition set_order_seq (n : Z) (b : Bot) : Bot :=
  {| _ticker := _ticker b; _signer := _signer b; _strategy := _strategy b; _http := _http b; _orders := _orders b; _positions := _positions b;
     _unconfirmed_fills := _unconfirmed_fills b; _order_seq := n; _book := _book b;
     _book_sid := _book_sid b; _book_seq := _book_seq b; _decode := _decode b;
     _book_and_strategy := _book_and_strategy b; _tick_to_order := _tick_to_order b;
     _order_round_trip := _order_round_trip b; running := running b |}.
Definition set_book (k : MarketState) (b : Bot) : Bot :=
  {| _ticker := _ticker b; _signer := _signer b; _strategy := _strategy b; _http := _http b; _orders := _orders b; _positions := _positions b;
     _unconfirmed_fills := _unconfirmed_fills b; _order_seq := _order_seq b; _book := k;
     _book_sid := _book_sid b; _book_seq := _book_seq b; _decode := _decode b;
     _book_and_strategy := _book_and_strategy b; _tick_to_order := _tick_to_order b;
     _order_round_trip := _order_round_trip b; running := running b |}.
Definition set_sequence (i : option Z) (n : Z) (b : Bot) : Bot :=
  {| _ticker := _ticker b; _signer := _signer b; _strategy := _strategy b; _http := _http b; _orders := _orders b; _positions := _positions b;
     _unconfirmed_fills := _unconfirmed_fills b; _order_seq := _order_seq b; _book := _book b;
     _book_sid := i; _book_seq := n; _decode := _decode b;
     _book_and_strategy := _book_and_strategy b; _tick_to_order := _tick_to_order b;
     _order_round_trip := _order_round_trip b; running := running b |}.
Definition set_stats (d k t o : LatencyStats) (b : Bot) : Bot :=
  {| _ticker := _ticker b; _signer := _signer b; _strategy := _strategy b; _http := _http b; _orders := _orders b; _positions := _positions b;
     _unconfirmed_fills := _unconfirmed_fills b; _order_seq := _order_seq b; _book := _book b;
     _book_sid := _book_sid b; _book_seq := _book_seq b; _decode := d; _book_and_strategy := k;
     _tick_to_order := t; _order_round_trip := o; running := running b |}.
Definition request_stop (b : Bot) : Bot :=
  {| _ticker := _ticker b; _signer := _signer b; _strategy := _strategy b; _http := _http b; _orders := _orders b; _positions := _positions b;
     _unconfirmed_fills := _unconfirmed_fills b; _order_seq := _order_seq b; _book := _book b;
     _book_sid := _book_sid b; _book_seq := _book_seq b; _decode := _decode b;
     _book_and_strategy := _book_and_strategy b; _tick_to_order := _tick_to_order b;
     _order_round_trip := _order_round_trip b; running := false |}.

Definition record_decode (ns : Z) (b : Bot) : Bot :=
  set_stats (record (_decode b) ns) (_book_and_strategy b) (_tick_to_order b) (_order_round_trip b) b.
Definition record_book_and_strategy (ns : Z) (b : Bot) : Bot :=
  set_stats (_decode b) (record (_book_and_strategy b) ns) (_tick_to_order b) (_order_round_trip b) b.
Definition record_order_latency (to_send round_trip : Z) (b : Bot) : Bot :=
  set_stats (_decode b) (_book_and_strategy b) (record (_tick_to_order b) to_send)
    (record (_order_round_trip b) round_trip) b.

(** ** Orders and fills *)

Definition parse_contracts (count_fp : bytes) : option Z := parse_fixed 0 count_fp.

(** The sum of the values of a map. *)
Definition sum_values (m : gmap bytes Z) : Z := map_fold (fun _ q acc => acc + q) 0 m.

(** The position and all unconfirmed fills together, as an exact sum. *)
Definition exposure (b : Bot) : Z := get_position (_positions b) (_ticker b) + sum_values (_unconfirmed_fills b).

(** [std::ranges::fold_left] with [std::plus] over the entries of a map in the order of
    its iteration; [None]: a sum leaves [int64_t]. *)
Fixpoint fold_plus (order : list (bytes * Z)) (acc : Z) : option Z :=
  match order with
  | [] => Some acc
  | (_, q) :: order => match i64_add acc q with Some acc => fold_plus order acc | None => None end
  end.

Definition exposure_in (order : list (bytes * Z)) (b : Bot) : option Z :=
  fold_plus order (get_position (_positions b) (_ticker b)).

Definition signed (side : OrderSide) (q : Z) : Z := match side with Bid => q | Ask => - q end.

(** [_unconfirmed_fills[id] += q], which creates the entry at zero; [None]: the sum
    leaves [int64_t]. *)
Definition add_unconfirmed (u : gmap bytes Z) (id : bytes) (q : Z) : option (gmap bytes Z) :=
  match i64_add (default 0 (u !! id)) q with Some v => Some (<[id := v]> u) | None => None end.

(** The part of [submit] that handles the response. *)
Definition on_order_response (signal : Signal) (req : OrderRequest) (resp : expected bytes JsonValue) (b : Bot)
    : option Bot :=
  match resp with
  | Unexpected _ => Some b
  | Ok json =>
    match parse_order_response json with
    | Unexpected _ => Some b
    | Ok parsed =>
      match parse_contracts (fill_count parsed) with
      | None => Some b
      | Some filled =>
        let id := resp_order_id parsed in
        let orders := add_order (_orders b)
          {| order_id := id; order_request := req;
             order_status := if 0 <? filled then Filled else Cancelled;
             order_fill_count := fill_count parsed; order_remaining_count := remaining_count parsed |} in
        if 0 <? filled then
          match add_unconfirmed (_unconfirmed_fills b) id (signed (signal_side signal) filled) with
          | Some u => Some (set_trackers orders (_positions b) u b)
          | None => None
          end
        else Some (set_trackers orders (_positions b) (_unconfirmed_fills b) b)
      end
    end
  end.

(** [signed_qty]; [None]: the negation leaves [int64_t]. *)
Definition fill_quantity (a : FillAction) (q : Z) : option Z :=
  match a with Buy => Some q | Sell => i64_add 0 (- q) end.

(** [it->second -= signed_qty], erasing the entry when it reaches zero or changes
    sign; [None]: the difference leaves [int64_t]. *)
Definition confirm (u : gmap bytes Z) (id : bytes) (q : Z) : option (gmap bytes Z) :=
  match u !! id with
  | None => Some u
  | Some before =>
    match i64_add before (- q) with
    | None => None
    | Some after =>
      Some (if (after =? 0) || negb (Bool.eqb (0 <? before) (0 <? after)) then delete id u else <[id := after]> u)
    end
  end.

(** [on_fill]; [None]: a quantity or the position leaves [int64_t]. *)
Definition on_fill (fill : Fill) (b : Bot) : option Bot :=
  match parse_contracts (count_fp fill) with
  | None => Some b
  | Some qty =>
    match fill_quantity (action fill) qty with
    | None => None
    | Some signed_qty =>
      let orders := update_status (_orders b) (fill_order_id fill) Filled in
      match update_positions (_positions b) (fill_market_ticker fill) signed_qty with
      | None => None
      | Some positions =>
        match confirm (_unconfirmed_fills b) (fill_order_id fill) signed_qty with
        | None => None
        | Some u => Some (set_trackers orders positions u b)
        end
      end
    end
  end.

Definition on_book_error (e : BookError) (b : Bot) : Bot :=
  match kind e with OutOfSync => b | MarketState.Malformed => request_stop b end.

(** ** Sequence numbers *)

Definition is_snapshot (m : Message) : bool := match msg m with PSnapshot _ => true | _ => false end.
Definition is_book_message (m : Message) : bool := match msg m with PSnapshot _ | PDelta _ => true | _ => false end.

Definition sid_matches (b : Bot) (m : Message) : bool :=
  match _book_sid b with Some i => sid m =? i | None => false end.

(** The sequence check of [run_session]; [None]: a gap, so the session is dropped.
    [_book_seq + 1] wraps at 32 bits. *)
Definition check_sequence (m : Message) (b : Bot) : option Bot :=
  if is_book_message m && negb (seq m =? 0) then
    if negb (is_snapshot m) && negb (sid_matches b m && (seq m =? u32 (_book_seq b + 1))) then None
    else Some (set_sequence (Some (sid m)) (seq m) b)
  else if sid_matches b m && negb (seq m =? 0) then Some (set_sequence (_book_sid b) (seq m) b)
  else Some b.

(** ** Printed lines *)

Definition price_str (p : option Z) : bytes := match p with Some p => format_price p | None => lit "-" end.

Definition fair_str (fair : option double) : bytes :=
  match fair with Some ticks => fmt_fixed1 (ddiv ticks (of_int kTicksPerCent)) ++ lit "c" | None => lit "-" end.

Definition order_line (signal : Signal) (b : Bot) (e : Z) : bytes :=
  lit "[order] " ++ (match signal_side signal with Bid => lit "BUY" | Ask => lit "SELL" end) ++ lit " " ++
  fmt_int (signal_count signal) ++ lit " @ " ++ format_price (signal_price signal) ++
  lit " (fair " ++ fair_str (fair_value (_strategy b)) ++ lit ", exposure " ++ fmt_int e ++ lit ")".

(** The line [submit] prints about the response, after [ns] nanoseconds. *)
Definition response_line (resp : expected bytes JsonValue) (ns : Z) : OutStream * bytes :=
  match resp with
  | Unexpected e => (Stderr, lit "[order] request failed: " ++ e)
  | Ok json =>
    match parse_order_response json with
    | Unexpected e => (Stderr, lit "[order] rejected or unparseable response: " ++ e)
    | Ok parsed =>
      match parse_contracts (fill_count parsed) with
      | None => (Stderr, lit "[order] unexpected fill_count '" ++ fill_count parsed ++ lit "'")
      | Some _ =>
        (Stdout, lit "[order] " ++ resp_order_id parsed ++ lit " filled " ++ fill_count parsed ++ lit ", remaining " ++
                 remaining_count parsed ++ lit " (" ++ fmt_fixed1 (ddiv (of_int ns) (of_int 1000000)) ++ lit " ms)")
      end
    end
  end.

(** The line [on_fill] prints, in the state after it. *)
Definition fill_line (fill : Fill) (b : Bot) : OutStream * bytes :=
  match parse_contracts (count_fp fill) with
  | None => (Stderr, lit "[fill] unexpected count '" ++ count_fp fill ++ lit "' for order " ++ fill_order_id fill)
  | Some qty =>
    (Stdout, lit "[fill] " ++ fill_order_id fill ++ lit " " ++ (match action fill with Buy => lit "+" | Sell => lit "-" end) ++
             lit " " ++ fmt_int qty ++ lit " -> position " ++ fmt_int (get_position (_positions b) (fill_market_ticker fill)))
  end.

Definition book_error_line (e : BookError) : bytes :=
  match kind e with
  | OutOfSync => lit "[book] " ++ message e ++ lit "; resubscribing"
  | MarketState.Malformed => lit "[book] " ++ message e ++ lit "; stopping (resubscribing would get the same data)"
  end.

Definition gap_line (m : Message) (b : Bot) : bytes :=
  lit "[ws] orderbook sequence gap (expected " ++ fmt_uint (u32 (_book_seq b + 1)) ++ lit ", got " ++ fmt_uint (seq m) ++
  lit "); resubscribing".

Definition status_line (b : Bot) (e : Z) : bytes :=
  lit "[status] bid " ++ price_str (best_yes_bid (_book b)) ++ lit " ask " ++ price_str (best_yes_ask (_book b)) ++
  lit " fair " ++ fair_str (fair_value (_strategy b)) ++ lit " position " ++ fmt_int (get_position (_positions b) (_ticker b)) ++
  lit " exposure " ++ fmt_int e ++ lit " | http connections opened: " ++
  fmt_uint (_connections_opened (_http b)).

Definition trading_line (b : Bot) : bytes :=
  let cfg := config (_strategy b) in
  lit "Trading " ++ _ticker b ++ lit " | edge " ++ format_price (entry_edge cfg) ++ lit ", max spread " ++
  format_price (max_spread cfg) ++ lit ", max position " ++ fmt_int (max_position cfg) ++ lit ", cooldown " ++
  fmt_int (cooldown cfg) ++ lit "s".

(** The summaries of [print_latency_summary]; [None]: a read outside the samples. *)
Fixpoint summaries (stats : list LatencyStats) : option (list bytes) :=
  match stats with
  | [] => Some []
  | s :: stats =>
    match summary s, summaries stats with Some l, Some ls => Some (l :: ls) | _, _ => None end
  end.

Definition bot_stats (b : Bot) : list LatencyStats := [_decode b; _book_and_strategy b; _tick_to_order b; _order_round_trip b].

Fixpoint println_all {S} (ls : list bytes) : M S unit :=
  match ls with [] => ret tt | l :: ls => let% _ := println l in println_all ls end.

Definition print_latency_summary : M Bot unit :=
  let% b := get in
  let% _ := println (lit "Latency (most recent samples):") in
  match summaries (bot_stats b) with
  | Some ls => println_all (map (fun l => lit "  " ++ l) ls)
  | None => fun _ _ => None
  end.

(** ** The loop *)

Definition quoted (s : bytes) : bytes := [JsonLexer.dquote] ++ s ++ [JsonLexer.dquote].

Definition subscribe_msg (tk : bytes) : bytes :=
  lit "{" ++ quoted (lit "id") ++ lit ":1," ++ quoted (lit "cmd") ++ lit ":" ++ quoted (lit "subscribe") ++ lit "," ++ quoted (lit "params") ++ lit ":{" ++
  quoted (lit "channels") ++ lit ":[" ++ quoted (lit "orderbook_delta") ++ lit "," ++ quoted (lit "fill") ++ lit "]," ++ quoted (lit "market_ticker") ++ lit ":" ++
  quoted tk ++ lit "}}".

Definition kMaxReconnectBackoff : Z := 60.
Definition kStatusInterval : Z := 30 * kSecond.
Definition kHttpKeepWarmAfter : Z := 20 * kSecond.

(** A change of the bot that may be undefined. *)
Definition attempt (f : Bot -> option Bot) : M Bot unit :=
  fun b w => match f b with Some b => Some (tt, b, w) | None => None end.

(** The variables of [run_session]. *)
Record Session : Type := { s_ws : WebSocket; received_data : bool; last_status : Z }.

Section Loop.
Variable env : NetEnv.
(** Whether SIGINT or SIGTERM has arrived after [n] clock readings. *)
Variable signalled : nat -> bool.
Variable exp : double -> double.

(** [g_running] *)
Definition is_running : M Bot bool := fun b w => Some (running b && negb (signalled (ticks w)), b, w).

(** [exposure()]; [None]: a sum leaves [int64_t]. *)
Definition current_exposure : M Bot Z :=
  fun b w => match exposure_in (env_order env (ticks w) (_unconfirmed_fills b)) b with
             | Some e => Some (e, b, w)
             | None => None
             end.

Definition print_status : M Bot unit :=
  let% b := get in
  let% e := current_exposure in
  println (status_line b e).

Definition submit (signal : Signal) (tick_time : Z) : M Bot unit :=
  let% ts := current_timestamp_ms env in
  let% b := get in
  let n := u64 (_order_seq b + 1) in
  let% _ := modify (set_order_seq n) in
  let client_id := lit "bot-" ++ ts ++ lit "-" ++ fmt_int n in
  let req := make_ioc_order (_ticker b) signal client_id in
  let% sent_at := now env in
  let% response :=
    zoom _http set_http (request_json env (lit "POST") kOrdersPath (serialize_order_request req)) in
  let% done_at := now env in
  let% b := get in
  let% _ := modify (record_order_latency (_last_send (_http b) - tick_time) (done_at - sent_at)) in
  let% b := get in
  let% e := current_exposure in
  let% _ := println (order_line signal b e) in
  let% _ := attempt (on_order_response signal req response) in
  print (response_line response (done_at - sent_at)).

Definition keep_http_warm : M Bot unit :=
  let% b := get in
  let% skip := (if connected (_http b)
                then let% idle := zoom _http set_http (idle_for env) in ret (idle <? kHttpKeepWarmAfter)
                else ret false) in
  if skip then ret tt
  else
    let% r := zoom _http set_http (request env (lit "GET") kExchangeStatusPath []) in
    match r with
    | Ok _ => ret tt
    | Unexpected e => eprintln (lit "[http] keep-warm request failed: " ++ e)
    end.

(** The strategy's turn after the book changed; [None]: a sum leaves [int64_t]. *)
Definition trade (t_rx t_decoded : Z) : M Bot unit :=
  let% t := now env in
  let% b := get in
  let% e := current_exposure in
  match on_book_update exp (_strategy b) (_book b) e t with
  | None => fun _ _ => None
  | Some (signal, s) =>
    let% _ := modify (set_strategy s) in
    let% t := now env in
    let% _ := modify (record_book_and_strategy (t - t_decoded)) in
    match signal with Some sig => submit sig t_rx | None => ret tt end
  end.

(** Applies a book result: an error ends the session. *)
Definition after_book (received : bool) (r : expected BookError unit) (book : MarketState) (t_rx t_decoded : Z)
    : M Bot (bool * bool) :=
  let% _ := modify (set_book book) in
  match r with
  | Unexpected e =>
    let% _ := eprintln (book_error_line e) in
    let% _ := modify (on_book_error e) in
    ret (false, received)
  | Ok _ => let% _ := trade t_rx t_decoded in ret (true, received)
  end.

(** The handling of a decoded message: whether the session goes on, and
    [received_data]. *)
Definition handle_message (m : Message) (received : bool) (t_rx t_decoded : Z) : M Bot (bool * bool) :=
  let% b := get in
  match check_sequence m b with
  | None => let% _ := eprintln (gap_line m b) in ret (false, received)
  | Some b =>
    let% _ := modify (fun _ => b) in
    match msg m with
    | PSnapshot s =>
      let '(r, book) := apply_snapshot (_book b) s in
      after_book (received || has_value r) r book t_rx t_decoded
    | PDelta d =>
      match apply_delta (_book b) d with
      | None => fun _ _ => None
      | Some (r, book) => after_book received r book t_rx t_decoded
      end
    | PFill f =>
      let% _ := attempt (on_fill f) in
      let% b := get in
      let% _ := print (fill_line f b) in
      ret (true, received)
    | PNone => ret (true, received)
    end
  end.

(** What a round does after the work for its frame: whether the session goes on, which
    it does, and its variables. *)
Definition housekeeping (s : Session) : M Bot (bool * Session) :=
  let% _ := keep_http_warm in
  let% t := now env in
  if kStatusInterval <=? t - last_status s then
    let% _ := print_status in
    ret (true, {| s_ws := s_ws s; received_data := received_data s; last_status := t |})
  else ret (true, s).

(** One round of [while (g_running)] once a frame has arrived. *)
Definition session_step (s : Session) (r : expected bytes WebSocketFrame) : M Bot (bool * Session) :=
  let% t_rx := now env in
  match r with
  | Unexpected e =>
    let% go := is_running in
    let% _ := (if go then eprintln (lit "[ws] receive failed: " ++ e) else ret tt) in
    ret (false, s)
  | Ok f =>
    match op_code f with
    | Ping =>
      let '(pong, ws) := send_pong (s_ws s) f in
      let% _ := (match pong with
                 | Ok _ => ret tt
                 | Unexpected e => eprintln (lit "[ws] failed to send pong: " ++ e)
                 end) in
      housekeeping {| s_ws := ws; received_data := received_data s; last_status := last_status s |}
    | Close =>
      let% _ := println (lit "[ws] server closed the connection") in
      ret (false, s)
    | Text =>
      match decode_kalshi_message (payload f) with
      | Unexpected e => let% _ := eprintln (lit "[ws] " ++ e) in ret (true, s)
      | Ok m =>
        let% t_decoded := now env in
        let% _ := modify (record_decode (t_decoded - t_rx)) in
        let% (go_on, received) := handle_message m (received_data s) t_rx t_decoded in
        let s := {| s_ws := s_ws s; received_data := received; last_status := last_status s |} in
        if go_on then housekeeping s else ret (false, s)
      end
    | _ => housekeeping s
    end
  end.

(** The loop of [run_session]; [None]: waiting for data or [fuel] frames handled. *)
Fixpoint session_loop (fuel : nat) (s : Session) : M Bot Session :=
  match fuel with
  | O => fun _ _ => None
  | S fuel =>
    let% go := is_running in
    if negb go then ret s
    else
      match receive_frame (s_ws s) with
      | None => fun _ _ => None
      | Some (r, ws) =>
        let s := {| s_ws := ws; received_data := received_data s; last_status := last_status s |} in
        let% (go_on, s) := session_step s r in
        if go_on then session_loop fuel s else ret s
      end
  end.

(** The environment of one session: what its socket receives, how its writes end, its
    random bytes, and what the system and OpenSSL do when it connects. *)
Record SessionEnv : Type := {
  se_incoming : incoming;
  se_write : nat -> option bytes;
  se_mask_keys : nat -> option bytes;
  se_raw_key : option bytes;
  se_resolved : expected bytes (list Address);
  se_ssl : SslResults;
  se_fuel : nat;
}.

(** [WebSocket ws;] *)
Definition new_web_socket (se : SessionEnv) : WebSocket :=
  {| _tls_socket := {| to_receive := se_incoming se; write_result := se_write se; random_key := se_mask_keys se;
                       written := []; keys_drawn := 0; _tcp_socket := new_tcp_socket |};
     WebSocket._buffer := [] |}.

(** The part of [run_session] after [ws.connect]: the result and the socket. *)
Definition stream_session (se : SessionEnv) (ws : WebSocket) : M Bot (bool * WebSocket) :=
  let% b := get in
  let '(sent, ws) := send_text ws (subscribe_msg (_ticker b)) in
  match sent with
  | Unexpected e => let% _ := eprintln (lit "[ws] subscribe failed: " ++ e) in ret (false, ws)
  | Ok _ =>
    let% _ := println (lit "[ws] subscribed to " ++ _ticker b) in
    let% _ := modify (set_book new_market_state) in
    let% _ := modify (fun b => set_sequence None (_book_seq b) b) in
    let% t := now env in
    let% s := session_loop (se_fuel se) {| s_ws := ws; received_data := false; last_status := t |} in
    ret (received_data s, s_ws s)
  end.

(** [run_session]: whether the session received market data.  The socket is destroyed
    on every way out. *)
Definition run_session (se : SessionEnv) : M Bot bool :=
  let% ts := current_timestamp_ms env in
  let% b := get in
  let auth := auth_headers (_signer b) ts (lit "GET") kWebSocketPath in
  let key := generate_websocket_key (env_encode_block env) (se_raw_key se) in
  match WebSocket.connect (new_web_socket se) kKalshiWsHost auth (se_resolved se) (se_ssl se) key with
  | None => fun _ _ => None
  | Some (result, ws, calls) =>
    let% _ := sys calls in
    let% (received, ws) := (match result with
                            | Unexpected e => let% _ := eprintln (lit "[ws] connect failed: " ++ e) in ret (false, ws)
                            | Ok _ => stream_session se ws
                            end) in
    let% _ := sys (destroy_web_socket ws) in
    ret received
  end.

Definition next_backoff (backoff : Z) : Z := Z.min (backoff * 2) kMaxReconnectBackoff.

(** The wait before a reconnection: [n] more seconds, unless the bot is stopped. *)
Fixpoint wait_seconds (n : nat) : M Bot unit :=
  match n with
  | O => ret tt
  | S n =>
    let% go := is_running in
    if go then let% _ := sleep_for 1 in wait_seconds n else ret tt
  end.

(** The reconnection loop of [run] over the sessions the network offers. *)
Fixpoint run_loop (sessions : list SessionEnv) (backoff : Z) : M Bot unit :=
  match sessions with
  | [] => ret tt
  | se :: sessions =>
    let% go := is_running in
    if negb go then ret tt
    else
      let% received := run_session se in
      let backoff := if received then 1 else backoff in
      let% go := is_running in
      if negb go then ret tt
      else
        let% _ := println (lit "[ws] reconnecting in " ++ fmt_int backoff ++ lit "s") in
        let% _ := wait_seconds (Z.to_nat backoff) in
        run_loop sessions (next_backoff backoff)
  end.

Definition run (sessions : list SessionEnv) : M Bot unit :=
  let% b := get in
  let% _ := println (trading_line b) in
  let% r := zoom _http set_http (HttpClient.connect env) in
  let% _ := (match r with
             | Ok _ => ret tt
             | Unexpected e => eprintln (lit "[http] could not pre-open order connection: " ++ e)
             end) in
  run_loop sessions 1.
End Loop.

(** [position] *)
Definition position (b : Bot) : Z := get_position (_positions b) (_ticker b).
