(* ===== verification/BotFacts.v ===== *)
(** * BotFacts: what the trading loop guarantees

    Exposure across orders and confirmations, the sequence check, books made of events,
    the socket of a session, and the relations between states that hold across a whole
    run: the trading state moves by trade steps, and every descriptor a session opens is
    closed again. *)

From stdpp Require Import gmap.
From S2P Require Import Prelude Double FixedPoint CharConv JsonLexer JsonParser MessageTypes MarketState KalshiMessages KalshiDecoder Stream Sockets World Frame WebSocket HttpResponse KalshiAuth HttpClient Trackers Strategy TradingBot.

(** Runs the first command of a computation that returned, when it always returns. *)
Ltac run_one H :=
  let x := fresh "x" in let b := fresh "b" in let w := fresh "w" in let H1 := fresh "Hrun" in
  apply bind_Some in H as (x & b & w & H1 & H); injection H1 as <- <- <-.

(** ** Sums over the unconfirmed fills *)

Lemma sum_values_insert_new m k v : m !! k = None -> sum_values (<[k := v]> m) = sum_values m + v.
Proof.
  intros H. unfold sum_values. rewrite map_fold_insert_L; [done| |done].
  intros j1 j2 z1 z2 y _ _ _. lia.
Qed.

Lemma sum_values_delete m k : sum_values (delete k m) = sum_values m - default 0 (m !! k).
Proof.
  destruct (m !! k) as [v|] eqn:E; cbn.
  - rewrite <- (insert_delete_id m k v E) at 2. rewrite sum_values_insert_new by apply lookup_delete_eq. lia.
  - rewrite delete_id by done. lia.
Qed.

Lemma sum_values_insert m k v : sum_values (<[k := v]> m) = sum_values m - default 0 (m !! k) + v.
Proof.
  rewrite <- insert_delete_eq, sum_values_insert_new by apply lookup_delete_eq.
  by rewrite sum_values_delete.
Qed.

(** ** Exposure *)

(** The sum of the entries of a map, in a given order. *)
Definition total (order : list (bytes * Z)) : Z := foldr (fun kv acc => kv.2 + acc) 0 order.

#[export] Instance total_Proper : Proper ((≡ₚ) ==> eq) total.
Proof. apply foldr_permutation_proper; [apply _..|]. intros [? x] [? y] z; cbn; lia. Qed.

Lemma total_cons k q order : total ((k, q) :: order) = q + total order.
Proof. done. Qed.

Lemma sum_values_total u : sum_values u = total (map_to_list u).
Proof.
  unfold sum_values, total. rewrite map_fold_foldr. induction (map_to_list u) as [|[k q] l IH]; cbn; [done|].
  cbn in IH. rewrite IH. lia.
Qed.

Lemma i64_add_Some a b c : i64_add a b = Some c -> c = a + b.
Proof. by intros [? _]%i64_add_iff. Qed.

(** A sum that does not overflow is the exact one. *)
Lemma fold_plus_total order : forall acc e, fold_plus order acc = Some e -> e = acc + total order.
Proof.
  induction order as [|[k q] order IH]; intros acc e; cbn [fold_plus]; [intros [= <-]; cbn; lia|].
  destruct (i64_add acc q) as [v|] eqn:E; [|done]. apply i64_add_Some in E as ->. intros H. apply IH in H. rewrite total_cons. lia.
Qed.

(** Whatever the order of iteration, [exposure()] returns the exact exposure, if no sum
    overflows. *)
Lemma current_exposure_inv env b w e b' w' :
  current_exposure env b w = Some (e, b', w') -> e = exposure b /\ b' = b /\ w' = w.
Proof.
  unfold current_exposure, exposure_in, exposure. destruct (fold_plus _ _) as [v|] eqn:E; [|done]. intros [= <- <- <-].
  apply fold_plus_total in E as ->. by rewrite env_order_perm, sum_values_total.
Qed.

(** Runs a computation of the exposure that returned. *)
Ltac run_exposure H :=
  let e := fresh "e" in let b := fresh "b" in let w := fresh "w" in let H1 := fresh "Hexp" in
  apply bind_Some in H as (e & b & w & H1 & H); apply current_exposure_inv in H1 as (-> & -> & ->).

(** The signed quantity an order response adds. *)
Definition response_quantity (signal : Signal) (resp : expected bytes JsonValue) : Z :=
  match resp with
  | Unexpected _ => 0
  | Ok json =>
    match parse_order_response json with
    | Unexpected _ => 0
    | Ok parsed =>
      match parse_contracts (fill_count parsed) with
      | Some filled => if 0 <? filled then signed (signal_side signal) filled else 0
      | None => 0
      end
    end
  end.

Lemma exposure_on_order_response signal req resp b b' :
  on_order_response signal req resp b = Some b' -> exposure b' = exposure b + response_quantity signal resp.
Proof.
  unfold on_order_response, response_quantity, add_unconfirmed.
  destruct resp as [json|]; [|intros [= <-]; lia]. destruct (parse_order_response json) as [parsed|]; [|intros [= <-]; lia].
  destruct (parse_contracts _) as [filled|]; [|intros [= <-]; lia].
  destruct (0 <? filled); [|intros [= <-]; unfold exposure; cbn [_positions _ticker _unconfirmed_fills set_trackers]; lia].
  destruct (i64_add _ _) as [v|] eqn:Ev; [|done]. apply i64_add_Some in Ev. intros [= <-].
  unfold exposure. cbn [_positions _ticker _unconfirmed_fills set_trackers]. rewrite sum_values_insert. lia.
Qed.

Lemma on_order_response_other signal req resp b b' :
  on_order_response signal req resp b = Some b' ->
  _strategy b' = _strategy b /\ _book b' = _book b /\ _http b' = _http b.
Proof. unfold on_order_response. repeat case_match; intros [= <-]; done. Qed.

Lemma on_fill_other f b b' :
  on_fill f b = Some b' ->
  _strategy b' = _strategy b /\ _book b' = _book b /\ _order_seq b' = _order_seq b /\ _http b' = _http b.
Proof. unfold on_fill. repeat case_match; intros [= <-]; done. Qed.

(** What [on_fill] does with a readable count. *)
Lemma on_fill_trackers fill b b' qty :
  on_fill fill b = Some b' -> parse_contracts (count_fp fill) = Some qty ->
  exists q p u, fill_quantity (action fill) qty = Some q /\ update_positions (_positions b) (fill_market_ticker fill) q = Some p /\
    confirm (_unconfirmed_fills b) (fill_order_id fill) q = Some u /\
    _positions b' = p /\ _unconfirmed_fills b' = u /\ _ticker b' = _ticker b /\
    _orders b' = update_status (_orders b) (fill_order_id fill) Filled.
Proof.
  unfold on_fill. intros H Hq. rewrite Hq in H. destruct (fill_quantity _ _) as [q|]; [|done].
  destruct (update_positions _ _ q) as [p|] eqn:Ep; [|done]. destruct (confirm _ _ _) as [u|] eqn:Eu; [|done].
  injection H as <-. by exists q, p, u.
Qed.

Lemma on_fill_effect fill b b' qty :
  on_fill fill b = Some b' -> parse_contracts (count_fp fill) = Some qty ->
  exists q u, fill_quantity (action fill) qty = Some q /\ confirm (_unconfirmed_fills b) (fill_order_id fill) q = Some u /\
    exposure b' = get_position (_positions b) (_ticker b) + (if decide (_ticker b = fill_market_ticker fill) then q else 0) +
                  sum_values u.
Proof.
  intros H Hq. destruct (on_fill_trackers _ _ _ _ H Hq) as (q & p & u & Hfq & Hp & Hc & Hpos & Hun & Ht & _).
  exists q, u. split; [done|]. split; [done|]. unfold exposure.
  by rewrite Hpos, Hun, Ht, (get_position_update _ _ _ _ (_ticker b) Hp).
Qed.

Lemma fill_quantity_exact a qty q : fill_quantity a qty = Some q -> q = match a with Buy => qty | Sell => - qty end.
Proof. destruct a; cbn; [by intros [= <-]|]. intros ->%i64_add_Some. lia. Qed.

(** A fill message that confirms (part of) a fill already reported by an order
    response: same market, same direction, not more than is outstanding. *)
Definition confirms (b : Bot) (fill : Fill) : Prop :=
  exists qty q before,
    fill_market_ticker fill = _ticker b /\ parse_contracts (count_fp fill) = Some qty /\
    fill_quantity (action fill) qty = Some q /\
    _unconfirmed_fills b !! fill_order_id fill = Some before /\ (0 < q <= before \/ before <= q < 0).

(** A confirmation takes its quantity off the entry, which goes when nothing is left. *)
Lemma confirm_exact u id q u' before :
  confirm u id q = Some u' -> u !! id = Some before -> (0 < q <= before \/ before <= q < 0) ->
  u' = if before =? q then delete id u else <[id := before - q]> u.
Proof.
  unfold confirm. intros H Hu Hrange. rewrite Hu in H.
  destruct (i64_add before (- q)) as [after|] eqn:Ea; [|done]. apply i64_add_Some in Ea as ->. injection H as <-.
  destruct (Z.eqb_spec (before + - q) 0), (Z.eqb_spec before q); cbn [orb]; try lia; [done|].
  destruct (Z.ltb_spec 0 before), (Z.ltb_spec 0 (before + - q)); cbn [Bool.eqb negb]; try lia; f_equal; lia.
Qed.

Lemma confirm_sum u id q u' before :
  confirm u id q = Some u' -> u !! id = Some before -> (0 < q <= before \/ before <= q < 0) ->
  sum_values u' = sum_values u - q.
Proof.
  intros H Hu Hrange. rewrite (confirm_exact _ _ _ _ _ H Hu Hrange).
  destruct (Z.eqb_spec before q); rewrite ?sum_values_delete, ?sum_values_insert, Hu; cbn; lia.
Qed.

Lemma exposure_confirm fill b b' : on_fill fill b = Some b' -> confirms b fill -> exposure b' = exposure b.
Proof.
  intros H (qty & q & before & Htk & Hq & Hfq & Hu & Hrange).
  destruct (on_fill_effect _ _ _ _ H Hq) as (q' & u & Hfq' & Hc & ->). simplify_eq.
  rewrite decide_True by done. rewrite (confirm_sum _ _ _ _ _ Hc Hu Hrange). unfold exposure. lia.
Qed.

(** An order is not filled beyond its size. *)
Definition honest_response (signal : Signal) (resp : expected bytes JsonValue) : Prop :=
  forall json parsed filled,
    resp = Ok json -> parse_order_response json = Ok parsed -> parse_contracts (fill_count parsed) = Some filled ->
    filled <= signal_count signal.

(** A fill of another market that no outstanding order of this one accounts for. *)
Definition foreign (b : Bot) (fill : Fill) : Prop :=
  fill_market_ticker fill <> _ticker b /\ _unconfirmed_fills b !! fill_order_id fill = None.

Lemma exposure_foreign fill b b' : on_fill fill b = Some b' -> foreign b fill -> exposure b' = exposure b.
Proof.
  intros H [Htk Hu]. destruct (parse_contracts (count_fp fill)) as [qty|] eqn:Hq.
  - destruct (on_fill_effect _ _ _ _ H Hq) as (q & u & _ & Hc & ->). unfold confirm in Hc. rewrite Hu in Hc.
    injection Hc as <-. rewrite decide_False by auto. unfold exposure. lia.
  - unfold on_fill in H. rewrite Hq in H. by injection H as <-.
Qed.

(** ** The trading state and its steps *)

(** What orders and fills read and change. *)
Definition trading (b : Bot) := (_ticker b, _strategy b, _orders b, _positions b, _unconfirmed_fills b).

Lemma exposure_trading b b' : trading b' = trading b -> exposure b' = exposure b.
Proof. unfold trading, exposure. intros [= -> _ _ -> ->]. done. Qed.

Lemma strategy_trading b b' : trading b' = trading b -> _strategy b' = _strategy b.
Proof. unfold trading. congruence. Qed.

Section Trading.
Variable exp : double -> double.

(** The strategy looked at a book and the bot stayed idle, an order was answered, a
    fill was reported, or nothing of the trading state changed. *)
Inductive label : Type :=
| LIdle
| LOrder (sig : Signal) (resp : expected bytes JsonValue)
| LFill (fill : Fill).

Inductive trade_step : label -> Bot -> Bot -> Prop :=
| step_silent b b' : trading b' = trading b -> trade_step LIdle b b'
| step_quiet b book now s' :
    on_book_update exp (_strategy b) book (exposure b) now = Some (None, s') -> trade_step LIdle b (set_strategy s' b)
| step_order b book now sig s' b1 req resp b' :
    on_book_update exp (_strategy b) book (exposure b) now = Some (Some sig, s') ->
    trading b1 = trading (set_strategy s' b) -> on_order_response sig req resp b1 = Some b' ->
    trade_step (LOrder sig resp) b b'
| step_fill b fill b' : on_fill fill b = Some b' -> trade_step (LFill fill) b b'.

Inductive trade_steps : list label -> Bot -> Bot -> Prop :=
| steps_nil b : trade_steps [] b b
| steps_cons l ls b b1 b' : trade_step l b b1 -> trade_steps ls b1 b' -> trade_steps (l :: ls) b b'.

Lemma trade_steps_app ls ls' b b1 b' :
  trade_steps ls b b1 -> trade_steps ls' b1 b' -> trade_steps (ls ++ ls') b b'.
Proof. induction 1; intros; cbn; [done|]. econstructor; eauto. Qed.

(** The same run with an exchange that fills at most what was ordered and reports
    each fill of this market's orders once. *)
Definition honest (l : label) (b : Bot) : Prop :=
  match l with
  | LIdle => True
  | LOrder sig resp => honest_response sig resp
  | LFill fill => confirms b fill \/ foreign b fill
  end.

Inductive honest_steps : list label -> Bot -> Bot -> Prop :=
| honest_nil b : honest_steps [] b b
| honest_cons l ls b b1 b' : trade_step l b b1 -> honest l b -> honest_steps ls b1 b' -> honest_steps (l :: ls) b b'.

(** ** The position limit *)

Definition within_limit (b : Bot) : Prop := Z.abs (exposure b) <= max_position (_config (_strategy b)).

Lemma response_within_limit book now s e sig s' resp :
  on_book_update exp s book e now = Some (Some sig, s') -> 0 <= order_size (_config s) -> honest_response sig resp ->
  Z.abs e <= max_position (_config s) -> Z.abs (e + response_quantity sig resp) <= max_position (_config s).
Proof.
  intros Hup Hsize Hresp He. apply on_book_update_spec in Hup as (_ & _ & Hs).
  destruct (Hs sig eq_refl) as (bid & ask & ema & _ & _ & _ & _ & _ & _ & _ & Hcount & Hside).
  unfold response_quantity. destruct resp as [json|]; [|lia].
  destruct (parse_order_response json) as [parsed|] eqn:Ep; [|lia].
  destruct (parse_contracts (fill_count parsed)) as [filled|] eqn:Ef; [|lia].
  specialize (Hresp json parsed filled eq_refl Ep Ef).
  destruct (Z.ltb_spec 0 filled); [|lia]. unfold signed.
  destruct (signal_side sig); destruct Hside as (_ & _ & _ & Hcap); lia.
Qed.

Lemma trade_step_limit l b b' :
  trade_step l b b' -> honest l b -> 0 <= order_size (_config (_strategy b)) -> within_limit b ->
  within_limit b' /\ _config (_strategy b') = _config (_strategy b).
Proof.
  unfold within_limit. intros [b0 b1 Ht|b0 book now s' Hup|b0 book now sig s' b1 req resp b2 Hup Ht Hr|b0 fill b1 Hf] Hh Hsize Hb.
  - by rewrite (exposure_trading _ _ Ht), (strategy_trading _ _ Ht).
  - apply on_book_update_spec in Hup as (Hcfg & _ & _). cbn [_strategy set_strategy]. by rewrite Hcfg.
  - pose proof Hup as Hup'. apply on_book_update_spec in Hup' as (Hcfg & _ & _).
    rewrite (exposure_on_order_response _ _ _ _ _ Hr), (proj1 (on_order_response_other _ _ _ _ _ Hr)),
      (exposure_trading _ _ Ht), (strategy_trading _ _ Ht).
    cbn [_strategy set_strategy]. rewrite Hcfg. split; [|done]. by eapply response_within_limit.
  - rewrite (proj1 (on_fill_other _ _ _ Hf)). split; [|done].
    destruct Hh as [Hc|Hc]; [by rewrite (exposure_confirm _ _ _ Hf Hc)|by rewrite (exposure_foreign _ _ _ Hf Hc)].
Qed.

Lemma honest_steps_limit ls b b' :
  honest_steps ls b b' -> 0 <= order_size (_config (_strategy b)) -> within_limit b ->
  within_limit b' /\ _config (_strategy b') = _config (_strategy b).
Proof.
  induction 1 as [|l ls b b1 b' H1 Hh H2 IH]; intros Hsize Hb; [done|].
  destruct (trade_step_limit _ _ _ H1 Hh Hsize Hb) as [Hb1 Hcfg]. rewrite <- Hcfg in *. by apply IH.
Qed.
End Trading.

(** ** The sequence check *)

(** A run of book deltas that carry sequence numbers. *)
Definition numbered_delta (m : Message) : Prop := (exists d, msg m = PDelta d) /\ 0 < seq m.

Fixpoint check_all (ms : list Message) (b : Bot) : option Bot :=
  match ms with [] => Some b | m :: ms => match check_sequence m b with Some b => check_all ms b | None => None end end.

(** The messages continue the numbering of subscription [i] after [n], modulo 2^32. *)
Fixpoint consecutive (i n : Z) (ms : list Message) : Prop :=
  match ms with [] => True | m :: ms => sid m = i /\ seq m = u32 (n + 1) /\ consecutive i (seq m) ms end.

Lemma check_delta m b i :
  numbered_delta m -> _book_sid b = Some i ->
  (sid m = i /\ seq m = u32 (_book_seq b + 1) /\ check_sequence m b = Some (set_sequence (Some i) (seq m) b)) \/
  (~ (sid m = i /\ seq m = u32 (_book_seq b + 1)) /\ check_sequence m b = None).
Proof.
  intros [[d Hd] Hseq] Hi. unfold check_sequence, is_book_message, is_snapshot, sid_matches. rewrite Hd, Hi.
  destruct (Z.eqb_spec (seq m) 0); [lia|]. cbn [andb negb].
  destruct (Z.eqb_spec (sid m) i) as [->|]; cbn [andb negb]; [|right; tauto].
  destruct (Z.eqb_spec (seq m) (u32 (_book_seq b + 1))); cbn [negb]; [left; auto|right; tauto].
Qed.

Lemma check_all_deltas ms b i :
  Forall numbered_delta ms -> _book_sid b = Some i -> is_Some (check_all ms b) <-> consecutive i (_book_seq b) ms.
Proof.
  intros Hms. revert b. induction Hms as [|m ms Hm Hms IH]; intros b Hi; cbn [check_all consecutive].
  { split; [done|]. eauto. }
  destruct (check_delta m b i Hm Hi) as [(H1 & H2 & ->)|[Hno ->]].
  - rewrite (IH (set_sequence (Some i) (seq m) b)) by done. cbn [_book_seq set_sequence]. tauto.
  - split; [by intros [? ?]|]. intros (H1 & H2 & _). tauto.
Qed.

(** ** Computations that leave a part of the bot alone *)

Definition keeps {X A} (part : Bot -> X) (m : M Bot A) : Prop :=
  forall b w a b' w', m b w = Some (a, b', w') -> part b' = part b.

(** A part of the state that neither the HTTP client, the counters nor the flag is in. *)
Record separate {X} (part : Bot -> X) : Prop := {
  sep_http b h : part (set_http h b) = part b;
  sep_order_seq b n : part (set_order_seq n b) = part b;
  sep_stats b d k t o : part (set_stats d k t o b) = part b;
  sep_stop b : part (request_stop b) = part b;
}.

Lemma separate_book : separate _book.
Proof. done. Qed.
Lemma separate_trading : separate trading.
Proof. done. Qed.

Create HintDb keeps.

Section Keeps.
Context {X : Type} (part : Bot -> X).

Lemma keeps_bind {A B} (m : M Bot A) (k : A -> M Bot B) :
  keeps part m -> (forall a, keeps part (k a)) -> keeps part (bind m k).
Proof.
  intros Hm Hk b w a b' w' H. apply bind_Some in H as (x & b1 & w1 & H1 & H2).
  rewrite (Hk _ _ _ _ _ _ H2). by eapply Hm.
Qed.

Lemma keeps_ret {A} (a : A) : keeps part (ret a).
Proof. by intros b w a' b' w' [= <- <- <-]. Qed.

Lemma keeps_get : keeps part get.
Proof. by intros b w a' b' w' [= <- <- <-]. Qed.

Lemma keeps_tick {A} (f : nat -> A) : keeps part (tick f).
Proof. by intros b w a' b' w' [= <- <- <-]. Qed.

Lemma keeps_print l : keeps part (print l).
Proof. by intros b w a' b' w' [= <- <- <-]. Qed.

Lemma keeps_modify f : (forall b, part (f b) = part b) -> keeps part (modify f).
Proof. by intros Hf b w a' b' w' [= <- <- <-]. Qed.

Lemma keeps_attempt f : (forall b b', f b = Some b' -> part b' = part b) -> keeps part (attempt f).
Proof. intros Hf b w a' b' w' H. unfold attempt in H. destruct (f b) eqn:E; [|done]. injection H as <- <- <-. eauto. Qed.

Lemma keeps_stuck {A} : keeps part (fun _ _ => @None (A * Bot * World)).
Proof. by intros ?????. Qed.

Lemma keeps_exposure env : keeps part (current_exposure env).
Proof. by intros b w e b' w' (_ & -> & _)%current_exposure_inv. Qed.

Lemma keeps_zoom {A} (m : M HttpClient A) : separate part -> keeps part (zoom _http set_http m).
Proof.
  intros Hsep b w a b' w' H. unfold zoom in H. destruct (m (_http b) w) as [[[x s] w1]|]; [|done].
  injection H as <- <- <-. apply (sep_http _ Hsep).
Qed.
End Keeps.

#[export] Hint Resolve keeps_bind keeps_ret keeps_get keeps_stuck keeps_exposure keeps_tick keeps_print keeps_modify keeps_zoom : keeps.
#[export] Hint Resolve separate_book separate_trading sep_http sep_order_seq sep_stats sep_stop : keeps.

Lemma keeps_submit env sig t : keeps _book (submit env sig t).
Proof.
  unfold submit. repeat (apply keeps_bind; [|intros ?]); unfold current_timestamp_ms, now, println; auto with keeps.
  apply keeps_attempt. intros b0 b' H. by apply on_order_response_other in H as (_ & ? & _).
Qed.

Lemma keeps_trade env exp t1 t2 : keeps _book (trade env exp t1 t2).
Proof.
  unfold trade. apply keeps_bind; [apply keeps_tick|]. intros t. apply keeps_bind; [auto with keeps|]. intros b.
  apply keeps_bind; [auto with keeps|]. intros e.
  destruct (on_book_update _ _ _ _ _) as [[signal s]|]; [|auto with keeps].
  repeat (apply keeps_bind; [|intros ?]); unfold now; auto with keeps.
  destruct signal; [apply keeps_submit|auto with keeps].
Qed.

(** ** The book through a session *)

(** The book is the result of applying some snapshots and deltas to the empty one. *)
Definition from_events (st : MarketState) : Prop := exists evs rs, run_book new_market_state evs = Some (rs, st).

Lemma run_book_snoc evs ev : forall st rs st1 r st2,
  run_book st evs = Some (rs, st1) -> book_event st1 ev = Some (r, st2) ->
  run_book st (evs ++ [ev]) = Some (rs ++ [r], st2).
Proof.
  induction evs as [|e evs IH]; intros st rs st1 r st2 H He; cbn [app run_book] in *.
  - injection H as <- <-. by rewrite He.
  - destruct (book_event st e) as [[r1 st3]|]; [|done].
    destruct (run_book st3 evs) as [[rs' st4]|] eqn:E; [|done]. injection H as <- <-.
    by rewrite (IH _ _ _ _ _ E He).
Qed.

Lemma from_events_step st ev r st' : from_events st -> book_event st ev = Some (r, st') -> from_events st'.
Proof. intros (evs & rs & H) He. eexists _, _. by eapply run_book_snoc. Qed.

Lemma from_events_new : from_events new_market_state.
Proof. by exists [], []. Qed.

Lemma check_sequence_book m b b' : check_sequence m b = Some b' -> _book b' = _book b.
Proof. unfold check_sequence. repeat case_match; intros [= <-]; done. Qed.

(** The part of [handle_message] for a fill. *)
Lemma handle_fill_inv f received b w (a : bool * bool) b' w' :
  (let% _ := attempt (on_fill f) in let% b := get in let% _ := print (fill_line f b) in ret (true, received)) b w
    = Some (a, b', w') ->
  exists b4, on_fill f b = Some b4 /\ b' = b4 /\ w' = print_line (fill_line f b4) w.
Proof.
  unfold bind, attempt. destruct (on_fill f b) as [b4|]; [|done]. intros [= _ <- <-]. by exists b4.
Qed.

(** ** The socket of a session *)

(** The TCP socket under a WebSocket. *)
Definition tcp_of (ws : WebSocket) : TcpSocket := _tcp_socket (_tls_socket ws).

Lemma receive_frame_tcp ws r ws' : receive_frame ws = Some (r, ws') -> tcp_of ws' = tcp_of ws.
Proof. unfold receive_frame. destruct (receive_frame_loop _ _) as [[[x b] i]|]; [|done]. by intros [= _ <-]. Qed.

Lemma send_frame_tcp ws f r ws' : send_frame ws f = (r, ws') -> tcp_of ws' = tcp_of ws.
Proof. unfold send_frame, draw_key, send_data. by destruct (frame_builder _ _); intros [= _ <-]. Qed.

(** What the variables of a session are after the work around a frame. *)
Lemma housekeeping_vars env s b w go s' b' w' :
  housekeeping env s b w = Some ((go, s'), b', w') ->
  go = true /\ s_ws s' = s_ws s /\ received_data s' = received_data s.
Proof.
  unfold housekeeping. intros H. apply bind_Some in H as (? & ? & ? & _ & H). run_one H.
  destruct (_ <=? _); [|by injection H as <- <- _ _]. apply bind_Some in H as (? & ? & ? & _ & H). by injection H as <- <- _ _.
Qed.

(** A round hands back the socket it was given, or the one that answered a ping. *)
Lemma session_step_socket env signalled exp s r b w go s' b' w' :
  session_step env signalled exp s r b w = Some ((go, s'), b', w') ->
  (s_ws s' = s_ws s \/ exists f, s_ws s' = snd (send_pong (s_ws s) f)) /\ (go = true -> has_value r = true).
Proof.
  intros H. unfold session_step in H. run_one H. destruct r as [f|e].
  2: { apply bind_Some in H as (? & ? & ? & _ & H). apply bind_Some in H as (? & ? & ? & _ & H).
       injection H as <- <- _ _. auto. }
  split; [|done].
  destruct (op_code f); try (apply housekeeping_vars in H as (_ & -> & _); by left).
  - destruct (decode_kalshi_message _); [|run_one H; injection H as _ <- _ _; by left]. run_one H. run_one H.
    apply bind_Some in H as ([g rc] & ? & ? & _ & H). destruct g; [|injection H as _ <- _ _; by left].
    apply housekeeping_vars in H as (_ & -> & _). by left.
  - run_one H. injection H as _ <- _ _. by left.
  - right. exists f. destruct (send_pong (s_ws s) f) as [u ws2]. apply bind_Some in H as (? & ? & ? & _ & H).
    by apply housekeeping_vars in H as (_ & -> & _).
Qed.

Lemma session_loop_tcp env signalled exp fuel : forall s b w s' b' w',
  session_loop env signalled exp fuel s b w = Some (s', b', w') -> tcp_of (s_ws s') = tcp_of (s_ws s).
Proof.
  induction fuel as [|fuel IH]; intros s b w s' b' w' H; cbn [session_loop] in H; [done|].
  apply bind_Some in H as (go & ? & ? & _ & H). destruct go; cbn [negb] in H; [|by injection H as <- _ _].
  destruct (receive_frame (s_ws s)) as [[r ws]|] eqn:Er; [|done]. apply receive_frame_tcp in Er.
  apply bind_Some in H as ([go s2] & ? & ? & H1 & H). apply session_step_socket in H1 as [H1 _].
  assert (tcp_of (s_ws s2) = tcp_of (s_ws s)) as <-.
  { rewrite <- Er. destruct H1 as [->|[f ->]]; [done|]. by apply (send_frame_tcp _ _ _ _ (surjective_pairing _)). }
  destruct go; [by apply IH in H|by injection H as <- _ _].
Qed.

Lemma stream_session_tcp env signalled exp se ws b w rc ws' b' w' :
  stream_session env signalled exp se ws b w = Some ((rc, ws'), b', w') -> tcp_of ws' = tcp_of ws.
Proof.
  unfold stream_session. intros H. run_one H. destruct (send_text ws _) as [sent ws1] eqn:Es.
  apply send_frame_tcp in Es. rewrite <- Es. destruct sent; [|run_one H; by injection H as _ <- _ _].
  do 4 run_one H. apply bind_Some in H as (s & ? & ? & H1 & H). apply session_loop_tcp in H1.
  by injection H as _ <- _ _.
Qed.

(** ** Runs *)

(** [m] takes every state to one related to it. *)
Definition respects {A} (R : Bot * World -> Bot * World -> Prop) (m : M Bot A) : Prop :=
  forall b w a b' w', m b w = Some (a, b', w') -> R (b, w) (b', w').

Lemma respects_at {A} R (m : M Bot A) b w a b' w' : m b w = Some (a, b', w') -> respects R m -> R (b, w) (b', w').
Proof. intros H HR. exact (HR _ _ _ _ _ H). Qed.

(** A relation that does not see printing, time and what is to be received. *)
Class QuietRelation (R : Bot * World -> Bot * World -> Prop) : Prop := {
  rel_preorder :: PreOrder R;
  rel_world b w w' : fds w' = fds w -> log w' = log w -> R (b, w) (b, w');
}.

(** A relation that a whole run respects, because the handling of a message, the
    requests of the HTTP client and the bookkeeping around them do; a socket opened
    before and closed after related states does not matter. *)
Class RunRelation (env : NetEnv) (exp : double -> double) (R : Bot * World -> Bot * World -> Prop) : Prop := {
  rel_quiet :: QuietRelation R;
  rel_http A (m : M HttpClient A) : balanced m -> posts_nothing m -> respects R (zoom _http set_http m);
  rel_stats b w d k t o : R (b, w) (set_stats d k t o b, w);
  rel_start b w : R (b, w) (set_sequence None (_book_seq b) (set_book new_market_state b), w);
  rel_bracket b w calls t b' w' :
    (forall fds, open_after fds calls = owned t ++ fds) ->
    R (b, record_calls calls w) (b', w') -> R (b, w) (b', record_calls (destroy t) w');
  rel_handle text m received t1 t2 :
    decode_kalshi_message text = Ok m -> respects R (handle_message env exp m received t1 t2);
}.

Section Respects.
Context (R : Bot * World -> Bot * World -> Prop) `{HR : !QuietRelation R}.

Lemma respects_bind {A B} (m : M Bot A) (k : A -> M Bot B) :
  respects R m -> (forall a, respects R (k a)) -> respects R (bind m k).
Proof.
  intros Hm Hk b w a b' w' H. apply bind_Some in H as (x & b1 & w1 & H1 & H2).
  transitivity (b1, w1); [by eapply Hm|by eapply Hk].
Qed.

(** Computations that only print, read the clock or look at the flag. *)
Lemma respects_quiet {A} (m : M Bot A) :
  (forall b w a b' w', m b w = Some (a, b', w') -> b' = b /\ fds w' = fds w /\ log w' = log w) -> respects R m.
Proof. intros Hm b w a b' w' H. apply Hm in H as (-> & Hs & Hl). by apply rel_world. Qed.

Lemma respects_ret {A} (a : A) : respects R (ret a).
Proof. apply respects_quiet. by intros b w a' b' w' [= <- <- <-]. Qed.

Lemma respects_get : respects R get.
Proof. apply respects_quiet. by intros b w a' b' w' [= <- <- <-]. Qed.

Lemma respects_stuck {A} : respects R (fun _ _ => @None (A * Bot * World)).
Proof. by intros ?????. Qed.

Lemma respects_print l : respects R (print l).
Proof. apply respects_quiet. by intros b w a' b' w' [= <- <- <-]. Qed.

Lemma respects_tick {A} (f : nat -> A) : respects R (tick f).
Proof. apply respects_quiet. by intros b w a' b' w' [= <- <- <-]. Qed.

Lemma respects_sleep n : respects R (sleep_for n).
Proof. apply respects_quiet. intros b w a' b' w' [= <- <- <-]. split; [done|]. split; [|done]. exact (fds_calls (advance w) (record_calls [SysSleep n] (advance w)) [SysSleep n] eq_refl). Qed.

Lemma respects_exposure env : respects R (current_exposure env).
Proof. apply respects_quiet. by intros b w e b' w' (_ & -> & ->)%current_exposure_inv. Qed.

Lemma respects_running signalled : respects R (is_running signalled).
Proof. apply respects_quiet. by intros b w a' b' w' [= _ <- <-]. Qed.

Lemma respects_modify f : (forall b w, R (b, w) (f b, w)) -> respects R (modify f).
Proof. by intros Hf b w a' b' w' [= <- <- <-]. Qed.

Lemma respects_attempt f : (forall b w b', f b = Some b' -> R (b, w) (b', w)) -> respects R (attempt f).
Proof. intros Hf b w a' b' w' H. unfold attempt in H. destruct (f b) eqn:E; [|done]. injection H as <- <- <-. auto. Qed.
End Respects.

#[export] Hint Resolve respects_ret respects_get respects_stuck respects_sleep respects_exposure respects_tick respects_running respects_print : keeps.
#[export] Hint Resolve respects_modify respects_attempt : keeps.
#[export] Hint Resolve balanced_request balanced_request_json balanced_idle_for balanced_connect : keeps.
#[export] Hint Resolve posts_nothing_get posts_nothing_idle posts_nothing_connect : keeps.
#[export] Hint Extern 1 (QuietRelation _) => exact _ : keeps.

(** Walks through the binds, matches and tests of a computation. *)
Ltac walk :=
  repeat (first [simple apply respects_bind; [exact _| |intros ?] | case_match]);
  unfold now, current_timestamp_ms, println, eprintln; auto with keeps.

Section Runs.
Context (env : NetEnv) (signalled : nat -> bool) (exp : double -> double) (R : Bot * World -> Bot * World -> Prop).
Context `{HR : !RunRelation env exp R}.

Local Hint Extern 2 (respects R (zoom _ _ _)) => eapply rel_http : keeps.

Lemma respects_housekeeping s : respects R (housekeeping env s).
Proof. unfold housekeeping, keep_http_warm, print_status. walk. Qed.
Local Hint Resolve respects_housekeeping : keeps.

Lemma respects_step s r : respects R (session_step env signalled exp s r).
Proof.
  unfold session_step. walk; [|by eapply rel_handle]. apply respects_modify. intros b w. eapply rel_stats.
Qed.

Lemma respects_loop fuel : forall s, respects R (session_loop env signalled exp fuel s).
Proof. induction fuel as [|fuel IH]; intros s; cbn [session_loop]; [auto with keeps|]. pose proof respects_step. walk. Qed.

Lemma respects_stream se ws : respects R (stream_session env signalled exp se ws).
Proof.
  unfold stream_session. apply respects_bind; [exact _|walk|]. intros b0.
  destruct (send_text _ _) as [[u|e] ws']; [|walk]. apply respects_bind; [exact _|walk|]. intros _.
  intros b w a b' w' H. run_one H. run_one H.
  transitivity (set_sequence None (_book_seq b) (set_book new_market_state b), w); [eapply rel_start|].
  revert H. pose proof respects_loop. walk.
Qed.

Lemma respects_session se : respects R (run_session env signalled exp se).
Proof.
  intros b w a b' w' H. unfold run_session in H. run_one H. run_one H. cbv zeta in H.
  transitivity (b, advance w); [by eapply rel_world|].
  destruct (WebSocket.connect _ _ _ _ _ _) as [[[result ws] calls]|] eqn:Ec; [|done]. run_one H.
  apply bind_Some in H as ([rc ws'] & b1 & w1 & H1 & H). run_one H. injection H as <- <- <-.
  assert (tcp_of ws' = tcp_of ws) as Htcp.
  { destruct result; [by eapply stream_session_tcp|]. run_one H1. by injection H1 as _ <- _ _. }
  unfold destroy_web_socket. fold (tcp_of ws'). rewrite Htcp. eapply rel_bracket.
  - intros fds. eapply connect_open; [exact Ec|done].
  - revert H1. destruct result; [apply respects_stream|]. walk.
Qed.

Lemma respects_wait n : respects R (wait_seconds signalled n).
Proof. induction n as [|n IH]; cbn [wait_seconds]; [auto with keeps|]. walk. Qed.

Lemma respects_run_loop sessions : forall backoff, respects R (run_loop env signalled exp sessions backoff).
Proof.
  pose proof respects_session. pose proof respects_wait.
  induction sessions as [|se sessions IH]; intros backoff; cbn [run_loop]; [auto with keeps|]. walk.
Qed.

Lemma respects_run sessions : respects R (run env signalled exp sessions).
Proof. unfold run. pose proof respects_run_loop. walk. Qed.
End Runs.

(** A relation on bots alone. *)
Definition on_bot (R : Bot -> Bot -> Prop) (x y : Bot * World) : Prop := R x.1 y.1.

#[export] Instance on_bot_quiet R : PreOrder R -> QuietRelation (on_bot R).
Proof.
  intros HR. split; [split|].
  - intros x. unfold on_bot. reflexivity.
  - intros x y z H1 H2. unfold on_bot in *. by transitivity y.1.
  - intros b w w' _ _. unfold on_bot. reflexivity.
Qed.

(** The bot is all that such a relation needs to be checked on. *)
Lemma on_bot_run env exp (R : Bot -> Bot -> Prop) :
  PreOrder R -> (forall b h, R b (set_http h b)) -> (forall b d k t o, R b (set_stats d k t o b)) ->
  (forall b, R b (set_sequence None (_book_seq b) (set_book new_market_state b))) ->
  (forall m received t1 t2, respects (on_bot R) (handle_message env exp m received t1 t2)) ->
  RunRelation env exp (on_bot R).
Proof.
  intros HR Hh Hs Hst Hm. split; unfold on_bot; cbn [fst]; auto.
  - apply on_bot_quiet, HR.
  - intros A m _ _ b w a b' w' H. unfold zoom in H. destruct (m (_http b) w) as [[[x s] w1]|]; [|done].
    injection H as <- <- <-. apply Hh.
Qed.

(** *** Being a sequence of trade steps is one *)

Definition trades (exp : double -> double) (b b' : Bot) : Prop := exists ls, trade_steps exp ls b b'.

Lemma trades_silent exp b b' : trading b' = trading b -> trades exp b b'.
Proof. intros H. exists [LIdle]. econstructor; [by apply step_silent|constructor]. Qed.

Lemma trades_one exp l b b' : trade_step exp l b b' -> trades exp b b'.
Proof. intros H. exists [l]. econstructor; [done|constructor]. Qed.

Lemma trades_trans exp b b1 b' : trades exp b b1 -> trades exp b1 b' -> trades exp b b'.
Proof. intros [ls H1] [ls' H2]. exists (ls ++ ls'). by eapply trade_steps_app. Qed.

(** What an order changes of the trading state: the response's effect. *)
Lemma submit_response env sig t b w a b' w' :
  submit env sig t b w = Some (a, b', w') ->
  exists req resp b1, trading b1 = trading b /\ on_order_response sig req resp b1 = Some b'.
Proof.
  intros H. unfold submit in H.
  do 4 run_one H.
  apply bind_Some in H as (resp & b1 & w1 & H1 & H).
  apply (keeps_zoom trading) in H1; [|apply separate_trading].
  do 4 run_one H. run_exposure H. run_one H. apply bind_Some in H as (y & b2 & w2 & H2 & H). injection H as _ <- _.
  unfold attempt in H2. destruct (on_order_response _ _ resp _) eqn:Er; [|done]. injection H2 as <- <- <-.
  eexists _, resp, _. split; [|exact Er]. exact H1.
Qed.

Lemma trade_trades env exp t1 t2 b w a b' w' : trade env exp t1 t2 b w = Some (a, b', w') -> trades exp b b'.
Proof.
  intros H. unfold trade in H.
  do 2 run_one H. run_exposure H.
  destruct (on_book_update _ _ _ _ _) as [[signal s]|] eqn:Eup; [|done].
  do 3 run_one H.
  destruct signal as [sig|].
  - apply submit_response in H as (req & resp & b1 & Ht & Hr). eapply trades_one, step_order; [exact Eup| |exact Hr]. by rewrite Ht.
  - injection H as <- <- <-. eapply trades_trans; [eapply trades_one, step_quiet; exact Eup|]. by apply trades_silent.
Qed.

Lemma after_book_trades env exp received r book t1 t2 b w a b' w' :
  after_book env exp received r book t1 t2 b w = Some (a, b', w') -> trades exp b b'.
Proof.
  intros H. unfold after_book in H. run_one H.
  apply (trades_trans _ _ (set_book book b)); [by apply trades_silent|].
  destruct r as [[]|e].
  - apply bind_Some in H as (y & b1 & w1 & H1 & H). injection H as <- <- <-. by eapply trade_trades.
  - do 2 run_one H. injection H as <- <- <-. apply trades_silent. unfold on_book_error. by case_match.
Qed.

#[export] Instance trades_run env exp : RunRelation env exp (on_bot (trades exp)).
Proof.
  apply on_bot_run; try (intros; by apply trades_silent).
  { split; [intros b; exists []; constructor|]. intros b1 b2 b3. apply trades_trans. }
  intros m received t1 t2 b w a b' w' H. unfold handle_message in H.
  run_one H.
  destruct (check_sequence m b) as [b2|] eqn:Ec; [|run_one H; injection H as <- <- <-; by apply trades_silent].
  unfold on_bot. cbn [fst]. apply (trades_trans _ _ b2).
  { apply trades_silent. revert Ec. unfold check_sequence. repeat case_match; intros [= <-]; done. }
  run_one H.
  destruct (msg m) as [|s|d|f].
  - injection H as <- <- <-. by apply trades_silent.
  - destruct (apply_snapshot (_book b2) s) as [r book]. by eapply after_book_trades.
  - destruct (apply_delta (_book b2) d) as [[r book]|]; [|done]. by eapply after_book_trades.
  - apply handle_fill_inv in H as (b4 & Ef & -> & _). by eapply trades_one, step_fill.
Qed.

(** *** Owning the same descriptors is one *)

(** Apart from its HTTP connection, the bot has the same descriptors open. *)
Definition same_descriptors (x y : Bot * World) : Prop :=
  forall base, fds x.2 ≡ₚ client_fds (_http x.1) ++ base -> fds y.2 ≡ₚ client_fds (_http y.1) ++ base.

#[export] Instance same_descriptors_quiet : QuietRelation same_descriptors.
Proof.
  split; [split|].
  - by intros x base.
  - intros x y z H1 H2 base H. by apply H2, H1.
  - intros b w w' Hs _ base. cbn [fst snd]. by rewrite Hs.
Qed.

Lemma same_descriptors_http b b' w : _http b' = _http b -> same_descriptors (b, w) (b', w).
Proof. intros H base. cbn [fst snd]. by rewrite H. Qed.

Lemma same_descriptors_zoom {A} (m : M HttpClient A) : balanced m -> respects same_descriptors (zoom _http set_http m).
Proof.
  intros Hm b w a b' w' H base. unfold zoom in H. destruct (m (_http b) w) as [[[x s] w1]|] eqn:E; [|done].
  injection H as <- <- <-. cbn [fst snd]. intros Hf. exact (Hm _ _ _ _ _ base E Hf).
Qed.

Lemma same_descriptors_handle env exp m received t1 t2 :
  respects same_descriptors (handle_message env exp m received t1 t2).
Proof.
  intros b w a b' w' H. unfold handle_message in H. run_one H.
  destruct (check_sequence m b) as [b2|] eqn:Ec; [|apply (respects_at _ _ _ _ _ _ _ H); walk].
  run_one H. transitivity (b2, w).
  { apply same_descriptors_http. revert Ec. unfold check_sequence. repeat case_match; intros [= <-]; done. }
  apply (respects_at _ _ _ _ _ _ _ H). clear H. unfold after_book, trade, submit. pose proof @same_descriptors_zoom.
  assert (forall e b0, _http (on_book_error e b0) = _http b0) by (intros e b0; unfold on_book_error; by case_match).
  walk; (eapply respects_modify || eapply respects_attempt); try exact _; intros; apply same_descriptors_http; auto.
  - by edestruct on_order_response_other as (_ & _ & ?).
  - by edestruct on_order_response_other as (_ & _ & ?).
  - by edestruct on_fill_other as (_ & _ & _ & ?).
Qed.

#[export] Instance same_descriptors_run env exp : RunRelation env exp same_descriptors.
Proof.
  split; try (intros; by apply same_descriptors_http).
  - exact _.
  - intros A m Hb _. by apply same_descriptors_zoom.
  - intros b w calls t b' w' Hopen H base Hf. cbn [fst snd] in *.
    assert (fds w' ≡ₚ client_fds (_http b') ++ owned t ++ base) as Hw'.
    { apply H. cbn [fst snd]. rewrite (fds_calls w (record_calls calls w) calls eq_refl), Hopen, Hf, !app_assoc.
      f_equiv. apply Permutation_app_comm. }
    rewrite (fds_calls w' (record_calls (destroy t) w') (destroy t) eq_refl), Hw'.
    rewrite app_assoc, (Permutation_app_comm (client_fds _) (owned t)), <- app_assoc.
    by rewrite open_after_destroy.
  - intros text m received t1 t2 _. apply same_descriptors_handle.
Qed.
