(* ===== verification/BotRun.v ===== *)
(** * BotRun: the properties of the trading bot

    The position limit on every run, the confirmation of fills, the sequence check,
    what a bad book message does, the waits between reconnections, the fuel of a
    session and the descriptors, with a complete sample run (handshake, snapshots, an
    order, its fill, and the server's close) and the lines it prints. *)

From stdpp Require Import gmap.
From S2P Require Import Prelude Double FixedPoint CharConv JsonLexer JsonParser MessageTypes MarketState KalshiMessages KalshiDecoder Stream Sockets World Frame WebSocket HttpResponse KalshiAuth HttpClient Trackers Strategy TradingBot BotFacts.

(** ** A sample run *)

Definition server_text (p : bytes) : bytes :=
  map zb (if Z.of_nat (length p) <? 126 then [129; Z.of_nat (length p)] else [129; 126; Z.of_nat (length p) / 256; Z.of_nat (length p) mod 256]) ++ p.

Definition snapshot_text (n yes no : string) : bytes :=
  json_text "{'type':'orderbook_snapshot','sid':1,'seq':" ++ lit n ++
  json_text ",'msg':{'market_ticker':'T','market_id':'m','yes_dollars_fp':[['" ++ lit yes ++
  json_text "','10.00']],'no_dollars_fp':[['" ++ lit no ++ json_text "','10.00']]}}".

Definition sample_fill_text : bytes :=
  json_text "{'type':'fill','sid':2,'seq':1,'msg':{'order_id':'o1','market_ticker':'T','action':'buy','count_fp':'1.00'}}".

Definition order_answer : bytes := json_text "{'order_id':'o1','fill_count':'1.00','remaining_count':'0.00','ts_ms':7}".

Definition http_answer (body : bytes) : bytes :=
  lit "HTTP/1.1 200 OK" ++ kCrlf ++ lit "Content-Length: " ++ fmt_uint (Z.of_nat (length body)) ++ kCrlf ++ kCrlf ++ body.

(** Fifteen seconds between clock readings, and a network without failures. *)
Definition sample_env : NetEnv :=
  {| env_resolve := fun n => Ok (reachable_at (4 + Z.of_nat n)); env_ssl := fun _ => working_ssl; env_write := fun _ => None;
     env_poll := fun _ => false; env_clock := fun n => Z.of_nat n * 15 * kSecond; env_timestamp := fun n => Z.of_nat n;
     env_encode_block := id;
     env_order := fixed_order; env_order_perm := fixed_order_perm |}.

Definition sample_session : SessionEnv :=
  {| se_incoming := [Ok (lit "HTTP/1.1 101 Switching Protocols" ++ kCrlf ++ kCrlf);
                     Ok (server_text (snapshot_text "1" "0.29" "0.69"));
                     Ok (server_text (snapshot_text "2" "0.24" "0.74") ++ server_text sample_fill_text);
                     Ok (map zb [136; 0])];
     se_write := fun _ => None; se_mask_keys := fun _ => Some (map zb [1; 2; 3; 4]); se_raw_key := Some (lit "key");
     se_resolved := Ok (reachable_at 3); se_ssl := working_ssl; se_fuel := 9 |}.

Definition sample_world : World :=
  new_world (map Ok [http_answer []; http_answer order_answer; http_answer []; http_answer []]).

Definition sample_bot : Bot := new_bot (lit "T") sample_signer default_config.

(** The run opens the order connection, subscribes, buys one contract when the price
    drops, learns of its fill, and is told to reconnect after the server's close. *)
Example sample_run :
  (fun '(_, b, w) => (exposure b, get_position (_positions b) (lit "T"), size (_orders b), length (inbox w), fds w))
    <$> run sample_env (fun _ => false) flat_exp [sample_session] sample_bot sample_world
  = Some (1, 1, 1%nat, 0%nat, [11]).
Proof. by vm_compute. Qed.

Example sample_console :
  (fun '(_, _, w) => console w) <$> run sample_env (fun _ => false) flat_exp [sample_session] sample_bot sample_world
  = Some (map (fun l => (Stdout, lit l))
      ["Trading T | edge 3c, max spread 4c, max position 5, cooldown 5s";
       "[ws] subscribed to T";
       "[status] bid 29c ask 31c fair 30.0c position 0 exposure 0 | http connections opened: 2";
       "[order] BUY 1 @ 26c (fair 30.0c, exposure 0)";
       "[order] o1 filled 1.00, remaining 0.00 (90000.0 ms)";
       "[status] bid 24c ask 26c fair 30.0c position 0 exposure 1 | http connections opened: 4";
       "[fill] o1 + 1 -> position 1";
       "[status] bid 24c ask 26c fair 30.0c position 1 exposure 1 | http connections opened: 5";
       "[ws] server closed the connection";
       "[ws] reconnecting in 1s"]%string).
Proof. by vm_compute. Qed.

(** ** Trading *)

(** An update whose signal is known. *)
Lemma updated_signal s r a : fst <$> r = Some a -> r = Some (a, updated s r).
Proof. destruct r as [[x s']|]; cbn; [|done]. by intros [= ->]. Qed.

(** C6. Every run of the bot, over any network behaviour, signal timing and sequence
    of sessions, is a sequence of trade steps: its strategy, orders, positions and
    unconfirmed fills change only by a strategy update on the current exposure, by the
    response to an order that such an update signalled on unchanged trading state, or
    by a fill message. *)
Theorem runs_are_trades env signalled exp sessions b w b' w' :
  run env signalled exp sessions b w = Some (tt, b', w') -> exists ls, trade_steps exp ls b b'.
Proof. exact (respects_run env signalled exp (on_bot (trades exp)) sessions b w tt b' w'). Qed.

Lemma runs_are_trades_witness :
  exists b' ls, trade_steps flat_exp ls sample_bot b' /\ exposure b' = 1.
Proof.
  pose proof sample_run as H.
  destruct (run _ _ _ _ _ _) as [[[[] b'] w']|] eqn:E in H; [|discriminate H].
  apply runs_are_trades in E as [ls Hls]. exists b', ls. split; [exact Hls|]. by injection H.
Defined.

(** C4. The position limit holds on every run with an honest exchange: if each order
    response reports at most the ordered count and each fill message confirms an
    outstanding fill once (or is of another market), then from a new bot the
    exposure (confirmed position plus unconfirmed fills) never exceeds
    [max_position] in either direction, for every configuration with non-negative
    sizes and whatever the books, prices and times. *)
Theorem position_limit_never_breached exp tk signer config ls b' :
  0 <= order_size config -> 0 <= max_position config ->
  honest_steps exp ls (new_bot tk signer config) b' -> Z.abs (exposure b') <= max_position config.
Proof.
  intros Hsize Hmax H. destruct (honest_steps_limit _ _ _ _ H) as [Hlim Hcfg]; [done|done|].
  unfold within_limit in Hlim. by rewrite Hcfg in Hlim.
Qed.

Definition sample_response : expected bytes JsonValue := parse_json order_answer.

Definition sample_fill : Fill :=
  {| fill_order_id := lit "o1"; fill_market_ticker := lit "T"; count_fp := lit "1.00"; action := Buy |}.

(** The new bot after it looked at the first book. *)
Definition quoted_bot : Bot := set_strategy warmed_up sample_bot.

Definition signalled_bot : Bot :=
  set_strategy (updated warmed_up (on_book_update flat_exp warmed_up (sample_book "0.24" "0.74") 0 (61 * kSecond))) quoted_bot.

Definition order_response : option Bot :=
  on_order_response buy_26 (make_ioc_order (lit "T") buy_26 (lit "c")) sample_response signalled_bot.

Definition ordered_bot : Bot := default sample_bot order_response.

Lemma order_accepted :
  on_order_response buy_26 (make_ioc_order (lit "T") buy_26 (lit "c")) sample_response signalled_bot = Some ordered_bot.
Proof.
  assert (match order_response with Some _ => true | None => false end = true) as H by (by vm_compute).
  unfold ordered_bot. fold order_response. destruct order_response; [reflexivity|discriminate H].
Qed.

Lemma sample_fill_accepted : is_Some (on_fill sample_fill ordered_bot).
Proof.
  assert (match on_fill sample_fill ordered_bot with Some _ => true | None => false end = true) as H by (by vm_compute).
  destruct (on_fill _ _); [eauto|discriminate H].
Qed.

Lemma sample_fill_confirms : confirms ordered_bot sample_fill.
Proof.
  exists 1, 1, 1. split; [by vm_compute|]. split; [by vm_compute|]. split; [done|]. split; [by vm_compute|]. lia.
Qed.

Lemma sample_exposure : exposure sample_bot = 0.
Proof. by vm_compute. Qed.

Lemma quoted_exposure : exposure quoted_bot = 0.
Proof. by vm_compute. Qed.

Lemma sample_quiet : fst <$> on_book_update flat_exp (new_strategy default_config) (sample_book "0.29" "0.69") 0 0 = Some None.
Proof. by vm_compute. Qed.

Lemma sample_response_honest : honest_response buy_26 sample_response.
Proof.
  intros json parsed filled Hj Hp Hq.
  assert (response_quantity buy_26 sample_response = 1) as H by (by vm_compute).
  unfold response_quantity in H. rewrite Hj, Hp, Hq in H. destruct (0 <? filled); cbn in *; lia.
Qed.

Lemma sample_quiet_step : trade_step flat_exp LIdle sample_bot quoted_bot.
Proof.
  apply step_quiet with (sample_book "0.29" "0.69") 0. rewrite sample_exposure.
  exact (updated_signal (new_strategy default_config) _ _ sample_quiet).
Qed.

Lemma sample_signal_step :
  on_book_update flat_exp (_strategy quoted_bot) (sample_book "0.24" "0.74") (exposure quoted_bot) (61 * kSecond)
  = Some (Some buy_26, _strategy signalled_bot).
Proof. rewrite quoted_exposure. exact (updated_signal warmed_up _ _ sample_signal). Qed.

Lemma sample_steps :
  exists b', honest_steps flat_exp [LIdle; LOrder buy_26 sample_response; LFill sample_fill] sample_bot b'.
Proof.
  destruct sample_fill_accepted as [b' E]. exists b'.
  apply honest_cons with quoted_bot; [|done|apply honest_cons with ordered_bot; [| |apply honest_cons with b'; [by apply step_fill| |constructor]]].
  - exact sample_quiet_step.
  - exact (step_order flat_exp quoted_bot (sample_book "0.24" "0.74") (61 * kSecond) buy_26 _ signalled_bot _ _ _
             sample_signal_step eq_refl order_accepted).
  - apply sample_response_honest.
  - left. apply sample_fill_confirms.
Qed.

Lemma position_limit_never_breached_witness :
  exists ls b', honest_steps flat_exp ls sample_bot b' /\ Z.abs (exposure b') <= max_position default_config.
Proof.
  destruct sample_steps as [b' H]. exists [LIdle; LOrder buy_26 sample_response; LFill sample_fill], b'. split; [exact H|].
  refine (position_limit_never_breached flat_exp (lit "T") sample_signer default_config _ b' _ _ H); by vm_compute.
Defined.

(** C14. A fill reported twice, by the order's response and by the fill channel, counts
    once: confirming an outstanding fill adds the signed quantity of the message to the
    position in the market and to no other, takes it off the unconfirmed fills of the
    order, whose entry goes when nothing is left, and touches no other entry, marks the
    order as filled and leaves the exposure as it is. *)
Theorem fill_confirmation_keeps_exposure fill b b' :
  on_fill fill b = Some b' -> confirms b fill ->
  exists qty before,
    parse_contracts (count_fp fill) = Some qty /\ _unconfirmed_fills b !! fill_order_id fill = Some before /\
    let q := match action fill with Buy => qty | Sell => - qty end in
    get_position (_positions b') (_ticker b) = get_position (_positions b) (_ticker b) + q /\
    (forall tk, tk <> _ticker b -> get_position (_positions b') tk = get_position (_positions b) tk) /\
    _unconfirmed_fills b' = (if before =? q then delete (fill_order_id fill) (_unconfirmed_fills b)
                             else <[fill_order_id fill := before - q]> (_unconfirmed_fills b)) /\
    order_status <$> get_order (_orders b') (fill_order_id fill) = (fun _ => Filled) <$> get_order (_orders b) (fill_order_id fill) /\
    exposure b' = exposure b.
Proof.
  intros H Hcf. pose proof (exposure_confirm _ _ _ H Hcf) as He. destruct Hcf as (qty & q & before & Htk & Hq & Hfq & Hu & Hrange).
  destruct (on_fill_trackers _ _ _ _ H Hq) as (q' & p & u & Hfq' & Hp & Hc & Hpos & Hun & Ht & Ho). simplify_eq.
  exists qty, before. split; [done|]. split; [done|]. rewrite <- (fill_quantity_exact _ _ _ Hfq). cbv zeta.
  split; [by rewrite (get_position_update _ _ _ _ (_ticker b) Hp), decide_True|].
  split; [intros tk Hne; rewrite (get_position_update _ _ _ _ tk Hp), decide_False by congruence; lia|].
  split; [by apply confirm_exact|]. split; [|done].
  rewrite Ho. unfold get_order, update_status. destruct (_orders b !! _) as [o|] eqn:Eo; [by rewrite lookup_insert_eq|by rewrite Eo].
Qed.

(** The order's fill of one contract is confirmed: it is in the position now, and no
    longer among the unconfirmed fills. *)
Lemma fill_confirmation_keeps_exposure_witness :
  exists b', on_fill sample_fill ordered_bot = Some b' /\ get_position (_positions b') (lit "T") = 1 /\
    _unconfirmed_fills b' !! lit "o1" = None /\ exposure b' = exposure ordered_bot.
Proof.
  destruct sample_fill_accepted as [b' E]. exists b'. split; [exact E|].
  destruct (fill_confirmation_keeps_exposure _ _ _ E sample_fill_confirms) as (qty & before & Hq & Hu & Hp & _ & Hun & _ & He).
  injection Hq as <-. assert (before = 1) as ->.
  { assert (_unconfirmed_fills ordered_bot !! lit "o1" = Some 1) as H by (by vm_compute). cbn [fill_order_id sample_fill] in Hu.
    rewrite H in Hu. by injection Hu. }
  split; [|split; [|exact He]].
  - change (_ticker ordered_bot) with (lit "T") in Hp. rewrite Hp. by vm_compute.
  - rewrite Hun. cbn [action sample_fill fill_order_id]. change (1 =? 1) with true. cbv iota. apply lookup_delete_eq.
Defined.

(** ** The sequence check *)

(** C10. The sequence check accepts exactly gap-free deltas: after a numbered snapshot,
    a run of numbered deltas is accepted if and only if every one is of the
    snapshot's subscription and carries the next sequence number, modulo 2^32. *)
Theorem sequence_check_exact m ms b :
  is_snapshot m = true -> seq m <> 0 -> Forall numbered_delta ms ->
  is_Some (check_all (m :: ms) b) <-> consecutive (sid m) (seq m) ms.
Proof.
  intros Hs Hn Hms. cbn [check_all]. unfold check_sequence at 1. rewrite Hs.
  assert (is_book_message m = true) as -> by (unfold is_snapshot, is_book_message in *; by destruct (msg m)).
  destruct (Z.eqb_spec (seq m) 0); [done|]. cbn [andb negb].
  by apply (check_all_deltas ms (set_sequence (Some (sid m)) (seq m) b)).
Qed.

Definition numbered (p : Payload) (n : Z) : Message := {| msg_type := []; sid := 1; seq := n; msg := p |}.
Definition empty_snapshot : Payload :=
  PSnapshot {| snap_market_ticker := lit "T"; snap_market_id := []; yes_dollars_fp := []; no_dollars_fp := [] |}.
Definition some_delta : Payload := PDelta (sample_delta "yes" "0.4500" "5.00").

Lemma sequence_check_exact_witness :
  is_Some (check_all [numbered empty_snapshot 7; numbered some_delta 8; numbered some_delta 9] sample_bot) /\
  ~ is_Some (check_all [numbered empty_snapshot 7; numbered some_delta 9] sample_bot).
Proof.
  assert (forall n, 0 < n -> numbered_delta (numbered some_delta n)) as Hd by (intros n Hn; split; [by eexists|done]).
  split.
  - apply (sequence_check_exact (numbered empty_snapshot 7) [numbered some_delta 8; numbered some_delta 9]); [done|done| |].
    + constructor; [by apply Hd|]. constructor; [by apply Hd|constructor].
    + cbn. repeat split.
  - intros H. apply (sequence_check_exact (numbered empty_snapshot 7) [numbered some_delta 9]) in H; [|done|done|].
    + destruct H as (_ & H & _). vm_compute in H. discriminate H.
    + constructor; [by apply Hd|constructor].
Defined.

(** A message of another channel under the book's subscription id is not checked but
    moves the expected number: the deltas lost between the two are not noticed. *)
Lemma gap_masked_by_other_channel b i f d :
  _book_sid b = Some i -> is_book_message f = false -> sid f = i -> 0 < seq f ->
  numbered_delta d -> sid d = i -> seq d = u32 (seq f + 1) -> is_Some (check_all [f; d] b).
Proof.
  intros Hi Hf Hsid Hseq Hd Hdi Hds. cbn [check_all]. unfold check_sequence at 1, sid_matches. rewrite Hf, Hi.
  cbn [andb]. rewrite Hsid, Z.eqb_refl. destruct (Z.eqb_spec (seq f) 0); [lia|]. cbn [andb negb].
  destruct (check_delta d (set_sequence (Some i) (seq f) b) i Hd eq_refl) as [(_ & _ & ->)|[Hno _]]; [eauto|].
  by destruct Hno.
Qed.

(** ** Book messages *)

(** What a message does to the book: [None] for other messages. *)
Definition book_result (m : Message) (k : MarketState) : option (expected BookError unit * MarketState) :=
  match msg m with PSnapshot s => Some (apply_snapshot k s) | PDelta d => apply_delta k d | _ => None end.

(** C11. A bad book message ends the session at once: when the sequence check fails,
    nothing changes; when the book rejects the message, only the book and the
    sequence numbers change and the bot keeps running exactly if the error is
    out-of-sync (a fresh snapshot can repair it). In both cases all that happens
    outside is that one line is printed: no clock is read and nothing is sent, so no
    order is placed on a book that is known to be wrong. *)
Theorem bad_book_message_ends_session env exp m received t1 t2 b w :
  (check_sequence m b = None -> handle_message env exp m received t1 t2 b w = Some ((false, received), b, print_line (Stderr, gap_line m b) w)) /\
  (forall b2 e book, check_sequence m b = Some b2 -> book_result m (_book b2) = Some (Unexpected e, book) ->
     exists b', handle_message env exp m received t1 t2 b w = Some ((false, received), b', print_line (Stderr, book_error_line e) w) /\
       _book b' = book /\ trading b' = trading b /\
       running b' = match kind e with OutOfSync => running b | MarketState.Malformed => false end).
Proof.
  split.
  - intros H. unfold handle_message, bind, get. by rewrite H.
  - intros b2 e book Hc Hr. exists (on_book_error e (set_book book b2)).
    assert (trading b2 = trading b /\ running b2 = running b) as [Ht Hrun].
    { revert Hc. unfold check_sequence. repeat case_match; intros [= <-]; done. }
    split; [|unfold on_book_error; destruct (kind e); done].
    unfold handle_message, bind, get. rewrite Hc. unfold modify.
    unfold book_result in Hr. destruct (msg m) as [|s|d|f]; try done.
    + injection Hr as ->. unfold has_value. by rewrite orb_false_r.
    + by rewrite Hr.
Qed.

(** A new bot, nothing in its book: a delta that takes contracts away is out of sync. *)
Lemma bad_book_message_ends_session_witness :
  exists e b', handle_message sample_env flat_exp (numbered (PDelta (sample_delta "yes" "0.4500" "-5.00")) 0) true 0 0
                 sample_bot sample_world = Some ((false, true), b', print_line (Stderr, book_error_line e) sample_world) /\
    running b' = true.
Proof.
  set (m := numbered (PDelta (sample_delta "yes" "0.4500" "-5.00")) 0).
  destruct (bad_book_message_ends_session sample_env flat_exp m true 0 0 sample_bot sample_world) as [_ H].
  assert (match book_result m new_market_state with Some (Unexpected e, _) => Some (kind e) | _ => None end
          = Some OutOfSync) as Hk by (by vm_compute).
  destruct (book_result m new_market_state) as [[[u|e] book]|] eqn:E; [discriminate Hk| |discriminate Hk].
  destruct (H sample_bot e book eq_refl E) as (b' & H1 & _ & _ & H2). exists e, b'. split; [exact H1|].
  injection Hk as Hk. rewrite Hk in H2. exact H2.
Defined.

(** All that happened outside is that something was printed. *)
Definition only_printed (w w' : World) : Prop :=
  log w' = log w /\ ticks w' = ticks w /\ inbox w' = inbox w /\ syscalls w' = syscalls w.

(** C12. Orders follow book updates only: when the handling of a message sends
    anything or numbers an order, the message is a book message that passed the
    sequence check and that the book accepted. *)
Theorem orders_only_after_book_update env exp m received t1 t2 b w a b' w' :
  handle_message env exp m received t1 t2 b w = Some (a, b', w') ->
  (exists b2 book, check_sequence m b = Some b2 /\ book_result m (_book b2) = Some (Ok tt, book)) \/
  (only_printed w w' /\ _order_seq b' = _order_seq b).
Proof.
  intros H. unfold handle_message, bind, get in H. destruct (check_sequence m b) as [b2|] eqn:Ec; [|right; by injection H as <- <- <-].
  assert (_order_seq b2 = _order_seq b) as Hn.
  { revert Ec. unfold check_sequence. repeat case_match; intros [= <-]; done. }
  rewrite <- Hn. unfold modify, after_book, book_result in *. destruct (msg m) as [|s|d|f] eqn:Em.
  - right. by injection H as <- <- <-.
  - destruct (apply_snapshot (_book b2) s) as [[[]|e] book] eqn:Es; [left; exists b2, book; by rewrite Es|].
    right. injection H as <- <- <-. split; [done|]. unfold on_book_error. by destruct (kind e).
  - destruct (apply_delta (_book b2) d) as [[[[]|e] book]|] eqn:Es; [left; by exists b2, book| |done].
    right. injection H as <- <- <-. split; [done|]. unfold on_book_error. by destruct (kind e).
  - right. unfold attempt in H. destruct (on_fill f b2) as [b4|] eqn:Ef; [|done]. injection H as <- <- <-.
    split; [done|]. by apply on_fill_other in Ef as (_ & _ & ? & _).
Qed.

Lemma orders_only_after_book_update_witness :
  exists a b' w', handle_message sample_env flat_exp (numbered (PFill sample_fill) 1) false 0 0 sample_bot sample_world
    = Some (a, b', w') /\ only_printed sample_world w' /\ _order_seq b' = 0.
Proof.
  assert (match handle_message sample_env flat_exp (numbered (PFill sample_fill) 1) false 0 0 sample_bot sample_world
          with Some _ => true | None => false end = true) as Hs by (by vm_compute).
  destruct (handle_message _ _ _ _ _ _ _ _) as [[[a b'] w']|] eqn:H; [|discriminate Hs].
  exists a, b', w'. split; [reflexivity|].
  destruct (orders_only_after_book_update _ _ _ _ _ _ _ _ _ _ _ H) as [(b2 & book & _ & Hr)|Hq]; [|exact Hq].
  discriminate Hr.
Defined.

(** ** Runs *)

(** How a session that cannot connect fails: the error, and the system calls of the
    attempt and of the destruction of its socket. *)
Definition failed_attempt (se : SessionEnv) : option (bytes * list SysCall) :=
  match tls_socket_connect kKalshiWsHost (se_resolved se) (se_ssl se) new_tcp_socket with
  | (Unexpected e, k, calls, _) => Some (e, calls ++ destroy k)
  | _ => None
  end.

(** A signer whose key signs everything. *)
Definition signs_all (s : Signer) : Prop := forall data, has_value (sign s data) = true.

(** The delay in seconds after failure number [i], from 0. *)
Definition delay (i : nat) : Z := Z.min (2 ^ Z.of_nat i) 60.

(** What a failure does after which the bot waits for [d] seconds: the system calls, one
    call to sleep per second, and the lines it prints. *)
Definition failure_calls (d : Z) (a : bytes * list SysCall) : list SysCall := snd a ++ replicate (Z.to_nat d) (SysSleep 1).
Definition failure_lines (d : Z) (a : bytes * list SysCall) : list (OutStream * bytes) :=
  [(Stderr, lit "[ws] connect failed: TLS connection failed " ++ fst a); (Stdout, lit "[ws] reconnecting in " ++ fmt_int d ++ lit "s")].

Lemma run_session_unreachable env signalled exp se e cs b w :
  failed_attempt se = Some (e, cs) -> signs_all (_signer b) ->
  exists w', run_session env signalled exp se b w = Some (false, b, w') /\ syscalls w' = syscalls w ++ cs /\
    console w' = console w ++ [(Stderr, lit "[ws] connect failed: TLS connection failed " ++ e)].
Proof.
  unfold failed_attempt. intros He Hsign. unfold run_session, bind, current_timestamp_ms, tick, get, WebSocket.connect, auth_headers.
  cbn [_tls_socket _tcp_socket new_web_socket]. set (data := fmt_int _ ++ _ ++ _). specialize (Hsign data).
  destruct (sign _ data) as [sg|]; [|done].
  destruct (tls_socket_connect _ _ _ _) as [[[[u|e'] k] calls] ss]; [done|]. injection He as -> <-.
  eexists. split; [done|]. cbn. by rewrite app_assoc.
Qed.

Lemma wait_seconds_running n b w : running b = true ->
  exists w', wait_seconds (fun _ => false) n b w = Some (tt, b, w') /\ syscalls w' = syscalls w ++ replicate n (SysSleep 1) /\
    console w' = console w.
Proof.
  intros Hr. revert w. induction n as [|n IH]; intros w; [exists w; by rewrite app_nil_r|].
  cbn [wait_seconds]. unfold bind at 1, is_running. rewrite Hr. cbn [negb andb]. unfold bind, sleep_for.
  destruct (IH (record_calls [SysSleep 1] (advance w))) as (w' & H1 & H2 & H3). exists w'. split; [done|]. split; [|done].
  rewrite H2. cbn [record_calls syscalls advance replicate]. by rewrite <- app_assoc.
Qed.

Lemma run_loop_unreachable env exp sessions attempts : Forall2 (fun se a => failed_attempt se = Some a) sessions attempts ->
  forall k b w, running b = true -> signs_all (_signer b) ->
  exists w', run_loop env (fun _ => false) exp sessions (delay k) b w = Some (tt, b, w') /\
    syscalls w' = syscalls w ++ concat (imap (fun i => failure_calls (delay (k + i))) attempts) /\
    console w' = console w ++ concat (imap (fun i => failure_lines (delay (k + i))) attempts).
Proof.
  induction 1 as [|se [e cs] sessions attempts Hse _ IH]; intros k b w Hr Hsign; [exists w; by rewrite !app_nil_r|].
  cbn [run_loop]. unfold bind at 1, is_running at 1. rewrite Hr. cbn [negb andb].
  destruct (run_session_unreachable env (fun _ => false) exp se e cs b w Hse Hsign) as (w1 & H1 & Hs1 & Hc1).
  unfold bind at 1. rewrite H1. unfold bind at 1, is_running at 1. rewrite Hr. cbn [negb andb]. unfold bind at 1.
  unfold println, print at 1. unfold bind at 1.
  destruct (wait_seconds_running (Z.to_nat (delay k)) b
    (print_line (Stdout, lit "[ws] reconnecting in " ++ fmt_int (delay k) ++ lit "s") w1) Hr) as (w2 & H2 & Hs2 & Hc2). rewrite H2.
  assert (next_backoff (delay k) = delay (S k)) as ->.
  { unfold next_backoff, kMaxReconnectBackoff, delay. rewrite Nat2Z.inj_succ, Z.pow_succ_r by lia. lia. }
  destruct (IH (S k) b w2 Hr Hsign) as (w3 & H3 & Hs3 & Hc3). exists w3. split; [exact H3|].
  rewrite !imap_cons. cbn [concat]. rewrite Nat.add_0_r.
  assert (forall {A} (f : Z -> bytes * list SysCall -> A),
    imap ((fun i => f (delay (k + i))) ∘ S) attempts = imap (fun i => f (delay (S k + i))) attempts) as Hshift.
  { intros A f. apply imap_ext. intros i x _. cbn. by rewrite Nat.add_succ_r. }
  rewrite (Hshift _ failure_calls), (Hshift _ failure_lines).
  split.
  - rewrite Hs3, Hs2. cbn [print_line syscalls]. rewrite Hs1. change (failure_calls (delay k) (e, cs)) with (cs ++ replicate (Z.to_nat (delay k)) (SysSleep 1)).
    by rewrite <- !app_assoc.
  - rewrite Hc3, Hc2. cbn [print_line console]. rewrite Hc1. by rewrite <- !app_assoc.
Qed.

Lemma http_connect_returns env c w : exists r c' w', HttpClient.connect env c w = Some (r, c', w').
Proof.
  unfold HttpClient.connect, usable, idle_connection_is_dead, open_connection, reset_tls, tls_connect, sys.
  unfold bind, get, modify, now, poll, tick, ret. cbv zeta. repeat case_match; simplify_eq; eauto.
Qed.

(** C32. The bot does not give up on an unreachable server: with a key that signs and
    while no signal arrives, a run over sessions whose connection fails tries every one
    of them and ends as it began apart from its HTTP client.  After the HTTP client's
    first connection, the system calls of the run are exactly those of each failing
    attempt followed by min(2^i, 60) sleeps of one second after failure number [i],
    and it prints the failure and the delay of each attempt and nothing else. *)
Theorem unreachable_server_backoff env exp sessions attempts b w :
  Forall2 (fun se a => failed_attempt se = Some a) sessions attempts -> running b = true -> signs_all (_signer b) ->
  exists r c w1 w', HttpClient.connect env (_http b) (print_line (Stdout, trading_line b) w) = Some (r, c, w1) /\
    run env (fun _ => false) exp sessions b w = Some (tt, set_http c b, w') /\
    syscalls w' = syscalls w1 ++ concat (imap (fun i => failure_calls (delay i)) attempts) /\
    console w' = console w1 ++
      (match r with Ok _ => [] | Unexpected e => [(Stderr, lit "[http] could not pre-open order connection: " ++ e)] end) ++
      concat (imap (fun i => failure_lines (delay i)) attempts).
Proof.
  intros Hs Hr Hsign. destruct (http_connect_returns env (_http b) (print_line (Stdout, trading_line b) w)) as (r & c & w1 & Hc).
  set (w2 := match r with Ok _ => w1 | Unexpected e => print_line (Stderr, lit "[http] could not pre-open order connection: " ++ e) w1 end).
  destruct (run_loop_unreachable env exp sessions attempts Hs 0 (set_http c b) w2 Hr Hsign) as (w' & H3 & Hs3 & Hc3).
  exists r, c, w1, w'. split; [done|]. split.
  { unfold run, bind, get, println, print, zoom. rewrite Hc. subst w2. destruct r; exact H3. }
  rewrite Hs3, Hc3. subst w2. split; [by destruct r|]. destruct r; cbn [print_line console]; by rewrite <- ?app_assoc.
Qed.

(** Eight failed name lookups: 1, 2, 4, 8, 16, 32, 60 and 60 seconds, one by one. *)
Lemma unreachable_server_backoff_witness :
  let se := {| se_incoming := []; se_write := fun _ => None; se_mask_keys := fun _ => None; se_raw_key := None;
               se_resolved := Unexpected (lit "no such host"); se_ssl := working_ssl; se_fuel := 0 |} in
  exists b' w1 w', run sample_env (fun _ => false) flat_exp (replicate 8 se) sample_bot sample_world = Some (tt, b', w') /\
    syscalls w' = syscalls w1 ++ replicate 183 (SysSleep 1).
Proof.
  intros se. destruct (unreachable_server_backoff sample_env flat_exp (replicate 8 se) (replicate 8 (lit "no such host", []))
    sample_bot sample_world) as (r & c & w1 & w' & _ & H & Hs & _).
  - repeat constructor.
  - reflexivity.
  - intros data. reflexivity.
  - exists (set_http c sample_bot), w1, w'. split; [exact H|]. rewrite Hs. reflexivity.
Defined.

(** ** The fuel of a session *)

(** The bytes a socket still has to hand out. *)
Fixpoint pending (inc : incoming) : nat :=
  match inc with
  | [] => 0
  | Ok chunk :: inc => length chunk + pending inc
  | Unexpected _ :: inc => pending inc
  end.

Definition bytes_left (ws : WebSocket) : nat :=
  (length (WebSocket._buffer ws) + pending (to_receive (_tls_socket ws)))%nat.

Lemma receive_loop_consumes inc buffer f b' inc' :
  receive_frame_loop buffer inc = Some (Ok f, b', inc') ->
  (length b' + pending inc' < length buffer + pending inc)%nat.
Proof.
  revert buffer. induction inc as [|[c|e] inc IH]; intros buffer H; cbn [receive_frame_loop] in H;
    (destruct (frame_parser buffer) as [r|e'] eqn:Ep;
     [injection H as <- <- <-; apply frame_parser_sound in Ep as (_ & Hn & l7 & ext & _ & Henc);
      assert (length (take (bytes_consumed r) buffer) <> 0%nat) as Hpos by (by rewrite Henc);
      rewrite length_take in Hpos; rewrite length_drop; lia|]);
    destruct (pe_kind e'); try done.
  apply IH in H. rewrite length_app in H. cbn [pending]. lia.
Qed.

Lemma receive_frame_consumes ws f ws' : receive_frame ws = Some (Ok f, ws') -> (bytes_left ws' < bytes_left ws)%nat.
Proof.
  unfold receive_frame, bytes_left. destruct (receive_frame_loop _ _) as [[[r b] i]|] eqn:E; [|done].
  intros [= -> <-]. by apply receive_loop_consumes in E.
Qed.

Lemma send_pong_bytes_left ws f : bytes_left (snd (send_pong ws f)) = bytes_left ws.
Proof. unfold send_pong, send_frame, draw_key, send_data. by destruct (frame_builder _ _). Qed.

Lemma session_step_bytes env signalled exp s r b w go s' b' w' :
  session_step env signalled exp s r b w = Some ((go, s'), b', w') ->
  bytes_left (s_ws s') = bytes_left (s_ws s) /\ (go = true -> has_value r = true).
Proof.
  intros H. apply session_step_socket in H as [[->|[f ->]] Hv]; [done|]. by rewrite send_pong_bytes_left.
Qed.

Lemma session_loop_fuel env signalled exp fuel : forall fuel' s b w,
  (bytes_left (s_ws s) < fuel)%nat -> (bytes_left (s_ws s) < fuel')%nat ->
  session_loop env signalled exp fuel s b w = session_loop env signalled exp fuel' s b w.
Proof.
  induction fuel as [|fuel IH]; intros [|fuel'] s b w H1 H2; [lia..|]. cbn [session_loop].
  unfold bind at 1 3. destruct (is_running signalled b w) as [[[go b1] w1]|]; [|done].
  destruct go; cbn [negb]; [|done]. destruct (receive_frame (s_ws s)) as [[r ws']|] eqn:Er; [|done].
  unfold bind. destruct (session_step env signalled exp _ r b1 w1) as [[[[go s2] b2] w2]|] eqn:Es; [|done].
  destruct go; [|done]. apply session_step_bytes in Es as [Hb Hv]. specialize (Hv eq_refl).
  destruct r as [f|]; [|done]. apply receive_frame_consumes in Er. cbn [s_ws] in Hb. apply IH; lia.
Qed.

(** C33. A session is never cut short by the fuel of the model: with more fuel than
    the socket has bytes to hand out, the loop's result does not depend on it, so the
    only way for it not to return is to wait for the network. *)
Theorem session_fuel_enough env signalled exp s b w fuel :
  (bytes_left (s_ws s) < fuel)%nat ->
  session_loop env signalled exp fuel s b w = session_loop env signalled exp (S (bytes_left (s_ws s))) s b w.
Proof. intros H. apply session_loop_fuel; lia. Qed.

Lemma session_fuel_enough_witness :
  let s := {| s_ws := {| _tls_socket := tls_with [Ok (map zb [136; 0])]; WebSocket._buffer := [] |};
              received_data := true; last_status := 0 |} in
  session_loop sample_env (fun _ => false) flat_exp 100 s sample_bot sample_world =
  session_loop sample_env (fun _ => false) flat_exp 3 s sample_bot sample_world.
Proof. intros s. apply (session_fuel_enough sample_env (fun _ => false) flat_exp s sample_bot sample_world 100). vm_compute. lia. Defined.

(** ** Descriptors *)

(** No descriptor leaks in a run: whatever connects or fails to, in every session
    and request, the only descriptor that a run leaves open in addition to those it
    started with is that of the HTTP client's connection, if it has one. *)
Theorem run_no_descriptor_leak env signalled exp sessions tk signer config w b' w' :
  run env signalled exp sessions (new_bot tk signer config) w = Some (tt, b', w') ->
  fds w' ≡ₚ client_fds (_http b') ++ fds w.
Proof. intros H. by apply (respects_run env signalled exp same_descriptors _ _ _ _ _ _ H (fds w)). Qed.

Lemma run_no_descriptor_leak_witness :
  exists b' w', run sample_env (fun _ => false) flat_exp [sample_session] sample_bot sample_world
    = Some (tt, b', w') /\ fds w' ≡ₚ client_fds (_http b') ++ fds sample_world /\ fds w' = [11].
Proof.
  pose proof sample_run as H.
  destruct (run _ _ _ _ _ _) as [[[[] b'] w']|] eqn:E in H; [|discriminate H].
  exists b', w'. split; [exact E|]. split; [exact (run_no_descriptor_leak _ _ _ _ _ _ _ _ _ _ E)|]. by injection H.
Defined.
