(* ===== verification/SessionStream.v ===== *)
(** * SessionStream: a session as a function of the byte stream

    TCP delivers a stream of bytes; how it is cut into reads is not determined by the
    peer.  This file proves that after the handshake, whose response the code takes
    from one read, a session depends on the stream only: two environments with the same
    first read whose further reads carry the same bytes are indistinguishable, by a
    relation between computations that is built bind by bind.  It also relates the
    books at the end of a session and of a run to the frames of the stream. *)

From stdpp Require Import gmap.
From S2P Require Import Prelude Double CharConv JsonLexer MessageTypes MarketState KalshiDecoder Stream Sockets World Frame WebSocket KalshiAuth Trackers Strategy TradingBot BotFacts BotRun.

(** ** Sockets with the same stream *)

(** What a WebSocket will yield and do: the bytes it holds or will receive, the
    failures after them, and the sending side. *)
Definition view (ws : WebSocket) :=
  let t := _tls_socket ws in
  (unread (_buffer ws) (to_receive t), (write_result t, random_key t, written t, keys_drawn t, _tcp_socket t)).

Definition same_socket (ws1 ws2 : WebSocket) : Prop := view ws1 = view ws2.

#[export] Instance same_socket_equivalence : Equivalence same_socket.
Proof. split; unfold same_socket; [by intros ?|by intros ???|by intros ? ? ? ->]. Qed.

(** [receive_frame] is the reader of the stream. *)
Lemma receive_frame_view ws :
  (fun '(r, ws) => (r, view ws)) <$> receive_frame ws
  = (fun '(r, p) => (r, (p, snd (view ws)))) <$> read_stream frame_step (fst (view ws)).
Proof.
  cbn [view fst snd]. rewrite <- (read_one_stream frame_step), <- receive_frame_read_one. unfold receive_frame.
  by destruct (receive_frame_loop _ _) as [[[r b] i]|].
Qed.

#[export] Instance receive_frame_Proper :
  Proper (same_socket ==> option_Forall2 (prod_relation eq same_socket)) receive_frame.
Proof.
  intros ws1 ws2 H. pose proof (receive_frame_view ws1) as H1. pose proof (receive_frame_view ws2) as H2.
  unfold same_socket in *. rewrite H, <- H2 in H1.
  destruct (receive_frame ws1) as [[r1 w1]|], (receive_frame ws2) as [[r2 w2]|]; cbn in H1; try done; constructor.
  assert ((r1, view w1) = (r2, view w2)) as Hp by congruence.
  split; cbn; [exact (f_equal fst Hp)|exact (f_equal snd Hp)].
Qed.

Lemma same_socket_fields ws1 ws2 :
  same_socket ws1 ws2 ->
  write_result (_tls_socket ws1) = write_result (_tls_socket ws2) /\ random_key (_tls_socket ws1) = random_key (_tls_socket ws2) /\
  written (_tls_socket ws1) = written (_tls_socket ws2) /\ keys_drawn (_tls_socket ws1) = keys_drawn (_tls_socket ws2) /\
  tcp_of ws1 = tcp_of ws2 /\
  unread (_buffer ws1) (to_receive (_tls_socket ws1)) = unread (_buffer ws2) (to_receive (_tls_socket ws2)).
Proof.
  unfold same_socket. intros H. split; [exact (f_equal (fun v => v.2.1.1.1.1) H)|]. split; [exact (f_equal (fun v => v.2.1.1.1.2) H)|].
  split; [exact (f_equal (fun v => v.2.1.1.2) H)|]. split; [exact (f_equal (fun v => v.2.1.2) H)|].
  split; [exact (f_equal (fun v => v.2.2) H)|exact (f_equal fst H)].
Qed.

#[export] Instance send_frame_Proper :
  Proper (same_socket ==> eq ==> prod_relation eq same_socket) send_frame.
Proof.
  intros ws1 ws2 H f _ <-. apply same_socket_fields in H as (Hw & Hk & Hl & Hn & Ht & Hp). unfold tcp_of in Ht.
  unfold send_frame, draw_key, send_data. cbn [to_receive write_result random_key written keys_drawn _tcp_socket].
  rewrite Hw, Hk, Hl, Hn. destruct (frame_builder _ f); split; cbn; try done.
  all: unfold same_socket, view; cbn; by rewrite ?Hw, ?Hk, ?Hl, ?Hn, Ht, Hp.
Qed.

(** ** Computations with the same effect *)

(** On every state and world both wait, or both return with the same state and world
    and related results. *)
Definition same_effect {A B} (R : A -> B -> Prop) (m1 : M Bot A) (m2 : M Bot B) : Prop :=
  forall b w,
    match m1 b w, m2 b w with
    | Some (a1, b1, w1), Some (a2, b2, w2) => R a1 a2 /\ b1 = b2 /\ w1 = w2
    | None, None => True
    | _, _ => False
    end.

Lemma same_effect_bind {A B A' B'} (R : A -> B -> Prop) (R' : A' -> B' -> Prop) m1 m2 k1 k2 :
  same_effect R m1 m2 -> (forall a1 a2, R a1 a2 -> same_effect R' (k1 a1) (k2 a2)) ->
  same_effect R' (bind m1 k1) (bind m2 k2).
Proof.
  intros Hm Hk b w. specialize (Hm b w). unfold bind.
  destruct (m1 b w) as [[[a1 b1] w1]|], (m2 b w) as [[[a2 b2] w2]|]; try done.
  destruct Hm as (Ha & <- & <-). by apply Hk.
Qed.

Lemma same_effect_refl {A} (m : M Bot A) : same_effect eq m m.
Proof. intros b w. by destruct (m b w) as [[[a b1] w1]|]. Qed.

Lemma same_effect_ret {A B} (R : A -> B -> Prop) a1 a2 : R a1 a2 -> same_effect R (ret a1) (ret a2).
Proof. by intros H b w. Qed.

Lemma same_effect_stuck {A B} (R : A -> B -> Prop) : same_effect R (fun _ _ => None) (fun _ _ => None).
Proof. by intros b w. Qed.

(** The first part of two computations is the same. *)
Lemma same_effect_after {A B B'} (R : B -> B' -> Prop) (m : M Bot A) k1 k2 :
  (forall a, same_effect R (k1 a) (k2 a)) -> same_effect R (bind m k1) (bind m k2).
Proof. intros H. apply (same_effect_bind eq); [apply same_effect_refl|]. by intros a _ <-. Qed.

Lemma same_effect_eq {A} (m1 m2 : M Bot A) b w : same_effect eq m1 m2 -> m1 b w = m2 b w.
Proof.
  intros H. specialize (H b w). destruct (m1 b w) as [[[a1 b1] w1]|], (m2 b w) as [[[a2 b2] w2]|]; try done.
  by destruct H as (-> & -> & ->).
Qed.

Create HintDb effects.
#[export] Hint Resolve same_effect_refl same_effect_ret same_effect_stuck : effects.

(** ** Sessions *)

(** The variables of two sessions over the same stream. *)
Definition same_session (s1 s2 : Session) : Prop :=
  same_socket (s_ws s1) (s_ws s2) /\ received_data s1 = received_data s2 /\ last_status s1 = last_status s2.

Definition same_round : bool * Session -> bool * Session -> Prop := prod_relation eq same_session.

Section Sessions.
Context (env : NetEnv) (signalled : nat -> bool) (exp : double -> double).

Lemma same_housekeeping s1 s2 : same_session s1 s2 -> same_effect same_round (housekeeping env s1) (housekeeping env s2).
Proof.
  intros Hs. destruct Hs as (Hw & Hr & Hl). unfold housekeeping. rewrite Hl. do 2 (apply same_effect_after; intros ?).
  case_match; [apply same_effect_after; intros ?|]; auto with effects.
  all: apply same_effect_ret; split; [done|]; by rewrite ?Hr.
Qed.

Lemma same_step s1 s2 r :
  same_session s1 s2 -> same_effect same_round (session_step env signalled exp s1 r) (session_step env signalled exp s2 r).
Proof.
  intros Hs. pose proof Hs as (Hw & Hr & Hl). unfold session_step. apply same_effect_after. intros t_rx.
  destruct r as [f|e].
  2: { do 2 (apply same_effect_after; intros ?). by apply same_effect_ret. }
  destruct (op_code f); try by apply same_housekeeping.
  - destruct (decode_kalshi_message (payload f)) as [m|e]; [|apply same_effect_after; intros ?; by apply same_effect_ret].
    rewrite Hr. do 3 (apply same_effect_after; intros ?). destruct a1 as [go received].
    destruct go; [by apply same_housekeeping|by apply same_effect_ret].
  - apply same_effect_after; intros ?. by apply same_effect_ret.
  - pose proof (send_frame_Proper _ _ Hw {| fin_bit := true; op_code := Pong; mask_key := None; payload := payload f |} _ eq_refl) as Hp.
    unfold send_pong. destruct (send_frame (s_ws s1) _) as [p1 w1], (send_frame (s_ws s2) _) as [p2 w2].
    destruct Hp as [Hp1 Hp2]. cbn in Hp1, Hp2. rewrite Hp1. apply same_effect_after. intros _. by apply same_housekeeping.
Qed.

Lemma same_loop fuel : forall s1 s2, same_session s1 s2 ->
  same_effect same_session (session_loop env signalled exp fuel s1) (session_loop env signalled exp fuel s2).
Proof.
  induction fuel as [|fuel IH]; intros s1 s2 Hs; cbn [session_loop]; [auto with effects|].
  pose proof Hs as (Hw & Hr & Hl). apply same_effect_after. intros [|]; cbn [negb]; [|by apply same_effect_ret].
  destruct (receive_frame_Proper _ _ Hw) as [[r1 w1] [r2 w2] [Hrr Hww]|]; [|auto with effects].
  cbn in Hrr, Hww. subst r2. apply (same_effect_bind same_round); [by apply same_step|].
  intros [g1 s1'] [g2 s2'] [Hg Hs']. cbn in Hg, Hs'. subst g2. destruct g1; [by apply IH|by apply same_effect_ret].
Qed.

Lemma same_stream_session se ws1 ws2 :
  same_socket ws1 ws2 ->
  same_effect (prod_relation eq same_socket) (stream_session env signalled exp se ws1) (stream_session env signalled exp se ws2).
Proof.
  intros Hw. unfold stream_session. apply same_effect_after. intros b.
  pose proof (send_frame_Proper _ _ Hw {| fin_bit := true; op_code := Text; mask_key := None; payload := subscribe_msg (_ticker b) |} _ eq_refl) as Hp.
  unfold send_text. destruct (send_frame ws1 _) as [p1 w1], (send_frame ws2 _) as [p2 w2].
  destruct Hp as [Hp1 Hp2]. cbn in Hp1, Hp2. rewrite Hp1.
  destruct p2 as [u|e]; [|apply same_effect_after; intros ?; by apply same_effect_ret].
  do 4 (apply same_effect_after; intros ?).
  apply (same_effect_bind same_session); [by apply same_loop|].
  intros s1 s2 (H1 & H2 & H3). by apply same_effect_ret.
Qed.

(** ** Runs *)

(** What of a session's environment can matter: everything but how the bytes after the
    first read, which the code takes as the handshake's response, are cut into reads. *)
Definition wire (se : SessionEnv) :=
  (head (se_incoming se), stream_of (tail (se_incoming se)),
   (se_write se, se_mask_keys se, se_raw_key se, se_resolved se, se_ssl se, se_fuel se)).

Definition same_wire (se1 se2 : SessionEnv) : Prop := wire se1 = wire se2.

#[export] Instance same_wire_equivalence : Equivalence same_wire.
Proof. split; unfold same_wire; [by intros ?|by intros ???|by intros ? ? ? ->]. Qed.

(** The handshake ends the same way, and after a successful one the streams agree. *)
Lemma same_connect se1 se2 host auth resolved ssl key :
  same_wire se1 se2 ->
  match WebSocket.connect (new_web_socket se1) host auth resolved ssl key, WebSocket.connect (new_web_socket se2) host auth resolved ssl key with
  | Some (r1, ws1, calls1), Some (r2, ws2, calls2) =>
    r1 = r2 /\ calls1 = calls2 /\ tcp_of ws1 = tcp_of ws2 /\ (r1 = Ok tt -> same_socket ws1 ws2)
  | None, None => True
  | _, _ => False
  end.
Proof.
  destruct se1 as [inc1 wr1 mk1 rk1 rs1 sl1 fu1], se2 as [inc2 wr2 mk2 rk2 rs2 sl2 fu2]. unfold same_wire, wire.
  cbn [se_incoming se_write se_mask_keys se_raw_key se_resolved se_ssl se_fuel]. intros H.
  assert (head inc1 = head inc2) as Hh by exact (f_equal (fun v => v.1.1) H).
  assert (stream_of (tail inc1) = stream_of (tail inc2)) as Ht by exact (f_equal (fun v => v.1.2) H).
  assert (wr1 = wr2) as -> by exact (f_equal (fun v => v.2.1.1.1.1.1) H).
  assert (mk1 = mk2) as -> by exact (f_equal (fun v => v.2.1.1.1.1.2) H). clear H.
  unfold WebSocket.connect, new_web_socket, send_data. cbn [_tls_socket _tcp_socket se_write se_mask_keys se_incoming].
  destruct auth as [auth|e]; [|done]. destruct (tls_socket_connect _ _ _ _) as [[[[u|e] k] calls] ssl_calls]; [|done].
  destruct key as [key|e]; [|done]. cbn [set_tcp write_result written to_receive].
  destruct (wr2 _); [done|]. destruct inc1 as [|[r1|e1] inc1], inc2 as [|[r2|e2] inc2]; try done; injection Hh as <-; [|done].
  cbn [tail] in Ht. destruct (starts_with _ _); [|done]. split; [done|]. split; [done|]. split; [done|].
  intros _. unfold same_socket, view, unread. cbn. by rewrite Ht.
Qed.

Lemma same_run_session se1 se2 :
  same_wire se1 se2 -> same_effect eq (run_session env signalled exp se1) (run_session env signalled exp se2).
Proof.
  intros Hse. unfold run_session. apply same_effect_after. intros ts. apply same_effect_after. intros b.
  assert (se_raw_key se1 = se_raw_key se2) as -> by exact (f_equal (fun v => v.2.1.1.1.2) Hse).
  assert (se_resolved se1 = se_resolved se2) as -> by exact (f_equal (fun v => v.2.1.1.2) Hse).
  assert (se_ssl se1 = se_ssl se2) as -> by exact (f_equal (fun v => v.2.1.2) Hse).
  set (auth := auth_headers _ _ _ _). set (key := generate_websocket_key _ _).
  pose proof (same_connect se1 se2 kKalshiWsHost auth (se_resolved se2) (se_ssl se2) key Hse) as H.
  destruct (WebSocket.connect (new_web_socket se1) _ _ _ _ _) as [[[r1 ws1] calls1]|],
    (WebSocket.connect (new_web_socket se2) _ _ _ _ _) as [[[r2 ws2] calls2]|]; [|done|done|auto with effects].
  destruct H as (<- & <- & Ht & Hs). apply same_effect_after. intros _.
  apply (same_effect_bind (fun x y => x.1 = y.1 /\ tcp_of x.2 = tcp_of y.2)).
  - destruct r1 as [[]|e]; [|apply same_effect_after; intros ?; by apply same_effect_ret].
    intros b1 w1. specialize (same_stream_session se1 ws1 ws2 (Hs eq_refl) b1 w1).
    assert (stream_session env signalled exp se2 ws2 = stream_session env signalled exp se1 ws2) as ->.
    { unfold stream_session. by rewrite (f_equal (fun v => v.2.2) Hse : se_fuel se1 = se_fuel se2). }
    destruct (stream_session _ _ _ se1 ws1 b1 w1) as [[[[] ?] ?]|], (stream_session _ _ _ se1 ws2 b1 w1) as [[[[] ?] ?]|]; try done.
    intros ([Hr Hw] & -> & ->). by apply same_socket_fields in Hw as (_ & _ & _ & _ & ? & _).
  - intros [rc1 x1] [rc2 x2] [Hr Hx]. cbn in Hr, Hx. subst rc2. unfold destroy_web_socket. fold (tcp_of x1) (tcp_of x2).
    rewrite Hx. apply same_effect_refl.
Qed.

Lemma same_run_loop l1 l2 : Forall2 same_wire l1 l2 ->
  forall backoff, same_effect eq (run_loop env signalled exp l1 backoff) (run_loop env signalled exp l2 backoff).
Proof.
  induction 1 as [|se1 se2 l1 l2 Hse _ IH]; intros backoff; cbn [run_loop]; [auto with effects|].
  apply same_effect_after. intros [|]; cbn [negb]; [|auto with effects].
  apply (same_effect_bind eq); [by apply same_run_session|]. intros rc _ <-.
  apply same_effect_after. intros [|]; cbn [negb]; [|auto with effects].
  do 2 (apply same_effect_after; intros _). apply IH.
Qed.

Lemma same_run l1 l2 : Forall2 same_wire l1 l2 -> same_effect eq (run env signalled exp l1) (run env signalled exp l2).
Proof. intros H. unfold run. do 4 (apply same_effect_after; intros ?). by apply same_run_loop. Qed.
End Sessions.

(** ** Books from the stream *)

(** The book messages of a decoded message and of a frame. *)
Definition message_events (m : Message) : list BookEvent :=
  match msg m with PSnapshot s => [EvSnapshot s] | PDelta d => [EvDelta d] | _ => [] end.

Definition frame_events (f : WebSocketFrame) : list BookEvent :=
  match op_code f with
  | Text => match decode_kalshi_message (payload f) with Ok m => message_events m | Unexpected _ => [] end
  | _ => []
  end.

(** A snapshot that the book took, which is what makes a session count as a success. *)
Definition taken_snapshot (x : BookEvent * expected BookError unit) : bool :=
  match x.1 with EvSnapshot _ => has_value x.2 | EvDelta _ => false end.

(** What the messages [evs] do to the book and to [received_data], and whether the
    session can go on. *)
Definition books (evs : list BookEvent) (k : MarketState) (rc : bool) (k' : MarketState) (rc' go : bool) : Prop :=
  exists rs, run_book k evs = Some (rs, k') /\ rc' = rc || existsb taken_snapshot (combine evs rs) /\ go = forallb has_value rs.

Lemma books_nil k rc : books [] k rc k rc true.
Proof. exists []. by rewrite orb_false_r. Qed.

Lemma run_book_app evs1 evs2 k rs1 k1 rs2 k2 :
  run_book k evs1 = Some (rs1, k1) -> run_book k1 evs2 = Some (rs2, k2) -> run_book k (evs1 ++ evs2) = Some (rs1 ++ rs2, k2).
Proof.
  revert k rs1. induction evs1 as [|ev evs1 IH]; intros k rs1 H1 H2; cbn [app run_book] in *; [by injection H1 as <- ->|].
  destruct (book_event k ev) as [[r k0]|]; [|done]. destruct (run_book k0 evs1) as [[rs k3]|] eqn:E; [|done].
  injection H1 as <- <-. by rewrite (IH _ _ E H2).
Qed.

Lemma run_book_length evs k rs k' : run_book k evs = Some (rs, k') -> length rs = length evs.
Proof.
  revert k rs. induction evs as [|ev evs IH]; intros k rs; cbn [run_book]; [by intros [= <- _]|].
  destruct (book_event k ev) as [[r k0]|]; [|done]. destruct (run_book k0 evs) as [[rs1 k1]|] eqn:E; [|done].
  intros [= <- <-]. cbn. by rewrite (IH _ _ E).
Qed.

Lemma combine_app {A B} (l1 l2 : list A) (r1 r2 : list B) :
  length r1 = length l1 -> combine (l1 ++ l2) (r1 ++ r2) = combine l1 r1 ++ combine l2 r2.
Proof. revert r1. induction l1 as [|x l1 IH]; intros [|y r1] H; cbn in *; try done. by rewrite IH by congruence. Qed.

Lemma books_app evs1 evs2 k rc k1 rc1 k2 rc2 go :
  books evs1 k rc k1 rc1 true -> books evs2 k1 rc1 k2 rc2 go -> books (evs1 ++ evs2) k rc k2 rc2 go.
Proof.
  intros (rs1 & H1 & -> & Hg1) (rs2 & H2 & -> & ->). exists (rs1 ++ rs2). split; [by eapply run_book_app|].
  rewrite combine_app by (by eapply run_book_length). rewrite existsb_app, orb_assoc, forallb_app, <- Hg1. done.
Qed.

(** The book [k] becomes [k'] by the messages of some first frames of [data], in
    order, each encoded as RFC 6455 says. *)
Definition books_stream (data : bytes) (k : MarketState) (rc : bool) (k' : MarketState) (rc' : bool) : Prop :=
  exists fs es rest go, Forall2 (fun f e => frame_ok f /\ encodes f e) fs es /\ data = concat es ++ rest /\
    books (flat_map frame_events fs) k rc k' rc' go.

Lemma books_stream_nil data k rc : books_stream data k rc k rc.
Proof. exists [], [], data, true. split; [constructor|]. split; [done|]. apply books_nil. Qed.

Lemma books_stream_last f e data k rc k' rc' go :
  frame_ok f -> encodes f e -> books (frame_events f) k rc k' rc' go -> books_stream (e ++ data) k rc k' rc'.
Proof.
  intros Hok He Hb. exists [f], [e], data, go. split; [constructor; [done|constructor]|]. cbn. by rewrite !app_nil_r.
Qed.

Lemma books_stream_cons f e data k rc k1 rc1 k' rc' :
  frame_ok f -> encodes f e -> books (frame_events f) k rc k1 rc1 true -> books_stream data k1 rc1 k' rc' ->
  books_stream (e ++ data) k rc k' rc'.
Proof.
  intros Hok He Hb (fs & es & rest & go & H & -> & Hbs). exists (f :: fs), (e :: es), rest, go.
  split; [by constructor|]. cbn [concat flat_map]. rewrite app_assoc. split; [done|]. by eapply books_app.
Qed.

Section Books.
Context (env : NetEnv) (signalled : nat -> bool) (exp : double -> double).

Lemma after_book_book received r k t1 t2 b w go rc b' w' :
  after_book env exp received r k t1 t2 b w = Some ((go, rc), b', w') -> _book b' = k /\ rc = received /\ go = has_value r.
Proof.
  unfold after_book. intros H. run_one H. destruct r as [u|e].
  - apply bind_Some in H as (? & ? & ? & H1 & H). injection H as <- <- <- _. by apply keeps_trade in H1.
  - do 2 run_one H. injection H as <- <- <- _. unfold on_book_error. by destruct (kind e).
Qed.

Lemma handle_books m rc t1 t2 b w go rc' b' w' :
  handle_message env exp m rc t1 t2 b w = Some ((go, rc'), b', w') ->
  books (message_events m) (_book b) rc (_book b') rc' go \/ (go = false /\ b' = b /\ rc' = rc).
Proof.
  unfold handle_message. intros H. run_one H. destruct (check_sequence m b) as [b2|] eqn:Ec.
  2: { run_one H. injection H as <- <- <- _. by right. }
  apply check_sequence_book in Ec. rewrite <- Ec. run_one H. left. unfold message_events. destruct (msg m) as [|s|d|f].
  - injection H as <- <- <- _. apply books_nil.
  - destruct (apply_snapshot (_book b2) s) as [r k] eqn:Es. apply after_book_book in H as (-> & -> & ->).
    exists [r]. cbn. by rewrite Es, orb_false_r, andb_true_r.
  - destruct (apply_delta (_book b2) d) as [[r k]|] eqn:Es; [|done]. apply after_book_book in H as (-> & -> & ->).
    exists [r]. cbn. by rewrite Es, orb_false_r, andb_true_r.
  - pose proof (handle_fill_inv _ _ _ _ _ _ _ H) as (b4 & Ef & -> & _). apply on_fill_other in Ef as (_ & -> & _).
    apply bind_Some in H as (? & ? & ? & _ & H). do 2 run_one H. injection H as <- <- _ _. apply books_nil.
Qed.

Lemma keeps_housekeeping s : keeps _book (housekeeping env s).
Proof.
  unfold housekeeping, keep_http_warm, print_status, println, eprintln, now.
  repeat (first [simple apply keeps_bind; [|intros ?] | case_match]); auto with keeps.
Qed.

Lemma keeps_wait n : keeps _book (wait_seconds signalled n).
Proof.
  induction n as [|n IH]; cbn [wait_seconds]; [auto with keeps|]. apply keeps_bind; [by intros b w a b' w' [= _ <- _]|]. intros [|]; [|auto with keeps].
  apply keeps_bind; [by intros b w a b' w' [= _ <- _]|done].
Qed.

(** A round that has a frame: its messages are in the book, or the sequence check
    refused it and the session ends. *)
Lemma step_books s f b w go s' b' w' :
  session_step env signalled exp s (Ok f) b w = Some ((go, s'), b', w') ->
  (exists g, books (frame_events f) (_book b) (received_data s) (_book b') (received_data s') g /\ (go = true -> g = true)) \/
  (go = false /\ _book b' = _book b /\ received_data s' = received_data s).
Proof.
  unfold session_step, frame_events. intros H. run_one H.
  assert (forall s1 b1 w1, housekeeping env s1 b1 w1 = Some ((go, s'), b', w') -> _book b' = _book b1 /\ received_data s' = received_data s1) as Hk.
  { intros s1 b1 w1 H1. split; [by eapply keeps_housekeeping|]. by apply housekeeping_vars in H1 as (_ & _ & ?). }
  destruct (op_code f); try (apply Hk in H as [-> ->]; left; exists true; split; [apply books_nil|done]).
  - destruct (decode_kalshi_message (payload f)) as [m|e].
    2: { run_one H. injection H as <- <- <- _. left. exists true. split; [apply books_nil|done]. }
    do 2 run_one H. apply bind_Some in H as ([g rc] & b1 & w1 & H1 & H).
    assert (_book b' = _book b1 /\ received_data s' = rc /\ (go = true -> g = true)) as (-> & -> & Hg).
    { destruct g; [apply Hk in H as [-> ->]; done|]. by injection H as <- <- <- _. }
    apply handle_books in H1 as [H1|(-> & -> & ->)]; [left; by exists g|right].
    split; [|done]. destruct go; [by specialize (Hg eq_refl)|done].
  - run_one H. injection H as <- <- <- _. left. exists true. split; [apply books_nil|done].
  - destruct (send_pong (s_ws s) f) as [pong ws]. apply bind_Some in H as (? & b1 & w1 & H1 & H). apply Hk in H as [-> ->].
    left. exists true. split; [|done].
    assert (b1 = b) as -> by (by destruct pong; injection H1 as _ <- _). apply books_nil.
Qed.

Lemma receive_frame_stream ws f ws' :
  receive_frame ws = Some (Ok f, ws') ->
  exists e, frame_ok f /\ encodes f e /\ fst (fst (view ws)) = e ++ fst (fst (view ws')).
Proof.
  intros H. pose proof (receive_frame_view ws) as Hv. rewrite H in Hv. cbn [fmap option_fmap option_map] in Hv.
  destruct (view ws) as [[data rest] sending] eqn:Ev. cbn [fst snd read_stream] in *. unfold frame_step in Hv.
  destruct (frame_parser data) as [r|e] eqn:Ep.
  - apply frame_parser_sound in Ep as (Hok & Hle & Henc). 
    assert (f = frame r) as -> by exact (f_equal (fun v => match v with Some (Ok g, _) => g | _ => f end) Hv).
    assert (fst (fst (view ws')) = drop (bytes_consumed r) data) as Hv1
      by exact (f_equal (fun v => match v with Some (_, ((d, _), _)) => d | None => [] end) Hv).
    exists (take (bytes_consumed r) data). split; [done|]. split; [done|]. by rewrite Hv1, take_drop.
  - destruct (pe_kind e); [|done]. destruct rest as [|[c|e2] rest]; done.
Qed.

Lemma send_pong_view ws f : fst (view (snd (send_pong ws f))) = fst (view ws).
Proof. unfold send_pong, send_frame, draw_key, send_data. by destruct (frame_builder _ _). Qed.

Lemma loop_books fuel : forall s b w s' b' w',
  session_loop env signalled exp fuel s b w = Some (s', b', w') ->
  books_stream (fst (fst (view (s_ws s)))) (_book b) (received_data s) (_book b') (received_data s').
Proof.
  induction fuel as [|fuel IH]; intros s b w s' b' w' H; cbn [session_loop] in H; [done|].
  run_one H. destruct (_ && _) in H; cbn [negb] in H; [|injection H as <- <- _; apply books_stream_nil].
  destruct (receive_frame (s_ws s)) as [[[f|err] ws]|] eqn:Er; [| |done].
  2: { apply bind_Some in H as ([go s2] & b2 & w2 & Hstep & H). unfold session_step in Hstep.
       do 2 run_one Hstep. destruct (_ && _) in Hstep; run_one Hstep; injection Hstep as <- <- <- <-; injection H as <- <- _.
       all: apply books_stream_nil. }
  apply receive_frame_stream in Er as (e & Hok & He & ->).
  apply bind_Some in H as ([go s2] & b2 & w2 & Hstep & H).
  assert (fst (view ws) = fst (view (s_ws s2))) as ->.
  { apply session_step_socket in Hstep as [[->|[f' ->]] _]; [done|]. by rewrite send_pong_view. }
  apply step_books in Hstep as [(g & Hb & Hg)|(-> & Hb & Hr)]; cbn [received_data] in *.
  - destruct go; [rewrite (Hg eq_refl) in Hb; apply IH in H; by eapply books_stream_cons|].
    injection H as <- <- _. by eapply books_stream_last.
  - injection H as <- <- _. rewrite Hb, Hr. apply books_stream_nil.
Qed.

(** The bytes a session's environment sends after the handshake's response. *)
Definition session_data (se : SessionEnv) : bytes := fst (stream_of (tail (se_incoming se))).

Lemma connect_view se host auth resolved ssl key ws calls :
  WebSocket.connect (new_web_socket se) host auth resolved ssl key = Some (Ok tt, ws, calls) ->
  fst (fst (view ws)) = session_data se.
Proof.
  unfold WebSocket.connect, new_web_socket, send_data. cbn [_tls_socket _tcp_socket].
  destruct auth as [auth|e]; [|done]. destruct (tls_socket_connect _ _ _ _) as [[[[u|e] k] cs] ssl_calls]; [|done].
  destruct key as [key|e]; [|done]. cbn [set_tcp write_result written to_receive].
  unfold session_data. destruct (se_write se _); [done|]. destruct (se_incoming se) as [|[r1|e1] inc]; try done.
  destruct (starts_with _ _); [|done]. by intros [= <- _].
Qed.

Lemma session_books se b w rc b' w' :
  run_session env signalled exp se b w = Some (rc, b', w') ->
  books_stream (session_data se) new_market_state false (_book b') rc \/ (rc = false /\ _book b' = _book b).
Proof.
  unfold run_session. intros H. do 2 run_one H.
  destruct (WebSocket.connect _ _ _ _ _ _) as [[[[[]|e] ws] calls]|] eqn:Ec; [| |done].
  2: { run_one H. apply bind_Some in H as ([rc2 ws2] & b2 & w2 & H1 & H). run_one H1. injection H1 as <- <- <- <-.
       run_one H. injection H as <- <- _. by right. }
  apply connect_view in Ec as <-. run_one H. apply bind_Some in H as ([rc2 ws2] & b2 & w2 & H1 & H).
  run_one H. injection H as <- <- _. unfold stream_session in H1. run_one H1.
  destruct (send_text ws _) as [[u|e] ws1] eqn:Es.
  2: { run_one H1. injection H1 as <- _ <- _. by right. }
  left. do 4 run_one H1. apply bind_Some in H1 as (s & b3 & w3 & H1 & H2). injection H2 as <- _ <- _.
  apply loop_books in H1. cbn [s_ws received_data] in H1.
  assert (fst (view ws) = fst (view ws1)) as ->; [|exact H1].
  unfold send_text, send_frame, draw_key, send_data in Es. by destruct (frame_builder _ _); injection Es as _ <-.
Qed.

(** The book after a loop of sessions is the one before it, or the messages of the
    bytes of one of the sessions made it from the empty one. *)
Lemma run_loop_books sessions : forall backoff b w u b' w',
  run_loop env signalled exp sessions backoff b w = Some (u, b', w') ->
  _book b' = _book b \/ exists se rc, se ∈ sessions /\ books_stream (session_data se) new_market_state false (_book b') rc.
Proof.
  induction sessions as [|se sessions IH]; intros backoff b w u b' w' H; cbn [run_loop] in H; [injection H as _ <- _; by left|].
  run_one H. destruct (_ && _) in H; cbn [negb] in H; [|injection H as _ <- _; by left].
  apply bind_Some in H as (rc & b1 & w1 & H1 & H). apply session_books in H1.
  assert (_book b' = _book b1 \/ exists se rc, se ∈ sessions /\ books_stream (session_data se) new_market_state false (_book b') rc) as H2.
  { run_one H. destruct (_ && _) in H; cbn [negb] in H; [|injection H as _ <- _; by left].
    run_one H. apply bind_Some in H as ([] & b2 & w2 & Hw & H). apply keeps_wait in Hw. rewrite <- Hw. by eapply IH. }
  destruct H2 as [Hb|(se' & rc' & Hin & Hb)]; [|right; exists se', rc'; split; [by right|done]].
  rewrite Hb. destruct H1 as [H1|[_ H1]]; [right; exists se, rc; split; [by left|done]|by left].
Qed.

Lemma run_books sessions b w u b' w' :
  run env signalled exp sessions b w = Some (u, b', w') ->
  _book b' = _book b \/ exists se rc, se ∈ sessions /\ books_stream (session_data se) new_market_state false (_book b') rc.
Proof.
  unfold run. intros H. do 2 run_one H. apply bind_Some in H as (r & b1 & w1 & H1 & H).
  apply (keeps_zoom _book) in H1; [|apply separate_book]. rewrite <- H1.
  apply bind_Some in H as ([] & b2 & w2 & H2 & H). assert (b2 = b1) as -> by (destruct r; by injection H2). by eapply run_loop_books.
Qed.
End Books.

(** ** Properties *)

(** How TCP cuts the stream does not matter: if two lists of sessions agree in
    everything but the reads in which the bytes after each handshake response arrive,
    then the bot's runs over them are the same: the same bot with
    its book, orders, positions and latency samples, the same requests, printed lines
    and system calls, and both wait for data or neither does. *)
Theorem chunking_does_not_matter env signalled exp sessions1 sessions2 b w :
  Forall2 same_wire sessions1 sessions2 ->
  run env signalled exp sessions1 b w = run env signalled exp sessions2 b w.
Proof. intros H. by apply same_effect_eq, same_run. Qed.

(** The sample session with its data in reads of one byte. *)
Definition byte_by_byte (se : SessionEnv) : SessionEnv :=
  {| se_incoming := take 1 (se_incoming se) ++ map (fun c => Ok [c]) (session_data se); se_write := se_write se;
     se_mask_keys := se_mask_keys se; se_raw_key := se_raw_key se; se_resolved := se_resolved se; se_ssl := se_ssl se;
     se_fuel := se_fuel se |}.

Lemma chunking_does_not_matter_witness :
  (fun '(_, b, w) => (exposure b, get_position (_positions b) (lit "T"), size (_orders b), length (inbox w), fds w))
    <$> run sample_env (fun _ => false) flat_exp [byte_by_byte sample_session] sample_bot sample_world
  = Some (1, 1, 1%nat, 0%nat, [11]).
Proof.
  rewrite (chunking_does_not_matter sample_env (fun _ => false) flat_exp [byte_by_byte sample_session] [sample_session]).
  - exact sample_run.
  - constructor; [|constructor]. unfold same_wire, wire. vm_compute. reflexivity.
Defined.

(** C8. The book of a session comes from its bytes: after [run_session], either the
    connection failed and the book is as before, or there are frames whose RFC 6455
    encodings, one after the other, are how the bytes after the handshake response
    begin, such that the book is the result of the snapshots and deltas in these
    frames, in this order, none left out or repeated, starting from the empty book;
    and the session counts as a success (which resets the reconnection delay) exactly
    if the book took one of the snapshots. *)
Theorem session_book_from_stream env signalled exp se b w rc b' w' :
  run_session env signalled exp se b w = Some (rc, b', w') ->
  (exists fs es rest rs, Forall2 (fun f e => frame_ok f /\ encodes f e) fs es /\ session_data se = concat es ++ rest /\
     run_book new_market_state (flat_map frame_events fs) = Some (rs, _book b') /\
     rc = existsb taken_snapshot (combine (flat_map frame_events fs) rs)) \/
  (rc = false /\ _book b' = _book b).
Proof.
  intros H. apply session_books in H as [(fs & es & rest & go & H1 & H2 & rs & H3 & H4 & _)|H]; [left|by right].
  exists fs, es, rest, rs. by split; [|split; [|split]].
Qed.

Lemma session_book_from_stream_witness :
  exists b' w', run_session sample_env (fun _ => false) flat_exp sample_session sample_bot sample_world = Some (true, b', w') /\
    exists evs rs, run_book new_market_state evs = Some (rs, _book b') /\ existsb taken_snapshot (combine evs rs) = true.
Proof.
  assert ((fun '(rc, b, w) => rc) <$> run_session sample_env (fun _ => false) flat_exp sample_session sample_bot sample_world = Some true)
    as Hr by (by vm_compute).
  destruct (run_session _ _ _ _ _ _) as [[[rc b'] w']|] eqn:E in Hr; [|discriminate Hr]. injection Hr as ->.
  exists b', w'. split; [exact E|].
  destruct (session_book_from_stream _ _ _ _ _ _ _ _ _ E) as [(fs & es & rest & rs & _ & _ & H1 & H2)|[H _]]; [|discriminate H].
  exists (flat_map frame_events fs), rs. split; [exact H1|]. by rewrite <- H2.
Defined.

(** C7. What the bot believes about the market is right for what one session sent: over
    any network behaviour and sequence of sessions, after a run of a new bot the book is
    empty, or there are a session of the run and frames whose RFC 6455 encodings, one
    after the other, are how that session's bytes after the handshake response begin,
    such that the book is the result of the snapshots and deltas in these frames, in
    this order and starting from the empty book, with nothing of another session in it;
    the reference book gives the same results on these messages, the best bid on each
    side is the one recomputed from all its levels, and the book is well-formed. *)
Theorem run_book_is_reference env signalled exp sessions tk signer config w b' w' :
  run env signalled exp sessions (new_bot tk signer config) w = Some (tt, b', w') ->
  _book b' = new_market_state \/
  exists se fs es rest rs rb,
    se ∈ sessions /\ Forall2 (fun f e => frame_ok f /\ encodes f e) fs es /\ session_data se = concat es ++ rest /\
    run_book new_market_state (flat_map frame_events fs) = Some (rs, _book b') /\
    ref_run ref_empty (flat_map frame_events fs) = (rs, rb) /\
    _best_yes (_book b') = ref_best (ref_yes rb) /\ _best_no (_book b') = ref_best (ref_no rb) /\ book_ok (_book b').
Proof.
  intros H. apply run_books in H as [H|(se & rc & Hin & fs & es & rest & go & H1 & H2 & rs & H3 & _)]; [by left|right].
  destruct (run_book_refines _ _ _ _ _ new_market_state_ok new_market_state_refines H3) as (rb & Href & Hok & Hr).
  destruct (refines_best _ _ Hok Hr) as [Hy Hn]. by exists se, fs, es, rest, rs, rb.
Qed.

Lemma run_book_is_reference_witness :
  exists b' w' rest, run sample_env (fun _ => false) flat_exp [sample_session] sample_bot sample_world = Some (tt, b', w') /\
    best_yes_bid (_book b') = Some (cents 24) /\
    exists fs es, session_data sample_session = concat es ++ rest /\
      (exists rs, run_book new_market_state (flat_map frame_events fs) = Some (rs, _book b')) /\ book_ok (_book b').
Proof.
  assert ((fun '(_, b, _) => best_yes_bid (_book b)) <$> run sample_env (fun _ => false) flat_exp [sample_session] sample_bot sample_world
    = Some (Some (cents 24))) as Hs by (by vm_compute).
  destruct (run _ _ _ _ _ _) as [[[[] b'] w']|] eqn:E in Hs; [|discriminate Hs]. apply (f_equal (default None)) in Hs. cbn in Hs.
  destruct (run_book_is_reference _ _ _ _ _ _ _ _ _ _ E) as [H|(se & fs & es & rest & rs & rb & Hin & _ & H2 & H3 & _ & _ & _ & H4)].
  - rewrite H in Hs. discriminate Hs.
  - apply list_elem_of_singleton in Hin as ->. exists b', w', rest. split; [exact E|]. split; [exact Hs|].
    exists fs, es. split; [exact H2|]. split; [exists rs; exact H3|exact H4].
Defined.
