(* ===== verification/OrdersOnWire.v ===== *)
(** * OrdersOnWire: what a run of the bot posts

    Follows every message that a run tries to send by POST back to its cause: the
    strategy's signal on the book and the exposure of that moment.  The relation
    [on_wire] is one that a whole run respects, so it is checked once per operation. *)

From stdpp Require Import gmap.
From S2P Require Import Prelude Double FixedPoint CharConv JsonLexer JsonParser MessageTypes MarketState KalshiMessages KalshiDecoder JsonRoundTrip Stream Sockets World Frame WebSocket HttpResponse KalshiAuth HttpClient Trackers Strategy TradingBot BotFacts BotRun.

(** The signals among the labels of a run. *)
Definition is_order (l : label) : bool := match l with LOrder _ _ => true | _ => false end.
Definition orders (ls : list label) : nat := length (List.filter is_order ls).

Lemma orders_app ls ls' : orders (ls ++ ls') = (orders ls + orders ls')%nat.
Proof. unfold orders. by rewrite List.filter_app, length_app. Qed.

(** [data] is the request for an order of bot [b]: one that its strategy signals in a
    state that trade steps lead to, on a book made of messages. *)
Definition posted_order (exp : double -> double) (b : Bot) (data : bytes) : Prop :=
  exists ls b0 now sig s' id host auth,
    trade_steps exp ls b b0 /\ from_events (_book b0) /\
    on_book_update exp (_strategy b0) (_book b0) (exposure b0) now = Some (Some sig, s') /\
    data = request_text host auth (lit "POST") kOrdersPath (serialize_order_request (make_ioc_order (_ticker b) sig id)).

(** Every POST of a trace is such an order. *)
Definition posts_orders (exp : double -> double) (b : Bot) (tr : list NetEvent) : Prop :=
  forall data ok, EvSend data ok ∈ tr -> starts_with data (lit "POST ") = true -> posted_order exp b data.

(** Between two states with books made of messages there are trade steps and a trace
    whose posts are orders of those steps, each delivered at most once. *)
Definition on_wire (exp : double -> double) (x y : Bot * World) : Prop :=
  _ticker y.1 = _ticker x.1 /\
  (from_events (_book x.1) ->
   from_events (_book y.1) /\
   exists ls tr, trade_steps exp ls x.1 y.1 /\ log y.2 = log x.2 ++ tr /\ posts_orders exp x.1 tr /\ (posts tr <= orders ls)%nat).

Section Wire.
Context (exp : double -> double).

Lemma posts_orders_nil b : posts_orders exp b [].
Proof. intros data ok Hin. by apply not_elem_of_nil in Hin. Qed.

Lemma posts_orders_app b tr tr' : posts_orders exp b tr -> posts_orders exp b tr' -> posts_orders exp b (tr ++ tr').
Proof. intros H1 H2 data ok Hin. apply elem_of_app in Hin as [Hin|Hin]; eauto. Qed.

(** An order of a later state is one of an earlier state. *)
Lemma posts_orders_later ls b b1 tr :
  trade_steps exp ls b b1 -> _ticker b1 = _ticker b -> posts_orders exp b1 tr -> posts_orders exp b tr.
Proof.
  intros Hs Htk H data ok Hin Hpost. destruct (H data ok Hin Hpost) as (ls' & b0 & now & sig & s' & id & host & auth & Hs' & Hrest).
  rewrite Htk in Hrest. exists (ls ++ ls'), b0, now, sig, s', id, host, auth. split; [by eapply trade_steps_app|done].
Qed.

(** A trade step that sends nothing. *)
Lemma on_wire_step l b w b' w' :
  trade_step exp l b b' -> _ticker b' = _ticker b -> log w' = log w -> _book b' = _book b \/ from_events (_book b') ->
  on_wire exp (b, w) (b', w').
Proof.
  intros Hs Htk Hl Hb. split; [done|]. cbn [fst snd]. intros Hf. split; [destruct Hb as [->|]; done|].
  exists [l], []. rewrite app_nil_r. split; [econstructor; [exact Hs|constructor]|]. split; [done|].
  split; [apply posts_orders_nil|]. cbn. lia.
Qed.

(** Nothing of the trading state changes. *)
Lemma on_wire_silent b w b' w' :
  trading b' = trading b -> log w' = log w -> _book b' = _book b \/ from_events (_book b') -> on_wire exp (b, w) (b', w').
Proof. intros Ht. eapply on_wire_step; [by apply step_silent|]. by injection Ht. Qed.

#[export] Instance on_wire_preorder : PreOrder (on_wire exp).
Proof.
  split.
  - intros [b w]. by apply on_wire_silent; [..|left].
  - intros [b1 w1] [b2 w2] [b3 w3] [Hi1 H1] [Hi2 H2]. cbn [fst snd] in *. split; cbn [fst snd]; [congruence|]. intros Hf.
    destruct (H1 Hf) as (Hf2 & ls1 & tr1 & Hs1 & Hl1 & Hp1 & Hn1).
    destruct (H2 Hf2) as (Hf3 & ls2 & tr2 & Hs2 & Hl2 & Hp2 & Hn2). split; [done|].
    exists (ls1 ++ ls2), (tr1 ++ tr2). split; [by eapply trade_steps_app|]. rewrite Hl2, Hl1, app_assoc. split; [done|].
    split; [|rewrite posts_app, orders_app; lia]. apply posts_orders_app; [done|]. by eapply posts_orders_later.
Qed.

#[export] Instance on_wire_quiet : QuietRelation (on_wire exp).
Proof. split; [exact _|]. intros b w w' _ Hl. by apply on_wire_silent; [..|left]. Qed.

Lemma on_wire_zoom {A} (m : M HttpClient A) : posts_nothing m -> respects (on_wire exp) (zoom _http set_http m).
Proof.
  intros Hm b w a b' w' H. unfold zoom in H. destruct (m (_http b) w) as [[[x s] w1]|] eqn:E; [|done].
  injection H as <- <- <-. apply Hm in E as (tr & Hl & Hp). split; [done|]. cbn [fst snd]. intros Hf. split; [done|].
  exists [LIdle], tr. split; [by econstructor; [apply step_silent|constructor]|]. split; [done|].
  split; [|by rewrite no_post_posts]. intros data ok Hin Hpost. by rewrite (Hp data ok Hin) in Hpost.
Qed.

Lemma on_order_response_ticker signal req resp b b' : on_order_response signal req resp b = Some b' -> _ticker b' = _ticker b.
Proof. unfold on_order_response. repeat case_match; by intros [= <-]. Qed.

Lemma on_fill_ticker f b b' : on_fill f b = Some b' -> _ticker b' = _ticker b.
Proof. unfold on_fill. repeat case_match; by intros [= <-]. Qed.

(** What [submit] sends: the order, with a client id of its own, delivered at most once. *)
Lemma submit_sends env sig t b w a b' w' :
  submit env sig t b w = Some (a, b', w') ->
  _ticker b' = _ticker b /\ _book b' = _book b /\
  exists id tr, log w' = log w ++ tr /\ (posts tr <= 1)%nat /\
    sends (lit "POST") kOrdersPath (serialize_order_request (make_ioc_order (_ticker b) sig id)) tr.
Proof.
  intros H. pose proof (keeps_submit _ _ _ _ _ _ _ _ H) as Hb. unfold submit in H. do 4 run_one H.
  apply bind_Some in H as (resp & b1 & w1 & H1 & H). unfold zoom in H1.
  destruct (request_json _ _ _ _ _ _) as [[[x c] w2]|] eqn:E; [|done]. injection H1 as <- <- <-.
  apply request_json_sends in E as (tr & Hl & Hs & Hd & _).
  do 4 run_one H. run_exposure H. run_one H. apply bind_Some in H as (y & b2 & w3 & H2 & H). injection H as _ <- <-.
  unfold attempt in H2. destruct (on_order_response _ _ _ _) eqn:Er; [|done]. injection H2 as _ <- <-.
  split; [by rewrite (on_order_response_ticker _ _ _ _ _ Er)|]. split; [done|]. eexists _, tr. split; [done|].
  split; [by rewrite (sends_post_posts _ _ _ Hs)|done].
Qed.

Lemma trade_on_wire env t1 t2 : respects (on_wire exp) (trade env exp t1 t2).
Proof.
  intros b w a b' w' H. unfold trade in H. do 2 run_one H. run_exposure H.
  destruct (on_book_update _ _ _ _ _) as [[signal s]|] eqn:Eup; [|done]. do 3 run_one H. destruct signal as [sig|].
  - pose proof H as Hr. apply submit_response in Hr as (req & resp & b1 & Ht & Hr).
    apply submit_sends in H as (Htk & Hb & id & tr & Hl & Hn & Hs). split; [done|]. cbn [fst snd]. intros Hf.
    split; [by rewrite Hb|]. exists [LOrder sig resp], tr.
    split; [econstructor; [|constructor]; eapply step_order; [exact Eup|by rewrite Ht|exact Hr]|]. split; [done|].
    split; [|done]. intros data ok Hin _. destruct (Hs data ok Hin) as (host & auth & ->).
    exists [], b, (env_clock env (ticks w)), sig, s, id, host, auth. split; [constructor|done].
  - injection H as <- <- <-. transitivity (set_strategy s b, w); [|by apply on_wire_silent; [..|left]].
    eapply on_wire_step; [by eapply step_quiet|done|done|by left].
Qed.

Lemma after_book_on_wire env received r book t1 t2 b w a b' w' :
  after_book env exp received r book t1 t2 b w = Some (a, b', w') -> (from_events (_book b) -> from_events book) ->
  on_wire exp (b, w) (b', w').
Proof.
  intros H Hb. unfold after_book in H. run_one H.
  transitivity (set_book book b, w).
  { split; [done|]. cbn [fst snd]. intros Hf. exact (proj2 (on_wire_silent b w (set_book book b) w eq_refl eq_refl (or_intror (Hb Hf))) Hf). }
  destruct r as [[]|e].
  - apply bind_Some in H as (y & b1 & w1 & H1 & H). injection H as _ <- <-. exact (trade_on_wire _ _ _ _ _ _ _ _ H1).
  - do 2 run_one H. injection H as _ <- <-. apply on_wire_silent; unfold on_book_error; destruct (kind e); by try left.
Qed.

Lemma handle_on_wire env m received t1 t2 : respects (on_wire exp) (handle_message env exp m received t1 t2).
Proof.
  intros b w a b' w' H. unfold handle_message in H. run_one H.
  destruct (check_sequence m b) as [b2|] eqn:Ec; [|apply (respects_at _ _ _ _ _ _ _ H); walk].
  run_one H. transitivity (b2, w).
  { apply on_wire_silent; [|done|left; by eapply check_sequence_book].
    revert Ec. unfold check_sequence. repeat case_match; intros [= <-]; done. }
  destruct (msg m) as [|s|d|f].
  - injection H as _ <- <-. reflexivity.
  - destruct (apply_snapshot (_book b2) s) as [r book] eqn:Es. eapply after_book_on_wire; [exact H|]. intros Hf.
    eapply (from_events_step (_book b2) (EvSnapshot s)); [done|]. cbn. by rewrite Es.
  - destruct (apply_delta (_book b2) d) as [[r book]|] eqn:Ed; [|done]. eapply after_book_on_wire; [exact H|]. intros Hf.
    eapply (from_events_step (_book b2) (EvDelta d)); [done|]. exact Ed.
  - apply handle_fill_inv in H as (b4 & Ef & -> & ->). eapply on_wire_step; [by apply step_fill|by eapply on_fill_ticker|done|].
    left. by edestruct on_fill_other as (_ & Hk & _).
Qed.

#[export] Instance on_wire_run env : RunRelation env exp (on_wire exp).
Proof.
  split.
  - exact _.
  - intros A m _ Hm. by apply on_wire_zoom.
  - intros. by apply on_wire_silent; [..|left].
  - intros b w. apply on_wire_silent; [done..|]. right. apply from_events_new.
  - intros b w calls t b' w' _ H. exact H.
  - intros text m received t1 t2 _. apply handle_on_wire.
Qed.
End Wire.





