(* ===== verification/Exposure.v ===== *)
(** * Exposure: the sum over an unordered map in 64 bits (src/trading/trading_bot.cpp)

    [exposure()] adds the values of a [std::unordered_map] to the position in whatever
    order the map yields them, in [int64_t], and the strategy adds the order size to the
    result.  This file shows that these sums are defined in every order, for as long as
    the contracts the bot has ever traded fit 64 bits, and that a server which reports a
    fill near the end of the type makes the strategy's sum overflow. *)

From stdpp Require Import gmap.
From S2P Require Import Prelude Double FixedPoint CharConv JsonLexer JsonParser MessageTypes MarketState KalshiMessages Stream Sockets World KalshiAuth HttpClient Trackers Strategy TradingBot BotFacts BotRun.

(** ** Sums of absolute values *)

Definition total_abs (order : list (bytes * Z)) : Z := foldr (fun kv acc => Z.abs kv.2 + acc) 0 order.

#[export] Instance total_abs_Proper : Proper ((≡ₚ) ==> eq) total_abs.
Proof. apply foldr_permutation_proper; [apply _..|]. intros [? x] [? y] z; cbn; lia. Qed.

Lemma total_abs_cons k q order : total_abs ((k, q) :: order) = Z.abs q + total_abs order.
Proof. done. Qed.

Lemma total_abs_nonneg order : 0 <= total_abs order.
Proof. induction order as [|[k q] order IH]; [done|]. rewrite total_abs_cons. lia. Qed.

Lemma fold_plus_exact order : forall acc,
  Z.abs acc + total_abs order <= INT64_MAX -> fold_plus order acc = Some (acc + total order).
Proof.
  induction order as [|[k q] order IH]; intros acc H; cbn [fold_plus]; [cbn; by rewrite Z.add_0_r|].
  pose proof (total_abs_nonneg order) as Hn. rewrite total_abs_cons in H. rewrite total_cons.
  rewrite (proj2 (i64_add_iff acc q (acc + q))) by (split; [done|]; unfold in_i64, INT64_MIN, INT64_MAX in *; lia).
  rewrite IH by lia. f_equal. lia.
Qed.

(** ** Gross quantities *)

(** The contracts in the position and in the unconfirmed fills, without signs. *)
Definition gross (b : Bot) : Z := Z.abs (get_position (_positions b) (_ticker b)) + total_abs (map_to_list (_unconfirmed_fills b)).

Lemma total_abs_delete u k : total_abs (map_to_list u) = Z.abs (default 0 (u !! k)) + total_abs (map_to_list (delete k u)).
Proof.
  destruct (u !! k) as [v|] eqn:E; [|by rewrite delete_id by done].
  by rewrite <- (map_to_list_delete u k v E).
Qed.

Lemma total_abs_insert u k v : total_abs (map_to_list (<[k := v]> u)) = Z.abs v + total_abs (map_to_list (delete k u)).
Proof. by rewrite (total_abs_delete _ k), lookup_insert_eq, delete_insert_eq. Qed.

Lemma exposure_in_exact order b :
  order ≡ₚ map_to_list (_unconfirmed_fills b) -> gross b <= INT64_MAX -> exposure_in order b = Some (exposure b).
Proof.
  intros Ho Hg. unfold exposure_in, exposure, gross in *. rewrite sum_values_total, <- Ho in *. by apply fold_plus_exact.
Qed.

Lemma current_exposure_returns env b w : gross b <= INT64_MAX -> current_exposure env b w = Some (exposure b, b, w).
Proof. intros H. unfold current_exposure. by rewrite (exposure_in_exact _ _ (env_order_perm env _ _) H). Qed.

Lemma gross_trading b b' : trading b' = trading b -> gross b' = gross b.
Proof. unfold trading, gross. intros [= -> _ _ -> ->]. done. Qed.

Lemma gross_response signal req resp b b' :
  on_order_response signal req resp b = Some b' -> gross b' <= gross b + Z.abs (response_quantity signal resp).
Proof.
  unfold on_order_response, response_quantity, add_unconfirmed.
  destruct resp as [json|]; [|intros [= <-]; lia]. destruct (parse_order_response json) as [parsed|]; [|intros [= <-]; lia].
  destruct (parse_contracts _) as [filled|]; [|intros [= <-]; lia].
  destruct (0 <? filled); [|intros [= <-]; unfold gross; cbn [_positions _ticker _unconfirmed_fills set_trackers]; lia].
  destruct (i64_add _ _) as [v|] eqn:Ev; [|done]. apply i64_add_Some in Ev. intros [= <-].
  unfold gross. cbn [_positions _ticker _unconfirmed_fills set_trackers]. rewrite total_abs_insert.
  rewrite (total_abs_delete (_unconfirmed_fills b) (resp_order_id parsed)). lia.
Qed.

Lemma confirm_gross u id q u' before :
  confirm u id q = Some u' -> u !! id = Some before -> (0 < q <= before \/ before <= q < 0) ->
  total_abs (map_to_list u') = total_abs (map_to_list u) - Z.abs q.
Proof.
  intros H Hu Hrange. rewrite (confirm_exact _ _ _ _ _ H Hu Hrange), (total_abs_delete u id), Hu.
  cbn [default from_option]. change (Datatypes.id before) with before.
  destruct (Z.eqb_spec before q); rewrite ?total_abs_insert; lia.
Qed.

Lemma gross_fill fill b b' : on_fill fill b = Some b' -> confirms b fill \/ foreign b fill -> gross b' <= gross b.
Proof.
  intros H [(qty & q & before & Htk & Hq & Hfq & Hu & Hrange)|[Htk Hu]].
  - destruct (on_fill_trackers _ _ _ _ H Hq) as (q' & p & u & Hfq' & Hp & Hc & Hpos & Hun & Ht & _). simplify_eq.
    unfold gross. rewrite Ht, (get_position_update _ _ _ _ (_ticker b) Hp), decide_True by done.
    rewrite (confirm_gross _ _ _ _ _ Hc Hu Hrange). lia.
  - destruct (parse_contracts (count_fp fill)) as [qty|] eqn:Hq.
    2: { unfold on_fill in H. rewrite Hq in H. by injection H as <-. }
    destruct (on_fill_trackers _ _ _ _ H Hq) as (q & p & u & _ & Hp & Hc & Hpos & Hun & Ht & _).
    unfold confirm in Hc. rewrite Hu in Hc. injection Hc as Hc. unfold gross.
    rewrite Hpos, Hun, Ht, (get_position_update _ _ _ _ (_ticker b) Hp), decide_False by auto. rewrite <- Hc. lia.
Qed.

(** ** Runs *)

Definition is_order (l : label) : bool := match l with LOrder _ _ => true | _ => false end.

(** The number of orders of a run. *)
Definition orders (ls : list label) : Z := Z.of_nat (length (List.filter is_order ls)).

Section Runs.
Context (exp : double -> double).

Lemma honest_response_size b book now sig s' resp :
  on_book_update exp (_strategy b) book (exposure b) now = Some (Some sig, s') -> 0 <= order_size (_config (_strategy b)) ->
  honest_response sig resp -> Z.abs (response_quantity sig resp) <= order_size (_config (_strategy b)).
Proof.
  intros Hup Hsize Hresp. apply on_book_update_spec in Hup as (_ & _ & Hs).
  destruct (Hs sig eq_refl) as (bid & ask & ema & _ & _ & _ & _ & _ & _ & _ & Hcount & _).
  unfold response_quantity. destruct resp as [json|]; [|lia].
  destruct (parse_order_response json) as [parsed|] eqn:Ep; [|lia].
  destruct (parse_contracts (fill_count parsed)) as [filled|] eqn:Ef; [|lia].
  specialize (Hresp json parsed filled eq_refl Ep Ef). destruct (Z.ltb_spec 0 filled); [|lia].
  unfold signed. destruct (signal_side sig); lia.
Qed.

Lemma trade_step_gross l b b' :
  trade_step exp l b b' -> honest l b -> 0 <= order_size (_config (_strategy b)) ->
  gross b' <= gross b + (if is_order l then order_size (_config (_strategy b)) else 0) /\
  _config (_strategy b') = _config (_strategy b).
Proof.
  intros [b0 b1 Ht|b0 book now s' Hup|b0 book now sig s' b1 req resp b2 Hup Ht Hr|b0 fill b1 Hf] Hh Hsize; cbn [is_order].
  - rewrite (gross_trading _ _ Ht), (strategy_trading _ _ Ht). split; [lia|done].
  - apply on_book_update_spec in Hup as (Hcfg & _ & _). cbn [_strategy set_strategy]. split; [|done]. cbn. unfold gross. cbn. lia.
  - pose proof (honest_response_size _ _ _ _ _ _ Hup Hsize Hh) as Hq. apply on_book_update_spec in Hup as (Hcfg & _ & _).
    pose proof (gross_response _ _ _ _ _ Hr) as Hg. rewrite (gross_trading _ _ Ht) in Hg. cbn in Hg.
    rewrite (proj1 (on_order_response_other _ _ _ _ _ Hr)), (strategy_trading _ _ Ht). split; [|done].
    unfold gross in *. cbn in Hg. lia.
  - rewrite (proj1 (on_fill_other _ _ _ Hf)). split; [|done]. pose proof (gross_fill _ _ _ Hf Hh). lia.
Qed.

Lemma honest_steps_gross ls b b' :
  honest_steps exp ls b b' -> 0 <= order_size (_config (_strategy b)) ->
  gross b' <= gross b + order_size (_config (_strategy b)) * orders ls.
Proof.
  induction 1 as [|l ls b b1 b' H1 Hh _ IH]; intros Hsize; [unfold orders; cbn; lia|].
  destruct (trade_step_gross _ _ _ H1 Hh Hsize) as [Hg Hcfg]. rewrite Hcfg in IH. specialize (IH Hsize).
  unfold orders in *. cbn [List.filter]. destruct (is_order l); cbn [length]; lia.
Qed.
End Runs.

(** ** Properties *)

(** C15. The exposure is computed exactly, in any order: on every run with an honest
    exchange from a new bot, as long as the contracts of all its orders together fit
    64 bits, the sum over the unordered map does not overflow at any point and gives
    the position plus all unconfirmed fills, whatever the order of iteration; the sums
    and differences the strategy compares with the position limit fit as well, so that
    the strategy's turn is defined on every book at every time. *)
Theorem exposure_never_overflows exp tk signer config ls b' order :
  0 <= order_size config -> 0 <= max_position config -> order_size config * orders ls <= INT64_MAX ->
  max_position config + order_size config <= INT64_MAX ->
  honest_steps exp ls (new_bot tk signer config) b' -> order ≡ₚ map_to_list (_unconfirmed_fills b') ->
  exposure_in order b' = Some (exposure b') /\
  in_i64 (exposure b' + order_size config) /\ in_i64 (exposure b' - order_size config) /\
  (forall book now, is_Some (on_book_update exp (_strategy b') book (exposure b') now)).
Proof.
  intros Hsize Hmax Hall Hsum H Ho.
  pose proof (honest_steps_gross _ _ _ _ H Hsize) as Hg. destruct (honest_steps_limit _ _ _ _ H) as [Hlim Hcfg]; [done|done|].
  unfold within_limit in Hlim. rewrite Hcfg in Hlim. cbn [_strategy new_bot new_strategy _config] in *.
  change (gross (new_bot tk signer config)) with 0 in Hg.
  assert (in_i64 (exposure b' + order_size config) /\ in_i64 (exposure b' - order_size config) /\ in_i64 (- max_position config))
    as (H1 & H2 & H3) by (unfold in_i64, INT64_MIN, INT64_MAX in *; lia).
  split; [apply exposure_in_exact; [done|lia]|]. split; [done|]. split; [done|].
  intros book now. apply on_book_update_defined; by rewrite Hcfg.
Qed.

Lemma exposure_never_overflows_witness :
  exists ls b', honest_steps flat_exp ls sample_bot b' /\
    exposure_in (rev (map_to_list (_unconfirmed_fills b'))) b' = Some (exposure b') /\
    is_Some (on_book_update flat_exp (_strategy b') (sample_book "0.24" "0.74") (exposure b') (122 * kSecond)).
Proof.
  destruct sample_steps as [b' H]. exists [LIdle; LOrder buy_26 sample_response; LFill sample_fill], b'. split; [exact H|].
  destruct (exposure_never_overflows flat_exp (lit "T") sample_signer default_config
    [LIdle; LOrder buy_26 sample_response; LFill sample_fill] b' (rev (map_to_list (_unconfirmed_fills b'))))
    as (H1 & _ & _ & H2); [by vm_compute..|exact H|symmetry; apply Permutation_rev|].
  split; [exact H1|]. apply H2.
Defined.

(** ** A server that reports absurd fills *)

(** An answer to the order for one contract that reports [INT64_MAX] contracts filled,
    which [parse_contracts] takes. *)
Definition absurd_response : expected bytes JsonValue :=
  parse_json (json_text "{'order_id':'o1','fill_count':'9223372036854775807.00','remaining_count':'0.00','ts_ms':7}").

Definition absurd_result : option Bot :=
  on_order_response buy_26 (make_ioc_order (lit "T") buy_26 (lit "c")) absurd_response signalled_bot.

Definition absurd_bot : Bot := default sample_bot absurd_result.

Lemma absurd_accepted : absurd_result = Some absurd_bot.
Proof.
  assert (match absurd_result with Some _ => true | None => false end = true) as H by (by vm_compute).
  unfold absurd_bot. destruct absurd_result; [reflexivity|discriminate H].
Qed.

Lemma absurd_exposure : exposure absurd_bot = INT64_MAX.
Proof. by vm_compute. Qed.

Lemma absurd_gross : gross absurd_bot <= INT64_MAX.
Proof. apply Z.leb_le. by vm_compute. Qed.

(** The limit check can overflow: after one order that the server answers with a fill
    count of 9223372036854775807, the exposure is [INT64_MAX], and the next time the
    price is right [exposure + order_size] leaves [int64_t], which is undefined in C++
    (a sum that wraps around is below [max_position], and the check passes). *)
Theorem server_fill_overflows_limit_check :
  exists b', trade_steps flat_exp [LIdle; LOrder buy_26 absurd_response] sample_bot b' /\
    current_exposure sample_env b' sample_world = Some (INT64_MAX, b', sample_world) /\
    on_book_update flat_exp (_strategy b') (sample_book "0.24" "0.74") INT64_MAX (122 * kSecond) = None.
Proof.
  exists absurd_bot. split; [|split].
  - apply steps_cons with quoted_bot; [exact sample_quiet_step|]. apply steps_cons with absurd_bot; [|constructor].
    exact (step_order flat_exp quoted_bot (sample_book "0.24" "0.74") (61 * kSecond) buy_26 _ signalled_bot _ _ _
             sample_signal_step eq_refl absurd_accepted).
  - rewrite (current_exposure_returns sample_env absurd_bot sample_world absurd_gross), absurd_exposure. reflexivity.
  - vm_compute. reflexivity.
Qed.

(** With fills that large the order would decide between a result and an overflow. *)
Example order_can_matter :
  fold_plus [(lit "a", INT64_MAX); (lit "b", -5)] 1 = None /\ fold_plus [(lit "b", -5); (lit "a", INT64_MAX)] 1 = Some (INT64_MAX - 4).
Proof. by vm_compute. Qed.
