(* ===== verification/OrderFlow.v ===== *)
(** * OrderFlow: a signal becomes an order

    The safety theorems say what the bot never does; this file shows what it does when
    nothing fails: on a network that works, a signal of the strategy is delivered to
    the server as exactly one order, the server's answer is read whatever its cut into
    reads, and the order and its fill are accounted for. *)

From stdpp Require Import gmap.
From S2P Require Import Prelude Double FixedPoint CharConv JsonLexer JsonParser MessageTypes MarketState KalshiMessages Stream Sockets World HttpResponse KalshiAuth HttpClient HttpReplies Trackers Strategy TradingBot BotFacts BotRun OrdersOnWire Exposure.

(** Connections to [host] are made and writes succeed. *)
Record working (env : NetEnv) (host : bytes) : Prop := {
  work_dial n : has_value (fst (dial host (env_resolve env n) (env_ssl env n))) = true;
  work_write n : env_write env n = None;
}.

(** The client's signer, if it has one, signs. *)
Definition signs (c : HttpClient) (method path : bytes) : Prop :=
  forall s ts, HttpClient._signer c = Some s -> has_value (auth_headers s ts method path) = true.

Section Client.
Context (env : NetEnv).

Lemma usable_returns c w :
  exists ok w', usable env c w = Some (ok, c, w') /\ inbox w' = inbox w /\ (ok = true -> connected c = true).
Proof.
  unfold usable, idle_connection_is_dead, get, now, poll, tick, ret, bind. cbn. unfold connected.
  destruct (_tls c); [destruct (kMaxIdle <? _)|]; eexists _, _; (split; [done|]); done.
Qed.

Lemma reset_returns c w : exists c' w', reset_tls c w = Some (tt, c', w') /\ inbox w' = inbox w.
Proof. unfold reset_tls, bind, get, modify, sys, ret. destruct (_tls c); by eexists _, _. Qed.

Lemma open_returns c w :
  working env (HttpClient._host c) ->
  exists c' w', open_connection env c w = Some (Ok tt, c', w') /\ inbox w' = inbox w /\ HttpClient._buffer c' = [].
Proof.
  intros Hw. destruct (open_connection env c w) as [[[r c'] w']|] eqn:E.
  - pose proof (open_connection_spec _ _ _ _ _ _ E) as (Hi & Hb & _ & _ & _ & _ & d & calls & Hd & Hv & _).
    pose proof (work_dial _ _ Hw (length (log w))) as Hok. rewrite Hd in Hok. cbn in Hok. rewrite Hv in Hok.
    destruct r as [[]|e]; [|done]. by exists c', w'.
  - exfalso. unfold open_connection, reset_tls, bind, get, modify, sys, ret, tls_connect, now, tick in E.
    by destruct (_tls c), (dial _ _ _) as [[? | ?] ?].
Qed.

Lemma send_returns host reused data (c : HttpClient) w :
  working env host -> exists w', send_with_retry env reused data c w = Some (Ok tt, c, w') /\ inbox w' = inbox w.
Proof.
  intros Hw. unfold send_with_retry, bind, tls_send, ret. rewrite (work_write _ _ Hw). by eexists.
Qed.

(** The exchange takes the next reply. *)
Lemma exchange_answers data c w r rs :
  working env (HttpClient._host c) -> clean_client c -> delivers (r :: rs) (inbox w) ->
  exists c' w', exchange env data c w = Some (reply_result r, c', w') /\ delivers rs (inbox w').
Proof.
  intros Hw Hc Hd. unfold exchange, bind at 1. destruct (usable_returns c w) as (ok & w1 & -> & Hi & Hok).
  assert (exists c2 w2, (if ok then ret (Ok tt) else open_connection env) c w1 = Some (Ok tt, c2, w2) /\
    inbox w2 = inbox w /\ HttpClient._buffer c2 = []) as (c2 & w2 & E2 & Hi2 & Hb2).
  { destruct ok; [exists c, w1; auto|]. destruct (open_returns c w1 Hw) as (c2 & w2 & E & Hi2 & Hb). exists c2, w2. by rewrite Hi2. }
  unfold bind at 1. rewrite E2. destruct (send_returns _ ok data c2 w2 Hw) as (w3 & E3 & Hi3).
  unfold bind at 1. rewrite E3. unfold now, tick, modify, bind at 1 2, read_response, bind at 1.
  cbn [HttpClient._buffer set_last_send inbox advance]. rewrite Hi3, Hi2, Hb2.
  inversion Hd as [|r' rs' i inc Hrok Hcut Hrest Heq Hin]; subst. rewrite (read_reply _ _ _ Hrok Hcut).
  unfold bind, ret. destruct (reply_result r) as [resp|e]; [destruct (keep_alive resp)|].
  1: by eexists _, _.
  all: match goal with |- context [reset_tls ?x ?y] => destruct (reset_returns x y) as (c' & w' & -> & Hi') end.
  all: exists c', w'; by rewrite Hi'.
Qed.

Lemma request_answers method path content c w r rs :
  working env (HttpClient._host c) -> signs c method path -> clean_client c -> delivers (r :: rs) (inbox w) ->
  exists c' w', request env method path content c w = Some (reply_result r, c', w') /\ delivers rs (inbox w').
Proof.
  intros Hw Hs Hc Hd. unfold request, bind, get. destruct (HttpClient._signer c) as [s|] eqn:Es.
  - unfold current_timestamp_ms, tick, ret. specialize (Hs s (fmt_int (env_timestamp env (ticks w))) Es).
    destruct (auth_headers _ _ _ _) as [auth|]; [|done]. by apply exchange_answers.
  - unfold ret. by apply exchange_answers.
Qed.
End Client.

(** ** Orders *)

(** An answer to an order: a complete response whose body is the JSON of [parsed], in
    which [filled] contracts are reported. *)
Definition answers_order (data : bytes) (parsed : OrderResponse) (filled : Z) : Prop :=
  exists resp v, reply_ok (Answer data) /\ http_step data = Done resp (length data) /\ parse_json (body resp) = Ok v /\
    parse_order_response v = Ok parsed /\ parse_contracts (fill_count parsed) = Some filled.

(** What the bot makes of it. *)
Definition fill_of (sig : Signal) (filled : Z) : Z := if 0 <? filled then signed (signal_side sig) filled else 0.

Lemma request_json_answers env method path content c w data parsed filled rs :
  working env (HttpClient._host c) -> signs c method path -> clean_client c ->
  answers_order data parsed filled -> delivers (Answer data :: rs) (inbox w) ->
  exists v c' w', request_json env method path content c w = Some (Ok v, c', w') /\ delivers rs (inbox w') /\
    parse_order_response v = Ok parsed.
Proof.
  intros Hw Hs Hc (resp & v & _ & Hd & Hv & Hp & _) Hin.
  destruct (request_answers env method path content c w _ _ Hw Hs Hc Hin) as (c' & w' & E & Hrest).
  exists v, c', w'. unfold request_json, bind. rewrite E. cbn [reply_result]. rewrite Hd, Hv. done.
Qed.

(** The order of the response, as the tracker keeps it. *)
Definition tracked (parsed : OrderResponse) (filled : Z) (req : OrderRequest) : Order :=
  {| order_id := resp_order_id parsed; order_request := req; order_status := if 0 <? filled then Filled else Cancelled;
     order_fill_count := fill_count parsed; order_remaining_count := remaining_count parsed |}.

Lemma on_order_response_returns sig req v parsed filled b :
  parse_order_response v = Ok parsed -> parse_contracts (fill_count parsed) = Some filled ->
  in_i64 (default 0 (_unconfirmed_fills b !! resp_order_id parsed) + fill_of sig filled) ->
  exists b', on_order_response sig req (Ok v) b = Some b' /\ exposure b' = exposure b + fill_of sig filled /\
    _orders b' = add_order (_orders b) (tracked parsed filled req) /\ _strategy b' = _strategy b /\ _order_seq b' = _order_seq b /\
    _ticker b' = _ticker b /\ _book b' = _book b.
Proof.
  intros Hp Hf Hr. assert (exists b', on_order_response sig req (Ok v) b = Some b' /\
    _orders b' = add_order (_orders b) (tracked parsed filled req) /\ _order_seq b' = _order_seq b) as (b' & E & Ho & Hn).
  { unfold on_order_response. rewrite Hp, Hf. unfold fill_of in Hr. fold (tracked parsed filled req).
    destruct (0 <? filled) eqn:Ef; [|by eexists]. unfold add_unconfirmed, i64_add. destruct Hr as [H1 H2].
    apply Z.leb_le in H1, H2. rewrite H1, H2. by eexists. }
  exists b'. split; [done|]. pose proof (on_order_response_other _ _ _ _ _ E) as (Hs & Hb & _).
  pose proof (exposure_on_order_response _ _ _ _ _ E) as Hx. unfold response_quantity in Hx. rewrite Hp, Hf in Hx.
  split; [exact Hx|]. split; [done|]. split; [done|]. split; [done|]. split; [by eapply on_order_response_ticker|done].
Qed.

(** The bot's side of the working network. *)
Record can_order (env : NetEnv) (b : Bot) : Prop := {
  order_network : working env (HttpClient._host (_http b));
  order_signer : signs (_http b) (lit "POST") kOrdersPath;
  order_buffer : clean_client (_http b);
}.

Lemma submit_places env sig t b w data parsed filled rs :
  can_order env b -> answers_order data parsed filled -> delivers (Answer data :: rs) (inbox w) -> gross b <= INT64_MAX ->
  in_i64 (default 0 (_unconfirmed_fills b !! resp_order_id parsed) + fill_of sig filled) ->
  exists id tr b' w',
    let req := make_ioc_order (_ticker b) sig id in
    submit env sig t b w = Some (tt, b', w') /\ log w' = log w ++ tr /\ posts tr = 1%nat /\
    sends (lit "POST") kOrdersPath (serialize_order_request req) tr /\ delivers rs (inbox w') /\
    exposure b' = exposure b + fill_of sig filled /\ _orders b' = add_order (_orders b) (tracked parsed filled req) /\
    _order_seq b' = u64 (_order_seq b + 1) /\ _strategy b' = _strategy b /\ _book b' = _book b.
Proof.
  intros [Hw Hs Hc] Ha Hin Hg Hr. pose proof Ha as (_ & _ & _ & _ & _ & _ & Hf). unfold submit, current_timestamp_ms, now, println.
  set (id := lit "bot-" ++ fmt_int (env_timestamp env (ticks w)) ++ lit "-" ++ fmt_int (u64 (_order_seq b + 1))).
  pose (w0 := advance (advance w)).
  destruct (request_json_answers env (lit "POST") kOrdersPath (serialize_order_request (make_ioc_order (_ticker b) sig id))
    (_http b) w0 data parsed filled rs Hw Hs Hc Ha Hin) as (v & c & w1 & E & Hrest & Hp).
  pose proof (request_json_sends _ _ _ _ _ _ _ _ _ E) as (tr & Hl & Hsend & _ & Hone).
  unfold bind, tick, get, modify, zoom, print. cbn [_http set_order_seq _ticker ticks advance]. fold id. fold w0. rewrite E.
  rewrite current_exposure_returns by exact Hg. unfold attempt. match goal with |- context [on_order_response sig ?q (Ok v) ?b1] =>
    destruct (on_order_response_returns sig q v parsed filled b1 Hp Hf Hr)
      as (b' & -> & Hx & Ho & Hst & Hn & _ & Hb) end.
  exists id, tr, b'. eexists. split; [done|]. split; [exact Hl|]. split; [rewrite (sends_post_posts _ _ _ Hsend); by apply Hone|].
  split; [exact Hsend|]. split; [exact Hrest|]. split; [exact Hx|]. split; [exact Ho|]. done.
Qed.

(** What a traded signal leaves behind: exactly one POST, the order, and its account. *)
Definition order_placed (b : Bot) (w : World) (now : Z) (sig : Signal) (parsed : OrderResponse) (filled : Z) (rs : list Reply)
    (b' : Bot) (w' : World) : Prop :=
  exists id tr,
    let req := make_ioc_order (_ticker b) sig id in
    log w' = log w ++ tr /\ posts tr = 1%nat /\
    (forall d ok, EvSend d ok ∈ tr -> exists host auth, d = request_text host auth (lit "POST") kOrdersPath (serialize_order_request req)) /\
    delivers rs (inbox w') /\ _last_order (_strategy b') = Some now /\
    get_order (_orders b') (resp_order_id parsed) = Some (tracked parsed filled req) /\
    exposure b' = exposure b + fill_of sig filled.

Lemma trade_places env exp t_rx t_decoded b w sig s' data parsed filled rs :
  on_book_update exp (_strategy b) (_book b) (exposure b) (env_clock env (ticks w)) = Some (Some sig, s') ->
  can_order env b -> answers_order data parsed filled -> delivers (Answer data :: rs) (inbox w) ->
  _orders b !! resp_order_id parsed = None -> gross b <= INT64_MAX ->
  in_i64 (default 0 (_unconfirmed_fills b !! resp_order_id parsed) + fill_of sig filled) ->
  exists b' w', trade env exp t_rx t_decoded b w = Some (tt, b', w') /\
    order_placed b w (env_clock env (ticks w)) sig parsed filled rs b' w'.
Proof.
  intros Hup Hcan Ha Hin Hnew Hg Hr. unfold trade, now, tick, bind, get, modify.
  rewrite current_exposure_returns by exact Hg. rewrite Hup.
  match goal with |- context [submit env sig t_rx ?b1 ?w1] =>
    destruct (submit_places env sig t_rx b1 w1 data parsed filled rs) as (id & tr & b' & w' & E & Hl & Hp & Hs & Hrest & Hx & Ho & _ & Hst & _);
    [destruct Hcan; by split|done|done|exact Hg|done|] end.
  exists b', w'. split; [exact E|]. exists id, tr. cbv zeta. split; [exact Hl|]. split; [exact Hp|]. split; [exact Hs|]. split; [exact Hrest|].
  split; [|split; [|exact Hx]].
  - rewrite Hst. apply on_book_update_spec in Hup as (_ & Hlast & _). exact Hlast.
  - rewrite Ho. unfold get_order, add_order. cbn [order_id tracked _orders set_strategy set_stats record_book_and_strategy].
    rewrite Hnew. by rewrite lookup_insert_eq.
Qed.

(** The message is one for the book, and the book takes it. *)
Definition book_takes (m : Message) (k k' : MarketState) : Prop :=
  match msg m with
  | PSnapshot s => apply_snapshot k s = (Ok tt, k')
  | PDelta d => apply_delta k d = Some (Ok tt, k')
  | _ => False
  end.

(** Everything but the book and its numbering. *)
Lemma check_sequence_rest m b b1 :
  check_sequence m b = Some b1 -> exists i n, b1 = set_sequence i n b.
Proof.
  unfold check_sequence. destruct b. repeat case_match; intros [= <-]; eauto.
Qed.

(** ** Properties *)

(** C13. A signal becomes an order: take a book message that passes the sequence check
    and that the book takes, and let the strategy signal on the new book and the
    current exposure.  If connections and writes succeed, the signer signs, the
    client's buffer is empty when it is connected, the position and the unconfirmed
    fills together fit [int64_t], also with the new fill, and the server answers the
    request with an order response under an order id the bot does not know (a complete
    response none of whose prefixes the parser refuses, in any cut into reads), then
    handling the message returns and the session goes on; exactly one POST reached
    the server, the order of that signal for the bot's ticker with a client id; the
    strategy remembers the order's time; the tracker holds the order under the
    exchange's id with its request, filled or cancelled as reported; and the exposure
    moves by the reported fill, so that the next signal is judged against it. *)
Theorem signal_becomes_order env exp m received t_rx t_decoded b b1 book w sig s' data parsed filled rs :
  check_sequence m b = Some b1 -> book_takes m (_book b) book ->
  on_book_update exp (_strategy b) book (exposure b) (env_clock env (ticks w)) = Some (Some sig, s') ->
  can_order env b -> answers_order data parsed filled -> delivers (Answer data :: rs) (inbox w) ->
  _orders b !! resp_order_id parsed = None -> gross b <= INT64_MAX ->
  in_i64 (default 0 (_unconfirmed_fills b !! resp_order_id parsed) + fill_of sig filled) ->
  exists received' b' w',
    handle_message env exp m received t_rx t_decoded b w = Some ((true, received'), b', w') /\
    (is_snapshot m = true -> received' = true) /\
    order_placed b w (env_clock env (ticks w)) sig parsed filled rs b' w'.
Proof.
  intros Hseq Htake Hup Hcan Ha Hin Hnew Hg Hr. destruct (check_sequence_rest _ _ _ Hseq) as (i & n & ->).
  destruct (trade_places env exp t_rx t_decoded (set_book book (set_sequence i n b)) w sig s' data parsed filled rs)
    as (b' & w' & E & Hplaced); [exact Hup|by destruct Hcan; split|done..|].
  unfold handle_message, book_takes, is_snapshot in *. unfold bind at 1, get. rewrite Hseq. unfold bind at 1, modify.
  destruct (msg m) as [|s|d|f]; try done.
  - cbn [_book set_sequence]. rewrite Htake. exists (received || true), b', w'. unfold after_book, bind, modify. rewrite E.
    split; [done|]. split; [by rewrite orb_true_r|exact Hplaced].
  - cbn [_book set_sequence]. rewrite Htake. exists received, b', w'. unfold after_book, bind, modify. rewrite E.
    split; [done|]. split; [done|exact Hplaced].
Qed.

(** ** A sample *)

(** The sample answers are complete responses. *)
Lemma http_answer_ok d :
  Z.of_nat (length d) <= kMaxHttpBodyBytes ->
  Z.of_nat (length (head_of 200 (lit "OK") [content_length_line (Z.of_nat (length d))]) + 4) <= kMaxHttpHeaderBytes ->
  reply_ok (Answer (http_answer d)).
Proof.
  intros H1 H2. assert (http_answer d = content_length_message 200 (lit "OK") d) as ->.
  { unfold content_length_message, http_message, HttpResponse.status_line, joined, content_length_line, http_answer.
    cbn [map concat]. by rewrite app_nil_r, <- !app_assoc. }
  apply content_length_answer; [lia|by repeat constructor|done|done].
Qed.

(** A network that works, a minute after the strategy has started. *)
Definition flow_env : NetEnv :=
  {| env_resolve := fun _ => Ok (reachable_at 3); env_ssl := fun _ => working_ssl; env_write := fun _ => None;
     env_poll := fun _ => false; env_clock := fun _ => 61 * kSecond; env_timestamp := fun _ => 1; env_encode_block := id;
     env_order := fixed_order; env_order_perm := fixed_order_perm |}.

(** The bot of the samples, warmed up, and a snapshot in which the price has dropped. *)
Definition flow_bot : Bot := set_strategy warmed_up sample_bot.

Definition flow_message : Message :=
  {| msg_type := lit "orderbook_snapshot"; sid := 1; seq := 2;
     msg := PSnapshot {| snap_market_ticker := lit "T"; snap_market_id := lit "id";
                         yes_dollars_fp := [(lit "0.24", lit "10.00")]; no_dollars_fp := [(lit "0.74", lit "10.00")] |} |}.

Definition flow_response : OrderResponse :=
  {| resp_order_id := lit "o1"; fill_count := lit "1.00"; remaining_count := lit "0.00"; resp_ts_ms := 7; resp_client_order_id := [] |}.

Lemma flow_answer : answers_order (http_answer order_answer) flow_response 1.
Proof.
  destruct (parse_json order_answer) as [v|e] eqn:E; [|by vm_compute in E].
  exists {| http_status := 200; keep_alive := true; body := order_answer |}, v.
  split; [apply http_answer_ok; by vm_compute|]. split; [by vm_compute|]. split; [exact E|].
  vm_compute in E. injection E as <-. split; by vm_compute.
Qed.

(** The answer arrives byte by byte. *)
Lemma signal_becomes_order_witness :
  exists b' w',
    handle_message flow_env flat_exp flow_message false 0 0 flow_bot (new_world (in_bytes (http_answer order_answer)))
      = Some ((true, true), b', w') /\
    order_placed flow_bot (new_world (in_bytes (http_answer order_answer))) (61 * kSecond) buy_26 flow_response 1 [] b' w'.
Proof.
  pose proof sample_signal as Hs.
  destruct (on_book_update flat_exp warmed_up (sample_book "0.24" "0.74") 0 (61 * kSecond)) as [[r s']|] eqn:E; [|discriminate Hs].
  injection Hs as ->.
  destruct (signal_becomes_order flow_env flat_exp flow_message false 0 0 flow_bot (set_sequence (Some 1) 2 flow_bot)
    (sample_book "0.24" "0.74") (new_world (in_bytes (http_answer order_answer))) buy_26 s'
    (http_answer order_answer) flow_response 1 []) as (received & b' & w' & H1 & H2 & H3).
  - reflexivity.
  - vm_compute. reflexivity.
  - exact E.
  - split; [split; [intros n; vm_compute; reflexivity|intros n; reflexivity]|intros s ts [= <-]; reflexivity|intros H; discriminate H].
  - exact flow_answer.
  - pose proof (delivers_bytes [http_answer order_answer]) as Hd. cbn [map concat] in Hd. rewrite app_nil_r in Hd.
    apply Hd. constructor; [|constructor]. apply http_answer_ok; by vm_compute.
  - vm_compute. reflexivity.
  - clear E. apply Z.leb_le. vm_compute. reflexivity.
  - clear E. split; vm_compute; discriminate.
  - rewrite (H2 eq_refl) in H1. exists b', w'. exact (conj H1 H3).
Defined.
