(* ===== verification/Signals.v ===== *)
(** * Signals: how the program is stopped (main.cpp, trading_bot.cpp)

    Signal dispositions and their delivery, with the handlers [main] installs, and
    what a stop does to the loops of TradingBot.  A signal may arrive between any two
    readings of the clock; the flag [g_running] it clears is [signalled] of
    TradingBot. *)

From stdpp Require Import gmap.
From S2P Require Import Prelude Double CharConv MessageTypes MarketState KalshiDecoder Stream Sockets World Frame WebSocket Strategy TradingBot BotFacts BotRun.

(** ** Dispositions *)

Inductive PosixSignal : Type := SIGINT | SIGTERM | SIGPIPE | SIGOTHER (n : Z).

#[export] Instance PosixSignal_eq_dec : EqDecision PosixSignal.
Proof. solve_decision. Defined.

(** The default action, [SIG_IGN], or a handler, which says what it does to
    [g_running], with or without [SA_RESTART]. *)
Inductive Disposition : Type :=
| SigDefault
| SigIgnore
| SigHandler (handler : bool -> bool) (sa_restart : bool).

Definition Dispositions : Type := PosixSignal -> Disposition.

Definition set_disposition (s : PosixSignal) (d : Disposition) (ds : Dispositions) : Dispositions :=
  fun s' => if bool_decide (s' = s) then d else ds s'.

(** [handle_signal] calls [TradingBot::request_stop], which clears [g_running]. *)
Definition handle_signal (g_running : bool) : bool := false.

(** [struct sigaction sa{}] has no flags, so no [SA_RESTART]. *)
Definition install_signal_handlers (ds : Dispositions) : Dispositions :=
  let sa := SigHandler handle_signal false in
  set_disposition SIGPIPE SigIgnore (set_disposition SIGTERM sa (set_disposition SIGINT sa ds)).

(** ** Delivery *)

(** One signal on the flag; [None]: the default action ends the process. *)
Definition deliver (ds : Dispositions) (s : PosixSignal) (g_running : bool) : option bool :=
  match ds s with
  | SigDefault => None
  | SigIgnore => Some g_running
  | SigHandler handler _ => Some (handler g_running)
  end.

Fixpoint deliver_all (ds : Dispositions) (ss : list PosixSignal) (g_running : bool) : option bool :=
  match ss with
  | [] => Some g_running
  | s :: ss => match deliver ds s g_running with Some g => deliver_all ds ss g | None => None end
  end.

(** Signals with the number of clock readings before each arrives. *)
Abbreviation arrivals := (list (nat * PosixSignal)).

(** The flag that the signals which arrived up to reading [n] leave. *)
Definition g_running_at (ds : Dispositions) (arr : arrivals) (n : nat) : option bool :=
  deliver_all ds (map snd (List.filter (fun a => fst a <=? n)%nat arr)) true.

(** [!g_running], as far as signals clear it. *)
Definition signalled_by (ds : Dispositions) (arr : arrivals) (n : nat) : bool :=
  match g_running_at ds arr n with Some g => negb g | None => false end.

Definition stops (s : PosixSignal) : bool := match s with SIGINT | SIGTERM => true | _ => false end.

(** The signals the program expects. *)
Definition expected_signal (s : PosixSignal) : Prop := match s with SIGOTHER _ => False | _ => True end.

Lemma deliver_installed ds s g :
  expected_signal s -> deliver (install_signal_handlers ds) s g = Some (if stops s then false else g).
Proof. by destruct s. Qed.

Lemma deliver_all_installed ds ss g :
  Forall expected_signal ss -> deliver_all (install_signal_handlers ds) ss g = Some (g && negb (existsb stops ss)).
Proof.
  intros H. revert g. induction H as [|s ss Hs _ IH]; intros g; cbn [deliver_all existsb]; [by rewrite andb_true_r|].
  rewrite deliver_installed by done. rewrite IH. by destruct (stops s), g.
Qed.

Lemma g_running_at_installed ds arr n :
  Forall expected_signal (map snd arr) ->
  g_running_at (install_signal_handlers ds) arr n = Some (negb (existsb stops (map snd (List.filter (fun a => fst a <=? n)%nat arr)))).
Proof.
  intros H. apply deliver_all_installed. rewrite Forall_forall in *. intros s Hs.
  apply list_elem_of_In, in_map_iff in Hs as (a & <- & Ha). apply filter_In in Ha as [Ha _].
  apply H, list_elem_of_In, in_map_iff. by exists a.
Qed.

(** The flag is cleared from the first SIGINT or SIGTERM on, and never set again. *)
Lemma signalled_iff ds arr n :
  Forall expected_signal (map snd arr) ->
  signalled_by (install_signal_handlers ds) arr n = true <-> exists k s, (k, s) ∈ arr /\ (k <= n)%nat /\ stops s = true.
Proof.
  intros H. unfold signalled_by. rewrite g_running_at_installed, negb_involutive, existsb_exists by done. split.
  - intros (s & Hin & Hs). apply in_map_iff in Hin as ([k s'] & <- & Hin). apply filter_In in Hin as [Hin Hle].
    exists k, s'. rewrite list_elem_of_In. split; [done|]. split; [by apply Nat.leb_le|done].
  - intros (k & s & Hin & Hle & Hs). exists s. split; [|done]. apply in_map_iff. exists (k, s). split; [done|].
    apply filter_In. split; [by apply list_elem_of_In|by apply Nat.leb_le].
Qed.

(** ** Stopped loops *)

Section Stopped.
Context (env : NetEnv) (signalled : nat -> bool) (exp : double -> double).

(** The flag is clear: by a signal, or by a malformed book message. *)
Definition stopped (b : Bot) (w : World) : Prop := running b && negb (signalled (ticks w)) = false.

Lemma session_loop_stopped fuel s b w : stopped b w -> session_loop env signalled exp (S fuel) s b w = Some (s, b, w).
Proof. intros H. cbn [session_loop]. unfold bind, is_running. by rewrite H. Qed.

Lemma run_loop_stopped sessions p b w : stopped b w -> run_loop env signalled exp sessions p b w = Some (tt, b, w).
Proof. intros H. destruct sessions; [done|]. cbn [run_loop]. unfold bind, is_running. by rewrite H. Qed.

(** A session that ends stopped is the last one. *)
Lemma run_loop_last se sessions p b w rc b1 w1 :
  ~ stopped b w -> run_session env signalled exp se b w = Some (rc, b1, w1) -> stopped b1 w1 ->
  run_loop env signalled exp (se :: sessions) p b w = Some (tt, b1, w1).
Proof.
  intros Hr Hs Hst. cbn [run_loop]. unfold bind at 1, is_running at 1.
  destruct (_ && _) eqn:E; [|by destruct Hr]. cbn [negb]. unfold bind at 1. rewrite Hs.
  unfold bind, is_running. by rewrite Hst.
Qed.

(** A read that fails when the bot has been stopped ends the session without a word. *)
Lemma failed_read_step s e b w :
  stopped b (advance w) -> session_step env signalled exp s (Unexpected e) b w = Some ((false, s), b, advance w).
Proof. intros H. unfold session_step, bind, now, tick, is_running. by rewrite H. Qed.

(** A wait ends when the signal arrives: one second per reading before it. *)
Lemma wait_until_signal N : (forall n, (N <= n)%nat -> signalled n = true) -> forall k b w,
  exists j w', wait_seconds signalled k b w = Some (tt, b, w') /\ (j <= N - ticks w)%nat /\ (j <= k)%nat /\
    syscalls w' = syscalls w ++ replicate j (SysSleep 1) /\ ticks w' = (ticks w + j)%nat /\ log w' = log w /\ console w' = console w.
Proof.
  intros HN k b. induction k as [|k IH]; intros w; cbn [wait_seconds].
  { exists 0%nat, w. cbn [replicate]. rewrite app_nil_r. repeat split; lia. }
  unfold bind at 1, is_running. destruct (running b && negb (signalled (ticks w))) eqn:E.
  2: { exists 0%nat, w. cbn [replicate]. rewrite app_nil_r. repeat split; lia. }
  assert (ticks w < N)%nat.
  { destruct (Nat.lt_ge_cases (ticks w) N) as [?|Hge]; [done|]. rewrite (HN _ Hge), andb_false_r in E. done. }
  destruct (IH (record_calls [SysSleep 1] (advance w))) as (j & w' & H1 & H2 & Hk & H3 & H4 & H5). exists (S j), w'.
  split; [exact H1|]. cbn [ticks record_calls advance syscalls] in *. rewrite <- app_assoc in H3. repeat split; try lia; [exact H3|apply H5..].
Qed.
End Stopped.

(** ** Properties *)

(** C29. SIGINT and SIGTERM stop the bot promptly, and no expected signal kills it: with
    the handlers of [main] installed, when one of the two arrives after [N] clock
    readings (and SIGPIPE whenever it likes), then from that reading on the session
    loop and the reconnection loop return at once without another effect; a wait
    between sessions sleeps no second after that reading, whatever remains of it; a
    read that fails, with whatever error, ends the session without an error line; and
    no session is started after the one that ran when the signal came.  When a read
    that blocks returns is up to the system. *)
Theorem stop_is_prompt env exp ds arr N sg :
  Forall expected_signal (map snd arr) -> (N, sg) ∈ arr -> stops sg = true ->
  let signalled := signalled_by (install_signal_handlers ds) arr in
  (forall n, g_running_at (install_signal_handlers ds) arr n = Some (negb (signalled n))) /\
  (forall fuel s b w, (N <= ticks w)%nat -> session_loop env signalled exp (S fuel) s b w = Some (s, b, w)) /\
  (forall sessions p b w, (N <= ticks w)%nat -> run_loop env signalled exp sessions p b w = Some (tt, b, w)) /\
  (forall k b w, exists j w', wait_seconds signalled k b w = Some (tt, b, w') /\ (j <= N - ticks w)%nat /\
     syscalls w' = syscalls w ++ replicate j (SysSleep 1) /\ console w' = console w) /\
  (forall s e b w, (N <= ticks w)%nat -> session_step env signalled exp s (Unexpected e) b w = Some ((false, s), b, advance w)) /\
  (forall se sessions p b w rc b1 w1, ~ stopped signalled b w ->
     run_session env signalled exp se b w = Some (rc, b1, w1) -> (N <= ticks w1)%nat ->
     run_loop env signalled exp (se :: sessions) p b w = Some (tt, b1, w1)).
Proof.
  intros Harr Hin Hsg signalled.
  assert (forall n, (N <= n)%nat -> signalled n = true) as HN.
  { intros n Hn. apply signalled_iff; [done|]. by exists N, sg. }
  assert (forall b w, (N <= ticks w)%nat -> stopped signalled b w) as Hst.
  { intros b w Hw. unfold stopped. rewrite HN by done. apply andb_false_r. }
  split; [|split; [|split; [|split; [|split]]]].
  - intros n. unfold signalled, signalled_by. by rewrite g_running_at_installed, negb_involutive by done.
  - intros. apply session_loop_stopped. auto.
  - intros. apply run_loop_stopped. auto.
  - intros k b w. destruct (wait_until_signal signalled N HN k b w) as (j & w' & H1 & H2 & _ & H3 & _ & _ & H4). by exists j, w'.
  - intros s e b w Hw. apply failed_read_step, Hst. cbn. lia.
  - intros se sessions p b w rc b1 w1 Hr Hs Hw. eapply run_loop_last; eauto.
Qed.

(** SIGTERM comes during a wait for a minute: at most five seconds are slept. *)
Lemma stop_is_prompt_witness :
  let arr := [(3%nat, SIGPIPE); (5%nat, SIGTERM)] in
  let ds := install_signal_handlers (fun _ => SigDefault) in
  g_running_at ds arr 4 = Some true /\ g_running_at ds arr 5 = Some false /\
  exists j w', wait_seconds (signalled_by ds arr) 60 sample_bot sample_world = Some (tt, sample_bot, w') /\ (j <= 5)%nat /\
    syscalls w' = replicate j (SysSleep 1).
Proof.
  intros arr ds.
  destruct (stop_is_prompt sample_env flat_exp (fun _ => SigDefault) arr 5 SIGTERM) as (_ & _ & _ & H & _).
  - repeat constructor.
  - right. left.
  - reflexivity.
  - split; [reflexivity|]. split; [reflexivity|]. destruct (H 60%nat sample_bot sample_world) as (j & w' & H1 & H2 & H3 & _).
    exists j, w'. split; [exact H1|]. split; [exact H2|]. exact H3.
Defined.

(** Without the handlers each of the three signals ends the process. *)
Example default_kills : map (fun s => deliver (fun _ => SigDefault) s true) [SIGINT; SIGTERM; SIGPIPE] = [None; None; None].
Proof. done. Qed.
