(* ===== verification/Main.v ===== *)
(** * Main: the program's entry point (main.cpp)

    [main] with its two uses, trading a market and moving funds between exchange
    shards, over the same world as the rest: credentials come from the environment,
    OpenSSL is the parameter of KalshiAuth, and the sessions the network offers are a
    list. *)

From stdpp Require Import gmap.
From S2P Require Import Prelude Double FixedPoint CharConv JsonLexer JsonParser MessageTypes KalshiMessages Stream Sockets World HttpResponse KalshiAuth HttpClient Trackers Latency Strategy TradingBot BotFacts BotRun Signals.

Definition kDefaultTicker : bytes := lit "KXPRESNOMD-28-LC".
Definition kBalancePath : bytes := lit "/trade-api/v2/portfolio/balance".
Definition kShardTransferPath : bytes := lit "/trade-api/v2/portfolio/intra_exchange_instance_transfer".

(** How the process ends: an exit status, [std::terminate] on an exception that is not
    caught, or a signed overflow. *)
Inductive Outcome : Type :=
| Exit (code : Z)
| Terminate
| Undefined.

(** ** std::stoi and std::stoll *)

Inductive StoError : Type := InvalidArgument | OutOfRange.

(** [isspace] in the C locale. *)
Definition c_isspace (c : byte) : bool := Byte.eqb c " "%byte || ((9 <=? bz c) && (bz c <=? 13)).

Fixpoint skip_spaces (s : bytes) : bytes :=
  match s with c :: s' => if c_isspace c then skip_spaces s' else s | [] => [] end.

(** The number at the start of [s]: white space, a sign and digits; what follows is
    ignored. *)
Definition sto (lo hi : Z) (s : bytes) : expected StoError Z :=
  let s := skip_spaces s in
  let '(neg, s) := match s with
                   | c :: s' => if Byte.eqb c "-"%byte then (true, s') else if Byte.eqb c "+"%byte then (false, s') else (false, s)
                   | [] => (false, [])
                   end in
  let '(v, n) := scan_digits 10 s 0 0 in
  let v := if neg then - v else v in
  if (n =? 0)%nat then Unexpected InvalidArgument
  else if (v <? lo) || (hi <? v) then Unexpected OutOfRange
  else Ok v.

Definition stoi : bytes -> expected StoError Z := sto (-2147483648) 2147483647.
Definition stoll : bytes -> expected StoError Z := sto INT64_MIN INT64_MAX.

Example sto_samples :
  stoi (lit " -3x") = Ok (-3) /\ stoi (lit "+0") = Ok 0 /\ stoi (lit "x") = Unexpected InvalidArgument /\
  stoi (lit "2147483648") = Unexpected OutOfRange /\ stoll (lit "2147483648") = Ok 2147483648.
Proof. by vm_compute. Qed.

(** ** Moving funds *)

Definition transfer_body (amount shard : Z) : bytes :=
  lit "{" ++ quoted (lit "source") ++ lit ":" ++ quoted (lit "event_contract") ++ lit "," ++
  quoted (lit "destination") ++ lit ":" ++ quoted (lit "event_contract") ++ lit "," ++
  quoted (lit "amount") ++ lit ":" ++ fmt_int amount ++ lit "," ++
  quoted (lit "source_exchange_shard") ++ lit ":0," ++
  quoted (lit "destination_exchange_shard") ++ lit ":" ++ fmt_int shard ++ lit "}".

(** [a * b] in [int64_t]; [None]: the product leaves the type. *)
Definition i64_mul (a b : Z) : option Z := 
  if (INT64_MIN <=? a * b) && (a * b <=? INT64_MAX) then Some (a * b) else None.

Section Main.
Variable env : NetEnv.
Variable signalled : nat -> bool.
Variable exp : double -> double.
Variable o : OpenSsl.

Definition print_balance : M HttpClient unit :=
  let% balance := request_json env (lit "GET") kBalancePath [] in
  match balance with
  | Ok v => println (lit "Balance: " ++ to_json_string v)
  | Unexpected e => eprintln (lit "Balance request failed: " ++ e)
  end.

(** The part of [fund_shard] after the first balance, for an amount in centicents. *)
Definition transfer (amount shard : Z) : M HttpClient Outcome :=
  let% response := request_json env (lit "POST") kShardTransferPath (transfer_body amount shard) in
  match response with
  | Unexpected e => let% _ := eprintln (lit "Transfer request failed: " ++ e) in ret (Exit 1)
  | Ok v =>
    let% _ := println (lit "Transfer response: " ++ to_json_string v) in
    let% _ := sleep_for 2 in
    let% _ := print_balance in
    ret (Exit 0)
  end.

(** [fund_shard] on its client, whose socket is destroyed on the way out. *)
Definition fund_shard_on (shard dollars : Z) : M HttpClient Outcome :=
  let% _ := print_balance in
  match i64_mul dollars 10000 with
  | None => ret Undefined
  | Some amount =>
    let% out := transfer amount shard in
    let% _ := reset_tls in
    ret out
  end.

Definition fund_shard {S} (signer : Signer) (shard dollars : Z) : M S Outcome :=
  local (new_http_client kKalshiHost (Some signer)) (fund_shard_on shard dollars).

(** ** Trading *)

(** The part of [main] that trades, on its bot.  [None] when the offered sessions are
    used up before the bot is stopped. *)
Definition trade_until_stopped (sessions : list SessionEnv) : M Bot Outcome :=
  let% _ := run env signalled exp sessions in
  let% go := is_running signalled in
  if go then fun _ _ => None
  else
    let% b := get in
    let% _ := println (lit "Shutting down. Final position in " ++ _ticker b ++ lit ": " ++ fmt_int (position b)) in
    let% _ := print_latency_summary in
    let% _ := zoom _http set_http reset_tls in
    ret (Exit 0).

(** [args] are the arguments after the program's name. *)
Definition main_trades (args : list bytes) (signer : Signer) (sessions : list SessionEnv) : M unit Outcome :=
  local (new_bot (default kDefaultTicker (head args)) signer default_config) (trade_until_stopped sessions).

(** The part of [main] after the signer is made. *)
Definition main_with (args : list bytes) (signer : Signer) (sessions : list SessionEnv) : M unit Outcome :=
  match args with
  | [flag; shard; dollars] =>
    if bytes_eqb flag (lit "--fund-shard") then
      match stoi shard, stoll dollars with
      | Ok shard, Ok dollars => fund_shard signer shard dollars
      | _, _ => ret Terminate
      end
    else main_trades args signer sessions
  | _ => main_trades args signer sessions
  end.

Definition main (args : list bytes) (key_id_env key_path_env : option bytes) (sessions : list SessionEnv) : M unit Outcome :=
  match load_credentials_from_env key_id_env key_path_env with
  | Unexpected e => let% _ := eprintln (lit "Failed to load credentials: " ++ e) in ret (Exit 1)
  | Ok credentials =>
    match from_credentials o credentials with
    | Unexpected e => let% _ := eprintln (lit "Failed to load private key: " ++ e) in ret (Exit 1)
    | Ok signer => main_with args signer sessions
    end
  end.
End Main.

(** The whole of [main]: the handlers it installs first decide what the signals that
    arrive do. *)
Definition program (env : NetEnv) (exp : double -> double) (o : OpenSsl) (arr : arrivals) (args : list bytes)
    (key_id_env key_path_env : option bytes) (sessions : list SessionEnv) : M unit Outcome :=
  let ds := install_signal_handlers (fun _ => SigDefault) in
  main env (signalled_by ds arr) exp o args key_id_env key_path_env sessions.

(** ** Requests on the wire *)

Lemma print_balance_trace env c w u c' w' :
  print_balance env c w = Some (u, c', w') -> exists tr, log w' = log w ++ tr /\ sends (lit "GET") kBalancePath [] tr.
Proof.
  unfold print_balance. intros H. apply bind_Some in H as (r & c1 & w1 & E & H).
  apply request_json_sends in E as (tr & Hl & Hs & _). exists tr. split; [|done].
  rewrite <- Hl. by destruct r; injection H as _ _ <-.
Qed.

(** What [transfer] sends: the transfer, and a balance request after its response. *)
Lemma transfer_trace env amount shard c w out c' w' :
  transfer env amount shard c w = Some (out, c', w') ->
  exists tr1 tr2, log w' = log w ++ tr1 ++ tr2 /\
    sends (lit "POST") kShardTransferPath (transfer_body amount shard) tr1 /\ sends (lit "GET") kBalancePath [] tr2 /\
    (deliveries tr1 <= 1)%nat /\ (out = Exit 0 /\ deliveries tr1 = 1%nat \/ out = Exit 1 /\ tr2 = []).
Proof.
  unfold transfer. intros H. apply bind_Some in H as (r & c1 & w1 & E & H).
  apply request_json_sends in E as (tr1 & Hl1 & Hs1 & Hle & Hone). exists tr1. destruct r as [v|e].
  - do 2 run_one H. apply bind_Some in H as (u & c2 & w2 & E & H). injection H as <- _ <-.
    apply print_balance_trace in E as (tr2 & Hl2 & Hs2). exists tr2. rewrite Hl2. cbn [log advance print_line record_calls].
    rewrite Hl1, <- app_assoc. split; [done|]. split; [done|]. split; [done|]. split; [done|]. left. auto.
  - run_one H. injection H as <- _ <-. exists []. cbn [log print_line]. rewrite Hl1, app_nil_r.
    split; [done|]. split; [done|]. split; [by intros data ok Hin; apply not_elem_of_nil in Hin|]. auto.
Qed.

(** ** Descriptors *)

Lemma balanced_print_balance env : balanced (print_balance env).
Proof. pose proof balanced_request_json. unfold print_balance. balance. Qed.

Lemma balanced_transfer env amount shard : balanced (transfer env amount shard).
Proof. pose proof balanced_request_json. pose proof balanced_print_balance. unfold transfer. balance. Qed.

Lemma reset_tls_closed c w u c' w' : reset_tls c w = Some (u, c', w') -> client_fds c' = [].
Proof. intros H. by apply reset_tls_spec in H as (-> & _). Qed.

Lemma fund_shard_closed env signer shard dollars (u u' : unit) w out w' :
  fund_shard env signer shard dollars u w = Some (out, u', w') ->
  out = Undefined \/ (out = Exit 0 \/ out = Exit 1) /\ fds w' ≡ₚ fds w.
Proof.
  unfold fund_shard, local. destruct (fund_shard_on _ _ _ _ _) as [[[a c1] w1]|] eqn:H; [|done]. intros [= -> <- <-].
  unfold fund_shard_on in H. apply bind_Some in H as (x & c2 & w2 & E & H).
  apply (balanced_print_balance _ _ _ _ _ _ (fds w)) in E; [|done].
  destruct (i64_mul dollars 10000); [right|left; by injection H]. apply bind_Some in H as (out1 & c3 & w3 & E1 & H).
  apply bind_Some in H as (y & c4 & w4 & E2 & H). injection H as -> <- <-. split.
  - apply transfer_trace in E1 as (_ & _ & _ & _ & _ & _ & [[? _]|[? _]]); auto.
  - apply (balanced_transfer _ _ _ _ _ _ _ _ (fds w)) in E1; [|done]. pose proof (reset_tls_closed _ _ _ _ _ E2) as Hc.
    apply (balanced_reset _ _ _ _ _ (fds w)) in E2; [|done]. by rewrite Hc in E2.
Qed.

Lemma println_all_quiet {S} ls : forall (c : S) w u c' w',
  println_all ls c w = Some (u, c', w') -> c' = c /\ syscalls w' = syscalls w.
Proof.
  induction ls as [|l ls IH]; intros c w u c' w' H; cbn [println_all] in H; [by injection H as _ <- <-|].
  run_one H. apply IH in H as [-> ->]. done.
Qed.

Lemma trade_until_stopped_closed env signalled exp sessions tk signer config w out b' w' :
  trade_until_stopped env signalled exp sessions (new_bot tk signer config) w = Some (out, b', w') ->
  out = Exit 0 /\ fds w' ≡ₚ fds w.
Proof.
  unfold trade_until_stopped. intros H. apply bind_Some in H as (ds & b1 & w1 & E & H).
  apply (respects_run env signalled exp same_descriptors) in E. specialize (E (fds w) ltac:(done)). cbn [fst snd] in E.
  run_one H. destruct (_ && _); [done|]. do 2 run_one H. apply bind_Some in H as (u & b2 & w2 & E2 & H).
  unfold print_latency_summary in E2. do 2 run_one E2. destruct (summaries _) as [ls|]; [|done].
  apply println_all_quiet in E2 as [-> Hs]. apply bind_Some in H as (u2 & b3 & w3 & E3 & H). injection H as <- <- <-.
  split; [done|]. unfold zoom in E3. destruct (reset_tls _ _) as [[[u3 c] w4]|] eqn:E4; [|done]. injection E3 as _ <- <-.
  pose proof (reset_tls_closed _ _ _ _ _ E4) as Hc. apply (balanced_reset _ _ _ _ _ (fds w)) in E4; [by rewrite Hc in E4|].
  unfold fds in *. by rewrite Hs.
Qed.

Lemma main_with_exits env signalled exp args signer sessions w out u w' :
  main_with env signalled exp args signer sessions tt w = Some (out, u, w') ->
  (forall code, out = Exit code -> (code = 0 \/ code = 1) /\ fds w' ≡ₚ fds w) /\ (out = Terminate -> w' = w).
Proof.
  assert (main_trades env signalled exp args signer sessions tt w = Some (out, u, w') -> out = Exit 0 /\ fds w' ≡ₚ fds w) as Ht.
  { unfold main_trades, local. destruct (trade_until_stopped _ _ _ _ _ _) as [[[x b'] w1]|] eqn:E; [|done].
    intros [= -> _ <-]. by eapply trade_until_stopped_closed. }
  unfold main_with. intros H. repeat case_match; try (apply Ht in H as [-> ?]; split; [intros code [= <-]; auto|done]).
  - apply fund_shard_closed in H as [->|[Ho Hf]]; [done|]. split; [|by destruct Ho as [->| ->]].
    intros code ->. destruct Ho as [[= <-]|[= <-]]; auto.
  - injection H as <- _ <-. done.
  - injection H as <- _ <-. done.
Qed.

(** ** Properties *)

(** C27. Funds move at most once: whatever the network does, a run of [fund_shard] gets
    at most one POST request to the server, every POST it tries to send is the
    transfer of [dollars * 10000] centicents to the shard, and it exits with status 0
    only after the transfer was delivered once; the amount is undefined exactly when
    it does not fit 64 bits, and then nothing is posted. *)
Theorem transfer_at_most_once env signer shard dollars u w out u' w' :
  fund_shard env signer shard dollars (S := unit) u w = Some (out, u', w') ->
  exists tr, log w' = log w ++ tr /\ (posts tr <= 1)%nat /\ (out = Exit 0 -> posts tr = 1%nat) /\
    (out = Undefined <-> ~ in_i64 (dollars * 10000)) /\ (out = Undefined -> posts tr = 0%nat) /\
    (forall data ok, EvSend data ok ∈ tr -> starts_with data (lit "POST ") = true ->
       exists host auth, data = request_text host auth (lit "POST") kShardTransferPath (transfer_body (dollars * 10000) shard)).
Proof.
  unfold fund_shard, local. destruct (fund_shard_on _ _ _ _ _) as [[[a c1] w1]|] eqn:H; [|done]. intros [= -> <- <-].
  unfold fund_shard_on in H. apply bind_Some in H as (x & c2 & w2 & E & H).
  apply print_balance_trace in E as (tr0 & Hl0 & Hs0). pose proof (sends_get_posts _ _ _ Hs0) as Hp0.
  unfold i64_mul in H. unfold in_i64. destruct (Z.leb_spec INT64_MIN (dollars * 10000)), (Z.leb_spec (dollars * 10000) INT64_MAX);
    cbn [andb] in H.
  2-4: injection H as <- <- <-; exists tr0; rewrite Hp0; split; [done|]; split; [lia|]; split; [done|]; split; [split; [lia|done]|];
       split; [done|]; intros data ok Hin Hpost; destruct (sends_get_no_post _ _ _ _ _ Hs0 Hin Hpost).
  apply bind_Some in H as (out1 & c3 & w3 & E & H). apply bind_Some in H as (y & c4 & w4 & E2 & H). injection H as -> <- <-.
  apply reset_tls_spec in E2 as (_ & Hl2 & _). apply transfer_trace in E as (tr1 & tr2 & Hl1 & Hs1 & Hs2 & Hle & Hout).
  exists (tr0 ++ tr1 ++ tr2). rewrite Hl2, Hl1, Hl0, <- app_assoc. split; [done|].
  rewrite !posts_app, Hp0, (sends_post_posts _ _ _ Hs1), (sends_get_posts _ _ _ Hs2). split; [lia|].
  split; [intros ->; destruct Hout as [[_ ?]|[? _]]; [lia|done]|].
  split; [split; [intros ->; destruct Hout as [[? _]|[? _]]; done|lia]|].
  split; [intros ->; destruct Hout as [[? _]|[? _]]; done|]. intros data ok Hin Hpost. rewrite !elem_of_app in Hin.
  destruct Hin as [Hin|[Hin|Hin]]; [|by eapply Hs1|]; exfalso; eapply sends_get_no_post; [|exact Hin|exact Hpost| |exact Hin|exact Hpost]; eassumption.
Qed.

(** What [main] needs to start: both variables set and not empty, and a key file that
    opens and parses. *)
Definition setup_ok (o : OpenSsl) (key_id_env key_path_env : option bytes) : bool :=
  match key_id_env, key_path_env with
  | Some (_ :: _), Some (c :: p) => BIO_new_file o (c :: p) && match PEM_read_bio_PrivateKey o (c :: p) with Some _ => true | None => false end
  | _, _ => false
  end.

(** C28. The program ends cleanly: when [main] returns, its status is 0 or 1 and every
    descriptor it opened is closed; without credentials or a key it prints one error
    line and returns 1 before it touches the network, and an argument that is not a
    number ends it before anything happened. *)
Theorem main_exits_cleanly env signalled exp o args key_id_env key_path_env sessions w out u w' :
  main env signalled exp o args key_id_env key_path_env sessions tt w = Some (out, u, w') ->
  (forall code, out = Exit code -> (code = 0 \/ code = 1) /\ fds w' ≡ₚ fds w) /\ (out = Terminate -> w' = w) /\
  (setup_ok o key_id_env key_path_env = false ->
   out = Exit 1 /\ exists line, w' = print_line (Stderr, line) w).
Proof.
  unfold main. destruct (load_credentials_from_env _ _) as [cred|e] eqn:El.
  2: { intros [= <- _ <-]. split; [intros code [= <-]; auto|]. split; [done|eauto]. }
  destruct (from_credentials o cred) as [signer|e] eqn:Ec.
  2: { intros [= <- _ <-]. split; [intros code [= <-]; auto|]. split; [done|eauto]. }
  intros H. apply main_with_exits in H as [Hexit Hterm]. split; [done|]. split; [done|]. intros Hs. exfalso.
  destruct key_id_env as [[|a id]|], key_path_env as [[|b p]|]; cbn in El; try done. injection El as <-.
  unfold from_credentials, setup_ok in *. cbn [private_key_path] in Ec.
  destruct (BIO_new_file o (b :: p)); [|done]. by destruct (PEM_read_bio_PrivateKey o (b :: p)).
Qed.

(** ** Samples *)

Definition sample_args (dollars : string) : list bytes := map lit ["--fund-shard"%string; "3"%string; dollars].

Definition answer (status : string) (body : bytes) : expected bytes bytes :=
  Ok (lit "HTTP/1.1 " ++ lit status ++ kCrlf ++ lit "Content-Length: " ++ fmt_uint (Z.of_nat (length body)) ++ kCrlf ++ kCrlf ++ body).

Definition balance_answer : expected bytes bytes := answer "200 OK" (json_text "{'balance':100}").

Definition funded_world (transfer_answer : expected bytes bytes) : World :=
  new_world [balance_answer; transfer_answer; balance_answer].

(** The outcome of [main], what was delivered by POST, and the descriptors left open. *)
Definition main_result (args : list bytes) (w : World) : option (Outcome * nat * list Z) :=
  match main quiet_env (fun _ => false) flat_exp sample_openssl args (Some (lit "k")) (Some (lit "key.pem")) [] tt w with
  | Some (out, _, w') => Some (out, posts (log w'), fds w')
  | None => None
  end.

Example main_moves_funds :
  main_result (sample_args "10") (funded_world (answer "200 OK" (json_text "{'transfer_id':'t'}"))) = Some (Exit 0, 1%nat, []).
Proof. by vm_compute. Qed.

(** The status of the response is not looked at: a transfer that the server rejects
    also ends with status 0. *)
Lemma rejected_transfer_exits_zero :
  main_result (sample_args "10") (funded_world (answer "400 Bad Request" (json_text "{'error':'insufficient'}"))) =
  Some (Exit 0, 1%nat, []).
Proof. by vm_compute. Qed.

(** An amount of dollars that [std::stoll] accepts but whose centicents overflow. *)
Lemma transfer_amount_overflows :
  match main_result (sample_args "1000000000000000") (funded_world balance_answer) with
  | Some (Undefined, n, _) => n = 0%nat | _ => False
  end.
Proof. by vm_compute. Qed.

Lemma transfer_at_most_once_witness :
  exists out u w' tr,
    fund_shard quiet_env sample_signer 3 10 tt (funded_world balance_answer) = Some (out, u, w') /\
    log w' = [] ++ tr /\ (posts tr <= 1)%nat /\ (out = Exit 0 -> posts tr = 1%nat).
Proof.
  assert (match fund_shard quiet_env sample_signer 3 10 tt (funded_world balance_answer) with Some _ => true | None => false end
          = true) as Hs by (by vm_compute).
  destruct (fund_shard quiet_env sample_signer 3 10 tt (funded_world balance_answer)) as [[[out u] w']|] eqn:E; [|discriminate Hs].
  destruct (transfer_at_most_once _ _ _ _ _ _ _ _ _ E) as (tr & Hl & H1 & H2 & _).
  exists out, u, w', tr. split; [reflexivity|]. split; [exact Hl|]. split; [exact H1|exact H2].
Defined.

(** The sample run of BotRun, stopped by a signal when the server has closed the
    session. *)
Lemma main_exits_cleanly_witness :
  exists u w',
    main sample_env (fun n => (22 <=? n)%nat) flat_exp sample_openssl [lit "T"] (Some (lit "k")) (Some (lit "key.pem"))
      [sample_session] tt sample_world = Some (Exit 0, u, w') /\ fds w' ≡ₚ fds sample_world.
Proof.
  assert (match main sample_env (fun n => (22 <=? n)%nat) flat_exp sample_openssl [lit "T"] (Some (lit "k")) (Some (lit "key.pem"))
            [sample_session] tt sample_world with Some (Exit 0, _, _) => true | _ => false end = true) as Hs by (by vm_compute).
  destruct (main _ _ _ _ _ _ _ _ _ _) as [[[out u] w']|] eqn:E; [|discriminate Hs].
  destruct (main_exits_cleanly _ _ _ _ _ _ _ _ _ _ _ _ E) as (H & _).
  destruct out as [[|p|p]| |]; try discriminate Hs. exists u, w'. split; [reflexivity|]. exact (proj2 (H 0 eq_refl)).
Defined.

(** The same with a SIGINT: the loop ends before it reads the fill of its order. *)
Example sigint_ends_program :
  (fun '(out, _, w) => (out, fds w, console w !! 6%nat)) <$>
    program sample_env flat_exp sample_openssl [(22%nat, SIGINT)] [lit "T"] (Some (lit "k")) (Some (lit "key.pem"))
      [sample_session] tt sample_world
  = Some (Exit 0, [], Some (Stdout, lit "Shutting down. Final position in T: 0")).
Proof. by vm_compute. Qed.
