(* ===== verification/ProgramStream.v ===== *)
(** * ProgramStream: the program as a function of its byte streams

    SessionStream shows that the reads of a WebSocket session after the handshake do
    not matter beyond the bytes they carry.  Here the same is shown for the replies of
    the HTTPS server, as HttpReplies defines them, by relational triples over the monad
    that are composed bind by bind, up to the whole of [main]. *)

From stdpp Require Import gmap.
From S2P Require Import Prelude Double CharConv JsonLexer JsonParser MessageTypes MarketState KalshiMessages KalshiDecoder Stream Sockets World Frame WebSocket HttpResponse KalshiAuth HttpClient HttpReplies Trackers Latency Strategy TradingBot BotFacts BotRun SessionStream OrdersOnWire OrderFlow Signals Main.

(** ** Relational triples *)

(** Two worlds that differ only in how the same replies are cut into reads. *)
Definition same_world (w1 w2 : World) : Prop :=
  exists rs, delivers rs (inbox w1) /\ delivers rs (inbox w2) /\ w2 = set_inbox (inbox w2) w1.

(** From a state with [P], in two such worlds, both runs wait, or both return the
    same result and state, which are in [Q], and two such worlds. *)
Definition uniform {S A} (P : S -> Prop) (Q : A -> S -> Prop) (m : M S A) : Prop :=
  forall c w1 w2, P c -> same_world w1 w2 ->
  match m c w1, m c w2 with
  | Some (a1, c1, v1), Some (a2, c2, v2) => a1 = a2 /\ c1 = c2 /\ Q a1 c1 /\ same_world v1 v2
  | None, None => True
  | _, _ => False
  end.

Lemma same_world_fields w1 w2 : same_world w1 w2 -> log w2 = log w1 /\ ticks w2 = ticks w1.
Proof. intros (rs & _ & _ & ->). done. Qed.

Section Uniform.
Context {S : Type}.
Implicit Types P : S -> Prop.

Lemma uniform_bind {A B} P (Q : A -> S -> Prop) (R : B -> S -> Prop) (m : M S A) (k : A -> M S B) :
  uniform P Q m -> (forall a, uniform (Q a) R (k a)) -> uniform P R (bind m k).
Proof.
  intros Hm Hk c w1 w2 Hc Hw. specialize (Hm c w1 w2 Hc Hw). unfold bind.
  destruct (m c w1) as [[[a1 c1] v1]|], (m c w2) as [[[a2 c2] v2]|]; try done.
  destruct Hm as (<- & <- & Hq & Hv). by apply Hk.
Qed.

Lemma uniform_weaken {A} P P' (Q Q' : A -> S -> Prop) (m : M S A) :
  uniform P' Q' m -> (forall c, P c -> P' c) -> (forall a c, Q' a c -> Q a c) -> uniform P Q m.
Proof.
  intros Hm HP HQ c w1 w2 Hc Hw. specialize (Hm c w1 w2 (HP c Hc) Hw).
  destruct (m c w1) as [[[a1 c1] v1]|], (m c w2) as [[[a2 c2] v2]|]; try done.
  destruct Hm as (-> & -> & Hq & Hv). auto.
Qed.

Lemma uniform_ret {A} P (Q : A -> S -> Prop) a : (forall c, P c -> Q a c) -> uniform P Q (ret a).
Proof. intros H c w1 w2 Hc Hw. by repeat (split; [by auto|]). Qed.

Lemma uniform_get P : uniform P (fun a c => a = c /\ P c) get.
Proof. by intros c w1 w2 Hc Hw. Qed.

Lemma uniform_modify P (Q : unit -> S -> Prop) f : (forall c, P c -> Q tt (f c)) -> uniform P Q (modify f).
Proof. intros H c w1 w2 Hc Hw. split; [done|]. auto. Qed.

Lemma uniform_stuck {A} P (Q : A -> S -> Prop) : uniform P Q (fun _ _ => None).
Proof. by intros c w1 w2. Qed.

(** The operations of the environment see the log and the clock only. *)
Lemma uniform_tick {A} P (f : nat -> A) : uniform P (fun _ => P) (tick f).
Proof.
  intros c w1 w2 Hc Hw. unfold tick. rewrite (proj2 (same_world_fields _ _ Hw)). split; [done|]. split; [done|]. split; [done|].
  destruct Hw as (rs & H1 & H2 & ->). by exists rs.
Qed.

Lemma uniform_print P l : uniform P (fun _ => P) (print l).
Proof. intros c w1 w2 Hc (rs & H1 & H2 & ->). do 3 (split; [done|]). by exists rs. Qed.

Lemma uniform_sys P cs : uniform P (fun _ => P) (sys cs).
Proof. intros c w1 w2 Hc (rs & H1 & H2 & ->). do 3 (split; [done|]). by exists rs. Qed.

Lemma uniform_sleep P n : uniform P (fun _ => P) (sleep_for n).
Proof. intros c w1 w2 Hc (rs & H1 & H2 & ->). do 3 (split; [done|]). by exists rs. Qed.

Lemma uniform_connect env P host : uniform P (fun _ => P) (tls_connect env host).
Proof.
  intros c w1 w2 Hc Hw. unfold tls_connect. rewrite (proj1 (same_world_fields _ _ Hw)). destruct (dial _ _ _) as [r cs].
  do 3 (split; [done|]). destruct Hw as (rs & H1 & H2 & ->). by exists rs.
Qed.

Lemma uniform_send env P data : uniform P (fun _ => P) (tls_send env data).
Proof.
  intros c w1 w2 Hc Hw. unfold tls_send. rewrite (proj1 (same_world_fields _ _ Hw)).
  destruct (env_write env _); do 3 (split; [done|]); destruct Hw as (rs & H1 & H2 & ->); by exists rs.
Qed.
End Uniform.

(** A test is the same in both runs. *)
Lemma uniform_case {S A} (P : S -> Prop) (Q : A -> S -> Prop) (test : bool) (m1 m2 : M S A) :
  (test = true -> uniform P Q m1) -> (test = false -> uniform P Q m2) -> uniform P Q (if test then m1 else m2).
Proof. destruct test; auto. Qed.

(** A computation on a part of the state. *)
Lemma uniform_zoom {S T A} (part : T -> S) (put : S -> T -> T) (P : S -> Prop) (m : M S A) :
  (forall s t, part (put s t) = s) -> uniform P (fun _ => P) m ->
  uniform (fun t => P (part t)) (fun _ t => P (part t)) (zoom part put m).
Proof.
  intros Hput Hm t w1 w2 Ht Hw. specialize (Hm (part t) w1 w2 Ht Hw). unfold zoom.
  destruct (m (part t) w1) as [[[a1 c1] v1]|], (m (part t) w2) as [[[a2 c2] v2]|]; try done.
  destruct Hm as (-> & -> & Hq & Hv). by rewrite Hput.
Qed.

Lemma uniform_local {S T A} (s : S) (P : S -> Prop) (P' : T -> Prop) (Q : A -> S -> Prop) (m : M S A) :
  P s -> uniform P Q m -> uniform P' (fun _ => P') (local s m).
Proof.
  intros Hs Hm t w1 w2 Ht Hw. specialize (Hm s w1 w2 Hs Hw). unfold local.
  destruct (m s w1) as [[[a1 c1] v1]|], (m s w2) as [[[a2 c2] v2]|]; try done.
  by destruct Hm as (-> & -> & Hq & Hv).
Qed.

(** ** The HTTP client *)

Definition empty_buffer (c : HttpClient) : Prop := HttpClient._buffer c = [].

(** After an operation that opens a connection or sends on it. *)
Definition ready {A} (r : expected bytes A) (c : HttpClient) : Prop :=
  clean_client c /\ (has_value r = true -> empty_buffer c).

Lemma empty_ready {A} (r : expected bytes A) c : empty_buffer c -> ready r c.
Proof. intros H. split; [by intros _|by intros _]. Qed.


Section Client.
Context (env : NetEnv).

(** A postcondition that is forgotten. *)
Lemma uniform_any {S A} P (Q : A -> S -> Prop) (m : M S A) : uniform P Q m -> uniform P (fun _ _ => True) m.
Proof. intros H. exact (uniform_weaken _ _ _ _ _ H (fun _ Hc => Hc) (fun _ _ _ => I)). Qed.

Lemma uniform_reset P : uniform P (fun _ c => _tls c = None) reset_tls.
Proof.
  unfold reset_tls. eapply uniform_bind; [eapply uniform_any, uniform_get|]. intros c.
  apply (uniform_bind _ (fun _ _ => True)); [|intros _; by apply uniform_modify].
  destruct (_tls c); [apply uniform_sys|by apply uniform_ret].
Qed.

Lemma uniform_close P : uniform P (fun _ => clean_client) reset_tls.
Proof. apply (uniform_weaken P P _ (fun _ c => _tls c = None)); [apply uniform_reset|done|]. intros _. exact closed_clean. Qed.

(** A new connection starts with an empty buffer. *)
Lemma uniform_open P :
  uniform P ready (open_connection env).
Proof.
  unfold open_connection. eapply uniform_bind; [apply uniform_reset|]. intros [].
  apply (uniform_bind _ (fun _ => empty_buffer)); [by apply uniform_modify|]. intros _.
  apply (uniform_bind _ (fun _ => empty_buffer)). { eapply uniform_weaken; [apply uniform_get|done|by intros a c []]. }
  intros c. eapply uniform_bind; [apply uniform_connect|].
  intros [tls|e]; [|apply uniform_ret, empty_ready]. do 2 (apply (uniform_bind _ (fun _ => empty_buffer)); [by apply uniform_modify|intros _]).
  eapply uniform_bind; [apply uniform_tick|]. intros t.
  apply (uniform_bind _ (fun _ => empty_buffer)); [by apply uniform_modify|]. intros _. apply uniform_ret, empty_ready.
Qed.

Lemma uniform_dead P : uniform P (fun _ => P) (idle_connection_is_dead env).
Proof.
  unfold idle_connection_is_dead. eapply uniform_bind; [apply uniform_tick|]. intros t.
  eapply uniform_bind; [apply uniform_get|]. intros c.
  apply uniform_case; intros _; [by apply uniform_ret; intros ? []|].
  eapply uniform_weaken; [apply uniform_tick|by intros ? [_ H]; exact H|done].
Qed.

(** A connection that can be used again has nothing in its buffer. *)
Lemma uniform_usable : uniform clean_client (fun ok c => clean_client c /\ (ok = true -> empty_buffer c)) (usable env).
Proof.
  unfold usable. eapply uniform_bind; [apply uniform_get|]. intros c. apply uniform_case; intros Hc.
  - apply (uniform_bind _ (fun _ c => clean_client c /\ empty_buffer c)).
    + eapply uniform_weaken; [apply (uniform_dead (fun c => clean_client c /\ empty_buffer c))| |done].
      intros c0 [<- H]. split; [done|by apply H].
    + intros dead. apply uniform_ret. by intros c0 [H1 H2].
  - apply uniform_ret. by intros c0 [_ H].
Qed.

Lemma uniform_send_with_retry reused data :
  uniform empty_buffer ready (send_with_retry env reused data).
Proof.
  unfold send_with_retry. eapply uniform_bind; [apply uniform_send|]. intros [u|e]; [apply uniform_ret, empty_ready|].
  apply (uniform_bind _ ready).
  - apply uniform_case; intros _; [|apply uniform_ret, empty_ready]. eapply uniform_bind; [apply uniform_open|].
    intros [o|e']; [|by apply uniform_ret; intros c []].
    apply (uniform_bind _ (fun _ => empty_buffer)).
    + eapply uniform_weaken; [apply uniform_send|intros c [_ H]; by apply H|done].
    + intros r. apply uniform_ret, empty_ready.
  - intros [[u|e']|e']; [|eapply uniform_bind; [apply uniform_reset|]; intros []|]; apply uniform_ret.
    + by intros c [H1 H2].
    + intros c Hc. by split; [apply closed_clean|].
    + by intros c [H1 _].
Qed.

(** Reading takes one reply from each world. *)
Lemma uniform_read : uniform empty_buffer (fun r c => survives r = true -> empty_buffer c) read_response.
Proof.
  intros c w1 w2 Hc (rs & H1 & H2 & Hw). unfold read_response. rewrite Hc.
  destruct H1 as [|r rs i1 inc1 Hok Hcut1 H1]; inversion H2 as [Hi2|r' rs' i2 inc2 _ Hcut2 Hrs2 Hr Hi2]; subst; [done|].
  rewrite (read_reply r i1 inc1), (read_reply r i2 inc2) by done. do 2 (split; [done|]). split.
  - destruct r as [data|data e]; [done|]. cbn [reply_result reply_left]. intros Hs. exfalso.
    specialize (Hok (length data)). rewrite take_ge in Hok by lia. unfold http_step in Hok.
    destruct (parse_http_response data false) as [[p|]|] eqn:E; try done.
    destruct (parse_http_response data true) as [[p|]|] eqn:E'; try done. cbn in Hs. by rewrite (final_closes _ _ E E') in Hs.
  - exists rs. split; [done|]. split; [done|]. done.
Qed.

Lemma uniform_exchange data : uniform clean_client (fun _ => clean_client) (exchange env data).
Proof.
  unfold exchange. eapply uniform_bind; [apply uniform_usable|]. intros reused.
  apply (uniform_bind _ ready).
  { apply uniform_case; intros ->; [|apply uniform_open]. apply uniform_ret. intros c [H1 H2]. apply empty_ready. auto. }
  intros [u|e]; [|apply uniform_ret; by intros c []].
  apply (uniform_bind _ ready).
  { eapply uniform_weaken; [apply uniform_send_with_retry|intros c [_ H]; by apply H|done]. }
  intros [[]|e]; [|apply uniform_ret; by intros c []].
  apply (uniform_bind _ (fun _ => empty_buffer)).
  { eapply uniform_weaken; [apply (uniform_tick empty_buffer)|intros c [_ H]; by apply H|done]. }
  intros t. apply (uniform_bind _ (fun _ => empty_buffer)); [by apply uniform_modify|]. intros _.
  eapply uniform_bind; [apply uniform_read|]. intros resp. eapply uniform_bind; [apply uniform_tick|]. intros t'.
  apply (uniform_bind _ (fun _ c => survives resp = true -> empty_buffer c)); [by apply uniform_modify|]. intros _.
  apply (uniform_bind _ (fun _ => clean_client)); [|intros _; by apply uniform_ret].
  destruct resp as [r|e]; [|apply uniform_close]. apply uniform_case; intros Hk; [|apply uniform_close].
  apply uniform_ret. intros c H _. by apply H.
Qed.

Lemma uniform_request method path content : uniform clean_client (fun _ => clean_client) (request env method path content).
Proof.
  unfold request. apply (uniform_bind _ (fun _ => clean_client)). { eapply uniform_weaken; [apply uniform_get|done|by intros a c []]. }
  intros c. apply (uniform_bind _ (fun _ => clean_client)).
  - destruct (HttpClient._signer c); [|by apply uniform_ret]. eapply uniform_bind; [apply uniform_tick|]. intros ts. by apply uniform_ret.
  - intros [auth|e]; [apply uniform_exchange|by apply uniform_ret].
Qed.

Lemma uniform_request_json method path content :
  uniform clean_client (fun _ => clean_client) (request_json env method path content).
Proof. unfold request_json. eapply uniform_bind; [apply uniform_request|]. intros r. by apply uniform_ret. Qed.

Lemma uniform_idle_for : uniform clean_client (fun _ => clean_client) (idle_for env).
Proof.
  unfold idle_for. eapply uniform_bind; [apply uniform_tick|]. intros t. eapply uniform_bind; [apply uniform_get|].
  intros c. apply uniform_ret. by intros ? [].
Qed.

Lemma uniform_client_connect : uniform clean_client (fun _ => clean_client) (HttpClient.connect env).
Proof.
  unfold HttpClient.connect. eapply uniform_bind; [apply uniform_usable|]. intros ok. apply uniform_case; intros _.
  - apply uniform_ret. by intros c [].
  - eapply uniform_weaken; [apply (uniform_open (fun _ => True))|done|]. by intros r c [].
Qed.
End Client.

(** ** The bot *)

Definition clean_bot (b : Bot) : Prop := clean_client (_http b).

(** A computation of the bot that depends on the replies only. *)
Definition steady {A} (m : M Bot A) : Prop := uniform clean_bot (fun _ => clean_bot) m.

Lemma steady_bind {A B} (m : M Bot A) (k : A -> M Bot B) : steady m -> (forall a, steady (k a)) -> steady (bind m k).
Proof. apply uniform_bind. Qed.

Lemma steady_get {B} (k : Bot -> M Bot B) : (forall b, clean_bot b -> steady (k b)) -> steady (bind get k).
Proof.
  intros H b w1 w2 Hb Hw. exact (H b Hb b w1 w2 Hb Hw).
Qed.

Lemma steady_ret {A} (a : A) : steady (ret a).
Proof. by apply uniform_ret. Qed.

Lemma steady_stuck {A} : steady (fun _ _ => @None (A * Bot * World)).
Proof. apply uniform_stuck. Qed.

Lemma steady_modify f : (forall b, clean_bot b -> clean_bot (f b)) -> steady (modify f).
Proof. intros H. by apply uniform_modify. Qed.

Lemma steady_attempt f : (forall b b', f b = Some b' -> _http b' = _http b) -> steady (attempt f).
Proof.
  intros H b w1 w2 Hb Hw. unfold attempt. destruct (f b) as [b'|] eqn:E; [|done]. do 2 (split; [done|]). split; [|done].
  unfold clean_bot. by rewrite (H _ _ E).
Qed.

Lemma steady_tick {A} (f : nat -> A) : steady (tick f).
Proof. apply uniform_tick. Qed.

Lemma steady_print l : steady (print l).
Proof. apply uniform_print. Qed.

Lemma steady_sys cs : steady (sys cs).
Proof. apply uniform_sys. Qed.

Lemma steady_running signalled : steady (is_running signalled).
Proof. intros b w1 w2 Hb Hw. unfold is_running. by rewrite (proj2 (same_world_fields _ _ Hw)). Qed.

Lemma steady_sleep n : steady (sleep_for n).
Proof. apply uniform_sleep. Qed.

Lemma steady_exposure env : steady (current_exposure env).
Proof.
  intros b w1 w2 Hb Hw. unfold current_exposure. rewrite (proj2 (same_world_fields _ _ Hw)).
  by destruct (exposure_in _ _).
Qed.

Lemma steady_http {A} (m : M HttpClient A) : uniform clean_client (fun _ => clean_client) m -> steady (zoom _http set_http m).
Proof. intros H. by apply (uniform_zoom _http set_http clean_client). Qed.

Lemma steady_response signal req resp : steady (attempt (on_order_response signal req resp)).
Proof. apply steady_attempt. intros b b' H. by apply on_order_response_other in H as (_ & _ & ?). Qed.

Lemma steady_fill f : steady (attempt (on_fill f)).
Proof. apply steady_attempt. intros b b' H. by apply on_fill_other in H as (_ & _ & _ & ?). Qed.

Create HintDb steady.
#[export] Hint Resolve steady_ret steady_stuck steady_sleep steady_exposure steady_tick steady_print steady_sys steady_running : steady.
#[export] Hint Resolve steady_response steady_fill steady_http : steady.
#[export] Hint Resolve uniform_request uniform_request_json uniform_idle_for uniform_client_connect uniform_close : steady.
#[export] Hint Extern 2 (steady (modify _)) => (apply steady_modify; done) : steady.

(** Walks through the binds, matches and tests of a computation. *)
Ltac steady_walk :=
  repeat (first [simple apply steady_get; intros ? ? | simple apply steady_bind; [|intros ?] | case_match]);
  unfold now, current_timestamp_ms, println, eprintln; auto with steady.

Section Bot.
Context (env : NetEnv) (signalled : nat -> bool) (exp : double -> double).

Lemma steady_submit sig t : steady (submit env sig t).
Proof. unfold submit. steady_walk. Qed.
Local Hint Resolve steady_submit : steady.

Lemma steady_trade t1 t2 : steady (trade env exp t1 t2).
Proof. unfold trade. steady_walk. Qed.
Local Hint Resolve steady_trade : steady.

Lemma steady_after_book received r book t1 t2 : steady (after_book env exp received r book t1 t2).
Proof.
  unfold after_book. steady_walk. apply steady_modify. intros b Hb. unfold on_book_error. by case_match.
Qed.
Local Hint Resolve steady_after_book : steady.

Lemma steady_handle m received t1 t2 : steady (handle_message env exp m received t1 t2).
Proof.
  unfold handle_message. apply steady_get. intros b Hb. destruct (check_sequence m b) as [b2|] eqn:Ec; [|steady_walk].
  apply steady_bind; [|intros _; steady_walk]. apply steady_modify. intros _ _. unfold clean_bot.
  revert Ec. unfold check_sequence. repeat case_match; by intros [= <-].
Qed.
Local Hint Resolve steady_handle : steady.

Lemma steady_housekeeping s : steady (housekeeping env s).
Proof. unfold housekeeping, keep_http_warm, print_status. steady_walk. Qed.
Local Hint Resolve steady_housekeeping : steady.

Lemma steady_step s r : steady (session_step env signalled exp s r).
Proof. unfold session_step. steady_walk. Qed.
Local Hint Resolve steady_step : steady.

Lemma steady_loop fuel : forall s, steady (session_loop env signalled exp fuel s).
Proof. induction fuel as [|fuel IH]; intros s; cbn [session_loop]; steady_walk. Qed.
Local Hint Resolve steady_loop : steady.

Lemma steady_session se : steady (run_session env signalled exp se).
Proof. unfold run_session, stream_session. steady_walk. Qed.
Local Hint Resolve steady_session : steady.

Lemma steady_wait n : steady (wait_seconds signalled n).
Proof. induction n as [|n IH]; cbn [wait_seconds]; steady_walk. Qed.
Local Hint Resolve steady_wait : steady.

Lemma steady_run_loop sessions : forall backoff, steady (run_loop env signalled exp sessions backoff).
Proof. induction sessions as [|se sessions IH]; intros backoff; cbn [run_loop]; steady_walk. Qed.
Local Hint Resolve steady_run_loop : steady.

Lemma steady_run sessions : steady (run env signalled exp sessions).
Proof. unfold run. steady_walk. Qed.
End Bot.
#[export] Hint Resolve steady_run : steady.

(** ** The program *)

Section Program.
Context (env : NetEnv) (signalled : nat -> bool) (exp : double -> double) (o : OpenSsl).

Lemma uniform_balance : uniform clean_client (fun _ => clean_client) (print_balance env).
Proof.
  unfold print_balance. eapply uniform_bind; [apply uniform_request_json|]. intros [v|e]; apply uniform_print.
Qed.

Lemma uniform_transfer amount shard : uniform clean_client (fun _ => clean_client) (transfer env amount shard).
Proof.
  unfold transfer. eapply uniform_bind; [apply uniform_request_json|].
  intros [v|e]; (eapply uniform_bind; [apply uniform_print|]); intros ?; [|by apply uniform_ret].
  eapply uniform_bind; [apply uniform_sleep|]. intros ?. eapply uniform_bind; [apply uniform_balance|]. intros ?.
  by apply uniform_ret.
Qed.

Lemma uniform_fund_shard shard dollars : uniform clean_client (fun _ => clean_client) (fund_shard_on env shard dollars).
Proof.
  unfold fund_shard_on. eapply uniform_bind; [apply uniform_balance|]. intros ?.
  destruct (i64_mul _ _); [|by apply uniform_ret]. eapply uniform_bind; [apply uniform_transfer|]. intros out.
  eapply uniform_bind; [apply uniform_close|]. intros ?. by apply uniform_ret.
Qed.

Lemma steady_println_all ls : steady (println_all ls).
Proof. induction ls as [|l ls IH]; cbn [println_all]; steady_walk. Qed.

Lemma steady_trade_until_stopped sessions : steady (trade_until_stopped env signalled exp sessions).
Proof. pose proof steady_println_all. unfold trade_until_stopped, print_latency_summary. steady_walk. Qed.

Lemma uniform_main args id path sessions :
  uniform (fun _ => True) (fun _ _ => True) (main env signalled exp o args id path sessions).
Proof.
  unfold main. destruct (load_credentials_from_env _ _) as [cred|e].
  2: { eapply uniform_bind; [apply uniform_print|]. intros ?. by apply uniform_ret. }
  destruct (from_credentials o cred) as [signer|e].
  2: { eapply uniform_bind; [apply uniform_print|]. intros ?. by apply uniform_ret. }
  assert (uniform (fun _ => True) (fun _ _ => True) (main_trades env signalled exp args signer sessions)) as Htrades.
  { unfold main_trades. eapply uniform_local; [|apply steady_trade_until_stopped]. apply new_client_clean. }
  unfold main_with. destruct args as [|flag [|shard [|dollars [|? ?]]]]; try exact Htrades.
  apply uniform_case; intros _; [|exact Htrades].
  destruct (stoi shard), (stoll dollars); try by apply uniform_ret.
  unfold fund_shard. eapply uniform_local; [|apply uniform_fund_shard]. apply new_client_clean.
Qed.

(** The reads of the sessions do not matter to [main] either. *)
Lemma main_same_wire args id path sessions1 sessions2 u w :
  Forall2 same_wire sessions1 sessions2 ->
  main env signalled exp o args id path sessions1 u w = main env signalled exp o args id path sessions2 u w.
Proof.
  intros Hs. assert (forall b w, run env signalled exp sessions1 b w = run env signalled exp sessions2 b w) as Hrun.
  { intros b w'. by apply same_effect_eq, same_run. }
  assert (forall signer, main_trades env signalled exp args signer sessions1 u w = main_trades env signalled exp args signer sessions2 u w) as Ht.
  { intros signer. unfold main_trades, local, trade_until_stopped, bind. by rewrite Hrun. }
  unfold main. destruct (load_credentials_from_env _ _); [|done]. destruct (from_credentials _ _); [|done].
  unfold main_with. destruct args as [|flag [|shard [|dollars [|? ?]]]]; try apply Ht. by destruct (bytes_eqb _ _).
Qed.
End Program.

(** ** Properties *)

(** C9. Where the program cannot see how its input is cut into reads: take two
    executions of [main] with the same arguments, environment and signals.  Each of
    their WebSocket sessions begins with the same first read, which the code takes as
    the whole handshake response, and carries the same bytes and failures after it;
    their HTTPS server sends the same replies, each a complete response of which the
    parser refuses no prefix (every response with a Content-Length within the limits is
    one, see [content_length_answer]), or bytes with no complete response in them and
    then a failed read.  Apart from that the reads are cut in any two ways.  Then both
    executions end or both wait, with the same outcome, the same requests and connection
    attempts, the same system calls, printed lines and clock readings, and the same
    replies are left.  Without these conditions the cut can matter: see
    [handshake_drops_trailing_bytes] and [header_limit_depends_on_chunking]. *)
Theorem program_ignores_read_boundaries env exp o arr args id path sessions1 sessions2 w1 w2 :
  Forall2 same_wire sessions1 sessions2 -> same_world w1 w2 ->
  match program env exp o arr args id path sessions1 tt w1, program env exp o arr args id path sessions2 tt w2 with
  | Some (out1, _, v1), Some (out2, _, v2) =>
    out1 = out2 /\ log v1 = log v2 /\ syscalls v1 = syscalls v2 /\ console v1 = console v2 /\ ticks v1 = ticks v2 /\
    same_world v1 v2
  | None, None => True
  | _, _ => False
  end.
Proof.
  intros Hs Hw. unfold program. rewrite (main_same_wire _ _ _ _ _ _ _ _ _ _ _ Hs).
  pose proof (uniform_main env (signalled_by (install_signal_handlers (fun _ => SigDefault)) arr) exp o args id path sessions2 tt w1 w2 I Hw) as H.
  destruct (main _ _ _ _ _ _ _ _ tt w1) as [[[out1 u1] v1]|], (main _ _ _ _ _ _ _ _ tt w2) as [[[out2 u2] v2]|]; try done.
  destruct H as (-> & _ & _ & Hv). split; [done|]. pose proof Hv as (rs & _ & _ & Hv'). rewrite Hv'. by rewrite Hv' in Hv.
Qed.

Definition sample_replies : list bytes := [http_answer []; http_answer order_answer; http_answer []; http_answer []].

Lemma sample_replies_ok : Forall (fun d => reply_ok (Answer d) /\ d <> []) sample_replies.
Proof.
  unfold sample_replies. repeat apply Forall_cons_2; [..|done].
  all: split; [apply http_answer_ok; by vm_compute|done].
Qed.

(** The run of the sample with every read of one byte, on both connections. *)
Definition bytewise_world : World := new_world (concat (map in_bytes sample_replies)).

Lemma program_ignores_read_boundaries_witness :
  exists v, program sample_env flat_exp sample_openssl [(22%nat, SIGINT)] [lit "T"] (Some (lit "k")) (Some (lit "key.pem"))
      [byte_by_byte sample_session] tt bytewise_world = Some (Exit 0, tt, v) /\ (console v !! 6%nat) = Some (Stdout, lit "Shutting down. Final position in T: 0").
Proof.
  pose proof (program_ignores_read_boundaries sample_env flat_exp sample_openssl [(22%nat, SIGINT)] [lit "T"] (Some (lit "k")) (Some (lit "key.pem"))
    [sample_session] [byte_by_byte sample_session] sample_world bytewise_world) as H.
  specialize (H ltac:(constructor; [unfold same_wire, wire; vm_compute; reflexivity|constructor])).
  specialize (H ltac:(exists (map Answer sample_replies); split; [exact (delivers_whole _ sample_replies_ok)|split; [|reflexivity]];
    apply delivers_bytes; eapply Forall_impl; [exact sample_replies_ok|by intros d []])).
  pose proof sigint_ends_program as E.
  destruct (program _ _ _ _ _ _ _ _ _ sample_world) as [[[out1 []] v1]|]; [|discriminate E].
  destruct (program _ _ _ _ _ _ _ _ _ bytewise_world) as [[[out2 []] v2]|]; [|destruct H].
  destruct H as (<- & _ & _ & Hc & _). exists v2. rewrite <- Hc. injection E as -> _ Hl. by rewrite Hl.
Defined.
