(* ===== verification/Requests.v ===== *)
(** * Requests: the messages written with a format string (trading_bot.cpp, main.cpp)

    The subscription message of a session and the body of a transfer between shards
    are not printed from a tree but written with [std::format].  This file shows that
    they are JSON and say what they should: the parser reads from them the tree with
    the intended members, for every ticker without characters that JSON escapes and
    every amount. *)

From S2P Require Import Prelude FixedPoint CharConv JsonLexer JsonParser JsonFacts KalshiMessages JsonRoundTrip TradingBot Main.

(** ** Numbers *)

Lemma number_head n : json_number n -> exists c r, n = c :: r /\ (c = "-"%byte \/ is_digit c = true).
Proof.
  intros (i & f & x & -> & ([] & ds & -> & Hds) & _ & _); [by eexists _, _; split; [|left]|].
  destruct Hds as [->|[[Hne Hall] _]]; [by eexists _, _; split; [|right]|].
  destruct ds as [|c ds]; [done|]. eexists c, _. split; [done|]. right. by apply Forall_cons in Hall as [Hc _].
Qed.

(** The checks that come before the number in the lexer do not apply to its first
    character. *)
Lemma number_char c :
  c = "-"%byte \/ is_digit c = true ->
  is_space c = false /\ single_type c = None /\ Byte.eqb c dquote = false /\ Byte.eqb c "t"%byte = false /\
  Byte.eqb c "f"%byte = false /\ Byte.eqb c "n"%byte = false /\ Byte.eqb c "-"%byte || is_digit c = true.
Proof. intros [->|H]; [done|]. destruct c; done. Qed.

Lemma number_back n m d : json_number n -> parses_to m d n (JString n).
Proof.
  intros Hn L r HL Hr Hm. destruct m as [|m]; [lia|].
  destruct (number_head n Hn) as (c & s & E & Hc). destruct (number_char c Hc) as (H1 & H2 & H3 & H4 & H5 & H6 & H7).
  assert (rest_of L = c :: s ++ r) as HL' by (by rewrite HL, E).
  eexists _, _, _. split.
  - apply pnext_Ret. rewrite (next_no_space _ _ _ HL' H1). unfold lex_token. rewrite HL', H2, H3.
    cbn [starts_with lit list_byte_of_string]. cbn. rewrite H4, H5, H6. cbn [andb]. rewrite H7.
    apply (lex_number_complete L n r HL Hn Hr).
  - split; [done|]. split; [done|]. by apply rest_of_at_pos.
Qed.

Lemma fmt_digits_head fuel : forall n acc, 0 < n -> n < pow10 fuel -> peek (fmt_digits fuel n acc) <> "0"%byte.
Proof.
  induction fuel as [|f IH]; intros n acc Hp Hn; [change (pow10 0) with 1 in Hn; lia|]. cbn [fmt_digits].
  destruct (Z.ltb_spec n 10) as [H|H].
  - cbn [peek]. intros He. assert (bz (dec_digit n) = bz "0"%byte) as Hb by (by rewrite He).
    destruct (dec_digit_digit_char n ltac:(lia)) as [_ Hv]. change (bz "0"%byte) with 48 in Hb. lia.
  - rewrite pow10_S in Hn. apply IH; [apply Z.div_str_pos; lia|apply Z.div_lt_upper_bound; lia].
Qed.

Lemma digit_char_is_digit c : digit_char c -> is_digit c = true.
Proof. unfold digit_char, is_digit. intros H. apply andb_true_iff. rewrite !Z.leb_le. lia. Qed.

Lemma fmt_uint_json n : 0 <= n -> fmt_uint n = ["0"%byte] \/ digit_string (fmt_uint n) /\ peek (fmt_uint n) <> "0"%byte.
Proof.
  intros Hn. destruct (Z.eq_dec n 0) as [->|Hnz]; [by left|]. right. destruct (fmt_uint_spec n Hn) as (Hd & Hne & _). split.
  - split; [done|]. eapply Forall_impl; [exact Hd|]. apply digit_char_is_digit.
  - unfold fmt_uint. apply fmt_digits_head; [lia|]. unfold pow10. rewrite Nat2Z.inj_succ, Z2Nat.id by apply Z.log2_nonneg.
    pose proof (Z.log2_spec n ltac:(lia)) as [_ Hl]. pose proof (Z.pow_le_mono_l 2 10 (Z.succ (Z.log2 n)) ltac:(lia)). lia.
Qed.

(** Every formatted integer is a JSON number. *)
Lemma fmt_int_json z : json_number (fmt_int z).
Proof.
  exists (fmt_int z), [], []. split; [by rewrite !app_nil_r|]. split; [|split; by left]. unfold fmt_int.
  destruct (Z.ltb_spec z 0); [exists true, (fmt_uint (- z))|exists false, (fmt_uint z)]; (split; [done|]); apply fmt_uint_json; lia.
Qed.

(** ** Bodies *)

(** A body is an object of members whose texts are read back. *)
Lemma body_back (o : list member_text) text :
  text = "{"%byte :: join (map write_member o) ++ ["}"%byte] ->
  (forall m, Forall (fun kv : member_text => parses_to m 1 kv.1.2 kv.2) o) ->
  parse_json text = Ok (JObject (build [] (map member_value o))).
Proof. intros -> H. apply parse_json_of, object_back; [unfold kMaxJsonDepth; lia|exact H]. Qed.

Lemma plain_quote s : plain s -> quoted s = json_quote s.
Proof. intros H. unfold quoted, json_quote. by rewrite escape_of_plain. Qed.

Lemma lit_plain s : forallb (fun c => negb (Byte.eqb c dquote) && negb (Byte.eqb c backslash) && (32 <=? bz c)) s = true -> plain s.
Proof.
  intros H. apply Forall_forall. intros c Hc. apply list_elem_of_In in Hc. rewrite forallb_forall in H. specialize (H c Hc).
  apply andb_true_iff in H as [H1 H3]. apply andb_true_iff in H1 as [H1 H2]. apply Z.leb_le in H3.
  split; [by intros ->|]. split; [by intros ->|done].
Qed.

Definition subscription (tk : bytes) : JsonValue :=
  JObject [(lit "channels", JArray [JString (lit "orderbook_delta"); JString (lit "fill")]); (lit "market_ticker", JString tk)].

(** The members in the order in which they are written. *)
Definition subscribe_members (tk : bytes) : list member_text :=
  [(lit "id", lit "1", JString (lit "1")); printed_member (lit "cmd", JString (lit "subscribe"));
   printed_member (lit "params", subscription tk)].

Lemma subscribe_written tk :
  plain tk -> subscribe_msg tk = "{"%byte :: join (map write_member (subscribe_members tk)) ++ ["}"%byte].
Proof.
  intros H. unfold subscribe_msg. rewrite (plain_quote tk H). unfold subscribe_members, subscription, printed_member, write_member.
  cbn [map fst snd to_json_string join flat_map app]. unfold quoted, json_quote. cbn. rewrite <- !app_assoc. done.
Qed.

(** The members of a transfer in the order in which they are written. *)
Definition transfer_members (amount shard : Z) : list member_text :=
  [printed_member (lit "source", JString (lit "event_contract")); printed_member (lit "destination", JString (lit "event_contract"));
   (lit "amount", fmt_int amount, JString (fmt_int amount)); (lit "source_exchange_shard", lit "0", JString (lit "0"));
   (lit "destination_exchange_shard", fmt_int shard, JString (fmt_int shard))].

Lemma transfer_written amount shard :
  transfer_body amount shard = "{"%byte :: join (map write_member (transfer_members amount shard)) ++ ["}"%byte].
Proof.
  unfold transfer_body, transfer_members, printed_member, write_member.
  cbn [map fst snd to_json_string join flat_map app]. unfold quoted, json_quote. cbn. rewrite <- !app_assoc. cbn.
  rewrite <- !app_assoc. done.
Qed.

Lemma printed_back m d k v : json_wf v -> (d + json_depth v <= kMaxJsonDepth)%nat ->
  parses_to m d (printed_member (k, v)).1.2 (printed_member (k, v)).2.
Proof. apply value_back. Qed.

Lemma text_back m d k (n : bytes) : json_number n -> parses_to m d ((k, n, JString n) : member_text).1.2 ((k, n, JString n) : member_text).2.
Proof. apply number_back. Qed.

Create HintDb bodies.
#[export] Hint Resolve text_back fmt_int_json : bodies.
#[export] Hint Extern 2 (parses_to _ _ (printed_member _).1.2 _) => apply printed_back; [repeat constructor|cbn; unfold kMaxJsonDepth; lia] : bodies.

Lemma digit_json c : is_digit c = true -> json_number [c].
Proof.
  intros H. exists [c], [], []. split; [done|]. split; [|split; by left]. exists false, [c]. split; [done|].
  destruct (byte_eqb_spec c "0"%byte) as [->|Hne]; [by left|]. right. split; [|done]. split; [done|]. by repeat constructor.
Qed.
#[export] Hint Extern 2 (json_number (lit _)) => apply digit_json; reflexivity : bodies.

(** ** Properties *)

(** C24. The formatted messages are read back as meant: for every ticker without
    quotation marks, backslashes and control characters the subscription message is
    JSON whose only members are the command, its id, and the two channels with the
    bot's market; and for every amount and shard the transfer body is JSON with
    exactly that amount, from shard 0 to that shard. *)
Theorem formatted_messages_round_trip tk amount shard :
  plain tk ->
  parse_json (subscribe_msg tk) =
    Ok (JObject [(lit "cmd", JString (lit "subscribe")); (lit "id", JString (lit "1"));
                 (lit "params", JObject [(lit "channels", JArray [JString (lit "orderbook_delta"); JString (lit "fill")]);
                                         (lit "market_ticker", JString tk)])]) /\
  parse_json (transfer_body amount shard) =
    Ok (JObject [(lit "amount", JString (fmt_int amount)); (lit "destination", JString (lit "event_contract"));
                 (lit "destination_exchange_shard", JString (fmt_int shard)); (lit "source", JString (lit "event_contract"));
                 (lit "source_exchange_shard", JString (lit "0"))]).
Proof.
  intros H. split.
  - rewrite (body_back _ _ (subscribe_written tk H)); [done|]. intros m. repeat constructor; auto with bodies.
  - rewrite (body_back _ _ (transfer_written amount shard)); [done|]. intros m. repeat constructor; auto with bodies.
Qed.

Lemma formatted_messages_round_trip_witness :
  plain kDefaultTicker /\
  exists o, parse_json (subscribe_msg kDefaultTicker) = Ok (JObject o) /\ find (lit "cmd") o = Some (JString (lit "subscribe")).
Proof.
  assert (plain kDefaultTicker) as H by (apply lit_plain; reflexivity). split; [exact H|].
  rewrite (proj1 (formatted_messages_round_trip kDefaultTicker 0 0 H)). eexists. split; reflexivity.
Defined.

(** The ticker comes from the command line and is not escaped: with a quotation mark in
    it the message is not JSON, or is another message. *)
Lemma subscription_not_escaped :
  (forall v, parse_json (subscribe_msg [dquote]) <> Ok v) /\
  match parse_json (subscribe_msg (json_text "T','use_yes_price':'x")) with
  | Ok (JObject o) => match find (lit "params") o with Some (JObject p) => length p = 3%nat | _ => False end
  | _ => False
  end.
Proof.
  split; [|by vm_compute]. intros v.
  assert (match parse_json (subscribe_msg [dquote]) with Ok _ => false | Unexpected _ => true end = true) as H by (by vm_compute).
  by destruct (parse_json (subscribe_msg [dquote])).
Qed.
