(* ===== verification/Bench.v ===== *)
(** * Bench: the benchmark program (bench/benchmarks.cpp)

    The program times the decoders, the book, two price parsers, the signer and, on
    request, HTTP requests.  What it times is modelled elsewhere; here are its inputs,
    its loops and its report, over the world with its clock, and what the timed code
    does on these inputs. *)

From stdpp Require Import sorting.
From S2P Require Import Prelude Double FixedPoint CharConv Format MessageTypes MarketState JsonLexer JsonParser KalshiMessages KalshiDecoder DecoderEquiv Stream Sockets World HttpResponse KalshiAuth HttpClient Strategy TradingBot BotFacts.

(** ** Inputs *)

(** The price strings and quoted pairs of the inputs. *)
Definition price_text (p : Z) : bytes := lit "0." ++ fmt_int_pad0 2 p ++ lit "00".

Definition level_text (base p : Z) : bytes :=
  (if 1 <? p then lit "," else []) ++ lit "[" ++ quoted (price_text p) ++ lit "," ++ quoted (fmt_int (base + p) ++ lit ".00") ++ lit "]".

Definition numbers_from (a : Z) (n : nat) : list Z := map (fun i => a + Z.of_nat i) (List.seq 0 n).

Definition make_snapshot : bytes :=
  let yes := flat_map (level_text 100) (numbers_from 1 40) in
  let no := flat_map (level_text 200) (numbers_from 1 40) in
  json_text "{'type':'orderbook_snapshot','sid':2,'seq':1,'msg':{'market_ticker':'KXMLBGAME-26SEP302000BOSNYY-NYY','market_id':'9b0f6f7e-1c2d-4e5f-8a9b-0c1d2e3f4a5b','yes_dollars_fp':[" ++
  yes ++ json_text "],'no_dollars_fp':[" ++ no ++ lit "]}}".

Definition kDelta : bytes :=
  json_text "{'type':'orderbook_delta','sid':2,'seq':5,'msg':{'market_ticker':'KXMLBGAME-26SEP302000BOSNYY-NYY','market_id':'9b0f6f7e-1c2d-4e5f-8a9b-0c1d2e3f4a5b','price_dollars':'0.5900','delta_fp':'-12.00','side':'yes','ts':'2026-09-30T23:45:26.123Z','ts_ms':'1790819126123'}}".

(** The i-th delta of the book benchmark, for [0 <= i < 1024]. *)
Definition bench_delta (i : Z) : OrderBookDelta :=
  {| delta_market_ticker := lit "T"; delta_market_id := lit "id"; price_dollars := price_text (1 + i * 37 mod 40);
     delta_fp := if i mod 2 =? 0 then lit "5.00" else lit "-5.00"; MessageTypes.side := if i mod 3 =? 0 then lit "no" else lit "yes";
     ts := []; delta_ts_ms := 0 |}.

Definition deltas : list OrderBookDelta := map bench_delta (numbers_from 0 1024).

Definition prices : list bytes := map price_text (numbers_from 1 99).

(** ** Timing *)

(** [{:>w}] *)
Definition pad_left (w : nat) (s : bytes) : bytes := repeat " "%byte (w - length s) ++ s.

(** The body of the timed loop, for [i], [i + 1], ... *)
Fixpoint repeat_op {S A} (f : Z -> M S A) (n : nat) (i : Z) : M S unit :=
  match n with O => ret tt | S n => let% _ := f i in repeat_op f n (i + 1) end.

Definition not_above (x y : double) : Prop := dle x y = true.

#[export] Instance not_above_dec : RelDecision not_above.
Proof. intros x y. unfold not_above. apply _. Defined.

(** [std::ranges::sort] of doubles that are not NaN. *)
Definition sort_runs (runs : list double) : list double := merge_sort not_above runs.

Section Timing.
Variable env : NetEnv.

Fixpoint timed_runs {S A} (f : Z -> M S A) (iters : Z) (r : nat) (runs : list double) : M S (list double) :=
  match r with
  | O => ret runs
  | S r =>
    let% t0 := now env in
    let% _ := repeat_op f (Z.to_nat iters) 0 in
    let% t1 := now env in
    timed_runs f iters r (runs ++ [ddiv (of_int (t1 - t0)) (of_int iters)])
  end.

(** [runs[2]] is there: the loop makes five runs. *)
Definition ns_per_op {S A} (name : string) (iters : Z) (f : Z -> M S A) : M S double :=
  let% runs := timed_runs f iters 5 [] in
  match sort_runs runs !! 2%nat with
  | None => fun _ _ => None
  | Some median =>
    let% _ := println (pad 44 (lit name) ++ lit " " ++ pad_left 14 (fmt_fixed1 median) ++ lit " ns/op") in
    ret median
  end.

(** ** What is timed *)

(** [parse_kalshi_message] of the dereferenced [parse_json(text)], which is undefined
    when the text is not JSON. *)
Definition decode_old {S} (text : bytes) (i : Z) : M S (expected bytes Message) :=
  match parse_json text with Ok v => ret (parse_kalshi_message v) | Unexpected _ => fun _ _ => None end.

Definition decode_new {S} (text : bytes) (i : Z) : M S (expected bytes Message) := ret (decode_kalshi_message text).

(** [book.apply_delta(deltas[i & 1023])] and the top of the book. *)
Definition bench_book_op (i : Z) : M MarketState (option Z * option Z) :=
  fun k w =>
    match deltas !! Z.to_nat (Z.land i 1023) with
    | None => None
    | Some d => match apply_delta k d with Some (_, k) => Some ((best_yes_bid k, best_yes_ask k), k, w) | None => None end
    end.

(** The book the benchmark starts with; [None]: [std::get] throws or the dereference
    is undefined. *)
Definition bench_book : option MarketState :=
  match parse_json make_snapshot with
  | Unexpected _ => None
  | Ok v =>
    match parse_kalshi_message v with
    | Ok m => match msg m with PSnapshot s => Some (snd (apply_snapshot new_market_state s)) | _ => None end
    | Unexpected _ => None
    end
  end.

(** [std::stod] of a number with at most four decimals: the double nearest to its
    value. *)
Definition stod (s : bytes) : option double :=
  match parse_fixed 4 s with Some n => Some (ddiv (of_int n) (of_int 10000)) | None => None end.

(** [static_cast<int64_t>(std::stod(price) * 100)] of a price, which is not negative;
    [None]: an exception or an undefined conversion. *)
Definition old_price (s : bytes) : option Z :=
  match stod s with Some x => to_size (dmul x (of_int 100)) | None => None end.

Definition old_price_op {S} (i : Z) : M S Z :=
  match prices !! Z.to_nat (i mod 99) with
  | Some s => match old_price s with Some v => ret v | None => fun _ _ => None end
  | None => fun _ _ => None
  end.

Definition new_price_op {S} (i : Z) : M S (option Z) :=
  match prices !! Z.to_nat (i mod 99) with Some s => ret (parse_fixed kPriceDecimals s) | None => fun _ _ => None end.

(** [signer->auth_headers] with the time of the call. *)
Definition sign_op {S} (signer : expected bytes Signer) (i : Z) : M S (expected bytes bytes) :=
  match signer with
  | Unexpected _ => fun _ _ => None
  | Ok s =>
    let% ts := current_timestamp_ms env in
    ret (auth_headers s ts (lit "POST") (lit "/trade-api/v2/portfolio/orders/" ++ fmt_int i))
  end.

(** ** The program *)

Definition bench_path : bytes := lit "/trade-api/v2/markets/KXMLBGAME-26SEP302000BOSNYY-NYY".

(** A client of its own for each request, destroyed afterwards. *)
Definition fresh_request {S} (i : Z) : M S (expected bytes HttpResponse) :=
  local (new_http_client kKalshiHost None)
    (let% r := request env (lit "GET") bench_path [] in let% _ := reset_tls in ret r).

Definition kept_alive_requests : M HttpClient unit :=
  let% _ := HttpClient.connect env in
  let% _ := ns_per_op "GET over a kept-alive connection" 5 (fun _ => request env (lit "GET") bench_path []) in
  let% c := get in
  let% _ := println (lit "(kept-alive client opened " ++ fmt_uint (_connections_opened c) ++ lit " connection(s) for 25 requests)") in
  reset_tls.

Definition network_benchmarks {S} : M S unit :=
  let% _ := ns_per_op "GET over a new connection (TCP+TLS each time)" 5 fresh_request in
  local (new_http_client kKalshiHost None) kept_alive_requests.

(** What [mkstemp] and [fdopen] return: the name made from the template, the descriptor
    unless the call fails, and whether there is a stream for it. *)
Record TempFile : Type := { temp_path : bytes; temp_fd : option Z; temp_stream : bool }.

(** The key is made and written by OpenSSL, whose results are not looked at; the
    stream is closed with its descriptor.  [None]: [fclose] gets a null pointer. *)
Definition write_temp_key {S} (f : TempFile) : M S bytes :=
  match temp_fd f with
  | None => fun _ _ => None
  | Some fd =>
    let% _ := sys [SysMkstemp (temp_path f) fd] in
    if temp_stream f then let% _ := sys [SysClose fd] in ret (temp_path f) else fun _ _ => None
  end.

Definition bench_main (o : OpenSsl) (f : TempFile) (args : list bytes) : M unit unit :=
  let snapshot := make_snapshot in
  let% _ := println (lit "snapshot message: " ++ fmt_uint (Z.of_nat (length snapshot)) ++ lit " bytes, delta message: " ++
                     fmt_uint (Z.of_nat (length kDelta)) ++ lit " bytes" ++ [x0a]) in
  let% _ := ns_per_op "decode delta: JSON tree + typed (old path)" 200000 (decode_old kDelta) in
  let% _ := ns_per_op "decode delta: direct from tokens (new)" 200000 (decode_new kDelta) in
  let% _ := ns_per_op "decode snapshot: JSON tree + typed (old path)" 20000 (decode_old snapshot) in
  let% _ := ns_per_op "decode snapshot: direct from tokens (new)" 20000 (decode_new snapshot) in
  let% _ := (match bench_book with
             | Some k => local k (ns_per_op "book apply_delta + best bid/ask" 1000000 bench_book_op)
             | None => fun _ _ => None
             end) in
  let% _ := ns_per_op "price: stod * 100 (old)" 2000000 old_price_op in
  let% _ := ns_per_op "price: parse_fixed (new)" 2000000 new_price_op in
  let% key_path := write_temp_key f in
  let signer := from_credentials o {| key_id := lit "bench"; private_key_path := key_path |} in
  let% _ := ns_per_op "sign request (key loaded once)" 500 (sign_op signer) in
  let% _ := sys [SysUnlink key_path] in
  match args with
  | flag :: _ => if bytes_eqb flag (lit "--network") then network_benchmarks else ret tt
  | [] => ret tt
  end.
End Timing.

(** ** The inputs *)

(** The book benchmark, with the results of the deltas: how many of [n] operations
    from the [i]-th on are rejected. *)
Fixpoint rejected (n : nat) (i : Z) (k : MarketState) : option (Z * MarketState) :=
  match n with
  | O => Some (0, k)
  | S n =>
    match deltas !! Z.to_nat (Z.land i 1023) with
    | None => None
    | Some d =>
      match apply_delta k d with
      | None => None
      | Some (r, k) =>
        match rejected n (i + 1) k with
        | Some (c, k) => Some (if has_value r then c else c + 1, k)
        | None => None
        end
      end
    end
  end.

(** Both decoders read the two messages, with the same result. *)
Example bench_messages_decode :
  map (fun text => match parse_json text, decode_kalshi_message text with
                   | Ok v, Ok m => match parse_kalshi_message v with Ok m' => (seq m =? seq m') && bytes_eqb (msg_type m) (msg_type m') | _ => false end
                   | _, _ => false
                   end) [kDelta; make_snapshot] = [true; true] /\
  (length make_snapshot = 1791)%nat /\ (length kDelta = 265)%nat.
Proof. by vm_compute. Qed.

(** The parity of a delta's price: deltas with an even index add at odd prices, those
    with an odd index take away at even prices. *)
Lemma bench_delta_parity i :
  0 <= i ->
  exists p, price_dollars (bench_delta i) = price_text p /\ 1 <= p <= 40 /\ Z.odd p = Z.even i /\
    delta_fp (bench_delta i) = if Z.even i then lit "5.00" else lit "-5.00".
Proof.
  intros Hi. exists (1 + i * 37 mod 40). split; [done|]. pose proof (Z.mod_pos_bound (i * 37) 40 ltac:(lia)). split; [lia|].
  assert (Z.odd (1 + i * 37 mod 40) = Z.even i) as ->.
  { rewrite Z.odd_add, Z.mod_eq by lia. rewrite Z.odd_sub, !Z.odd_mul. cbn [Z.odd xorb andb].
    rewrite andb_true_r, xorb_false_r. by rewrite <- Z.negb_even; destruct (Z.even i). }
  split; [done|]. cbn [bench_delta delta_fp]. by rewrite Zeven_mod.
Qed.

(** So nothing is ever added at an even price, and the even levels of the snapshot run
    empty; on a book where they are, a pass over the deltas has exactly its 512
    negative deltas rejected: every second operation that is timed takes the error
    path.  The first pass over the book of the benchmark still has none rejected. *)
Lemma bench_book_drains :
  fst <$> rejected 1024 0 new_market_state = Some 512 /\
  match bench_book with Some k => fst <$> rejected 1024 0 k = Some 0 | None => False end.
Proof. by vm_compute. Qed.

(** The old way to read a price is a cent off for three of the 99 prices. *)
Lemma old_price_truncates :
  filter (fun p => old_price (price_text p) <> Some p) (numbers_from 1 99) = [29; 57; 58] /\
  forallb (fun p => bool_decide (parse_fixed kPriceDecimals (price_text p) = Some (cents p))) (numbers_from 1 99) = true.
Proof. by vm_compute. Qed.

(** ** The program returns *)

(** Nothing happened outside but that time passed. *)
Definition only_time (w w' : World) : Prop :=
  log w' = log w /\ inbox w' = inbox w /\ syscalls w' = syscalls w /\ console w' = console w.

#[export] Instance only_time_preorder : PreOrder only_time.
Proof. split; [by intros w|]. intros w1 w2 w3 (H1 & H2 & H3 & H4) (H5 & H6 & H7 & H8). by repeat split; etrans. Qed.

Section Returns.
Context (env : NetEnv) {S A : Type} (f : Z -> M S A) (inv : Z -> S -> Prop) (limit : Z).

(** [inv n] holds of the state after [n] operations, and up to [limit] of them return. *)
Hypothesis op_returns : forall i n s w, 0 <= i -> 0 <= n < limit -> inv n s ->
  exists a s' w', f i s w = Some (a, s', w') /\ inv (n + 1) s' /\ only_time w w'.

Lemma repeat_returns k : forall i n s w, 0 <= i -> 0 <= n -> n + Z.of_nat k <= limit -> inv n s ->
  exists s' w', repeat_op f k i s w = Some (tt, s', w') /\ inv (n + Z.of_nat k) s' /\ only_time w w'.
Proof.
  induction k as [|k IH]; intros i n s w Hi Hn Hl Hs; cbn [repeat_op].
  { exists s, w. rewrite Z.add_0_r. done. }
  destruct (op_returns i n s w Hi ltac:(lia) Hs) as (a & s1 & w1 & Hf & Hs1 & Hw1). unfold bind. rewrite Hf.
  destruct (IH (i + 1) (n + 1) s1 w1 ltac:(lia) ltac:(lia) ltac:(lia) Hs1) as (s2 & w2 & -> & Hs2 & Hw2).
  exists s2, w2. split; [done|]. split; [by replace (n + Z.of_nat (Datatypes.S k)) with (n + 1 + Z.of_nat k) by lia|by etrans].
Qed.

Lemma runs_return iters r : 0 <= iters -> forall runs n s w, 0 <= n -> n + Z.of_nat r * iters <= limit -> inv n s ->
  exists runs' s' w', timed_runs env f iters r runs s w = Some (runs', s', w') /\ length runs' = (length runs + r)%nat /\
    inv (n + Z.of_nat r * iters) s' /\ only_time w w'.
Proof.
  intros Hit. induction r as [|r IH]; intros runs n s w Hn Hl Hs; cbn [timed_runs].
  { exists runs, s, w. rewrite Z.add_0_r, Nat.add_0_r. done. }
  unfold bind at 1, now at 1, tick at 1.
  destruct (repeat_returns (Z.to_nat iters) 0 n s (advance w)) as (s1 & w1 & H1 & Hs1 & Hw1); [lia|lia|lia|done|].
  unfold bind at 1. rewrite H1. unfold bind at 1, now at 1, tick at 1.
  destruct (IH (runs ++ [ddiv (of_int (env_clock env (ticks w1) - env_clock env (ticks w))) (of_int iters)]) (n + iters) s1 (advance w1))
    as (runs' & s2 & w2 & -> & Hlen & Hs2 & Hw2); [lia|lia|by rewrite Z2Nat.id in Hs1 by lia|].
  exists runs', s2, w2. split; [done|]. split; [rewrite Hlen, length_app; cbn; lia|].
  split; [by replace (n + Z.of_nat (Datatypes.S r) * iters) with (n + iters + Z.of_nat r * iters) by lia|].
  etrans; [|exact Hw2]. exact Hw1.
Qed.

(** Five runs and one line. *)
Lemma ns_per_op_returns name iters s w :
  0 <= iters -> 5 * iters <= limit -> inv 0 s ->
  exists x s' w' line, ns_per_op env name iters f s w = Some (x, s', w') /\ only_time (print_line (Stdout, line) w) w'.
Proof.
  intros Hit Hl Hs. destruct (runs_return iters 5 Hit [] 0 s w) as (runs & s1 & w1 & Hr & Hlen & _ & Hw); [lia|lia|done|].
  unfold ns_per_op, bind at 1. rewrite Hr. destruct (sort_runs runs !! 2%nat) as [x|] eqn:Ex.
  - eexists x, s1, _, _. split; [reflexivity|]. destruct Hw as (H1 & H2 & H3 & H4). repeat split; cbn; try done. by rewrite H4.
  - exfalso. apply lookup_ge_None in Ex. unfold sort_runs in Ex. rewrite merge_sort_Permutation, Hlen in Ex. cbn in Ex. lia.
Qed.
End Returns.

(** Operations without a state of their own. *)
Lemma stateless_returns {A} env (f : Z -> M unit A) name iters w :
  0 <= iters -> (forall i w, 0 <= i -> exists a w', f i tt w = Some (a, tt, w') /\ only_time w w') ->
  exists x w' line, ns_per_op env name iters f tt w = Some (x, tt, w') /\ only_time (print_line (Stdout, line) w) w'.
Proof.
  intros Hit Hf. destruct (ns_per_op_returns env f (fun _ _ => True) (5 * iters)) with name iters tt w as (x & [] & w' & line & H1 & H2).
  - intros i n [] w0 Hi _ _. destruct (Hf i w0 Hi) as (a & w1 & H1 & H2). by exists a, tt, w1.
  - done.
  - lia.
  - done.
  - by exists x, w', line.
Qed.

Lemma bench_delta_within i : event_within 500 (EvDelta (bench_delta i)).
Proof.
  cbn. intros q. destruct (i mod 2 =? 0); intros Hq; vm_compute in Hq; injection Hq as <-; vm_compute; congruence.
Qed.

Lemma deltas_lookup i : 0 <= i -> exists j, deltas !! Z.to_nat (Z.land i 1023) = Some (bench_delta j).
Proof.
  intros Hi. change 1023 with (Z.ones 10). rewrite Z.land_ones by lia. pose proof (Z.mod_pos_bound i (2 ^ 10) ltac:(lia)).
  exists (0 + Z.of_nat (Z.to_nat (i mod 2 ^ 10))). unfold deltas, numbers_from. rewrite !list_lookup_fmap.
  rewrite lookup_seq_lt by (change (2 ^ 10) with 1024 in *; lia). done.
Qed.

(** The book benchmark cannot overflow. *)
Lemma book_op_returns i n k w :
  0 <= i -> 0 <= n < 5000000 -> book_ok k /\ book_within (24000 + 500 * n) k ->
  exists a k' w', bench_book_op i k w = Some (a, k', w') /\ (book_ok k' /\ book_within (24000 + 500 * (n + 1)) k') /\ only_time w w'.
Proof.
  intros Hi Hn [Hok Hin]. unfold bench_book_op. destruct (deltas_lookup i Hi) as [j ->].
  destruct (delta_within 500 (24000 + 500 * n) k (bench_delta j)) as (r & k' & Hd & Hw); auto using bench_delta_within; [lia|lia| |].
  { unfold INT64_MAX. lia. }
  rewrite Hd. eexists _, k', w. split; [done|]. split; [|done]. split; [by eapply (book_event_ok k (EvDelta (bench_delta j)))|].
  by replace (24000 + 500 * (n + 1)) with (24000 + 500 * n + 500) by lia.
Qed.

Definition within_b (m : Z) (levels : Levels) : bool := forallb (fun q => Z.abs q <=? m) levels.

Lemma within_b_spec m levels : within_b m levels = true -> levels_within m levels.
Proof.
  intros H. apply Forall_forall. intros q Hq. apply list_elem_of_In in Hq. unfold within_b in H.
  rewrite forallb_forall in H. by apply Z.leb_le, H.
Qed.

Lemma bench_book_loaded : exists k, bench_book = Some k /\ book_ok k /\ book_within (24000 + 500 * 0) k.
Proof.
  assert (match bench_book with Some k => within_b 24000 (_yes k) && within_b 24000 (_no k) | None => false end = true) as H
    by (by vm_compute).
  destruct bench_book as [k|] eqn:E; [|done]. exists k. split; [done|]. apply andb_true_iff in H as [Hy Hn].
  split; [|split; by apply within_b_spec].
  unfold bench_book in E. destruct (parse_json make_snapshot); [|done]. destruct (parse_kalshi_message _) as [m|]; [|done].
  destruct (msg m) as [|s| |]; try done. injection E as <-. destruct (apply_snapshot new_market_state s) as [r k] eqn:Es.
  apply (book_event_ok new_market_state (EvSnapshot s) r k new_market_state_ok). cbn. by rewrite Es.
Qed.

(** A computation that returns from every world, prints [n] lines, makes the system
    calls [cs] and touches nothing else. *)
Definition reports {A} (n : nat) (cs : list SysCall) (m : M unit A) : Prop :=
  forall w, exists a w' lines, m tt w = Some (a, tt, w') /\ length lines = n /\ console w' = console w ++ lines /\
    syscalls w' = syscalls w ++ cs /\ log w' = log w.

Lemma reports_bind {A B} n1 n2 cs1 cs2 (m : M unit A) (k : A -> M unit B) :
  reports n1 cs1 m -> (forall a, reports n2 cs2 (k a)) -> reports (n1 + n2) (cs1 ++ cs2) (bind m k).
Proof.
  intros Hm Hk w. destruct (Hm w) as (a & w1 & l1 & H1 & Hl1 & Hc1 & Hs1 & Hg1).
  destruct (Hk a w1) as (b & w2 & l2 & H2 & Hl2 & Hc2 & Hs2 & Hg2). exists b, w2, (l1 ++ l2). unfold bind. rewrite H1.
  rewrite length_app, Hl1, Hl2, Hc2, Hc1, Hs2, Hs1, Hg2, Hg1, !app_assoc. done.
Qed.

Lemma reports_ret {A} (a : A) : reports 0 [] (ret a).
Proof. intros w. exists a, w, []. by rewrite !app_nil_r. Qed.

Lemma reports_println l : reports 1 [] (println l).
Proof. intros w. exists tt, (print_line (Stdout, l) w), [(Stdout, l)]. by rewrite app_nil_r. Qed.

Lemma reports_sys cs : reports 0 cs (sys cs).
Proof. intros w. exists tt, (record_calls cs w), []. by rewrite app_nil_r. Qed.

(** One printed line, and time. *)
Lemma reports_line {A} (m : M unit A) :
  (forall w, exists a w' line, m tt w = Some (a, tt, w') /\ only_time (print_line (Stdout, line) w) w') -> reports 1 [] m.
Proof.
  intros Hm w. destruct (Hm w) as (a & w' & line & H & H1 & _ & H3 & H4). exists a, w', [(Stdout, line)].
  rewrite app_nil_r. by rewrite H1, H3, H4.
Qed.

Lemma reports_stateless {A} env (f : Z -> M unit A) name iters :
  0 <= iters -> (forall i w, 0 <= i -> exists a w', f i tt w = Some (a, tt, w') /\ only_time w w') ->
  reports 1 [] (ns_per_op env name iters f).
Proof. intros Hit Hf. apply reports_line. intros w. exact (stateless_returns env f name iters w Hit Hf). Qed.

Lemma reports_book env k name :
  book_ok k /\ book_within (24000 + 500 * 0) k -> reports 1 [] (local k (ns_per_op env name 1000000 bench_book_op)).
Proof.
  intros Hk. apply reports_line. intros w.
  destruct (ns_per_op_returns env bench_book_op (fun n k => book_ok k /\ book_within (24000 + 500 * n) k) 5000000)
    with name 1000000 k w as (x & k' & w' & line & H1 & H2); [|lia|lia|done|].
  - intros i n k0 w0 Hi Hn H0. by apply book_op_returns.
  - exists x, w', line. unfold local. by rewrite H1.
Qed.

Lemma decode_old_returns text v i w :
  parse_json text = Ok v -> exists a w', decode_old (S := unit) text i tt w = Some (a, tt, w') /\ only_time w w'.
Proof. intros H. unfold decode_old. rewrite H. by eexists _, w. Qed.

Lemma decode_new_returns text i w : exists a w', decode_new (S := unit) text i tt w = Some (a, tt, w') /\ only_time w w'.
Proof. by exists (decode_kalshi_message text), w. Qed.

Lemma sign_returns env s i w : exists a w', sign_op (S := unit) env (Ok s) i tt w = Some (a, tt, w') /\ only_time w w'.
Proof. unfold sign_op, current_timestamp_ms, bind, tick, ret. by eexists _, (advance w). Qed.

Lemma prices_lookup i : 0 <= i -> exists p, prices !! Z.to_nat (i mod 99) = Some p /\ p ∈ prices.
Proof.
  intros Hi. pose proof (Z.mod_pos_bound i 99 ltac:(lia)). destruct (lookup_lt_is_Some_2 prices (Z.to_nat (i mod 99))) as [p Hp].
  - change (length prices) with 99%nat. lia.
  - exists p. split; [done|]. by eapply list_elem_of_lookup_2.
Qed.

Lemma old_prices_defined : Forall (fun s => is_Some (old_price s)) prices.
Proof.
  apply Forall_forall. intros s Hs. apply list_elem_of_In in Hs.
  assert (forallb (fun s => match old_price s with Some _ => true | None => false end) prices = true) as H by (by vm_compute).
  rewrite forallb_forall in H. specialize (H s Hs). destruct (old_price s); [eauto|done].
Qed.

Lemma old_price_returns i w : 0 <= i -> exists a w', old_price_op (S := unit) i tt w = Some (a, tt, w') /\ only_time w w'.
Proof.
  intros Hi. unfold old_price_op. destruct (prices_lookup i Hi) as (s & -> & Hin).
  pose proof old_prices_defined as Hd. rewrite Forall_forall in Hd. destruct (Hd s Hin) as [x ->]. by exists x, w.
Qed.

Lemma new_price_returns i w : 0 <= i -> exists a w', new_price_op (S := unit) i tt w = Some (a, tt, w') /\ only_time w w'.
Proof. intros Hi. unfold new_price_op. destruct (prices_lookup i Hi) as (s & -> & _). by eexists _, w. Qed.

Lemma messages_parse : exists v1 v2, parse_json kDelta = Ok v1 /\ parse_json make_snapshot = Ok v2.
Proof.
  assert (match parse_json kDelta, parse_json make_snapshot with Ok _, Ok _ => true | _, _ => false end = true) as H by (by vm_compute).
  destruct (parse_json kDelta) as [v1|], (parse_json make_snapshot) as [v2|]; try done. by exists v1, v2.
Qed.

Lemma reports_temp_key {B} f fd n cs (k : bytes -> M unit B) :
  temp_fd f = Some fd -> temp_stream f = true -> reports n cs (k (temp_path f)) ->
  reports n ([SysMkstemp (temp_path f) fd; SysClose fd] ++ cs) (bind (write_temp_key f) k).
Proof.
  intros Hf Hs Hk w. unfold write_temp_key. rewrite Hf, Hs. unfold sys, bind, ret.
  destruct (Hk (record_calls [SysClose fd] (record_calls [SysMkstemp (temp_path f) fd] w))) as (a & w' & lines & H & Hl & Hc & Hsc & Hg).
  exists a, w', lines. split; [exact H|]. split; [done|]. split; [done|]. split; [|done]. rewrite Hsc. cbn. by rewrite <- !app_assoc.
Qed.

Lemma bench_main_reports env o f fd args signer :
  from_credentials o {| key_id := lit "bench"; private_key_path := temp_path f |} = Ok signer ->
  temp_fd f = Some fd -> temp_stream f = true -> head args <> Some (lit "--network") ->
  reports 9 [SysMkstemp (temp_path f) fd; SysClose fd; SysUnlink (temp_path f)] (bench_main env o f args).
Proof.
  intros Hs Hfd Hst Hargs. destruct messages_parse as (v1 & v2 & Hv1 & Hv2). destruct bench_book_loaded as (k & Hk & Hbook).
  unfold bench_main. rewrite Hk. cbv zeta.
  change 9%nat with (1 + (1 + (1 + (1 + (1 + (1 + (1 + (1 + (1 + (0 + 0))))))))))%nat.
  apply (reports_bind 1 _ []); [apply reports_println|intros _].
  apply (reports_bind 1 _ []); [apply reports_stateless; [lia|]; intros; exact (decode_old_returns _ _ _ _ Hv1)|intros _].
  apply (reports_bind 1 _ []); [apply reports_stateless; [lia|]; intros i w0 _; exact (decode_new_returns _ i w0)|intros _].
  apply (reports_bind 1 _ []); [apply reports_stateless; [lia|]; intros; exact (decode_old_returns _ _ _ _ Hv2)|intros _].
  apply (reports_bind 1 _ []); [apply reports_stateless; [lia|]; intros i w0 _; exact (decode_new_returns _ i w0)|intros _].
  apply (reports_bind 1 _ []); [by apply reports_book|intros _].
  apply (reports_bind 1 _ []); [apply reports_stateless; [lia|exact old_price_returns]|intros _].
  apply (reports_bind 1 _ []); [apply reports_stateless; [lia|exact new_price_returns]|intros _].
  apply (reports_temp_key f fd (1 + (0 + 0)) [SysUnlink (temp_path f)]); [done|done|]. rewrite Hs.
  apply (reports_bind 1 _ []); [apply reports_stateless; [lia|]; intros i w0 _; exact (sign_returns env signer i w0)|intros _].
  apply (reports_bind 0 _ [SysUnlink (temp_path f)] []); [apply reports_sys|intros _].
  destruct args as [|flag args]; [apply reports_ret|].
  destruct (bytes_eqb_spec flag (lit "--network")) as [->|]; [by destruct (Hargs eq_refl)|apply reports_ret].
Qed.

(** The benchmark program runs to its end on its own inputs: without [--network],
    when its temporary key file can be made and read, it returns and prints nine
    lines; in particular no dereference of a failed parse, no wrong alternative of the
    message variant and no read outside a vector happens, the 5,000,000 operations on
    the book do not overflow a level, no network connection is made, and the key file
    is closed and removed. *)
Lemma benchmarks_return env o f fd args signer w :
  from_credentials o {| key_id := lit "bench"; private_key_path := temp_path f |} = Ok signer ->
  temp_fd f = Some fd -> temp_stream f = true -> head args <> Some (lit "--network") ->
  exists w' lines, bench_main env o f args tt w = Some (tt, tt, w') /\ console w' = console w ++ lines /\
    length lines = 9%nat /\ log w' = log w /\
    syscalls w' = syscalls w ++ [SysMkstemp (temp_path f) fd; SysClose fd; SysUnlink (temp_path f)].
Proof.
  intros Hs Hfd Hst Hargs.
  destruct (bench_main_reports env o f fd args signer Hs Hfd Hst Hargs w) as ([] & w' & lines & Hr & Hlen & H1 & H2 & H3).
  exists w', lines. exact (conj Hr (conj H1 (conj Hlen (conj H3 H2)))).
Qed.


(** ** Descriptors *)

(** A computation that leaves the open descriptors as they are. *)
Definition closed {S A} (m : M S A) : Prop := forall s w a s' w', m s w = Some (a, s', w') -> fds w' ≡ₚ fds w.

Lemma closed_bind {S A B} (m : M S A) (k : A -> M S B) : closed m -> (forall a, closed (k a)) -> closed (bind m k).
Proof.
  intros Hm Hk s w a s' w' H. apply bind_Some in H as (x & s1 & w1 & H1 & H2). etrans; [by eapply Hk|by eapply Hm].
Qed.

Lemma closed_calls {S A} (m : M S A) : (forall s w a s' w', m s w = Some (a, s', w') -> syscalls w' = syscalls w) -> closed m.
Proof. intros Hm s w a s' w' H. apply Hm in H. unfold fds. by rewrite H. Qed.

Lemma closed_ret {S A} (a : A) : closed (S := S) (ret a).
Proof. by intros s w a' s' w' [= <- <- <-]. Qed.
Lemma closed_stuck {S A} : closed (S := S) (A := A) (fun _ _ => None).
Proof. by intros s w a' s' w'. Qed.
Lemma closed_tick {S A} (f : nat -> A) : closed (S := S) (tick f).
Proof. apply closed_calls. by intros s w a' s' w' [= <- <- <-]. Qed.
Lemma closed_println {S} l : closed (S := S) (println l).
Proof. apply closed_calls. by intros s w a' s' w' [= <- <- <-]. Qed.
Lemma closed_book_op i : closed (bench_book_op i).
Proof. apply closed_calls. unfold bench_book_op. intros s w a s' w' H. repeat case_match; by simplify_eq. Qed.
Lemma closed_local {S T A} (s : S) (m : M S A) : closed m -> closed (S := T) (local s m).
Proof. intros Hm t w a t' w' H. unfold local in H. destruct (m s w) as [[[x s1] w1]|] eqn:E; [|done]. injection H as _ _ <-. by eapply Hm. Qed.

Lemma closed_decode_old {S} text i : closed (S := S) (decode_old text i).
Proof. unfold decode_old. destruct (parse_json text); [apply closed_ret|apply closed_stuck]. Qed.
Lemma closed_decode_new {S} text i : closed (S := S) (decode_new text i).
Proof. apply closed_ret. Qed.
Lemma closed_old_price {S} i : closed (S := S) (old_price_op i).
Proof. unfold old_price_op. repeat case_match; first [apply closed_ret|apply closed_stuck]. Qed.
Lemma closed_new_price {S} i : closed (S := S) (new_price_op i).
Proof. unfold new_price_op. repeat case_match; first [apply closed_ret|apply closed_stuck]. Qed.
Lemma closed_sign {S} env signer i : closed (S := S) (sign_op env signer i).
Proof. unfold sign_op. destruct signer; [|apply closed_stuck]. apply closed_bind; [apply closed_tick|intros ?; apply closed_ret]. Qed.

Create HintDb closed.
#[export] Hint Resolve closed_decode_old closed_decode_new closed_old_price closed_new_price closed_sign : closed.
Lemma closed_unlink {S} p : closed (S := S) (sys [SysUnlink p]).
Proof. intros s w a s' w' [= _ _ <-]. unfold fds. cbn [record_calls syscalls]. by rewrite open_after_app. Qed.
#[export] Hint Resolve closed_unlink closed_ret closed_stuck closed_tick closed_println closed_book_op closed_local : closed.

(** Walks through the binds, matches and tests of a computation. *)
Ltac close :=
  repeat (first [simple apply closed_bind; [|intros ?] | case_match]); unfold now, current_timestamp_ms; auto with closed.

Section Closed.
Context (env : NetEnv).

Lemma closed_ns_per_op {S A} name iters (f : Z -> M S A) : (forall i, closed (f i)) -> closed (ns_per_op env name iters f).
Proof.
  intros Hf.
  assert (forall n i, closed (repeat_op f n i)) as Hrep by (induction n as [|n IH]; intros i; cbn [repeat_op]; close).
  assert (forall r runs, closed (timed_runs env f iters r runs)) as Hruns
    by (induction r as [|r IH]; intros runs; cbn [timed_runs]; close).
  unfold ns_per_op. close.
Qed.

Lemma balanced_ns_per_op {A} name iters (f : Z -> M HttpClient A) :
  (forall i, balanced (f i)) -> balanced (ns_per_op env name iters f).
Proof.
  intros Hf.
  assert (forall n i, balanced (repeat_op f n i)) as Hrep by (induction n as [|n IH]; intros i; cbn [repeat_op]; balance).
  assert (forall r runs, balanced (timed_runs env f iters r runs)) as Hruns
    by (induction r as [|r IH]; intros runs; cbn [timed_runs]; balance).
  unfold ns_per_op. apply balanced_bind; [apply Hruns|]. intros runs. destruct (sort_runs runs !! 2%nat); [balance|].
  by intros c w a c' w' l.
Qed.

(** A client that is destroyed at the end. *)
Lemma closed_client {T A} host signer (m : M HttpClient A) :
  balanced m -> (forall c w a c' w', m c w = Some (a, c', w') -> client_fds c' = []) ->
  closed (S := T) (local (new_http_client host signer) m).
Proof.
  intros Hb Hc t w a t' w' H. unfold local in H. destruct (m _ w) as [[[x c] w1]|] eqn:E; [|done]. injection H as _ _ <-.
  pose proof (Hc _ _ _ _ _ E) as Hn. apply (Hb _ _ _ _ _ (fds w)) in E; [by rewrite Hn in E|done].
Qed.

(** Whatever the network does, the benchmarks leave no descriptor open. *)
Lemma bench_main_closed o f args : closed (bench_main env o f args).
Proof.
  assert (forall T i, closed (S := T) (fresh_request env i)) as Hfresh.
  { intros T i. apply closed_client.
    - pose proof (balanced_request env). balance.
    - intros c w a c' w' H. apply bind_Some in H as (r & c1 & w1 & _ & H). apply bind_Some in H as (u & c2 & w2 & H & H2).
      injection H2 as _ <- _. by apply reset_tls_spec in H as (-> & _). }
  assert (forall T, closed (S := T) (local (new_http_client kKalshiHost None) (kept_alive_requests env))) as Hkept.
  { intros T. apply closed_client.
    - pose proof (balanced_connect env). pose proof (balanced_request env). unfold kept_alive_requests.
      repeat (simple apply balanced_bind; [|intros ?]); try simple apply balanced_ns_per_op; unfold println; auto with balance.
    - intros c w a c' w' H. unfold kept_alive_requests in H. do 4 (apply bind_Some in H as (? & ? & ? & _ & H)).
      by apply reset_tls_spec in H as (-> & _). }
  assert (closed (S := unit) (write_temp_key f)) as Hkey.
  { unfold write_temp_key. destruct (temp_fd f) as [fd|]; [|apply closed_stuck]. destruct (temp_stream f).
    - intros s w a s' w' [= _ _ <-]. unfold fds. cbn [record_calls syscalls]. rewrite !open_after_app. cbn. by rewrite Z.eqb_refl.
    - by intros s w a s' w' H. }
  unfold bench_main, network_benchmarks.
  repeat (first [simple apply closed_bind; [|intros ?] | simple apply Hkept | simple apply closed_local |
                 simple apply closed_ns_per_op | case_match]); auto with closed.
Qed.
End Closed.
