(* ===== verification/Fuzz.v ===== *)
(** * Fuzz: the fuzz targets (fuzz/) and what they look for

    Each fuzz target as a function of its input that tells whether it returns ([true])
    or aborts ([false]), and the theorem that none of them ever aborts: what the
    fuzzers sample is proved for every input. *)

From S2P Require Import Prelude CharConv JsonLexer JsonParser JsonFacts MessageTypes KalshiMessages JsonRoundTrip KalshiDecoder DecoderEquiv Stream Frame HttpResponse.

(** ** Message comparison (tests/message_compare.hpp) *)

Definition same_snapshot (a b : OrderBookSnapshot) : bool :=
  bytes_eqb (snap_market_ticker a) (snap_market_ticker b) && bytes_eqb (snap_market_id a) (snap_market_id b) &&
  bool_decide (yes_dollars_fp a = yes_dollars_fp b) && bool_decide (no_dollars_fp a = no_dollars_fp b).

Definition same_delta (a b : OrderBookDelta) : bool :=
  bytes_eqb (delta_market_ticker a) (delta_market_ticker b) && bytes_eqb (delta_market_id a) (delta_market_id b) &&
  bytes_eqb (price_dollars a) (price_dollars b) && bytes_eqb (delta_fp a) (delta_fp b) && bytes_eqb (side a) (side b) &&
  bytes_eqb (ts a) (ts b) && (delta_ts_ms a =? delta_ts_ms b).

Definition same_action (a b : FillAction) : bool :=
  match a, b with Buy, Buy | Sell, Sell => true | _, _ => false end.

Definition same_fill (a b : Fill) : bool :=
  bytes_eqb (fill_order_id a) (fill_order_id b) && bytes_eqb (fill_market_ticker a) (fill_market_ticker b) &&
  bytes_eqb (count_fp a) (count_fp b) && same_action (action a) (action b).

Definition same_message (a b : Message) : bool :=
  bytes_eqb (msg_type a) (msg_type b) && (sid a =? sid b) && (seq a =? seq b) &&
  match msg a, msg b with
  | PNone, PNone => true
  | PSnapshot x, PSnapshot y => same_snapshot x y
  | PDelta x, PDelta y => same_delta x y
  | PFill x, PFill y => same_fill x y
  | _, _ => false
  end.

(** ** The targets *)

Definition fuzz_decoder_differential (data : bytes) : bool :=
  let direct := decode_kalshi_message data in
  let via_tree := match parse_json data with Ok json => parse_kalshi_message json | Unexpected e => Unexpected e end in
  if negb (Bool.eqb (has_value direct) (has_value via_tree)) then false
  else match direct, via_tree with Ok a, Ok b => same_message a b | _, _ => true end.

(** [rand] is the masking key that [RAND_bytes] gives to the builder. *)
Definition fuzz_frame_parser (rand : option bytes) (data : bytes) : bool :=
  match frame_parser data with
  | Unexpected _ => true
  | Ok parsed =>
    if (length data <? bytes_consumed parsed)%nat || (kMaxFramePayload <? Z.of_nat (length (payload (frame parsed)))) then false
    else
      let f := {| fin_bit := true; op_code := op_code (frame parsed); mask_key := mask_key (frame parsed);
                  payload := payload (frame parsed) |} in
      match frame_builder rand f with
      | Unexpected _ => false
      | Ok rebuilt =>
        match frame_parser rebuilt with
        | Unexpected _ => false
        | Ok reparsed =>
          bytes_eqb (payload (frame reparsed)) (payload f) && bool_decide (op_code (frame reparsed) = op_code f) &&
          (bytes_consumed reparsed =? length rebuilt)%nat
        end
      end
  end.

Definition same_response (a b : ParsedHttpResponse) : bool :=
  (consumed a =? consumed b)%nat && (http_status (response a) =? http_status (response b)) &&
  Bool.eqb (keep_alive (response a)) (keep_alive (response b)) && bytes_eqb (body (response a)) (body (response b)).

(** The check for one value of [eof]. *)
Definition consumes_at_most (data : bytes) (eof : bool) : bool :=
  match parse_http_response data eof with Ok (Some p) => (consumed p <=? length data)%nat | _ => true end.

(** The check for one cut. *)
Definition prefix_agrees (data : bytes) (cut : nat) : bool :=
  match parse_http_response (take cut data) false with
  | Ok (Some p) =>
    match parse_http_response data false with Ok (Some full) => same_response p full | _ => false end
  | _ => true
  end.

Definition fuzz_http_response (data : bytes) : bool :=
  let size := length data in
  forallb (consumes_at_most data) [false; true] &&
  forallb (prefix_agrees data) [(size / 4)%nat; (size / 2)%nat; (size - size / 4)%nat].

Definition fuzz_json (data : bytes) : bool :=
  match parse_json data with
  | Unexpected _ => true
  | Ok first =>
    let dumped := to_json_string first in
    match parse_json dumped with
    | Unexpected _ => false
    | Ok second => bytes_eqb (to_json_string second) dumped
    end
  end.

(** ** None of them aborts *)

Lemma same_message_refl m : same_message m m = true.
Proof.
  unfold same_message, same_snapshot, same_delta, same_fill. rewrite bytes_eqb_refl, !Z.eqb_refl.
  destruct (msg m) as [|s|d|f]; cbn [andb]; rewrite ?bytes_eqb_refl, ?Z.eqb_refl, ?bool_decide_true by done; try done.
  by destruct (action f).
Qed.

Lemma same_response_refl p : same_response p p = true.
Proof. unfold same_response. by rewrite Nat.eqb_refl, Z.eqb_refl, eqb_reflx, bytes_eqb_refl. Qed.

Lemma fuzz_decoder_passes data : fuzz_decoder_differential data = true.
Proof.
  unfold fuzz_decoder_differential. fold (tree_decode data). pose proof (decoder_agrees data) as H.
  destruct (decode_kalshi_message data), (tree_decode data); cbn in *; try done. subst. apply same_message_refl.
Qed.

Lemma fuzz_frame_passes key data : length key = 4%nat -> fuzz_frame_parser (Some key) data = true.
Proof.
  intros Hkey. unfold fuzz_frame_parser. destruct (frame_parser data) as [r|] eqn:E; [|done].
  apply frame_parser_sound in E as ((Hmax & Hctl & _) & Hle & _).
  destruct (Nat.ltb_spec (length data) (bytes_consumed r)); [lia|].
  destruct (Z.ltb_spec kMaxFramePayload (Z.of_nat (length (payload (frame r))))); [lia|]. cbn [orb].
  set (f := {| fin_bit := true; op_code := op_code (frame r); mask_key := mask_key (frame r); payload := payload (frame r) |}).
  destruct (frame_builder (Some key) f) as [e|] eqn:Eb; [|done].
  pose proof (builder_encodes key f e Hkey Hmax Eb) as Henc.
  assert (frame_ok {| fin_bit := true; op_code := op_code f; mask_key := Some key; payload := payload f |}) as Hok.
  { apply built_frame_ok; [done|done|]. intros Hc. by apply Hctl. }
  pose proof (frame_parser_complete _ _ [] Hok Henc) as Hp. rewrite app_nil_r in Hp. rewrite Hp.
  cbn [frame payload op_code bytes_consumed]. by rewrite bytes_eqb_refl, bool_decide_true, Nat.eqb_refl.
Qed.

Lemma fuzz_http_passes data : fuzz_http_response data = true.
Proof.
  unfold fuzz_http_response. apply andb_true_iff. split; apply forallb_forall.
  - intros eof _. unfold consumes_at_most. destruct (parse_http_response data eof) as [[p|]|] eqn:E; [|done..].
    apply parse_response_ok in E as [H _]. by apply Nat.leb_le.
  - intros cut _. unfold prefix_agrees. destruct (parse_http_response (take cut data) false) as [[p|]|] eqn:E; [|done..].
    apply (parse_response_app _ (drop cut data)) in E. rewrite take_drop in E. rewrite E. apply same_response_refl.
Qed.

Lemma fuzz_json_passes data : fuzz_json data = true.
Proof.
  unfold fuzz_json. destruct (parse_json data) as [v|] eqn:E; [|done].
  rewrite (accepted_json_round_trips _ _ E). apply bytes_eqb_refl.
Qed.

(** C31. No fuzz target ever aborts: for every input, and every masking key that the
    frame builder draws, the direct decoder agrees with the JSON tree, a parsed frame
    survives building and parsing again, HTTP responses consume at most their input
    and agree between a prefix and the whole, and accepted JSON survives printing and
    parsing. *)
Theorem fuzz_targets_never_abort key data :
  length key = 4%nat ->
  fuzz_decoder_differential data = true /\ fuzz_frame_parser (Some key) data = true /\
  fuzz_http_response data = true /\ fuzz_json data = true.
Proof.
  intros Hkey. split; [apply fuzz_decoder_passes|]. split; [by apply fuzz_frame_passes|].
  split; [apply fuzz_http_passes|apply fuzz_json_passes].
Qed.

Lemma fuzz_targets_never_abort_witness :
  let data := map zb [137; 2; 65; 66; 7] in
  is_Some (match frame_parser data with Ok r => Some r | Unexpected _ => None end) /\
  fuzz_frame_parser (Some (map zb [1; 2; 3; 4])) data = true.
Proof.
  intros data. split; [eexists; by vm_compute|].
  exact (proj1 (proj2 (fuzz_targets_never_abort (map zb [1; 2; 3; 4]) data eq_refl))).
Defined.
