(* ===== verification/TestFramework.v ===== *)
(** * TestFramework: the unit test runner (tests/test_framework.hpp, tests/test_main.cpp)

    Tests register themselves, count their failed checks in a global counter and are
    run in order by the test program, whose exit status tells whether all passed. *)

From S2P Require Import Prelude CharConv Stream Sockets World.

(** One [CHECK] or [CHECK_EQ]: whether it holds, its text, the place, and the two
    values when they can be formatted. *)
Record Check : Type := { ck_ok : bool; ck_expr : bytes; ck_loc : bytes; ck_values : option (bytes * bytes) }.

(** [check] and [check_eq] on the counter [failures()]. *)
Definition check (c : Check) : M Z unit :=
  if ck_ok c then ret tt
  else
    let% _ := modify (fun failures => failures + 1) in
    eprintln (lit "    FAIL " ++ ck_loc c ++ lit ": " ++ ck_expr c ++
              match ck_values c with Some (a, b) => lit " (" ++ a ++ lit " != " ++ b ++ lit ")" | None => [] end).

Record Case : Type := { case_name : bytes; fn : M Z unit }.

(** The constructor of [Registrar]. *)
Definition register (registry : list Case) (c : Case) : list Case := registry ++ [c].

(** The loop of [main]: the number of failed tests. *)
Fixpoint run_cases (registry : list Case) (failed_tests : Z) : M Z Z :=
  match registry with
  | [] => ret failed_tests
  | c :: registry =>
    let% before := get in
    let% _ := fn c in
    let% after := get in
    let ok := after =? before in
    let% _ := println ((if ok then lit "[ ok ]" else lit "[FAIL]") ++ lit " " ++ case_name c) in
    run_cases registry (if ok then failed_tests else failed_tests + 1)
  end.

Definition test_main (registry : list Case) : M Z Z :=
  let% failed_tests := run_cases registry 0 in
  let% failures := get in
  let% _ := println ([x0a] ++ fmt_uint (Z.of_nat (length registry)) ++ lit " tests, " ++ fmt_int failed_tests ++
                     lit " failed, " ++ fmt_int failures ++ lit " failed checks") in
  ret (if failed_tests =? 0 then 0 else 1).

(** ** Properties *)

(** A test function that runs checks. *)
Fixpoint run_checks (cs : list Check) : M Z unit :=
  match cs with [] => ret tt | c :: cs => let% _ := check c in run_checks cs end.

Definition checks_case (t : bytes * list Check) : Case := {| case_name := t.1; fn := run_checks t.2 |}.

Definition failed_checks (cs : list Check) : Z := Z.of_nat (length (List.filter (fun c => negb (ck_ok c)) cs)).

Lemma run_checks_count cs : forall n w, exists w', run_checks cs n w = Some (tt, n + failed_checks cs, w').
Proof.
  induction cs as [|c cs IH]; intros n w; cbn [run_checks]; [exists w; unfold failed_checks; cbn; by rewrite Z.add_0_r|].
  unfold bind, check, failed_checks in *. cbn [List.filter]. destruct (ck_ok c); cbn [negb]; [apply IH|].
  edestruct (IH (n + 1)) as [w' H]. exists w'. etrans; [exact H|]. cbn [length]. do 2 f_equal. f_equal. lia.
Qed.

Lemma failed_checks_zero cs : failed_checks cs = 0 <-> Forall (fun c => ck_ok c = true) cs.
Proof.
  unfold failed_checks. induction cs as [|c cs IH]; cbn [List.filter length]; [done|]. rewrite Forall_cons.
  destruct (ck_ok c); cbn [negb length]; [rewrite IH; intuition|]. split; [lia|]. by intros [[=] _].
Qed.

Lemma run_cases_count ts : forall k n w, exists j n' w',
  run_cases (map checks_case ts) k n w = Some (k + j, n', w') /\ 0 <= j /\
  (j = 0 <-> Forall (fun t => Forall (fun c => ck_ok c = true) t.2) ts).
Proof.
  induction ts as [|t ts IH]; intros k n w; cbn [map run_cases]; [exists 0, n, w; rewrite Z.add_0_r; by repeat split|].
  unfold bind, get. cbn [fn checks_case]. destruct (run_checks_count t.2 n w) as [w1 ->].
  unfold println, print.
  assert (0 <= failed_checks t.2) by (unfold failed_checks; lia).
  destruct (Z.eqb_spec (n + failed_checks t.2) n) as [He|He].
  - edestruct (IH k) as (j & n' & w' & H1 & H2 & H3). exists j, n', w'. split; [exact H1|]. split; [done|].
    rewrite Forall_cons, <- failed_checks_zero, H3. intuition lia.
  - edestruct (IH (k + 1)) as (j & n' & w' & H1 & H2 & H3). exists (1 + j), n', w'.
    split; [rewrite H1; do 2 f_equal; f_equal; lia|]. split; [lia|].
    rewrite Forall_cons, <- failed_checks_zero. split; [lia|]. intros [H0 _]. lia.
Qed.

(** The exit status is 0 exactly when every check of every test holds. *)
Lemma test_main_exit ts n w : exists code n' w',
  test_main (map checks_case ts) n w = Some (code, n', w') /\
  (code = 0 <-> Forall (fun t => Forall (fun c => ck_ok c = true) t.2) ts).
Proof.
  unfold test_main, bind at 1. destruct (run_cases_count ts 0 n w) as (j & n' & w' & -> & Hj & Hiff).
  eexists _, _, _. split; [reflexivity|]. rewrite <- Hiff. rewrite Z.add_0_l. destruct (Z.eqb_spec j 0); lia.
Qed.

(** A test whose checks are summed up in one boolean. *)
Definition bool_case (t : string * bool) : Case :=
  {| case_name := lit t.1; fn := check {| ck_ok := t.2; ck_expr := lit t.1; ck_loc := lit t.1; ck_values := None |} |}.

Lemma register_all l : forall cases, foldl register cases l = cases ++ l.
Proof. induction l as [|c l IH]; intros cases; cbn [foldl]; [by rewrite app_nil_r|]. rewrite IH. unfold register. by rewrite <- app_assoc. Qed.

Lemma bool_suite_passes (tests : list (string * bool)) w :
  Forall (fun t => t.2 = true) tests -> exists n w', test_main (foldl register [] (map bool_case tests)) 0 w = Some (0, n, w').
Proof.
  intros Hall. rewrite register_all. cbn [app].
  assert (forall ts, Forall (fun t => t.2 = true) ts -> forall k n w,
            exists w', run_cases (map bool_case ts) k n w = Some (k, n, w')) as Hrun.
  { induction 1 as [|t ts Ht _ IH]; intros k n w0; cbn [map run_cases]; [by exists w0|].
    unfold bind, get. cbn [fn bool_case]. unfold check. cbn [ck_ok]. rewrite Ht. unfold ret, println, print.
    rewrite Z.eqb_refl. apply IH. }
  unfold test_main, bind at 1. destruct (Hrun tests Hall 0 0 w) as [w' ->]. by eexists _, _.
Qed.
