(* ===== verification/UnitTests.v ===== *)
(** * UnitTests: the repository's unit tests (tests/) on the model

    Every test of the repository as a function that runs its checks on the definitions
    of this development; [unit_tests_pass] evaluates them all.  For [std::exp],
    which the strategy tests reach through the program, the constant function 1 is
    used: the EMA stays at the mid price of the warm-up. *)

From S2P Require Import Prelude Double FixedPoint CharConv MessageTypes MarketState JsonLexer JsonParser KalshiMessages KalshiDecoder Stream Frame World HttpResponse Strategy Fuzz TestFramework.

(** [CHECK]s and [CHECK_EQ]s of one test. *)
Definition checks (l : list bool) : bool := forallb (fun b => b) l.

Definition is_none {A} (x : option A) : bool := match x with None => true | Some _ => false end.

Definition eq_opt (x : option Z) (v : Z) : bool := match x with Some y => y =? v | None => false end.

(** ** test_fixed_point.cpp *)

Definition test_fixed_point_parses_kalshi_prices_exactly : bool :=
  forallb (fun c => let digits := fmt_int_pad0 2 c in
             eq_opt (parse_fixed 2 (lit "0." ++ digits)) c && eq_opt (parse_fixed 2 (lit "0." ++ digits ++ lit "00")) c)
    (map Z.of_nat (List.seq 1 99)).

Definition test_fixed_point_handles_signs_and_scales : bool :=
  checks [eq_opt (parse_fixed 2 (lit "-12.50")) (-1250); eq_opt (parse_fixed 0 (lit "5")) 5;
          eq_opt (parse_fixed 0 (lit "5.000")) 5; eq_opt (parse_fixed 4 (lit "0.5")) 5000; eq_opt (parse_fixed 2 (lit ".5")) 50].

Definition test_fixed_point_rejects_malformed_and_lossy_input : bool :=
  forallb (fun bad => is_none (parse_fixed 2 (lit bad)))
    [""; "-"; "."; "1.2.3"; "abc"; "1e5"; "+1"; "0.295"; "1.001"; " 1"; "1 "]%string && is_none (parse_fixed 0 (lit "0.50")).

Definition test_fixed_point_rejects_overflow : bool :=
  checks [negb (is_none (parse_fixed 0 (lit "9223372036854775800"))); is_none (parse_fixed 0 (lit "99999999999999999999"));
          is_none (parse_fixed 2 (lit "999999999999999999.00"))].

(** ** test_market_state.cpp *)

Definition dollars (c : Z) : bytes := lit "0." ++ fmt_int_pad0 2 c ++ lit "00".

Definition snapshot (yes no : list (Z * Z)) : OrderBookSnapshot :=
  let levels := map (fun '(p, q) => (dollars p, fmt_int q ++ lit ".00")) in
  {| snap_market_ticker := lit "T"; snap_market_id := lit "id"; yes_dollars_fp := levels yes; no_dollars_fp := levels no |}.

(** A delta with the members that a test does not set left empty. *)
Definition raw_delta (side price qty : bytes) : OrderBookDelta :=
  {| delta_market_ticker := []; delta_market_id := []; price_dollars := price; delta_fp := qty;
     MessageTypes.side := side; ts := []; delta_ts_ms := 0 |}.

Definition delta (side : string) (c : Z) (qty : string) : OrderBookDelta :=
  {| delta_market_ticker := lit "T"; delta_market_id := lit "id"; price_dollars := dollars c; delta_fp := lit qty;
     MessageTypes.side := lit side; ts := []; delta_ts_ms := 0 |}.

(** Whether the event was accepted, and the book after it. *)
Definition snap (s : OrderBookSnapshot) (k : MarketState) : bool * MarketState :=
  let '(r, k) := apply_snapshot k s in (has_value r, k).
Definition apply (d : OrderBookDelta) (k : MarketState) : bool * MarketState :=
  match apply_delta k d with Some (r, k) => (has_value r, k) | None => (false, k) end.
Definition error_kind (d : OrderBookDelta) (k : MarketState) : option BookErrorKind :=
  match apply_delta k d with Some (Unexpected e, _) => Some (kind e) | _ => None end.

Definition test_book_snapshot_sets_levels_and_top_of_book : bool :=
  let '(ok, k) := snap (snapshot [(40, 10); (45, 3)] [(50, 7); (52, 1)]) new_market_state in
  checks [ok; eq_opt (best_yes_bid k) (cents 45); eq_opt (best_yes_ask k) (cents 48); level_at (_yes k) (cents 40) =? 1000].

Definition test_book_empty_sides_have_no_top : bool :=
  let k0 := new_market_state in
  let '(ok, k) := snap (snapshot [(30, 1)] []) k0 in
  checks [is_none (best_yes_bid k0); is_none (best_yes_ask k0); ok; eq_opt (best_yes_bid k) (cents 30); is_none (best_yes_ask k)].

Definition test_book_delta_improves_and_removes_best : bool :=
  let '(ok0, k) := snap (snapshot [(40, 10); (45, 3)] []) new_market_state in
  let '(ok1, k1) := apply (delta "yes" 47 "2.00") k in
  let '(ok2, k2) := apply (delta "yes" 47 "-2.00") k1 in
  let '(ok3, k3) := apply (delta "yes" 45 "-3.00") k2 in
  let '(ok4, k4) := apply (delta "yes" 40 "-10.00") k3 in
  checks [ok0; ok1; eq_opt (best_yes_bid k1) (cents 47); ok2; eq_opt (best_yes_bid k2) (cents 45);
          ok3; eq_opt (best_yes_bid k3) (cents 40); ok4; is_none (best_yes_bid k4)].

Definition test_book_partial_reduction_keeps_best : bool :=
  let '(ok0, k) := snap (snapshot [(45, 3)] []) new_market_state in
  let '(ok1, k) := apply (delta "yes" 45 "-1.00") k in
  checks [ok0; ok1; eq_opt (best_yes_bid k) (cents 45); level_at (_yes k) (cents 45) =? 200].

Definition test_book_negative_level_is_reported_and_clamped : bool :=
  let '(ok0, k) := snap (snapshot [(45, 1)] []) new_market_state in
  let '(ok1, k) := apply (delta "yes" 45 "-5.00") k in
  checks [ok0; negb ok1; level_at (_yes k) (cents 45) =? 0; is_none (best_yes_bid k)].

Definition test_book_rejects_invalid_input : bool :=
  forallb (fun d => negb (fst (apply d new_market_state)))
    [delta "maybe" 45 "1.00"; delta "yes" 0 "1.00"; raw_delta (lit "yes") (lit "1.00") (lit "1.00");
     raw_delta (lit "yes") (lit "0.4555") (lit "1.00"); delta "yes" 45 "lots"].

Definition test_book_bad_snapshot_leaves_previous_book_intact : bool :=
  let '(ok0, k) := snap (snapshot [(45, 3)] [(50, 1)]) new_market_state in
  let good := snapshot [(30, 1)] [] in
  let bad := {| snap_market_ticker := snap_market_ticker good; snap_market_id := snap_market_id good;
                yes_dollars_fp := yes_dollars_fp good ++ [(lit "garbage", lit "1.00")]; no_dollars_fp := no_dollars_fp good |} in
  let '(ok1, k) := snap bad k in
  checks [ok0; negb ok1; eq_opt (best_yes_bid k) (cents 45); eq_opt (best_yes_ask k) (cents 50)].

Definition test_book_supports_deci_cent_prices : bool :=
  let s := {| snap_market_ticker := lit "T"; snap_market_id := lit "id";
              yes_dollars_fp := [(lit "0.0010", lit "500.00"); (lit "0.0030", lit "2.00")];
              no_dollars_fp := [(lit "0.9950", lit "1.00")] |} in
  let '(ok0, k) := snap s new_market_state in
  let '(ok1, k1) := apply (raw_delta (lit "yes") (lit "0.0030") (lit "-2.00")) k in
  checks [ok0; eq_opt (best_yes_bid k) 3; eq_opt (best_yes_ask k) 5; ok1; eq_opt (best_yes_bid k1) 1].

Definition test_book_error_kinds_distinguish_resync_from_unsupported : bool :=
  let '(ok0, k) := snap (snapshot [(45, 1)] []) new_market_state in
  let d := delta "yes" 45 "-5.00" in
  let k1 := snd (apply d k) in
  checks [ok0; match error_kind d k with Some OutOfSync => true | _ => false end;
          match error_kind (raw_delta (lit "yes") (lit "0.00001") (lit "1.00")) k1 with Some MarketState.Malformed => true | _ => false end].

Definition test_price_formatting : bool :=
  checks [bytes_eqb (format_price (cents 59)) (lit "59c"); bytes_eqb (format_price 595) (lit "59.5c");
          bytes_eqb (format_price 1) (lit "0.1c"); bytes_eqb (price_to_dollars (cents 7)) (lit "0.0700");
          bytes_eqb (price_to_dollars 595) (lit "0.5950"); bytes_eqb (price_to_dollars 1) (lit "0.0010")].

(** ** test_json.cpp *)

(** [str(obj(v).at(key))], with [None] where a test would throw. *)
Definition member (key : string) (v : JsonValue) : option JsonValue :=
  match v with JObject o => find (lit key) o | _ => None end.
Definition is_str (x : option JsonValue) (s : bytes) : bool := match x with Some (JString t) => bytes_eqb t s | _ => false end.
Definition parsed (s : bytes) : option JsonValue := match parse_json s with Ok v => Some v | Unexpected _ => None end.
Definition at_member (key : string) (x : option JsonValue) : option JsonValue :=
  match x with Some v => member key v | None => None end.
Definition nth_element (n : nat) (x : option JsonValue) : option JsonValue :=
  match x with Some (JArray a) => a !! n | _ => None end.

Definition test_json_parses_all_value_kinds : bool :=
  let v := parsed (json_text " {'s':'x','n':-1.5e3,'t':true,'f':false,'z':null,'a':[1,[]],'o':{}} ") in
  checks [negb (is_none v); is_str (at_member "s" v) (lit "x"); is_str (at_member "n" v) (lit "-1.5e3");
          match at_member "t" v with Some (JBool b) => b | _ => false end;
          match at_member "f" v with Some (JBool b) => negb b | _ => false end;
          match at_member "z" v with Some JNull => true | _ => false end;
          match at_member "a" v with Some (JArray a) => (length a =? 2)%nat | _ => false end].

Definition test_json_decodes_escapes_and_unicode : bool :=
  let v := parsed (json_text "['a\'b\\c\/d\n', '\u00e9', '\ud83d\ude00']") in
  checks [negb (is_none v); is_str (nth_element 0 v) (json_text "a'b\c/d" ++ [x0a]);
          is_str (nth_element 1 v) [xc3; xa9]; is_str (nth_element 2 v) [xf0; x9f; x98; x80]].

Definition test_json_escaped_quote_does_not_end_string : bool :=
  is_str (at_member "k" (parsed (json_text "{'k':'say \'hi\''}"))) (json_text "say 'hi'").

Definition test_json_rejects_malformed_input : bool :=
  forallb (fun bad => is_none (parsed bad))
    (map json_text
       [""; "{"; "["; "}"; "{'a':1"; "{'a' 1}"; "{'a':}"; "[1,]"; "{'a':1,}"; "[1 2]"; "01"; "1."; "1.2.3"; "-"; "1e"; "'abc";
        "'bad \x escape'"; "'\u12'"; "tru"; "{} extra"; "'\ud800'"; "{1:2}"; "nul"]%string ++
     [json_text "'ctrl " ++ [x01] ++ json_text " char'"]).

Definition brackets (n : nat) : bytes := repeat "["%byte n ++ repeat "]"%byte n.

Definition test_json_enforces_depth_limit : bool :=
  checks [negb (is_none (parsed (brackets kMaxJsonDepth))); is_none (parsed (brackets (S kMaxJsonDepth)));
          is_none (parsed (repeat "["%byte (Z.to_nat 1000000)))].

Definition test_json_duplicate_keys_keep_first : bool :=
  is_str (at_member "k" (parsed (json_text "{'k':'first','k':'second'}"))) (lit "first").

(** The next token and the lexer after it. *)
Definition tok (L : JsonLexer) : option Token * JsonLexer := match next L with (Ok t, L) => (Some t, L) | (_, L) => (None, L) end.
Definition has_type (t : option Token) (ty : TokenType) : bool := match t with Some t => token_is t ty | None => false end.

Definition test_json_lexer_tokens_are_views_into_input : bool :=
  let input := json_text "{'key': 12}" in
  let '(t1, L) := tok (new_lexer input) in
  let '(t2, L) := tok L in
  let '(t3, L) := tok L in
  let '(t4, L) := tok L in
  let '(t5, L) := tok L in
  let '(t6, _) := tok L in
  checks [has_type t1 LeftBrace; has_type t2 TString;
          match t2 with Some t => bytes_eqb (text t) (take 3 (drop 2 input)) | None => false end; has_type t3 Colon;
          match t4 with Some t => bytes_eqb (text t) (lit "12") | None => false end; has_type t5 RightBrace; has_type t6 TEnd].

Definition test_json_bare_negative_number_regression : bool :=
  is_str (at_member "position" (parsed (json_text "{'position':-3,'pnl':[-0.5,-1e-2]}"))) (lit "-3").

(** ** test_http_response.cpp *)

Definition http (lines : list string) (rest : string) : bytes := crlf_lines lines ++ json_text rest.

(** [None]: an error; [Some None]: more bytes are needed. *)
Definition http_parsed (data : bytes) (eof : bool) : option (option ParsedHttpResponse) :=
  match parse_http_response data eof with Ok r => Some r | Unexpected _ => None end.
Definition needs_more (data : bytes) : bool := match http_parsed data false with Some None => true | _ => false end.
Definition whole (data : bytes) (eof : bool) (f : ParsedHttpResponse -> bool) : bool :=
  match http_parsed data eof with Some (Some p) => f p | _ => false end.

Definition test_http_content_length_response : bool :=
  let raw := http ["HTTP/1.1 200 OK"; "Content-Type: application/json"; "content-length: 7"; ""]%string "{'a':1}" in
  whole raw false (fun p => checks [http_status (response p) =? 200; keep_alive (response p);
                                    bytes_eqb (body (response p)) (json_text "{'a':1}"); (consumed p =? length raw)%nat]).

Definition test_http_every_prefix_needs_more_bytes : bool :=
  let raw := crlf_lines ["HTTP/1.1 201 Created"; "Transfer-Encoding: chunked"; ""; "4;ext=1"; "abcd"; "3"; "efg"; "0";
                         "X-Trailer: y"; ""]%string in
  forallb (fun len => needs_more (take len raw)) (List.seq 0 (length raw)) &&
  whole raw false (fun p => bytes_eqb (body (response p)) (lit "abcdefg") && (consumed p =? length raw)%nat).

Definition test_http_leaves_pipelined_bytes_unconsumed : bool :=
  let first := http ["HTTP/1.1 200 OK"; "Content-Length: 2"; ""]%string "hi" in
  whole (first ++ crlf_lines ["HTTP/1.1 200 OK"]%string) false (fun p => (consumed p =? length first)%nat).

Definition test_http_connection_semantics : bool :=
  checks [whole (http ["HTTP/1.1 200 OK"; "Connection: close"; "Content-Length: 0"; ""]%string "") false
            (fun p => negb (keep_alive (response p)));
          whole (http ["HTTP/1.0 200 OK"; "Content-Length: 0"; ""]%string "") false (fun p => negb (keep_alive (response p)));
          whole (http ["HTTP/1.0 200 OK"; "Connection: Keep-Alive"; "Content-Length: 0"; ""]%string "") false
            (fun p => keep_alive (response p))].

Definition test_http_close_delimited_body_needs_eof : bool :=
  let raw := http ["HTTP/1.1 200 OK"; ""]%string "until close" in
  needs_more raw && whole raw true (fun p => bytes_eqb (body (response p)) (lit "until close") && negb (keep_alive (response p))).

Definition test_http_bodyless_statuses : bool :=
  whole (http ["HTTP/1.1 204 No Content"; ""]%string "") false (fun p => bytes_eqb (body (response p)) []).

Definition test_http_rejects_malformed_responses : bool :=
  forallb (fun bad => is_none (http_parsed bad false))
    [http ["HTTP/2 200 OK"; ""]%string ""; http ["HTTP/1.1 2x0 OK"; ""]%string "";
     http ["HTTP/1.1 200 OK"; "NoColon"; ""]%string ""; http ["HTTP/1.1 200 OK"; "Content-Length: abc"; ""]%string "";
     http ["HTTP/1.1 200 OK"; "Content-Length: 1"; "Content-Length: 2"; ""]%string "xx";
     http ["HTTP/1.1 200 OK"; "Transfer-Encoding: chunked"; ""; "zz"]%string "";
     http ["HTTP/1.1 200 OK"; "Transfer-Encoding: chunked"; ""; "2"]%string "abXX";
     repeat "x"%byte (Z.to_nat (kMaxHttpHeaderBytes + 1))] &&
  is_none (http_parsed (http ["HTTP/1.1 200 OK"; "Content-Length: 10"; ""]%string "short") true).

(** ** test_strategy.cpp *)

(** The results of an update taken apart; a test in which a sum overflows fails. *)
#[local] Notation "'let2' a b ':=' m 'in' k" := (default false (uncurry (fun a b => k) <$> m))
  (at level 10, a name, b name, m at level 200, k at level 200).

Definition book (bid ask : Z) : MarketState :=
  snd (apply_snapshot new_market_state
    {| snap_market_ticker := lit "T"; snap_market_id := lit "id";
       yes_dollars_fp := [(lit "0." ++ fmt_int_pad0 2 bid, lit "10.00")];
       no_dollars_fp := [(lit "0." ++ fmt_int_pad0 2 (100 - ask), lit "10.00")] |}).

Definition seconds (n : Z) : Z := n * kSecond.
Definition t0 : Z := seconds 1000.
Definition t61 : Z := t0 + seconds 61.

Definition update (k : MarketState) (exposure now : Z) (s : MeanReversionStrategy) : option (option Signal * MeanReversionStrategy) :=
  on_book_update flat_exp s k exposure now.

(** The checks of the warm-up and the strategy after it. *)
Definition warm_up (from : Z) : option (bool * MeanReversionStrategy) :=
  let k := book 29 31 in
  fold_left (fun x i => x ≫= fun '(ok, s) => (fun '(r, s) => (ok && is_none r, s)) <$> update k 0 (from + seconds (Z.of_nat i * 5)) s)
    (List.seq 0 13) (Some (true, new_strategy default_config)).

Definition is_signal (r : option Signal) (side : OrderSide) (price : Z) : bool :=
  match r with
  | Some sig => (match signal_side sig, side with Bid, Bid | Ask, Ask => true | _, _ => false end) && (signal_price sig =? price)
  | None => false
  end.

Definition test_strategy_buys_when_offer_drops_below_fair : bool :=
  let2 ok s := warm_up t0 in
  let2 signal s := update (book 24 26) 0 t61 s in
  ok && is_signal signal Bid (cents 26).

Definition test_strategy_sells_when_bid_rises_above_fair : bool :=
  let2 ok s := warm_up t0 in
  let2 signal s := update (book 34 36) 0 t61 s in
  ok && is_signal signal Ask (cents 34).

Definition test_strategy_respects_cooldown_limits_and_spread : bool :=
  let2 ok s := warm_up t0 in
  let2 r1 s := update (book 24 26) 0 t61 s in
  let2 r2 s := update (book 24 26) 0 (t61 + seconds 1) s in
  let2 r3 s := update (book 24 26) 5 (t61 + seconds 10) s in
  let2 r4 s := update (book 10 26) 0 (t61 + seconds 20) s in
  let2 ok2 s2 := warm_up t0 in
  let2 r5 s2 := update (book 34 36) (-5) t61 s2 in
  checks [ok; negb (is_none r1); is_none r2; is_none r3; is_none r4; ok2; is_none r5].

Definition test_strategy_does_not_trade_during_warmup_or_on_bad_books : bool :=
  let s := new_strategy default_config in
  let2 r1 s := update (book 29 31) 0 t0 s in
  let2 r2 s := update (book 10 12) 0 (t0 + seconds 10) s in
  let one_sided := snd (apply_snapshot new_market_state
    {| snap_market_ticker := lit "T"; snap_market_id := lit "id"; yes_dollars_fp := [(lit "0.30", lit "1.00")]; no_dollars_fp := [] |}) in
  let2 r3 s := update one_sided 0 (t0 + seconds 120) s in
  checks [is_none r1; is_none r2; is_none r3].

Definition test_strategy_builds_ioc_order : bool :=
  let order := make_ioc_order (lit "T") {| signal_side := Ask; signal_price := cents 7; signal_count := 2 |} (lit "c1") in
  checks [bytes_eqb (price order) (lit "0.0700"); bytes_eqb (count order) (lit "2.00");
          match time_in_force order with ImmediateOrCancel => true | _ => false end].

(** ** test_frame_parser.cpp *)

Fixpoint payload_from (i : Z) (n : nat) : bytes := match n with O => [] | S n => zb (i * 31 + 7) :: payload_from (i + 1) n end.
Definition payload_of (n : nat) : bytes := payload_from 0 n.

Definition mask : bytes := map zb [17; 34; 51; 68].

Definition built (op : Opcode) (n : nat) : option bytes :=
  match frame_builder (Some mask) {| fin_bit := true; op_code := op; mask_key := None; payload := payload_of n |} with
  | Ok e => Some e | Unexpected _ => None
  end.

(** The checks of the round trip for one size. *)
Definition round_trips (n : Z) : bool :=
  match built Binary (Z.to_nat n) with
  | Some e =>
    match frame_parser e with
    | Ok r => checks [(bytes_consumed r =? length e)%nat; bytes_eqb (payload (frame r)) (payload_of (Z.to_nat n));
                      bool_decide (op_code (frame r) = Binary)]
    | Unexpected _ => false
    end
  | None => false
  end.

Definition test_frame_round_trips_through_builder_and_parser : bool :=
  forallb round_trips [0; 1; 125; 126; 65535; 65536; 200000].

Definition is_incomplete (b : bytes) : bool :=
  match frame_parser b with Unexpected e => match pe_kind e with Incomplete => true | Malformed => false end | Ok _ => false end.

Definition test_frame_every_prefix_is_incomplete : bool :=
  match built Text 300 with
  | Some e => forallb (fun len => is_incomplete (take len e)) (List.seq 0 (length e))
  | None => false
  end.

Definition test_frame_parser_consumes_only_one_frame : bool :=
  match built Text 5, built Ping 3 with
  | Some a, Some b => match frame_parser (a ++ b) with Ok r => (bytes_consumed r =? length a)%nat | Unexpected _ => false end
  | _, _ => false
  end.

Definition test_frame_rejects_protocol_violations : bool :=
  forallb (fun l => is_malformed (frame_parser (map zb l)))
    [[131; 0]; [193; 0]; [9; 0]; [137; 126; 0; 126]; [130; 127; 128; 0; 0; 0; 0; 0; 0; 0]; [130; 127; 0; 0; 0; 1; 0; 0; 0; 0]].

(** ** test_kalshi_messages.cpp *)

(** Whether the two decoders agree, and what the direct one returns. *)
Definition decode_both (payload : bytes) : bool * option Message :=
  let direct := decode_kalshi_message payload in
  let via_tree := match parse_json payload with Ok json => parse_kalshi_message json | Unexpected e => Unexpected e end in
  (Bool.eqb (has_value direct) (has_value via_tree) &&
   match direct, via_tree with Ok a, Ok b => same_message a b | _, _ => true end,
   match direct with Ok m => Some m | Unexpected _ => None end).

(** Both decoders return a message with [f]. *)
Definition both (payload : bytes) (f : Message -> bool) : bool :=
  match decode_both payload with (agree, Some m) => agree && f m | _ => false end.

Definition test_decode_orderbook_delta : bool :=
  both (json_text "{'type':'orderbook_delta','sid':7,'seq':42,'msg':{'market_ticker':'KX-T','market_id':'m1'," ++
        json_text "'price_dollars':'0.5900','delta_fp':'-12.00','side':'yes','ts':'2026-09-30T00:00:00Z','ts_ms':1790819126123}}")
    (fun m => checks [sid m =? 7; seq m =? 42;
                      match msg m with
                      | PDelta d => bytes_eqb (price_dollars d) (lit "0.5900") && (delta_ts_ms d =? 1790819126123)
                      | _ => false
                      end]).

Definition test_decode_orderbook_snapshot : bool :=
  both (json_text "{'type':'orderbook_snapshot','sid':7,'seq':1,'msg':{'market_ticker':'KX-T','market_id':'m1'," ++
        json_text "'yes_dollars_fp':[['0.4000','10.00'],['0.4500','3.00']],'no_dollars_fp':[['0.5000','7.00']]}}")
    (fun m => match msg m with
              | PSnapshot s => (length (yes_dollars_fp s) =? 2)%nat &&
                               match no_dollars_fp s with (p, _) :: _ => bytes_eqb p (lit "0.5000") | [] => false end
              | _ => false
              end).

Definition test_decode_snapshot_with_missing_sides : bool :=
  both (json_text "{'type':'orderbook_snapshot','msg':{'market_ticker':'KX-T','market_id':'m1'}}")
    (fun m => match msg m with PSnapshot s => (length (yes_dollars_fp s) =? 0)%nat | _ => false end).

Definition test_decode_fill_and_subscribed : bool :=
  both (json_text "{'type':'fill','sid':3,'msg':{'order_id':'o1','market_ticker':'KX-T','count_fp':'1.00','action':'sell'}}")
    (fun m => match msg m with PFill f => same_action (action f) Sell | _ => false end) &&
  both (json_text "{'type':'subscribed','id':1,'msg':{'channel':'orderbook_delta','sid':7}}")
    (fun m => match msg m with PNone => true | _ => false end).

Definition test_decode_rejects_bad_messages_the_same_way : bool :=
  forallb (fun bad => match decode_both (json_text bad) with (agree, None) => agree | _ => false end)
    ["[]"; "{'msg':{}}"; "{'type':'orderbook_delta'}"; "{'type':'orderbook_delta','msg':{'market_ticker':'T'}}";
     "{'type':'nope','msg':{}}";
     "{'type':'fill','msg':{'order_id':'o','market_ticker':'T','count_fp':'1','action':'hold'}}";
     "{'type':'orderbook_snapshot','msg':{'market_ticker':'T','market_id':'m','yes_dollars_fp':[['0.1']]}}";
     "{'type':'orderbook_snapshot','msg':{'market_ticker':'T','market_id':'m','no_dollars_fp':[['0.1',['x']]]}}";
     "{'type':'orderbook_delta','msg':{'market_ticker':'T','market_id':'m','price_dollars':'0.5','delta_fp':'1','side':'yes','ts':'t','ts_ms':'abc'}}";
     "{'type':'subscribed'} trailing"]%string.

Definition test_decode_matches_tree_on_edge_cases : bool :=
  forallb (fun edge => fst (decode_both (json_text edge)))
    ["{'type':'fill','type':'orderbook_delta','msg':{'order_id':'o','market_ticker':'T','count_fp':'1','action':'buy'}}";
     "{'type':'fill','msg':{'order_id':'o','order_id':'p','market_ticker':'T','count_fp':2,'action':'buy','x':{'y':[1,{'z':null}]}}}";
     "{'type':'fill','msg':'not an object','msg':{'order_id':'o','market_ticker':'T','count_fp':'1','action':'buy'}}";
     "{'type':'orderbook_snapshot','msg':{'market_ticker':'T','market_id':'m','yes_dollars_fp':{'not':'array'}}}";
     "{'type':'orderbook_snapshot','msg':{'market_ticker':'T','market_id':'m','yes_dollars_fp':[[1,2]],'yes_dollars_fp':[['bad']]}}";
     "{'type':'orderbook_delta','sid':'9','seq':-1,'msg':{'market_ticker':'T','market_id':'m','price_dollars':'0.5','delta_fp':'1','side':'yes','ts':'t','ts_ms':'5'}}";
     "{'type':true,'msg':{}}"]%string.

Definition test_decode_falls_back_for_escaped_strings : bool :=
  both (json_text "{'typ\u0065':'fill','msg':{'order_id':'o\'1','market_ticker':'T','count_fp':'1','action':'buy'}}")
    (fun m => match msg m with PFill f => bytes_eqb (fill_order_id f) (json_text "o'1") | _ => false end).

Definition test_order_request_serializes : bool :=
  let order := {| ticker := lit "KX-T"; order_side := Bid; count := lit "1.00"; price := lit "0.42";
                  time_in_force := ImmediateOrCancel; self_trade_prevention := TakerAtCross; client_order_id := lit "c1";
                  post_only := false |} in
  let v := parsed (serialize_order_request order) in
  is_str (at_member "side" v) (lit "bid") && is_str (at_member "time_in_force" v) (lit "immediate_or_cancel").

(** [parse_order_response] of a text that parses. *)
Definition order_answer_of (s : string) : option (expected bytes OrderResponse) :=
  match parsed (json_text s) with Some v => Some (parse_order_response v) | None => None end.

Definition test_order_response_parses_and_reports_errors : bool :=
  (match order_answer_of "{'order_id':'o1','fill_count':'1.00','remaining_count':'0.00','ts_ms':'1790819126123','client_order_id':'c1'}" with
   | Some (Ok r) => bytes_eqb (resp_order_id r) (lit "o1") && bytes_eqb (fill_count r) (lit "1.00")
   | _ => false
   end) &&
  (match order_answer_of "{'error':{'code':'insufficient_shard_balance','message':'x'}}" with
   | Some (Unexpected e) => negb (is_none (find_sub (lit "insufficient_shard_balance") e))
   | _ => false
   end).

Definition test_to_json_string_round_trips : bool :=
  let v := parsed (json_text "{'a':'quote \' backslash \\ newline \n','b':[true,null,{'c':'\u0001'}]}") in
  match v with
  | Some first =>
    let dumped := to_json_string first in
    match parsed dumped with Some second => bytes_eqb (to_json_string second) dumped | None => false end
  | None => false
  end.

(** ** They pass *)

Lemma payload_from_length n : forall i, length (payload_from i n) = n.
Proof. induction n as [|n IH]; intros i; cbn [payload_from length]; [done|]. by rewrite IH. Qed.

Lemma round_trips_all n : 0 <= n <= kMaxFramePayload -> round_trips n = true.
Proof.
  intros Hn. unfold round_trips, built.
  set (f := {| fin_bit := true; op_code := Binary; mask_key := None; payload := payload_of (Z.to_nat n) |}).
  assert (Z.of_nat (length (payload f)) <= kMaxFramePayload) as Hmax.
  { cbn [payload f]. unfold payload_of. rewrite payload_from_length. lia. }
  destruct (frame_builder (Some mask) f) as [e|] eqn:Eb; [|done].
  pose proof (builder_encodes mask f e eq_refl Hmax Eb) as Henc.
  pose proof (frame_parser_complete _ _ [] (built_frame_ok mask f eq_refl Hmax ltac:(done)) Henc) as Hp.
  rewrite app_nil_r in Hp. rewrite Hp. unfold checks. cbn [forallb frame payload op_code bytes_consumed f].
  by rewrite Nat.eqb_refl, bytes_eqb_refl.
Qed.

(** The payloads of this test are too long to evaluate; the round trip is proved. *)
Example frame_round_trip_test_passes : test_frame_round_trips_through_builder_and_parser = true.
Proof.
  apply forallb_forall. intros n Hin. apply round_trips_all. unfold kMaxFramePayload.
  repeat destruct Hin as [<-|Hin]; try lia. done.
Qed.

(** The other tests by name. *)
Definition evaluated_tests : list (string * bool) :=
  [("fixed_point_parses_kalshi_prices_exactly"%string, test_fixed_point_parses_kalshi_prices_exactly);
   ("fixed_point_handles_signs_and_scales"%string, test_fixed_point_handles_signs_and_scales);
   ("fixed_point_rejects_malformed_and_lossy_input"%string, test_fixed_point_rejects_malformed_and_lossy_input);
   ("fixed_point_rejects_overflow"%string, test_fixed_point_rejects_overflow);
   ("book_snapshot_sets_levels_and_top_of_book"%string, test_book_snapshot_sets_levels_and_top_of_book);
   ("book_empty_sides_have_no_top"%string, test_book_empty_sides_have_no_top);
   ("book_delta_improves_and_removes_best"%string, test_book_delta_improves_and_removes_best);
   ("book_partial_reduction_keeps_best"%string, test_book_partial_reduction_keeps_best);
   ("book_negative_level_is_reported_and_clamped"%string, test_book_negative_level_is_reported_and_clamped);
   ("book_rejects_invalid_input"%string, test_book_rejects_invalid_input);
   ("book_bad_snapshot_leaves_previous_book_intact"%string, test_book_bad_snapshot_leaves_previous_book_intact);
   ("book_supports_deci_cent_prices"%string, test_book_supports_deci_cent_prices);
   ("book_error_kinds_distinguish_resync_from_unsupported"%string, test_book_error_kinds_distinguish_resync_from_unsupported);
   ("price_formatting"%string, test_price_formatting);
   ("json_parses_all_value_kinds"%string, test_json_parses_all_value_kinds);
   ("json_decodes_escapes_and_unicode"%string, test_json_decodes_escapes_and_unicode);
   ("json_escaped_quote_does_not_end_string"%string, test_json_escaped_quote_does_not_end_string);
   ("json_rejects_malformed_input"%string, test_json_rejects_malformed_input);
   ("json_enforces_depth_limit"%string, test_json_enforces_depth_limit);
   ("json_duplicate_keys_keep_first"%string, test_json_duplicate_keys_keep_first);
   ("json_lexer_tokens_are_views_into_input"%string, test_json_lexer_tokens_are_views_into_input);
   ("json_bare_negative_number_regression"%string, test_json_bare_negative_number_regression);
   ("http_content_length_response"%string, test_http_content_length_response);
   ("http_every_prefix_needs_more_bytes"%string, test_http_every_prefix_needs_more_bytes);
   ("http_leaves_pipelined_bytes_unconsumed"%string, test_http_leaves_pipelined_bytes_unconsumed);
   ("http_connection_semantics"%string, test_http_connection_semantics);
   ("http_close_delimited_body_needs_eof"%string, test_http_close_delimited_body_needs_eof);
   ("http_bodyless_statuses"%string, test_http_bodyless_statuses);
   ("http_rejects_malformed_responses"%string, test_http_rejects_malformed_responses);
   ("strategy_buys_when_offer_drops_below_fair"%string, test_strategy_buys_when_offer_drops_below_fair);
   ("strategy_sells_when_bid_rises_above_fair"%string, test_strategy_sells_when_bid_rises_above_fair);
   ("strategy_respects_cooldown_limits_and_spread"%string, test_strategy_respects_cooldown_limits_and_spread);
   ("strategy_does_not_trade_during_warmup_or_on_bad_books"%string, test_strategy_does_not_trade_during_warmup_or_on_bad_books);
   ("strategy_builds_ioc_order"%string, test_strategy_builds_ioc_order);
   ("frame_every_prefix_is_incomplete"%string, test_frame_every_prefix_is_incomplete);
   ("frame_parser_consumes_only_one_frame"%string, test_frame_parser_consumes_only_one_frame);
   ("frame_rejects_protocol_violations"%string, test_frame_rejects_protocol_violations);
   ("decode_orderbook_delta"%string, test_decode_orderbook_delta);
   ("decode_orderbook_snapshot"%string, test_decode_orderbook_snapshot);
   ("decode_snapshot_with_missing_sides"%string, test_decode_snapshot_with_missing_sides);
   ("decode_fill_and_subscribed"%string, test_decode_fill_and_subscribed);
   ("decode_rejects_bad_messages_the_same_way"%string, test_decode_rejects_bad_messages_the_same_way);
   ("decode_matches_tree_on_edge_cases"%string, test_decode_matches_tree_on_edge_cases);
   ("decode_falls_back_for_escaped_strings"%string, test_decode_falls_back_for_escaped_strings);
   ("order_request_serializes"%string, test_order_request_serializes);
   ("order_response_parses_and_reports_errors"%string, test_order_response_parses_and_reports_errors);
   ("to_json_string_round_trips"%string, test_to_json_string_round_trips)].

Example unit_tests_pass : checks (map snd evaluated_tests) = true.
Proof. by vm_compute. Qed.

Definition unit_tests : list (string * bool) :=
  ("frame_round_trips_through_builder_and_parser"%string, test_frame_round_trips_through_builder_and_parser) :: evaluated_tests.

Lemma passed_cons (n : string) (ok : bool) l :
  ok = true -> checks (map snd l) = true -> Forall (fun t : string * bool => t.2 = true) ((n, ok) :: l).
Proof.
  intros H Hl. constructor; [done|]. induction l as [|t l IH]; constructor; cbn in Hl; apply andb_true_iff in Hl as [H1 H2]; auto.
Qed.

Lemma unit_tests_all : Forall (fun t => t.2 = true) unit_tests.
Proof. unfold unit_tests. exact (passed_cons _ _ _ frame_round_trip_test_passes unit_tests_pass). Qed.

(** The whole suite, run by the test program, succeeds. *)
Lemma suite_exits_zero w : exists n w', test_main (foldl register [] (map bool_case unit_tests)) 0 w = Some (0, n, w').
Proof. exact (bool_suite_passes unit_tests w unit_tests_all). Qed.
